(** * hmon: a shallow embedding of the telemetry core and its verified properties

    The development follows the layout of the C++ sources:

    - [linux_utils.hpp]: value normalisation helpers;
    - [metrics/types.hpp]: the metric records;
    - [metrics/cpu.cpp]: the stateful CPU usage delta sampler;
    - [src/metrics/gpu.cpp]: sysfs probe, fusion with the external-tool probe,
      telemetry score and final ordering (the older variant of the same file
      lives in [Module Legacy]);
    - [main.cpp]: display-GPU selection, bounded history store, canvas
      rasteriser and glyph table.

    Conventions.  A C++ [double] is a primitive binary64 float, so every
    arithmetic step rounds exactly as the machine does.  [unsigned long long]
    is a [Z] reduced modulo 2^64, [long long] and [int] are [Z] (the claims
    never reach their overflow), [size_t] indices and lengths are [nat],
    [std::optional<T>] is [option T], [std::vector<T>] is [list T],
    [std::string] is [string].  Reads of [/proc] and [/sys] and the output of
    external commands are inputs of the model: each probe function receives
    what the file-system primitives returned. *)

From Stdlib Require Import ZArith List Bool Ascii String Floats Lia Permutation Sorted.
From Stdlib Require Import DecimalString DecimalN DecimalPos.
From Stdlib Require ListSet.
From stdpp Require Import base list.
Import ListNotations.
Open Scope Z_scope.

(* ===================================================================== *)
(** ** Doubles *)
(* ===================================================================== *)

(** [static_cast<double>(n)] for an integer [n]: rounding to nearest, ties to
    even, as specified by [binary_normalize]. *)
Definition Z2double (z : Z) : float :=
  SF2Prim (binary_normalize prec emax z 0 false).

(** [std::max(a, b)] is [(a < b) ? b : a]. *)
Definition std_max (a b : float) : float :=
  if PrimFloat.ltb a b then b else a.

(** [std::min(a, b)] is [(b < a) ? b : a]. *)
Definition std_min (a b : float) : float :=
  if PrimFloat.ltb b a then b else a.

(** Truth value of a [std::optional] in a condition. *)
Definition has_value {A : Type} (o : option A) : bool :=
  match o with Some _ => true | None => false end.

(** [a.value_or(b)]. *)
Definition value_or {A : Type} (o : option A) (d : A) : A :=
  match o with Some a => a | None => d end.

(** The closed interval test used to state range properties of doubles. *)
Definition in_range (lo hi v : float) : Prop :=
  PrimFloat.leb lo v = true /\ PrimFloat.leb v hi = true.

(* ===================================================================== *)
(** ** Strings *)
(* ===================================================================== *)

(** [std::tolower] on one byte (the "C" classification of letters). *)
Definition tolower (c : ascii) : ascii :=
  let n := nat_of_ascii c in
  if (65 <=? n)%nat && (n <=? 90)%nat then ascii_of_nat (n + 32) else c.

(** [linux_utils::toLower]. *)
Fixpoint toLower (value : string) : string :=
  match value with
  | EmptyString => EmptyString
  | String c rest => String (tolower c) (toLower rest)
  end.

(** [linux_utils::startsWith]: [text.rfind(prefix, 0) == 0]. *)
Definition startsWith (text pre : string) : bool := String.prefix pre text.

(** [linux_utils::endsWith]. *)
Definition endsWith (text suffix : string) : bool :=
  if (String.length text <? String.length suffix)%nat then false
  else String.eqb
         (String.substring (String.length text - String.length suffix)
                           (String.length suffix) text)
         suffix.

(** [haystack.find(needle) != std::string::npos]. *)
Fixpoint str_contains (haystack needle : string) : bool :=
  String.prefix needle haystack ||
  match haystack with
  | EmptyString => false
  | String _ rest => str_contains rest needle
  end.

(** [lhs < rhs] on [std::string]: lexicographic on unsigned bytes. *)
Definition str_lt (lhs rhs : string) : bool := String.ltb lhs rhs.

(* ===================================================================== *)
(** ** metrics/types.hpp and metrics/sensors_fallback.hpp *)
(* ===================================================================== *)

(** [struct CpuMetrics]; the fields carry a [cpu_] prefix because
    [GpuMetrics] has fields of the same names. *)
Record CpuMetrics := {
  cpu_name : string;
  cpu_total_cores : option Z;
  cpu_total_threads : option Z;
  cpu_temperature_c : option float;
  cpu_frequency_mhz : option float;
  cpu_usage_percent : option float
}.

Record RamMetrics := {
  total_kb : option Z;
  available_kb : option Z
}.

Record DiskMetrics := {
  mount_point : string;
  total_bytes : option Z;
  free_bytes : option Z
}.

Record GpuMetrics := {
  name : string;
  source : string;
  in_use : option bool;
  temperature_c : option float;
  core_clock_mhz : option float;
  utilization_percent : option float;
  power_w : option float;
  memory_used_mib : option float;
  memory_total_mib : option float;
  memory_utilization_percent : option float
}.

Record Snapshot := {
  cpu : CpuMetrics;
  ram : RamMetrics;
  disk : DiskMetrics;
  gpus : list GpuMetrics
}.

Record SensorsFallbackMetrics := {
  cpu_fan_rpm : option float;
  cpu_power_w : option float;
  gpu_fan_rpm : option float;
  gpu_power_w : option float
}.

(** A default-constructed [GpuMetrics]. *)
Definition GpuMetrics_default : GpuMetrics :=
  {| name := ""; source := ""; in_use := None; temperature_c := None;
     core_clock_mhz := None; utilization_percent := None; power_w := None;
     memory_used_mib := None; memory_total_mib := None;
     memory_utilization_percent := None |}.

(** Field updates, written as in the source ([gpu.power_w = ...]). *)
Definition set_in_use (v : option bool) (g : GpuMetrics) : GpuMetrics :=
  {| name := name g; source := source g; in_use := v;
     temperature_c := temperature_c g; core_clock_mhz := core_clock_mhz g;
     utilization_percent := utilization_percent g; power_w := power_w g;
     memory_used_mib := memory_used_mib g; memory_total_mib := memory_total_mib g;
     memory_utilization_percent := memory_utilization_percent g |}.

Definition set_temperature_c (v : option float) (g : GpuMetrics) : GpuMetrics :=
  {| name := name g; source := source g; in_use := in_use g;
     temperature_c := v; core_clock_mhz := core_clock_mhz g;
     utilization_percent := utilization_percent g; power_w := power_w g;
     memory_used_mib := memory_used_mib g; memory_total_mib := memory_total_mib g;
     memory_utilization_percent := memory_utilization_percent g |}.

Definition set_core_clock_mhz (v : option float) (g : GpuMetrics) : GpuMetrics :=
  {| name := name g; source := source g; in_use := in_use g;
     temperature_c := temperature_c g; core_clock_mhz := v;
     utilization_percent := utilization_percent g; power_w := power_w g;
     memory_used_mib := memory_used_mib g; memory_total_mib := memory_total_mib g;
     memory_utilization_percent := memory_utilization_percent g |}.

Definition set_utilization_percent (v : option float) (g : GpuMetrics) : GpuMetrics :=
  {| name := name g; source := source g; in_use := in_use g;
     temperature_c := temperature_c g; core_clock_mhz := core_clock_mhz g;
     utilization_percent := v; power_w := power_w g;
     memory_used_mib := memory_used_mib g; memory_total_mib := memory_total_mib g;
     memory_utilization_percent := memory_utilization_percent g |}.

Definition set_power_w (v : option float) (g : GpuMetrics) : GpuMetrics :=
  {| name := name g; source := source g; in_use := in_use g;
     temperature_c := temperature_c g; core_clock_mhz := core_clock_mhz g;
     utilization_percent := utilization_percent g; power_w := v;
     memory_used_mib := memory_used_mib g; memory_total_mib := memory_total_mib g;
     memory_utilization_percent := memory_utilization_percent g |}.

Definition set_memory_used_mib (v : option float) (g : GpuMetrics) : GpuMetrics :=
  {| name := name g; source := source g; in_use := in_use g;
     temperature_c := temperature_c g; core_clock_mhz := core_clock_mhz g;
     utilization_percent := utilization_percent g; power_w := power_w g;
     memory_used_mib := v; memory_total_mib := memory_total_mib g;
     memory_utilization_percent := memory_utilization_percent g |}.

Definition set_memory_total_mib (v : option float) (g : GpuMetrics) : GpuMetrics :=
  {| name := name g; source := source g; in_use := in_use g;
     temperature_c := temperature_c g; core_clock_mhz := core_clock_mhz g;
     utilization_percent := utilization_percent g; power_w := power_w g;
     memory_used_mib := memory_used_mib g; memory_total_mib := v;
     memory_utilization_percent := memory_utilization_percent g |}.

Definition set_memory_utilization_percent (v : option float) (g : GpuMetrics) : GpuMetrics :=
  {| name := name g; source := source g; in_use := in_use g;
     temperature_c := temperature_c g; core_clock_mhz := core_clock_mhz g;
     utilization_percent := utilization_percent g; power_w := power_w g;
     memory_used_mib := memory_used_mib g; memory_total_mib := memory_total_mib g;
     memory_utilization_percent := v |}.

(* ===================================================================== *)
(** ** metrics/linux_utils.hpp *)
(* ===================================================================== *)

(** [normalizePercent]. *)
Definition normalizePercent (raw_value : Z) : option float :=
  if (raw_value <? 0) || (100 <? raw_value) then None
  else Some (Z2double raw_value).

(** The value [celsius] holds when the range test of
    [normalizeTemperatureC] is reached. *)
Definition scaledCelsius (raw_value : Z) : float :=
  let celsius := Z2double raw_value in
  if PrimFloat.ltb 1000 (PrimFloat.abs celsius)
  then PrimFloat.div celsius 1000
  else celsius.

(** [normalizeTemperatureC]. *)
Definition normalizeTemperatureC (raw_value : Z) : option float :=
  let celsius := scaledCelsius raw_value in
  if PrimFloat.ltb celsius 0 || PrimFloat.ltb 150 celsius then None
  else Some celsius.

(** [microWattsToWatts]. *)
Definition microWattsToWatts (micro_watts : Z) : option float :=
  if micro_watts <=? 0 then None
  else
    let watts := PrimFloat.div (Z2double micro_watts) 1000000 in
    if PrimFloat.leb watts 0 || PrimFloat.ltb 2000 watts then None
    else Some watts.

(** [readHwmonPowerWatts]: the argument lists what [readLongLong] returned
    for the six candidate files, in the order the source tries them. *)
Fixpoint readHwmonPowerWatts (candidates : list (option Z)) : option float :=
  match candidates with
  | [] => None
  | raw :: rest =>
      match raw with
      | Some r =>
          match microWattsToWatts r with
          | Some watts => Some watts
          | None => readHwmonPowerWatts rest
          end
      | None => readHwmonPowerWatts rest
      end
  end.

(** [readFirstExistingLongLong] over the values [readLongLong] returned. *)
Fixpoint readFirstExistingLongLong (candidates : list (option Z)) : option Z :=
  match candidates with
  | [] => None
  | Some v :: _ => Some v
  | None :: rest => readFirstExistingLongLong rest
  end.

(* ===================================================================== *)
(** ** metrics/cpu.cpp: the CPU usage delta sampler *)
(* ===================================================================== *)

(** Arithmetic of [unsigned long long]. *)
Definition u64 (z : Z) : Z := z mod 2 ^ 64.

(** What [stat >> cpu_tag >> user >> ... >> steal] extracted from the first
    line of [/proc/stat]. *)
Record ProcStat := {
  cpu_tag : string;
  user : Z;
  nice : Z;
  system : Z;
  idle : Z;
  iowait : Z;
  irq : Z;
  softirq : Z;
  steal : Z
}.

(** The function-local [static CpuUsageState state]. *)
Record CpuUsageState := {
  prev_idle : Z;
  prev_total : Z;
  initialized : bool
}.

Definition CpuUsageState_initial : CpuUsageState :=
  {| prev_idle := 0; prev_total := 0; initialized := false |}.

Definition idle_ticks_of (s : ProcStat) : Z := u64 (idle s + iowait s).

Definition total_ticks_of (s : ProcStat) : Z :=
  u64 (user s + nice s + system s + idle s + iowait s + irq s + softirq s + steal s).

(** The usage formula and its clamp, on the two tick deltas. *)
Definition usageOfDeltas (idle_delta total_delta : Z) : float :=
  let usage :=
    PrimFloat.mul 100
      (PrimFloat.sub 1 (PrimFloat.div (Z2double idle_delta) (Z2double total_delta))) in
  std_max 0 (std_min 100 usage).

(** [collectCpuUsagePercent], with the static state threaded through.
    [stat] is [None] when [/proc/stat] cannot be opened. *)
Definition collectCpuUsagePercent (state : CpuUsageState) (stat : option ProcStat)
  : CpuUsageState * option float :=
  match stat with
  | None => (state, None)
  | Some s =>
      if negb (String.eqb (cpu_tag s) "cpu") then (state, None)
      else
        let idle_ticks := idle_ticks_of s in
        let total_ticks := total_ticks_of s in
        if negb (initialized state)
           || (total_ticks <? prev_total state)
           || (idle_ticks <? prev_idle state)
        then ({| prev_idle := idle_ticks; prev_total := total_ticks;
                 initialized := true |}, None)
        else
          let total_delta := u64 (total_ticks - prev_total state) in
          let idle_delta := u64 (idle_ticks - prev_idle state) in
          let state' := {| prev_idle := idle_ticks; prev_total := total_ticks;
                           initialized := true |} in
          if total_delta =? 0 then (state', None)
          else (state', Some (usageOfDeltas idle_delta total_delta))
  end.

(* ===================================================================== *)
(** ** src/metrics/gpu.cpp *)
(* ===================================================================== *)

(** One directory under [device/hwmon]: whether it is a directory, what
    [readLongLong] returned for the six power candidates, and its sorted
    entries with what [readLongLong] returns for each. *)
Record HwmonSensor := {
  sensor_is_directory : bool;
  sensor_power_candidates : list (option Z);
  sensor_files : list (string * option Z)
}.

(** One entry of [listDirEntries("/sys/class/drm")] with the readings the
    sysfs probe takes below it.  [device_driver] is what [readDriverName]
    returned, [card_in_use] what [detectCardInUse] returned, [pp_dpm_sclk]
    what [readActiveAmdClockMhz] returned; [device_hwmon] is [None] when
    [device/hwmon] does not exist. *)
Record DrmEntry := {
  card_name : string;
  device_exists : bool;
  device_class : option string;
  device_vendor : option string;
  device_driver : option string;
  card_in_use : option bool;
  device_hwmon : option (list HwmonSensor);
  gt_cur_freq_mhz : option Z;
  pp_dpm_sclk : option float;
  gpu_busy_percent : option Z;
  mem_info_vram_used : option Z;
  mem_info_vis_vram_used : option Z;
  mem_info_vram_total : option Z;
  mem_info_vis_vram_total : option Z
}.

(** One line of the external tool's CSV with at least seven fields: the
    name and what [parseOptionalDouble] returned for the six numbers. *)
Record NvidiaSmiRow := {
  row_name : string;
  row_temperature : option float;
  row_clock : option float;
  row_utilization : option float;
  row_power : option float;
  row_memory_used : option float;
  row_memory_total : option float
}.

Definition vendorNameFromId (vendor_id : option string) : string :=
  match vendor_id with
  | None => "Unknown"
  | Some v =>
      let lower := toLower v in
      if String.eqb lower "0x10de" then "NVIDIA"
      else if String.eqb lower "0x1002" then "AMD"
      else if String.eqb lower "0x8086" then "Intel"
      else "Vendor " ++ v
  end.

Definition isDisplayClassDevice (class_code : option string) : bool :=
  match class_code with
  | None => true
  | Some c => startsWith (toLower c) "0x03"
  end.

Definition telemetryScore (gpu : GpuMetrics) : Z :=
  let score := 0 in
  let score := if has_value (temperature_c gpu) then score + 2 else score in
  let score := if has_value (core_clock_mhz gpu) then score + 2 else score in
  let score := if has_value (utilization_percent gpu) then score + 3 else score in
  let score := if has_value (power_w gpu) then score + 2 else score in
  let score := if has_value (memory_used_mib gpu) || has_value (memory_total_mib gpu)
               then score + 2 else score in
  let score := if has_value (memory_utilization_percent gpu) then score + 1 else score in
  score.

Definition gpuLooksNvidia (gpu : GpuMetrics) : bool :=
  let lower_name := toLower (name gpu) in
  let lower_source := toLower (source gpu) in
  str_contains lower_name "nvidia" || str_contains lower_source "nvidia".

(** The six-line derivation of [memory_utilization_percent] shared by both
    probes and by the fusion pass. *)
Definition memoryUtilization (used total : float) : float :=
  PrimFloat.div (PrimFloat.mul 100 used) total.

Definition collectGpusFromNvidiaSmi (rows : list NvidiaSmiRow) : list GpuMetrics :=
  map (fun r =>
         let gpu :=
           {| name := row_name r; source := "nvidia-smi"; in_use := None;
              temperature_c := row_temperature r;
              core_clock_mhz := row_clock r;
              utilization_percent := row_utilization r;
              power_w := row_power r;
              memory_used_mib := row_memory_used r;
              memory_total_mib := row_memory_total r;
              memory_utilization_percent := None |} in
         match memory_used_mib gpu, memory_total_mib gpu with
         | Some used, Some total =>
             if PrimFloat.ltb 0 total
             then set_memory_utilization_percent (Some (memoryUtilization used total)) gpu
             else gpu
         | _, _ => gpu
         end) rows.

(** The loop over one sensor directory's files: the first readable
    [temp*_input] gives the temperature. *)
Definition scanSensorFiles (files : list (string * option Z)) (temp : option float)
  : option float :=
  fold_left
    (fun temp (file : string * option Z) =>
       let (filename, milli_c) := file in
       if negb (has_value temp) && startsWith filename "temp" && endsWith filename "_input"
       then match milli_c with
            | Some m => Some (PrimFloat.div (Z2double m) 1000)
            | None => temp
            end
       else temp)
    files temp.

(** The loop over [device/hwmon]; the state is [(power_w, temperature_c)]. *)
Definition scanHwmon (sensors : list HwmonSensor) (init : option float * option float)
  : option float * option float :=
  fold_left
    (fun (acc : option float * option float) sensor =>
       let (power, temp) := acc in
       if negb (sensor_is_directory sensor) then acc
       else
         let power := if negb (has_value power)
                      then readHwmonPowerWatts (sensor_power_candidates sensor)
                      else power in
         (power, scanSensorFiles (sensor_files sensor) temp))
    sensors init.

(** The readings of one card that both variants of the probe take in the
    same way: hwmon power and temperature, clock, utilisation and VRAM. *)
Definition readCardTelemetry (card : DrmEntry) (gpu : GpuMetrics) : GpuMetrics :=
  let (power, temp) :=
    match device_hwmon card with
    | Some sensors => scanHwmon sensors (power_w gpu, temperature_c gpu)
    | None => (power_w gpu, temperature_c gpu)
    end in
  let gpu := set_temperature_c temp (set_power_w power gpu) in
  let gpu :=
    match gt_cur_freq_mhz card with
    | Some mhz =>
        if 0 <? mhz then set_core_clock_mhz (Some (Z2double mhz)) gpu
        else set_core_clock_mhz (pp_dpm_sclk card) gpu
    | None => set_core_clock_mhz (pp_dpm_sclk card) gpu
    end in
  let gpu :=
    match gpu_busy_percent card with
    | Some raw_util => set_utilization_percent (normalizePercent raw_util) gpu
    | None => gpu
    end in
  let vram_used_bytes :=
    readFirstExistingLongLong [mem_info_vram_used card; mem_info_vis_vram_used card] in
  let vram_total_bytes :=
    readFirstExistingLongLong [mem_info_vram_total card; mem_info_vis_vram_total card] in
  match vram_used_bytes, vram_total_bytes with
  | Some used, Some total =>
      if 0 <? total then
        let used_mib := PrimFloat.div (Z2double used) (PrimFloat.mul 1024 1024) in
        let total_mib := PrimFloat.div (Z2double total) (PrimFloat.mul 1024 1024) in
        let gpu := set_memory_total_mib (Some total_mib)
                     (set_memory_used_mib (Some used_mib) gpu) in
        if PrimFloat.ltb 0 total_mib
        then set_memory_utilization_percent (Some (memoryUtilization used_mib total_mib)) gpu
        else gpu
      else gpu
  | _, _ => gpu
  end.

(** The entries of the DRM directory the probe looks at: names that start
    with [card] and hold no dash. *)
Definition isCardDirectoryName (card_name : string) : bool :=
  startsWith card_name "card" && negb (str_contains card_name "-").

(** The comparator passed to [std::stable_sort], and its negation-free
    reading "lhs may stay in front of rhs". *)
Definition gpuBefore (lhs rhs : GpuMetrics) : bool :=
  let lhs_score := telemetryScore lhs in
  let rhs_score := telemetryScore rhs in
  if negb (lhs_score =? rhs_score) then rhs_score <? lhs_score
  else str_lt (name lhs) (name rhs).

(** [std::stable_sort(first, last, comp)]: the stable insertion sort.  An
    element is placed in front of the first element that must come after
    it, so elements that [comp] does not separate keep their order. *)
Fixpoint stable_insert {A : Type} (comp : A -> A -> bool) (x : A) (l : list A) : list A :=
  match l with
  | [] => [x]
  | y :: rest => if comp y x then y :: stable_insert comp x rest else x :: l
  end.

Definition stable_sort {A : Type} (comp : A -> A -> bool) (l : list A) : list A :=
  fold_right (stable_insert comp) [] l.

(** The body of the sysfs probe's loop for one entry: [None] stands for
    [continue]. *)
Definition gpuFromCard (fallback : SensorsFallbackMetrics) (card : DrmEntry)
  : option GpuMetrics :=
  if negb (isCardDirectoryName (card_name card)) then None
  else if negb (device_exists card) || negb (isDisplayClassDevice (device_class card))
  then None
  else
    let gpu :=
      {| name := card_name card ++ " (" ++ vendorNameFromId (device_vendor card) ++ ")";
         source := match device_driver card with
                   | Some d => "sysfs/" ++ d
                   | None => "sysfs"
                   end;
         in_use := card_in_use card;
         temperature_c := None; core_clock_mhz := None;
         utilization_percent := None; power_w := None;
         memory_used_mib := None; memory_total_mib := None;
         memory_utilization_percent := None |} in
    let gpu := readCardTelemetry card gpu in
    let gpu := if negb (has_value (power_w gpu))
               then set_power_w (gpu_power_w fallback) gpu else gpu in
    Some gpu.

(** [collectGpusFromSysfs].  [drm] is [None] when [/sys/class/drm] does not
    exist, otherwise its sorted entries; [fallback] is what
    [collectSensorsFallbackMetrics] returned. *)
Definition collectGpusFromSysfs (fallback : SensorsFallbackMetrics)
    (drm : option (list DrmEntry)) : list GpuMetrics :=
  match drm with
  | None => []
  | Some entries =>
      stable_sort gpuBefore (omap (gpuFromCard fallback) entries)
  end.

(** [sysfs_used[idx]]; the vector has one flag per sysfs record. *)
Definition flag_at (flags : list bool) (idx : nat) : bool :=
  match flags !! idx with Some b => b | None => false end.

(** Both [while] loops of the fusion pass share one shape: walk the
    candidate indices from the cursor on, advance the cursor past each one
    looked at, and stop at the first whose flag is clear, setting it.
    Returns the flags, the cursor and the index found. *)
Fixpoint takeFirstUnused (candidates : list nat) (sysfs_used : list bool) (next : nat)
  : list bool * nat * option nat :=
  match candidates with
  | [] => (sysfs_used, next, None)
  | idx :: rest =>
      if negb (flag_at sysfs_used idx)
      then (<[idx := true]> sysfs_used, S next, Some idx)
      else takeFirstUnused rest sysfs_used (S next)
  end.

(** The state the loop over the tool's records carries. *)
Record FusionState := {
  sysfs_used : list bool;
  next_nvidia_index : nat;
  next_any_index : nat
}.

(** The choice of [extra] for one tool record: first among the sysfs
    records that look like NVIDIA, then among all of them. *)
Definition pickSupplement (sysfs_size : nat) (nvidia_sysfs_indices : list nat)
    (st : FusionState) : FusionState * option nat :=
  let '(used, next_nv, extra) :=
    takeFirstUnused (drop (next_nvidia_index st) nvidia_sysfs_indices)
                    (sysfs_used st) (next_nvidia_index st) in
  match extra with
  | Some idx =>
      ({| sysfs_used := used; next_nvidia_index := next_nv;
          next_any_index := next_any_index st |}, Some idx)
  | None =>
      let '(used, next_any, extra) :=
        takeFirstUnused (seq (next_any_index st) (sysfs_size - next_any_index st))
                        used (next_any_index st) in
      ({| sysfs_used := used; next_nvidia_index := next_nv;
          next_any_index := next_any |}, extra)
  end.

(** The field-by-field supplement of [base] from [extra]. *)
Definition mergeSupplement (base extra : GpuMetrics) : GpuMetrics :=
  let base := if negb (has_value (temperature_c base))
              then set_temperature_c (temperature_c extra) base else base in
  let base := if negb (has_value (core_clock_mhz base))
              then set_core_clock_mhz (core_clock_mhz extra) base else base in
  let base := if negb (has_value (utilization_percent base))
              then set_utilization_percent (utilization_percent extra) base else base in
  let base := if negb (has_value (power_w base))
              then set_power_w (power_w extra) base else base in
  let base := if negb (has_value (memory_used_mib base))
              then set_memory_used_mib (memory_used_mib extra) base else base in
  let base := if negb (has_value (memory_total_mib base))
              then set_memory_total_mib (memory_total_mib extra) base else base in
  let base := if negb (has_value (memory_utilization_percent base))
              then set_memory_utilization_percent (memory_utilization_percent extra) base
              else base in
  if negb (has_value (in_use base)) && has_value (in_use extra)
  then set_in_use (in_use extra) base else base.

(** [base] after the body of the loop over the tool's records, when the
    search gave [extra]: untouched on [continue]. *)
Definition supplemented (sysfs : list GpuMetrics) (base : GpuMetrics)
    (extra : option nat) : GpuMetrics :=
  match extra with
  | Some idx =>
      match sysfs !! idx with
      | Some e => mergeSupplement base e
      | None => base
      end
  | None => base
  end.

(** The loop [for (auto& base : nvidia)]: returns the final flags, the
    supplemented records, and for each record the sysfs index it consumed
    ([None] for [continue]). *)
Fixpoint supplementAll (sysfs : list GpuMetrics) (nvidia_sysfs_indices : list nat)
    (st : FusionState) (nvidia : list GpuMetrics)
  : FusionState * list GpuMetrics * list (option nat) :=
  match nvidia with
  | [] => (st, [], [])
  | base :: rest =>
      let (st1, extra) := pickSupplement (length sysfs) nvidia_sysfs_indices st in
      let base' := supplemented sysfs base extra in
      let '(st2, merged, consumed) := supplementAll sysfs nvidia_sysfs_indices st1 rest in
      (st2, base' :: merged, extra :: consumed)
  end.

(** The second loop over the tool's records: power fallback and derived
    memory utilisation. *)
Definition applyFallbacks (fallback : SensorsFallbackMetrics) (gpu : GpuMetrics) : GpuMetrics :=
  let gpu := if negb (has_value (power_w gpu))
             then set_power_w (gpu_power_w fallback) gpu else gpu in
  match memory_utilization_percent gpu, memory_used_mib gpu, memory_total_mib gpu with
  | None, Some used, Some total =>
      if PrimFloat.ltb 0 total
      then set_memory_utilization_percent (Some (memoryUtilization used total)) gpu
      else gpu
  | _, _, _ => gpu
  end.

(** The indices [i] of [sysfs] that satisfy [p], in ascending order. *)
Definition indicesWhere {A : Type} (p : A -> bool) (l : list A) : list nat :=
  List.filter (fun i => match l !! i with Some a => p a | None => false end)
              (seq 0 (length l)).

(** The sysfs records whose flag is still clear, in index order. *)
Definition unusedSysfs (sysfs : list GpuMetrics) (used : list bool) : list GpuMetrics :=
  omap (fun i => if flag_at used i then None else sysfs !! i) (seq 0 (length sysfs)).

(** The fusion pass of [collectGpus] on the two probes' results, before
    the final sort; it also returns the consumed index of each tool record. *)
Definition fuseGpus (fallback : SensorsFallbackMetrics)
    (nvidia sysfs : list GpuMetrics) : list GpuMetrics * list (option nat) :=
  let st0 := {| sysfs_used := replicate (length sysfs) false;
                next_nvidia_index := 0%nat; next_any_index := 0%nat |} in
  let nvidia_sysfs_indices := indicesWhere gpuLooksNvidia sysfs in
  let '(st, merged, consumed) := supplementAll sysfs nvidia_sysfs_indices st0 nvidia in
  let merged := map (applyFallbacks fallback) merged in
  (merged ++ unusedSysfs sysfs (sysfs_used st), consumed).

(** [collectGpus] on the results of the two probes. *)
Definition collectGpusFrom (fallback : SensorsFallbackMetrics)
    (nvidia sysfs : list GpuMetrics) : list GpuMetrics :=
  match nvidia with
  | [] => sysfs
  | _ :: _ => stable_sort gpuBefore (fst (fuseGpus fallback nvidia sysfs))
  end.

(** [collectGpus]: [rows] is the tool's output, [drm] the DRM directory,
    [fallback_probe] and [fallback_fusion] what the two calls of
    [collectSensorsFallbackMetrics] returned. *)
Definition collectGpus (rows : list NvidiaSmiRow) (drm : option (list DrmEntry))
    (fallback_probe fallback_fusion : SensorsFallbackMetrics) : list GpuMetrics :=
  let nvidia := collectGpusFromNvidiaSmi rows in
  let sysfs := collectGpusFromSysfs fallback_probe drm in
  collectGpusFrom fallback_fusion nvidia sysfs.

(* ===================================================================== *)
(** ** The older variant of gpu.cpp *)
(* ===================================================================== *)

(** The repository also carries an older [gpu.cpp]: its sysfs probe has no
    class filter and no in-use detection, drops cards without telemetry and
    does not sort; its fusion pairs the tool's records with the supplements
    by position and returns the tool's records only.  [vendorNameFromId],
    [collectGpusFromNvidiaSmi] and the per-card readings are the same. *)
Module Legacy.

Definition hasProbeTelemetry (gpu : GpuMetrics) : bool :=
  has_value (temperature_c gpu) || has_value (core_clock_mhz gpu)
  || has_value (utilization_percent gpu) || has_value (power_w gpu)
  || has_value (memory_used_mib gpu) || has_value (memory_total_mib gpu).

(** The loop body for one entry; [fallback] is what the call of
    [collectSensorsFallbackMetrics] inside this iteration returned. *)
Definition gpuFromCard (fallback : SensorsFallbackMetrics) (card : DrmEntry)
  : option GpuMetrics :=
  if negb (isCardDirectoryName (card_name card)) then None
  else if negb (device_exists card) then None
  else
    let gpu :=
      {| name := card_name card ++ " (" ++ vendorNameFromId (device_vendor card) ++ ")";
         source := "sysfs";
         in_use := None;
         temperature_c := None; core_clock_mhz := None;
         utilization_percent := None; power_w := None;
         memory_used_mib := None; memory_total_mib := None;
         memory_utilization_percent := None |} in
    let gpu := readCardTelemetry card gpu in
    let gpu := if negb (has_value (power_w gpu))
               then set_power_w (gpu_power_w fallback) gpu else gpu in
    if hasProbeTelemetry gpu then Some gpu else None.

(** [collectGpusFromSysfs]; [fallback_at i] is the sensors fallback seen
    while the [i]-th directory entry is processed. *)
Definition collectGpusFromSysfs (fallback_at : nat -> SensorsFallbackMetrics)
    (drm : option (list DrmEntry)) : list GpuMetrics :=
  match drm with
  | None => []
  | Some entries =>
      omap (fun ic : nat * DrmEntry => gpuFromCard (fallback_at (fst ic)) (snd ic))
           (zip (seq 0 (length entries)) entries)
  end.

Definition nameLooksNvidia (gpu : GpuMetrics) : bool :=
  str_contains (toLower (name gpu)) "nvidia".

(** The vector [supplements], as indices into [sysfs]. *)
Definition supplementIndices (sysfs : list GpuMetrics) : list nat :=
  let named := indicesWhere nameLooksNvidia sysfs in
  match named with
  | [] => seq 0 (length sysfs)
  | _ :: _ => named
  end.

Definition mergeSupplement (base extra : GpuMetrics) : GpuMetrics :=
  let base := if negb (has_value (temperature_c base))
              then set_temperature_c (temperature_c extra) base else base in
  let base := if negb (has_value (core_clock_mhz base))
              then set_core_clock_mhz (core_clock_mhz extra) base else base in
  let base := if negb (has_value (utilization_percent base))
              then set_utilization_percent (utilization_percent extra) base else base in
  let base := if negb (has_value (power_w base))
              then set_power_w (power_w extra) base else base in
  let base := if negb (has_value (memory_used_mib base))
              then set_memory_used_mib (memory_used_mib extra) base else base in
  let base := if negb (has_value (memory_total_mib base))
              then set_memory_total_mib (memory_total_mib extra) base else base in
  if negb (has_value (memory_utilization_percent base))
  then set_memory_utilization_percent (memory_utilization_percent extra) base
  else base.

(** The loop [for i < merge_limit]: record [i] takes supplement [i]. *)
Fixpoint supplementAll (sysfs : list GpuMetrics) (supplements : list nat)
    (nvidia : list GpuMetrics) {struct nvidia}
  : list GpuMetrics * list (option nat) :=
  match nvidia, supplements with
  | base :: rest, idx :: more =>
      let base' := match sysfs !! idx with
                   | Some e => mergeSupplement base e
                   | None => base
                   end in
      let (merged, consumed) := supplementAll sysfs more rest in
      (base' :: merged, Some idx :: consumed)
  | _, _ => (nvidia, map (fun _ => None) nvidia)
  end.

Definition fuseGpus (fallback : SensorsFallbackMetrics)
    (nvidia sysfs : list GpuMetrics) : list GpuMetrics * list (option nat) :=
  let (merged, consumed) := supplementAll sysfs (supplementIndices sysfs) nvidia in
  (map (applyFallbacks fallback) merged, consumed).

Definition collectGpusFrom (fallback : SensorsFallbackMetrics)
    (nvidia sysfs : list GpuMetrics) : list GpuMetrics :=
  match nvidia with
  | [] => sysfs
  | _ :: _ => fst (fuseGpus fallback nvidia sysfs)
  end.

Definition collectGpus (rows : list NvidiaSmiRow) (drm : option (list DrmEntry))
    (fallback_at : nat -> SensorsFallbackMetrics)
    (fallback_fusion : SensorsFallbackMetrics) : list GpuMetrics :=
  let nvidia := collectGpusFromNvidiaSmi rows in
  let sysfs := collectGpusFromSysfs fallback_at drm in
  collectGpusFrom fallback_fusion nvidia sysfs.

End Legacy.

(* ===================================================================== *)
(** ** main.cpp: display-GPU selection *)
(* ===================================================================== *)

Definition gpuHasTelemetry (gpu : GpuMetrics) : bool :=
  has_value (temperature_c gpu) || has_value (core_clock_mhz gpu)
  || has_value (utilization_percent gpu) || has_value (power_w gpu)
  || has_value (memory_used_mib gpu) || has_value (memory_total_mib gpu)
  || has_value (memory_utilization_percent gpu).

Definition gpuLooksIntel (gpu : GpuMetrics) : bool :=
  let lower_name := toLower (name gpu) in
  let lower_source := toLower (source gpu) in
  str_contains lower_name "intel" || str_contains lower_source "intel"
  || str_contains lower_source "i915" || str_contains lower_source "xe".

Definition gpuLooksRadeon (gpu : GpuMetrics) : bool :=
  let lower_name := toLower (name gpu) in
  let lower_source := toLower (source gpu) in
  str_contains lower_source "radeon" || str_contains lower_name "radeon".

(** The three cursors of [pickDisplayGpuIndex]; each starts at
    [gpus.size()], which stands for "not found". *)
Record DisplayScan := {
  first_with_telemetry : nat;
  intel_with_telemetry : nat;
  first_intel : nat
}.

(** One iteration of the scan, at index [i]. *)
Definition displayScanStep (size : nat) (st : DisplayScan) (i : nat) (gpu : GpuMetrics)
  : DisplayScan :=
  let is_intel := gpuLooksIntel gpu in
  let st := if is_intel && (first_intel st =? size)%nat
            then {| first_with_telemetry := first_with_telemetry st;
                    intel_with_telemetry := intel_with_telemetry st;
                    first_intel := i |}
            else st in
  if gpuHasTelemetry gpu then
    let st := if (first_with_telemetry st =? size)%nat
              then {| first_with_telemetry := i;
                      intel_with_telemetry := intel_with_telemetry st;
                      first_intel := first_intel st |}
              else st in
    if is_intel && (intel_with_telemetry st =? size)%nat
    then {| first_with_telemetry := first_with_telemetry st;
            intel_with_telemetry := i;
            first_intel := first_intel st |}
    else st
  else st.

(** The loop [for (i = 0; i < gpus.size(); ++i)] from index [i] on. *)
Fixpoint displayScan (size : nat) (st : DisplayScan) (i : nat) (rest : list GpuMetrics)
  : DisplayScan :=
  match rest with
  | [] => st
  | gpu :: rest' => displayScan size (displayScanStep size st i gpu) (S i) rest'
  end.

Definition pickDisplayGpuIndex (gpus : list GpuMetrics) : nat :=
  match gpus with
  | [] => 0%nat
  | front :: _ =>
      let size := length gpus in
      let st := displayScan size
                  {| first_with_telemetry := size; intel_with_telemetry := size;
                     first_intel := size |} 0%nat gpus in
      if gpuLooksRadeon front && negb (gpuHasTelemetry front) then
        if negb (intel_with_telemetry st =? size)%nat then intel_with_telemetry st
        else if negb (first_with_telemetry st =? size)%nat then first_with_telemetry st
        else if negb (first_intel st =? size)%nat then first_intel st
        else if negb (first_with_telemetry st =? size)%nat then first_with_telemetry st
        else 0%nat
      else if negb (first_with_telemetry st =? size)%nat then first_with_telemetry st
      else 0%nat
  end.

(** The result of code that indexes a vector without a bounds check:
    [OutOfBounds] is the undefined behaviour of [v[i]] with [i >= v.size()]. *)
Inductive access (A : Type) : Type :=
  | Ok (a : A)
  | OutOfBounds.
Arguments Ok {A} a.
Arguments OutOfBounds {A}.

(** [v[i]]. *)
Definition vector_at {A : Type} (v : list A) (i : nat) : access A :=
  match v !! i with Some a => Ok a | None => OutOfBounds end.

Definition computeRamUsagePercent (snapshot : Snapshot) : option float :=
  match total_kb (ram snapshot), available_kb (ram snapshot) with
  | Some total, Some available =>
      if total <=? 0 then None
      else
        let available_kb := Z.max 0 available in
        let used_kb := Z.max 0 (total - available_kb) in
        Some (PrimFloat.div (PrimFloat.mul 100 (Z2double used_kb)) (Z2double total))
  | _, _ => None
  end.

Definition computeGpuUsagePercent (snapshot : Snapshot) : access (option float) :=
  match gpus snapshot with
  | [] => Ok None
  | _ :: _ =>
      match vector_at (gpus snapshot) (pickDisplayGpuIndex (gpus snapshot)) with
      | Ok gpu => Ok (utilization_percent gpu)
      | OutOfBounds => OutOfBounds
      end
  end.

Definition computeGpuVramUsagePercent (snapshot : Snapshot) : access (option float) :=
  match gpus snapshot with
  | [] => Ok None
  | _ :: _ =>
      match vector_at (gpus snapshot) (pickDisplayGpuIndex (gpus snapshot)) with
      | Ok gpu =>
          match memory_utilization_percent gpu with
          | Some p => Ok (Some p)
          | None =>
              match memory_used_mib gpu, memory_total_mib gpu with
              | Some used, Some total =>
                  if PrimFloat.ltb 0 total then Ok (Some (memoryUtilization used total))
                  else Ok None
              | _, _ => Ok None
              end
          end
      | OutOfBounds => OutOfBounds
      end
  end.

Definition computeDiskUsagePercent (snapshot : Snapshot) : option float :=
  match total_bytes (disk snapshot), free_bytes (disk snapshot) with
  | Some total, Some free =>
      if total =? 0 then None
      else
        let free := Z.min free total in
        let used := u64 (total - free) in
        Some (PrimFloat.div (PrimFloat.mul 100 (Z2double used)) (Z2double total))
  | _, _ => None
  end.

(* ===================================================================== *)
(** ** main.cpp: the bounded history store *)
(* ===================================================================== *)

Record MetricsHistory := {
  cpu_usage : list float;
  cpu_temp : list float;
  ram_usage : list float;
  gpu_usage : list float;
  gpu_vram_usage : list float;
  disk_usage : list float
}.

(** The default-constructed [MetricsHistory] of [main]. *)
Definition MetricsHistory_empty : MetricsHistory :=
  {| cpu_usage := []; cpu_temp := []; ram_usage := []; gpu_usage := [];
     gpu_vram_usage := []; disk_usage := [] |}.

Definition clampPercent (value : float) : float :=
  std_max 0 (std_min 100 value).

(** [series->back()] of a non-empty vector, [0.0] for the empty one, as the
    conditional expression of [appendHistoryValue] selects. *)
Definition lastOrZero (series : list float) : float :=
  match last series with Some v => v | None => 0%float end.

(** [appendHistoryValue] on a non-null [series]. *)
Definition appendHistoryValue (series : list float) (value : option float)
    (max_points : nat) : list float :=
  let next_value := clampPercent (value_or value (lastOrZero series)) in
  let series := series ++ [next_value] in
  if (max_points <? length series)%nat then
    let remove_count := (length series - max_points)%nat in
    drop remove_count series
  else series.

(** [updateHistory] on a non-null [history].  The two GPU series read a
    vector element without a bounds check, hence the [access] result. *)
Definition updateHistory (history : MetricsHistory) (snapshot : Snapshot)
    (max_points : nat) (disk_override_percent : option float) : access MetricsHistory :=
  if (max_points =? 0)%nat then Ok history
  else
    match computeGpuUsagePercent snapshot, computeGpuVramUsagePercent snapshot with
    | Ok gpu_percent, Ok vram_percent =>
        Ok {| cpu_usage :=
                appendHistoryValue (cpu_usage history)
                  (cpu_usage_percent (cpu snapshot)) max_points;
              cpu_temp :=
                appendHistoryValue (cpu_temp history)
                  (cpu_temperature_c (cpu snapshot)) max_points;
              ram_usage :=
                appendHistoryValue (ram_usage history)
                  (computeRamUsagePercent snapshot) max_points;
              gpu_usage :=
                appendHistoryValue (gpu_usage history) gpu_percent max_points;
              gpu_vram_usage :=
                appendHistoryValue (gpu_vram_usage history) vram_percent max_points;
              disk_usage :=
                match disk_override_percent with
                | Some _ =>
                    appendHistoryValue (disk_usage history) disk_override_percent max_points
                | None =>
                    appendHistoryValue (disk_usage history)
                      (computeDiskUsagePercent snapshot) max_points
                end |}
    | _, _ => OutOfBounds
    end.

(* ===================================================================== *)
(** ** main.cpp: the canvas rasteriser and the glyph table *)
(* ===================================================================== *)

Record BrailleCanvas := {
  width : Z;
  height : Z;
  cells : list Z
}.

Definition kDirUp : Z := 0x01.
Definition kDirDown : Z := 0x02.
Definition kDirLeft : Z := 0x04.
Definition kDirRight : Z := 0x08.
Definition kDirPoint : Z := 0x10.

Definition createBrailleCanvas (width height : Z) : BrailleCanvas :=
  let w := Z.max 0 width in
  let h := Z.max 0 height in
  {| width := w; height := h; cells := replicate (Z.to_nat (w * h)) 0 |}.

Definition isInsideCanvas (canvas : BrailleCanvas) (x y : Z) : bool :=
  (0 <=? x) && (0 <=? y) && (x <? width canvas) && (y <? height canvas).

(** The position of cell [(x, y)] in [cells]. *)
Definition cellIndex (canvas : BrailleCanvas) (x y : Z) : nat :=
  Z.to_nat (y * width canvas + x).

(** [canvas.cells[y * width + x]], [0] outside the vector. *)
Definition cellAt (canvas : BrailleCanvas) (x y : Z) : Z :=
  match cells canvas !! cellIndex canvas x y with Some m => m | None => 0 end.

Definition addCanvasMask (canvas : BrailleCanvas) (x y : Z) (mask : Z) : BrailleCanvas :=
  if negb (isInsideCanvas canvas x y) then canvas
  else
    let index := cellIndex canvas x y in
    {| width := width canvas; height := height canvas;
       cells := <[index := Z.lor (cellAt canvas x y) mask]> (cells canvas) |}.

Definition connectCanvasCells (canvas : BrailleCanvas) (x0 y0 x1 y1 : Z) : BrailleCanvas :=
  if negb (isInsideCanvas canvas x0 y0) || negb (isInsideCanvas canvas x1 y1) then canvas
  else if (x1 =? x0 + 1) && (y1 =? y0) then
    addCanvasMask (addCanvasMask canvas x0 y0 kDirRight) x1 y1 kDirLeft
  else if (x1 =? x0 - 1) && (y1 =? y0) then
    addCanvasMask (addCanvasMask canvas x0 y0 kDirLeft) x1 y1 kDirRight
  else if (x1 =? x0) && (y1 =? y0 + 1) then
    addCanvasMask (addCanvasMask canvas x0 y0 kDirDown) x1 y1 kDirUp
  else if (x1 =? x0) && (y1 =? y0 - 1) then
    addCanvasMask (addCanvasMask canvas x0 y0 kDirUp) x1 y1 kDirDown
  else canvas.

(** Whether a value lies within [int].  An [int] operation whose result
    does not is an overflow, which the language leaves undefined. *)
Definition fitsInt (v : Z) : bool := (- 2 ^ 31 <=? v) && (v <? 2 ^ 31).

(** The [while (true)] loop of [rasterizeBrailleLine].  [fuel] bounds the
    number of iterations; [None] means that the bound was reached before
    the loop left through its [break], or that one of the [int]
    operations of the body overflowed. *)
Fixpoint rasterizeLoop (fuel : nat) (canvas : BrailleCanvas)
    (x y x1 y1 dx dy sx sy error : Z) : option BrailleCanvas :=
  match fuel with
  | O => None
  | S fuel' =>
      if (x =? x1) && (y =? y1) then Some canvas
      else
        let prev_x := x in
        let prev_y := y in
        let twice_error := error * 2 in
        if negb (fitsInt twice_error) then None
        else
          let moved_x := - dy <? twice_error in
          let error := if moved_x then error - dy else error in
          let x := if moved_x then x + sx else x in
          if negb (fitsInt error && fitsInt x) then None
          else
            let moved_y := twice_error <? dx in
            let error := if moved_y then error + dx else error in
            let y := if moved_y then y + sy else y in
            if negb (fitsInt error && fitsInt y) then None
            else
              let canvas :=
                if moved_x && moved_y then
                  let elbow_x := x in
                  let elbow_y := prev_y in
                  connectCanvasCells
                    (connectCanvasCells canvas prev_x prev_y elbow_x elbow_y)
                    elbow_x elbow_y x y
                else connectCanvasCells canvas prev_x prev_y x y in
              let canvas := addCanvasMask canvas x y kDirPoint in
              rasterizeLoop fuel' canvas x y x1 y1 dx dy sx sy error
  end.

(** [rasterizeBrailleLine].  Every iteration moves one step along an axis
    on which the end point has not been reached, so [dx + dy + 1]
    iterations are enough.  [None] is an overflow of an [int] operation,
    here or in the loop. *)
Definition rasterizeBrailleLine (canvas : BrailleCanvas) (x0 y0 x1 y1 : Z)
  : option BrailleCanvas :=
  if negb (isInsideCanvas canvas x0 y0) || negb (isInsideCanvas canvas x1 y1)
  then Some canvas
  else
    let canvas := addCanvasMask canvas x0 y0 kDirPoint in
    if negb (fitsInt (x1 - x0) && fitsInt (y1 - y0)) then None
    else
      let dx := Z.abs (x1 - x0) in
      let dy := Z.abs (y1 - y0) in
      let sx := if x0 <? x1 then 1 else -1 in
      let sy := if y0 <? y1 then 1 else -1 in
      let error := dx - dy in
      if negb (fitsInt dx && fitsInt dy && fitsInt error) then None
      else rasterizeLoop (S (Z.to_nat (dx + dy))) canvas x0 y0 x1 y1 dx dy sx sy error.

(** The glyphs of [glyphForMask], as code points. *)
Definition glyph_blank : Z := 0x20.
Definition glyph_middle_dot : Z := 0xb7.
Definition glyph_horizontal : Z := 0x2500.
Definition glyph_vertical : Z := 0x2502.

(** The lambda [glyphForMask] of [drawBrailleLayer]. *)
Definition glyphForMask (mask : Z) : Z :=
  let dirs := Z.land mask (Z.lor (Z.lor (Z.lor kDirUp kDirDown) kDirLeft) kDirRight) in
  if dirs =? 0 then
    if negb (Z.land mask kDirPoint =? 0) then glyph_middle_dot else glyph_blank
  else if dirs =? Z.lor kDirLeft kDirRight then glyph_horizontal
  else if dirs =? Z.lor kDirUp kDirDown then glyph_vertical
  else if dirs =? Z.lor kDirDown kDirRight then 0x250c
  else if dirs =? Z.lor kDirDown kDirLeft then 0x2510
  else if dirs =? Z.lor kDirUp kDirRight then 0x2514
  else if dirs =? Z.lor kDirUp kDirLeft then 0x2518
  else if dirs =? Z.lor (Z.lor kDirUp kDirDown) kDirRight then 0x251c
  else if dirs =? Z.lor (Z.lor kDirUp kDirDown) kDirLeft then 0x2524
  else if dirs =? Z.lor (Z.lor kDirLeft kDirRight) kDirDown then 0x252c
  else if dirs =? Z.lor (Z.lor kDirLeft kDirRight) kDirUp then 0x2534
  else if dirs =? Z.lor (Z.lor (Z.lor kDirUp kDirDown) kDirLeft) kDirRight then 0x253c
  else if negb (Z.land dirs (Z.lor kDirLeft kDirRight) =? 0) then glyph_horizontal
  else glyph_vertical.

(** One [mvwaddnwstr] call: row, column, glyph. *)
Record GlyphDraw := {
  draw_row : Z;
  draw_col : Z;
  draw_glyph : Z
}.

(** [drawBrailleLayer] on a non-null window: the glyphs it writes, in
    row-major order; cells whose mask is zero are skipped. *)
Definition drawBrailleLayer (canvas : BrailleCanvas) (top left : Z) : list GlyphDraw :=
  if (width canvas <=? 0) || (height canvas <=? 0)
     || (length (cells canvas) =? 0)%nat
  then []
  else
    flat_map
      (fun cell_y =>
         omap (fun cell_x =>
                 let bits := cellAt canvas cell_x cell_y in
                 if bits =? 0 then None
                 else Some {| draw_row := top + cell_y; draw_col := left + cell_x;
                              draw_glyph := glyphForMask bits |})
              (map Z.of_nat (seq 0 (Z.to_nat (width canvas)))))
      (map Z.of_nat (seq 0 (Z.to_nat (height canvas)))).

(* ===================================================================== *)
(** ** main.cpp: the poll loop, restricted to what feeds the history *)
(* ===================================================================== *)

(** What one poll reads: the first line of [/proc/stat], the rest of the
    snapshot as the other probes produced it (its [cpu_usage_percent] is
    overwritten by the sampler), and the root disk's busy percentage. *)
Record PollInput := {
  poll_stat : option ProcStat;
  poll_rest : Snapshot;
  poll_disk_busy : option float
}.

(** The process-lifetime state of the loop. *)
Record PollState := {
  sampler : CpuUsageState;
  history : MetricsHistory
}.

Definition PollState_initial : PollState :=
  {| sampler := CpuUsageState_initial; history := MetricsHistory_empty |}.

(** [kHistoryPoints]. *)
Definition kHistoryPoints : nat := 2048.

(** [collectSnapshot] followed by [updateHistory], once. *)
Definition pollOnce (max_points : nat) (st : PollState) (input : PollInput)
  : access PollState :=
  let (sampler', usage) := collectCpuUsagePercent (sampler st) (poll_stat input) in
  let rest := poll_rest input in
  let snapshot :=
    {| cpu := {| cpu_name := cpu_name (cpu rest);
                 cpu_total_cores := cpu_total_cores (cpu rest);
                 cpu_total_threads := cpu_total_threads (cpu rest);
                 cpu_temperature_c := cpu_temperature_c (cpu rest);
                 cpu_frequency_mhz := cpu_frequency_mhz (cpu rest);
                 cpu_usage_percent := usage |};
       ram := ram rest; disk := disk rest; gpus := gpus rest |} in
  match updateHistory (history st) snapshot max_points (poll_disk_busy input) with
  | Ok history' => Ok {| sampler := sampler'; history := history' |}
  | OutOfBounds => OutOfBounds
  end.

(** The polls of [main], one per input, from the left. *)
Fixpoint runPolls (max_points : nat) (st : PollState) (inputs : list PollInput)
  : access PollState :=
  match inputs with
  | [] => Ok st
  | input :: rest =>
      match pollOnce max_points st input with
      | Ok st' => runPolls max_points st' rest
      | OutOfBounds => OutOfBounds
      end
  end.

(* ===================================================================== *)
(** ** Predicates used in the statements *)
(* ===================================================================== *)

(** A double that is a number: its specification value is not NaN. *)
Definition not_nan (x : float) : Prop := Prim2SF x <> S754_nan.

(** The sampler state holds values of [unsigned long long]. *)
Definition state_in_range (st : CpuUsageState) : Prop :=
  0 <= prev_idle st < 2 ^ 64 /\ 0 <= prev_total st < 2 ^ 64.

(** The eight counters are non-negative and their sum does not wrap. *)
Definition counters_fit (s : ProcStat) : Prop :=
  0 <= user s /\ 0 <= nice s /\ 0 <= system s /\ 0 <= idle s /\ 0 <= iowait s
  /\ 0 <= irq s /\ 0 <= softirq s /\ 0 <= steal s
  /\ user s + nice s + system s + idle s + iowait s + irq s + softirq s + steal s < 2 ^ 64.

(** The usage formula before the clamp. *)
Definition usageFormula (idle_delta total_delta : Z) : float :=
  PrimFloat.mul 100
    (PrimFloat.sub 1 (PrimFloat.div (Z2double idle_delta) (Z2double total_delta))).

(** A sequence of appends to one series, oldest sample first. *)
Definition appendHistoryValues (max_points : nat) (series : list float)
    (values : list (option float)) : list float :=
  fold_left (fun series value => appendHistoryValue series value max_points)
            values series.

(** The value [appendHistoryValue] pushes for [value] onto [series]. *)
Definition nextHistoryValue (series : list float) (value : option float) : float :=
  clampPercent (value_or value (lastOrZero series)).

(** Every value ever pushed for a sequence of samples, with no eviction. *)
Definition allPushed (series : list float) (values : list (option float)) : list float :=
  fold_left (fun series value => series ++ [nextHistoryValue series value])
            values series.

(** The [n] newest entries of a series, in order. *)
Definition newest {A : Type} (n : nat) (l : list A) : list A :=
  drop (length l - n) l.

(** A value the store can hold: the clamp leaves it as it is. *)
Definition storable (v : float) : Prop := clampPercent v = v.

(** A cursor of the display scan is either still [size] ("not found") or
    an index below it. *)
Definition cursor_ok (size c : nat) : Prop := (c <= size)%nat.

Definition scan_ok (size : nat) (st : DisplayScan) : Prop :=
  cursor_ok size (first_with_telemetry st)
  /\ cursor_ok size (intel_with_telemetry st)
  /\ cursor_ok size (first_intel st).

(** The order the final sort establishes between neighbours: [a] may
    stand in front of [b] when the comparator does not put [b] first. *)
Definition mayPrecede {A : Type} (comp : A -> A -> bool) (a b : A) : Prop :=
  comp b a = false.

(** Two records the comparator cannot tell apart: same score, same name. *)
Definition sameKey (k g : GpuMetrics) : bool :=
  (telemetryScore g =? telemetryScore k) && String.eqb (name g) (name k).

(** [g'] has every scored field populated that [g] has. *)
Definition populates (g g' : GpuMetrics) : Prop :=
  (has_value (temperature_c g) = true -> has_value (temperature_c g') = true)
  /\ (has_value (core_clock_mhz g) = true -> has_value (core_clock_mhz g') = true)
  /\ (has_value (utilization_percent g) = true -> has_value (utilization_percent g') = true)
  /\ (has_value (power_w g) = true -> has_value (power_w g') = true)
  /\ (has_value (memory_used_mib g) = true -> has_value (memory_used_mib g') = true)
  /\ (has_value (memory_total_mib g) = true -> has_value (memory_total_mib g') = true)
  /\ (has_value (memory_utilization_percent g) = true ->
      has_value (memory_utilization_percent g') = true).

(** The weight a populated field adds to the score. *)
Definition weight (populated : bool) (w : Z) : Z := if populated then w else 0.

(** The list [collectGpus] hands to its final [std::stable_sort]: the
    probe's records in directory order when the tool reported nothing,
    the fused records otherwise. *)
Definition beforeFinalSort (rows : list NvidiaSmiRow) (drm : option (list DrmEntry))
    (fallback_probe fallback_fusion : SensorsFallbackMetrics) : list GpuMetrics :=
  match collectGpusFromNvidiaSmi rows with
  | [] => match drm with
          | None => []
          | Some entries => omap (gpuFromCard fallback_probe) entries
          end
  | nvidia =>
      fst (fuseGpus fallback_fusion nvidia (collectGpusFromSysfs fallback_probe drm))
  end.

(** Whether some tool record consumed the sysfs record at index [i]. *)
Definition consumedBy (consumed : list (option nat)) (i : nat) : bool :=
  existsb (fun c => match c with Some j => (j =? i)%nat | None => false end) consumed.

(** The sysfs records no tool record consumed, in index order. *)
Definition unconsumedSysfs (sysfs : list GpuMetrics) (consumed : list (option nat))
  : list GpuMetrics :=
  omap (fun i => if consumedBy consumed i then None else sysfs !! i)
       (seq 0 (length sysfs)).

(** No sysfs index is consumed by two tool records. *)
Definition consumedOnce (consumed : list (option nat)) : Prop :=
  forall i j idx,
    consumed !! i = Some (Some idx) -> consumed !! j = Some (Some idx) -> i = j.

(** The entries of the DRM directory the current sysfs probe turns into a
    record: a card directory with a device of display class. *)
Definition isProbedCard (card : DrmEntry) : bool :=
  isCardDirectoryName (card_name card) && device_exists card
  && isDisplayClassDevice (device_class card).

(* ===================================================================== *)
(** ** Concrete inputs *)
(* ===================================================================== *)

(** A sensors fallback without any reading. *)
Definition no_fallback : SensorsFallbackMetrics :=
  {| cpu_fan_rpm := None; cpu_power_w := None; gpu_fan_rpm := None;
     gpu_power_w := None |}.

(** A display-class card directory that exposes no telemetry file. *)
Definition bare_card : DrmEntry :=
  {| card_name := "card0"; device_exists := true;
     device_class := Some "0x030000"%string;
     device_vendor := Some "0x1002"%string;
     device_driver := Some "radeon"%string; card_in_use := Some true;
     device_hwmon := None; gt_cur_freq_mhz := None; pp_dpm_sclk := None;
     gpu_busy_percent := None;
     mem_info_vram_used := None; mem_info_vis_vram_used := None;
     mem_info_vram_total := None; mem_info_vis_vram_total := None |}.

(** The record the current probe builds for [bare_card]. *)
Definition bare_gpu : GpuMetrics :=
  {| name := "card0 (AMD)"; source := "sysfs/radeon"; in_use := Some true;
     temperature_c := None; core_clock_mhz := None; utilization_percent := None;
     power_w := None; memory_used_mib := None; memory_total_mib := None;
     memory_utilization_percent := None |}.

(** A canvas as [createBrailleCanvas] builds it: one cell per position. *)
Definition canvas_ok (canvas : BrailleCanvas) : Prop :=
  0 <= width canvas /\ 0 <= height canvas
  /\ length (cells canvas) = Z.to_nat (width canvas * height canvas).

(** The canvases on which the [int] arithmetic of the rasteriser stays
    within the type: with sides of at most 2^29 cells the doubled error
    term of the line loop fits, and with fewer than 2^31 cells the index
    [y * width + x] does. *)
Definition canvas_fits (canvas : BrailleCanvas) : Prop :=
  width canvas <= 2 ^ 29 /\ height canvas <= 2 ^ 29
  /\ width canvas * height canvas < 2 ^ 31.

(** The four direction bits that [glyphForMask] looks at. *)
Definition kDirAll : Z := Z.lor (Z.lor (Z.lor kDirUp kDirDown) kDirLeft) kDirRight.

(** The [k]-th reading of a synthetic [/proc/stat] whose idle ticks grow
    by 50 and whose total ticks grow by 100 per poll, from (100, 1000). *)
Definition linear_stat (k : Z) : ProcStat :=
  {| cpu_tag := "cpu"; user := 900 + 50 * k; nice := 0; system := 0;
     idle := 100 + 50 * k; iowait := 0; irq := 0; softirq := 0; steal := 0 |}.

(** A snapshot of a machine on which every other probe found nothing. *)
Definition empty_snapshot : Snapshot :=
  {| cpu := {| cpu_name := "Unknown CPU"; cpu_total_cores := None;
               cpu_total_threads := None; cpu_temperature_c := None;
               cpu_frequency_mhz := None; cpu_usage_percent := None |};
     ram := {| total_kb := None; available_kb := None |};
     disk := {| mount_point := "/"; total_bytes := None; free_bytes := None |};
     gpus := [] |}.

Definition linear_poll (k : Z) : PollInput :=
  {| poll_stat := Some (linear_stat k); poll_rest := empty_snapshot;
     poll_disk_busy := None |}.

(** Five consecutive polls over the synthetic counters. *)
Definition linear_polls : list PollInput := map linear_poll [0; 1; 2; 3; 4].

(** A record of the external tool that lacks power and in-use state. *)
Definition tool_gpu : GpuMetrics :=
  {| name := "NVIDIA GeForce RTX 3060"; source := "nvidia-smi"; in_use := None;
     temperature_c := Some 55%float; core_clock_mhz := Some 1320%float;
     utilization_percent := Some 12%float; power_w := None;
     memory_used_mib := Some 1024%float; memory_total_mib := Some 12288%float;
     memory_utilization_percent := None |}.

(** Two records of the sysfs probe: an Intel card with a clock reading
    and the NVIDIA card with a power reading. *)
Definition sysfs_intel_gpu : GpuMetrics :=
  {| name := "card0 (Intel)"; source := "sysfs/i915"; in_use := Some true;
     temperature_c := None; core_clock_mhz := Some 350%float;
     utilization_percent := None; power_w := None;
     memory_used_mib := None; memory_total_mib := None;
     memory_utilization_percent := None |}.

Definition sysfs_nvidia_gpu : GpuMetrics :=
  {| name := "card1 (NVIDIA)"; source := "sysfs/nvidia"; in_use := Some false;
     temperature_c := None; core_clock_mhz := None;
     utilization_percent := None; power_w := Some 35.5%float;
     memory_used_mib := None; memory_total_mib := None;
     memory_utilization_percent := None |}.

(** A sampler state holding the baseline (idle 100, total 1000). *)
Definition baseline_state : CpuUsageState :=
  {| prev_idle := 100; prev_total := 1000; initialized := true |}.

(** The six series of the store. *)
Definition seriesOf (h : MetricsHistory) : list (list float) :=
  [cpu_usage h; cpu_temp h; ram_usage h; gpu_usage h; gpu_vram_usage h; disk_usage h].

(** A series within capacity [n] whose values the clamp leaves alone. *)
Definition series_ok (n : nat) (series : list float) : Prop :=
  (length series <= n)%nat /\ Forall storable series.

(** The rule of [normalizeTemperatureC] read on the integer: degrees are
    kept from 0 to 150, millidegrees from 1001 to 150000 are divided. *)
Definition expectedCelsius (raw_value : Z) : option float :=
  if (0 <=? raw_value) && (raw_value <=? 150) then Some (Z2double raw_value)
  else if (1000 <? raw_value) && (raw_value <=? 150000)
       then Some (PrimFloat.div (Z2double raw_value) 1000)
       else None.

(** The conversion of an integer of [long long] magnitude by the
    hardware instruction, which is how windows of readings are evaluated. *)
Definition fastDouble (z : Z) : float :=
  if z <? 0 then PrimFloat.opp (of_uint63 (Uint63.of_Z (- z)))
  else of_uint63 (Uint63.of_Z z).

(** [normalizeTemperatureC] and its integer rule on that conversion. *)
Definition normalizeFast (raw_value : Z) : option float :=
  let celsius := fastDouble raw_value in
  let celsius := if PrimFloat.ltb 1000 (PrimFloat.abs celsius)
                 then PrimFloat.div celsius 1000 else celsius in
  if PrimFloat.ltb celsius 0 || PrimFloat.ltb 150 celsius then None
  else Some celsius.

Definition expectedFast (raw_value : Z) : option float :=
  if (0 <=? raw_value) && (raw_value <=? 150) then Some (fastDouble raw_value)
  else if (1000 <? raw_value) && (raw_value <=? 150000)
       then Some (PrimFloat.div (fastDouble raw_value) 1000)
       else None.

(** Whether the threshold test falls as the integer does and the code and
    the integer rule give the same result, bit for bit, on one reading;
    and on [count] readings from [lo] upwards. *)
Definition agreesOn (raw_value : Z) : bool :=
  Bool.eqb (PrimFloat.ltb 1000 (PrimFloat.abs (fastDouble raw_value)))
           (1000 <? Z.abs raw_value)
  && match normalizeFast raw_value, expectedFast raw_value with
     | None, None => true
     | Some a, Some b => PrimFloat.Leibniz.eqb a b
     | _, _ => false
     end.

Fixpoint agreesFrom (lo : Z) (count : nat) : bool :=
  match count with
  | O => true
  | S n => agreesOn lo && agreesFrom (lo + 1) n
  end.

(* ===================================================================== *)
(** ** linux_utils.hpp: text helpers *)
(* ===================================================================== *)

(** Whether a byte occurs in a set of bytes given as a string. *)
Fixpoint str_mem (c : ascii) (set : string) : bool :=
  match set with
  | EmptyString => false
  | String d rest => Ascii.eqb c d || str_mem c rest
  end.

(** The set [" \t\r\n"] that [trim] strips. *)
Definition kBlanks : string :=
  String " "%char (String "009"%char (String "013"%char (String "010"%char EmptyString))).

(** [s.find_first_not_of(set)]; [None] is [npos]. *)
Fixpoint find_first_not_of (s set : string) : option nat :=
  match s with
  | EmptyString => None
  | String c rest =>
      if str_mem c set then
        match find_first_not_of rest set with
        | Some i => Some (S i)
        | None => None
        end
      else Some 0%nat
  end.

(** [s.find_last_not_of(set)]. *)
Fixpoint find_last_not_of (s set : string) : option nat :=
  match s with
  | EmptyString => None
  | String c rest =>
      match find_last_not_of rest set with
      | Some i => Some (S i)
      | None => if str_mem c set then None else Some 0%nat
      end
  end.

(** [s.substr(pos, count)] and [s.substr(pos)], for [pos <= s.size()]. *)
Definition substr (s : string) (pos count : nat) : string :=
  String.substring pos count s.

Definition substr_from (s : string) (pos : nat) : string :=
  String.substring pos (String.length s - pos) s.

(** [linux_utils::trim].  A string with a first byte outside the set has
    a last one, so the inner [None] is never reached. *)
Definition trim (input : string) : string :=
  match find_first_not_of input kBlanks with
  | None => EmptyString
  | Some first =>
      match find_last_not_of input kBlanks with
      | Some last => substr input first (last - first + 1)
      | None => EmptyString
      end
  end.

(** [std::getline(stream, item, delimiter)] on a stream that is not at
    its end: the bytes before the first delimiter, and what is left of
    the stream after the delimiter has been consumed. *)
Fixpoint readItem (stream : string) (delimiter : ascii) : string * string :=
  match stream with
  | EmptyString => (EmptyString, EmptyString)
  | String c rest =>
      if Ascii.eqb c delimiter then (EmptyString, rest)
      else let (item, rest') := readItem rest delimiter in (String c item, rest')
  end.

(** [std::getline]: at the end of the stream nothing is extracted, the
    call fails and the loop that tests it ends. *)
Definition getline (stream : string) (delimiter : ascii) : option (string * string) :=
  match stream with
  | EmptyString => None
  | String _ _ => Some (readItem stream delimiter)
  end.

(** The [while (std::getline(ss, item, delimiter))] loop of
    [splitByChar]; [None] when [fuel] iterations did not reach the end of
    the stream. *)
Fixpoint splitLoop (fuel : nat) (stream : string) (delimiter : ascii)
  : option (list string) :=
  match fuel with
  | O => None
  | S fuel' =>
      match getline stream delimiter with
      | None => Some []
      | Some (item, rest) =>
          match splitLoop fuel' rest delimiter with
          | Some out => Some (trim item :: out)
          | None => None
          end
      end
  end.

(** [linux_utils::splitByChar].  Every successful [getline] consumes at
    least one byte, so one iteration per byte and one more suffice. *)
Definition splitByChar (line : string) (delimiter : ascii) : option (list string) :=
  splitLoop (S (String.length line)) line delimiter.

(** The reading of [trim] by structure: the blanks in front are dropped,
    then the blanks at the end. *)
Fixpoint dropLeadingBlanks (s : string) : string :=
  match s with
  | EmptyString => EmptyString
  | String c rest => if str_mem c kBlanks then dropLeadingBlanks rest else s
  end.

Fixpoint dropTrailingBlanks (s : string) : string :=
  match s with
  | EmptyString => EmptyString
  | String c rest =>
      match dropTrailingBlanks rest with
      | EmptyString => if str_mem c kBlanks then EmptyString else String c EmptyString
      | String d kept => String c (String d kept)
      end
  end.

(** A string of blanks only. *)
Fixpoint allBlank (s : string) : bool :=
  match s with
  | EmptyString => true
  | String c rest => str_mem c kBlanks && allBlank rest
  end.

(** The last byte of a string. *)
Fixpoint lastByte (s : string) : option ascii :=
  match s with
  | EmptyString => None
  | String c EmptyString => Some c
  | String _ rest => lastByte rest
  end.

(** A string that neither starts nor ends with a blank. *)
Definition isTrimmed (s : string) : bool :=
  match s with
  | EmptyString => true
  | String c _ =>
      negb (str_mem c kBlanks)
      && match lastByte s with Some d => negb (str_mem d kBlanks) | None => true end
  end.

(** How often a byte occurs in a string. *)
Fixpoint countByte (c : ascii) (s : string) : nat :=
  match s with
  | EmptyString => 0%nat
  | String d rest => ((if Ascii.eqb d c then 1 else 0) + countByte c rest)%nat
  end.

(** The number of fields of a line: one per delimiter, and one more for
    what follows the last delimiter unless nothing follows it. *)
Definition fieldCount (line : string) (delimiter : ascii) : nat :=
  (countByte delimiter line
   + match lastByte line with
     | None => 0
     | Some c => if Ascii.eqb c delimiter then 0 else 1
     end)%nat.

(* ===================================================================== *)
(** ** metrics/cpu.cpp: directory names, numbers, name and thread count *)
(* ===================================================================== *)

(** [std::isdigit], [std::isalpha] and [std::isspace] on one byte (the "C"
    classification, as for [tolower]). *)
Definition isdigit (c : ascii) : bool :=
  let n := nat_of_ascii c in (48 <=? n)%nat && (n <=? 57)%nat.

Definition isalpha (c : ascii) : bool :=
  let n := nat_of_ascii c in
  ((65 <=? n)%nat && (n <=? 90)%nat) || ((97 <=? n)%nat && (n <=? 122)%nat).

Definition isspace (c : ascii) : bool :=
  let n := nat_of_ascii c in (n =? 32)%nat || ((9 <=? n)%nat && (n <=? 13)%nat).

(** [std::all_of] and [std::any_of] over the bytes of a string. *)
Fixpoint all_of (p : ascii -> bool) (s : string) : bool :=
  match s with
  | EmptyString => true
  | String c rest => p c && all_of p rest
  end.

Fixpoint any_of (p : ascii -> bool) (s : string) : bool :=
  match s with
  | EmptyString => false
  | String c rest => p c || any_of p rest
  end.

(** [isCpuDirectoryName]: the test runs over [name.begin() + 3] to the
    end. *)
Definition isCpuDirectoryName (name : string) : bool :=
  if negb (startsWith name "cpu") || (String.length name <=? 3)%nat then false
  else all_of isdigit (substr_from name 3).

Definition containsAlphabeticChar (value : string) : bool := any_of isalpha value.

(** [s.find(c)]; [None] is [npos]. *)
Fixpoint find_char (s : string) (c : ascii) : option nat :=
  match s with
  | EmptyString => None
  | String d rest =>
      if Ascii.eqb d c then Some 0%nat
      else match find_char rest c with
           | Some i => Some (S i)
           | None => None
           end
  end.

(** The white space [strtol] skips, with the number of bytes skipped. *)
Fixpoint skipSpaces (s : string) : nat * string :=
  match s with
  | EmptyString => (0%nat, s)
  | String c rest =>
      if isspace c then let (n, r) := skipSpaces rest in (S n, r) else (0%nat, s)
  end.

Definition digitValue (c : ascii) : Z := Z.of_nat (nat_of_ascii c) - 48.

(** The run of decimal digits at the start of [s], read into [acc]: the
    value and the number of digits. *)
Fixpoint readDigits (s : string) (acc : Z) : Z * nat :=
  match s with
  | EmptyString => (acc, 0%nat)
  | String c rest =>
      if isdigit c
      then let (v, n) := readDigits rest (acc * 10 + digitValue c) in (v, S n)
      else (acc, 0%nat)
  end.

(** [std::stol(s, &consumed)] in base 10 with a 64-bit [long]: the value
    and [consumed]; [None] stands for both exceptions, no digits
    ([std::invalid_argument]) and a value outside [long]
    ([std::out_of_range]). *)
Definition stol (s : string) : option (Z * nat) :=
  let (skipped, s1) := skipSpaces s in
  let '(negative, sign_length, s2) :=
    match s1 with
    | String "-"%char rest => (true, 1%nat, rest)
    | String "+"%char rest => (false, 1%nat, rest)
    | _ => (false, 0%nat, s1)
    end in
  let (magnitude, digits) := readDigits s2 0 in
  if (digits =? 0)%nat then None
  else
    let parsed := if negative then - magnitude else magnitude in
    if (parsed <? - 2 ^ 63) || (2 ^ 63 - 1 <? parsed) then None
    else Some (parsed, (skipped + sign_length + digits)%nat).

(** [parsePositiveInt]. *)
Definition parsePositiveInt (value : string) : option Z :=
  let cleaned := trim value in
  if String.eqb cleaned EmptyString then None
  else
    match stol cleaned with
    | None => None
    | Some (parsed, consumed) =>
        if negb (consumed =? String.length cleaned)%nat || (parsed <=? 0)
           || (2 ^ 31 - 1 <? parsed)
        then None
        else Some parsed
    end.

(** The key of a [key : value] line of [/proc/cpuinfo], as [collectName]
    and [collectThreadCount] compute it; [None] when the line has no
    colon. *)
Definition cpuinfoKey (line : string) : option string :=
  match find_char line ":" with
  | None => None
  | Some colon => Some (toLower (trim (substr line 0 colon)))
  end.

(** The loop of [collectName] over the lines of [/proc/cpuinfo]; a
    [return] inside the loop ends the recursion. *)
Fixpoint collectNameLoop (lines : list string)
    (model_fallback processor_fallback : option string) : string :=
  match lines with
  | [] =>
      match model_fallback with
      | Some model => model
      | None =>
          match processor_fallback with
          | Some processor => processor
          | None => "Unknown CPU"
          end
      end
  | line :: rest =>
      match find_char line ":" with
      | None => collectNameLoop rest model_fallback processor_fallback
      | Some colon =>
          let key := toLower (trim (substr line 0 colon)) in
          let value := trim (substr_from line (colon + 1)) in
          if String.eqb value EmptyString then collectNameLoop rest model_fallback processor_fallback
          else if String.eqb key "model name" || String.eqb key "cpu model"
                  || String.eqb key "hardware"
          then value
          else
            let model_fallback :=
              if String.eqb key "model" && containsAlphabeticChar value
                 && negb (has_value model_fallback)
              then Some value else model_fallback in
            let processor_fallback :=
              if String.eqb key "processor"
              then if containsAlphabeticChar value && negb (has_value processor_fallback)
                   then Some value else processor_fallback
              else processor_fallback in
            collectNameLoop rest model_fallback processor_fallback
      end
  end.

(** [collectName]; [cpuinfo] is [None] when [/proc/cpuinfo] cannot be
    opened, otherwise its lines. *)
Definition collectName (cpuinfo : option (list string)) : string :=
  match cpuinfo with
  | None => "Unknown CPU"
  | Some lines => collectNameLoop lines None None
  end.

(** [collectThreadCount]; [cpu_entries] holds the file names under
    [/sys/devices/system/cpu], [None] when the directory does not exist.
    The counter is an [int] that counts list entries; it is modelled
    without its upper bound. *)
Definition collectThreadCount (cpu_entries : option (list string))
    (cpuinfo : option (list string)) : option Z :=
  let thread_count :=
    match cpu_entries with
    | Some entries =>
        fold_left (fun count entry => if isCpuDirectoryName entry then count + 1 else count)
                  entries 0
    | None => 0
    end in
  if 0 <? thread_count then Some thread_count
  else
    match cpuinfo with
    | None => None
    | Some lines =>
        let thread_count :=
          fold_left
            (fun count line =>
               match find_char line ":" with
               | None => count
               | Some colon =>
                   let key := toLower (trim (substr line 0 colon)) in
                   if String.eqb key "processor" then count + 1 else count
               end)
            lines thread_count in
        if 0 <? thread_count then Some thread_count else None
    end.

(** One directory entry of [/sys/class/powercap]. *)
Record PowercapEntry := {
  powercap_path : string;
  powercap_is_directory : bool;
  powercap_has_energy_uj : bool;
  powercap_name : option string
}.

(** The score [findCpuRaplEnergyPath] gives to a domain name. *)
Definition raplScore (domain_name : string) : Z :=
  let score := 0 in
  let score := if str_contains domain_name "package" then score + 100 else score in
  let score := if str_contains domain_name "cpu" then score + 60 else score in
  let score := if str_contains domain_name "psys" then score + 30 else score in
  score.

(** Whether the loop of [findCpuRaplEnergyPath] looks at an entry, and the
    score it then computes. *)
Definition raplCandidate (entry : PowercapEntry) : bool :=
  powercap_is_directory entry && powercap_has_energy_uj entry.

Definition raplEntryScore (entry : PowercapEntry) : Z :=
  raplScore (toLower (value_or (powercap_name entry) EmptyString)).

(** [entry / "energy_uj"]. *)
Definition energyFile (entry : PowercapEntry) : string :=
  (powercap_path entry ++ "/energy_uj")%string.

(** [findCpuRaplEnergyPath]; [base] is [None] when [/sys/class/powercap]
    does not exist, otherwise its sorted entries.  The state of the loop
    is [(best_score, best_path)]. *)
Definition findCpuRaplEnergyPath (base : option (list PowercapEntry)) : option string :=
  match base with
  | None => None
  | Some entries =>
      snd (fold_left
             (fun (best : Z * option string) entry =>
                let (best_score, best_path) := best in
                if negb (powercap_is_directory entry) then best
                else if negb (powercap_has_energy_uj entry) then best
                else
                  let domain_name := toLower (value_or (powercap_name entry) EmptyString) in
                  let score := raplScore domain_name in
                  if best_score <? score then (score, Some (energyFile entry))
                  else best)
             entries (-1, None))
  end.

(** The decimal notation of a natural number. *)
Definition decimal (n : Z) : string :=
  DecimalString.NilEmpty.string_of_uint (N.to_uint (Z.to_N n)).

(** A line of [/proc/cpuinfo] read as a field: its key and its value,
    when it has a colon and the value is not empty. *)
Definition cpuinfoField (line : string) : option (string * string) :=
  match find_char line ":" with
  | None => None
  | Some colon =>
      let key := toLower (trim (substr line 0 colon)) in
      let value := trim (substr_from line (colon + 1)) in
      if String.eqb value EmptyString then None else Some (key, value)
  end.

(** The lines that name the processor, and the two kinds of fallback. *)
Definition isNameLine (line : string) : bool :=
  match cpuinfoField line with
  | Some (key, _) =>
      String.eqb key "model name" || String.eqb key "cpu model" || String.eqb key "hardware"
  | None => false
  end.

Definition isModelLine (line : string) : bool :=
  match cpuinfoField line with
  | Some (key, value) => String.eqb key "model" && containsAlphabeticChar value
  | None => false
  end.

Definition isProcessorLine (line : string) : bool :=
  match cpuinfoField line with
  | Some (key, value) => String.eqb key "processor" && containsAlphabeticChar value
  | None => false
  end.

Definition fieldValue (line : string) : string :=
  match cpuinfoField line with Some (_, value) => value | None => EmptyString end.

(** The first of two optional values that is present. *)
Definition orElse {A : Type} (first second : option A) : option A :=
  match first with Some a => Some a | None => second end.

(** Whether a line of [/proc/cpuinfo] has the key [processor]. *)
Definition hasProcessorKey (line : string) : bool :=
  match cpuinfoKey line with
  | Some key => String.eqb key "processor"
  | None => false
  end.

(* ===================================================================== *)
(** ** metrics/cpu.cpp: the processor temperature *)
(* ===================================================================== *)

(** One entry of [/sys/class/thermal]: its file name and what
    [readLongLong] and [readFirstLine] returned for [temp] and [type]. *)
Record ThermalZone := {
  zone_name : string;
  zone_temp : option Z;
  zone_type : option string
}.

(** One file of a directory under [/sys/class/hwmon]: its name, what
    [readLongLong] returned for it, and what [readFirstLine] returned for
    the file of the same name with [_label] in place of [_input]. *)
Record HwmonTempFile := {
  temp_filename : string;
  temp_raw : option Z;
  temp_label : option string
}.

(** One directory under [/sys/class/hwmon]: what [readFirstLine] returned
    for [name], and its sorted entries. *)
Record HwmonChip := {
  chip_name : option string;
  chip_files : list HwmonTempFile
}.

Definition hwmonNameLooksCpuSensor (lower_name : string) : bool :=
  str_contains lower_name "k10temp" || str_contains lower_name "coretemp"
  || str_contains lower_name "zenpower" || str_contains lower_name "cpu".

Definition hwmonLabelLooksCpuTemp (lower_label : string) : bool :=
  str_contains lower_label "cpu" || str_contains lower_label "package"
  || str_contains lower_label "tctl" || str_contains lower_label "tdie"
  || str_contains lower_label "die".

(** [if (!max || *celsius > *max) max = *celsius]. *)
Definition keepMax (max : option float) (celsius : float) : option float :=
  match max with
  | None => Some celsius
  | Some m => if PrimFloat.ltb m celsius then Some celsius else max
  end.

(** The body of the inner loop of [collectCpuTemperatureFromHwmon] for one
    file; the state is [(preferred_max, fallback_max)]. *)
Definition hwmonFileStep (cpu_chip : bool) (acc : option float * option float)
    (file : HwmonTempFile) : option float * option float :=
  let (preferred_max, fallback_max) := acc in
  let filename := temp_filename file in
  if negb (startsWith filename "temp") || negb (endsWith filename "_input") then acc
  else
    match temp_raw file with
    | None => acc
    | Some raw =>
        match normalizeTemperatureC raw with
        | None => acc
        | Some celsius =>
            let label := toLower (value_or (temp_label file) EmptyString) in
            let cpu_label := hwmonLabelLooksCpuTemp label in
            if cpu_label then (keepMax preferred_max celsius, fallback_max)
            else if cpu_chip then (preferred_max, keepMax fallback_max celsius)
            else acc
        end
    end.

(** The body of the outer loop, for one directory. *)
Definition hwmonChipStep (acc : option float * option float) (chip : HwmonChip)
  : option float * option float :=
  let chip_name := toLower (value_or (chip_name chip) EmptyString) in
  let cpu_chip := hwmonNameLooksCpuSensor chip_name in
  fold_left (hwmonFileStep cpu_chip) (chip_files chip) acc.

(** [collectCpuTemperatureFromHwmon]; [hwmon] is [None] when
    [/sys/class/hwmon] does not exist. *)
Definition collectCpuTemperatureFromHwmon (hwmon : option (list HwmonChip)) : option float :=
  match hwmon with
  | None => None
  | Some chips =>
      let (preferred_max, fallback_max) := fold_left hwmonChipStep chips (None, None) in
      if has_value preferred_max then preferred_max else fallback_max
  end.

(** The body of the loop of [collectCpuTemperature] for one entry. *)
Definition thermalZoneStep (acc : option float * option float) (entry : ThermalZone)
  : option float * option float :=
  let (preferred_max, fallback_max) := acc in
  let zone := zone_name entry in
  if negb (startsWith zone "thermal_zone") then acc
  else
    match zone_temp entry with
    | None => acc
    | Some raw_temp =>
        match normalizeTemperatureC raw_temp with
        | None => acc
        | Some celsius =>
            let type := toLower (value_or (zone_type entry) EmptyString) in
            let preferred :=
              str_contains type "cpu" || str_contains type "package"
              || str_contains type "x86_pkg_temp" || str_contains type "tctl"
              || str_contains type "tdie" in
            if preferred then (keepMax preferred_max celsius, fallback_max)
            else (preferred_max, keepMax fallback_max celsius)
        end
    end.

(** [collectCpuTemperature]; [thermal] is [None] when [/sys/class/thermal]
    does not exist. *)
Definition collectCpuTemperature (thermal : option (list ThermalZone))
    (hwmon : option (list HwmonChip)) : option float :=
  let (preferred_max, fallback_max) :=
    match thermal with
    | Some entries => fold_left thermalZoneStep entries (None, None)
    | None => (None, None)
    end in
  if has_value preferred_max then preferred_max
  else if has_value fallback_max then fallback_max
  else collectCpuTemperatureFromHwmon hwmon.

(** The reading a thermal zone contributes, with whether its type makes
    it a preferred one. *)
Definition zoneReading (entry : ThermalZone) : option (bool * float) :=
  if negb (startsWith (zone_name entry) "thermal_zone") then None
  else
    match zone_temp entry with
    | None => None
    | Some raw_temp =>
        match normalizeTemperatureC raw_temp with
        | None => None
        | Some celsius =>
            let type := toLower (value_or (zone_type entry) EmptyString) in
            Some (str_contains type "cpu" || str_contains type "package"
                  || str_contains type "x86_pkg_temp" || str_contains type "tctl"
                  || str_contains type "tdie", celsius)
        end
    end.

(** The reading a hwmon file contributes: [Some (true, c)] under a label
    that names the processor, [Some (false, c)] without such a label on a
    chip that does. *)
Definition hwmonReading (cpu_chip : bool) (file : HwmonTempFile) : option (bool * float) :=
  if negb (startsWith (temp_filename file) "temp")
     || negb (endsWith (temp_filename file) "_input") then None
  else
    match temp_raw file with
    | None => None
    | Some raw =>
        match normalizeTemperatureC raw with
        | None => None
        | Some celsius =>
            if hwmonLabelLooksCpuTemp (toLower (value_or (temp_label file) EmptyString))
            then Some (true, celsius)
            else if cpu_chip then Some (false, celsius) else None
        end
    end.

Definition chipReadings (chip : HwmonChip) : list (bool * float) :=
  omap (hwmonReading
          (hwmonNameLooksCpuSensor (toLower (value_or (chip_name chip) EmptyString))))
       (chip_files chip).

(** The readings of one kind among tagged readings. *)
Definition readingsOf (preferred : bool) (readings : list (bool * float)) : list float :=
  omap (fun reading : bool * float =>
          if Bool.eqb (fst reading) preferred then Some (snd reading) else None)
       readings.

(** A greatest element of a list of doubles. *)
Definition isMaxOf (m : float) (l : list float) : Prop :=
  In m l /\ forall x, In x l -> PrimFloat.leb x m = true.

(** What a probe that prefers one kind of reading reports: the greatest
    preferred reading if there is one, else the greatest of the others,
    else nothing. *)
Definition prefersMax (result : option float) (readings : list (bool * float)) : Prop :=
  match readingsOf true readings, readingsOf false readings with
  | _ :: _, _ => exists m, result = Some m /\ isMaxOf m (readingsOf true readings)
  | [], _ :: _ => exists m, result = Some m /\ isMaxOf m (readingsOf false readings)
  | [], [] => result = None
  end.

(** The update both temperature loops apply for a tagged reading. *)
Definition tagStep (acc : option float * option float) (reading : bool * float)
  : option float * option float :=
  let (preferred_max, fallback_max) := acc in
  if fst reading then (keepMax preferred_max (snd reading), fallback_max)
  else (preferred_max, keepMax fallback_max (snd reading)).

(* ===================================================================== *)
(** ** src/metrics/gpu.cpp: driver name and connector state *)
(* ===================================================================== *)

(** The loop of [readDriverName] over the lines of [uevent]: the first
    line that starts with [DRIVER=] decides, through [return] or [break]. *)
Fixpoint ueventDriver (lines : list string) : option string :=
  match lines with
  | [] => None
  | line :: rest =>
      if startsWith line "DRIVER=" then
        let driver := trim (substr_from line 7) in
        if negb (String.eqb driver EmptyString) then Some driver else None
      else ueventDriver rest
  end.

(** [readDriverName].  [driver_link] is the file name of the target of
    [device/driver] when the link exists and can be read; [uevent] holds
    the lines of [device/uevent], [None] when it cannot be opened. *)
Definition readDriverName (driver_link : option string) (uevent : option (list string))
  : option string :=
  let from_uevent :=
    match uevent with
    | None => None
    | Some lines => ueventDriver lines
    end in
  match driver_link with
  | Some name => if negb (String.eqb name EmptyString) then Some name else from_uevent
  | None => from_uevent
  end.

(** One entry of [/sys/class/drm] as [detectCardInUse] sees it: its file
    name and what [readFirstLine] returned for its [status]. *)
Record DrmConnector := {
  connector_name : string;
  connector_status : option string
}.

(** The loop of [detectCardInUse]: whether it returned [true], and
    [saw_connector_status] where it stopped. *)
Fixpoint connectorScan (entries : list DrmConnector) (card_prefix : string)
    (saw_connector_status : bool) : bool * bool :=
  match entries with
  | [] => (false, saw_connector_status)
  | entry :: rest =>
      let entry_name := connector_name entry in
      if negb (startsWith entry_name card_prefix)
      then connectorScan rest card_prefix saw_connector_status
      else if str_contains entry_name "render"
      then connectorScan rest card_prefix saw_connector_status
      else
        match connector_status entry with
        | None => connectorScan rest card_prefix saw_connector_status
        | Some status =>
            if String.eqb (toLower status) "connected" then (true, true)
            else connectorScan rest card_prefix true
        end
  end.

(** [detectCardInUse]; [card] is the file name of the card directory,
    [boot_vga] what [readLongLong] returned for [device/boot_vga]. *)
Definition detectCardInUse (entries : list DrmConnector) (card : string)
    (boot_vga : option Z) : option bool :=
  let card_prefix := (card ++ "-")%string in
  let (connected, saw_connector_status) := connectorScan entries card_prefix false in
  if connected then Some true
  else if saw_connector_status then Some false
  else
    match boot_vga with
    | Some value => Some (value =? 1)
    | None => None
    end.

(** A connector of the card that reports a status, and one that reports
    [connected]. *)
Definition reportsStatus (card_prefix : string) (entry : DrmConnector) : bool :=
  startsWith (connector_name entry) card_prefix
  && negb (str_contains (connector_name entry) "render")
  && has_value (connector_status entry).

Definition reportsConnected (card_prefix : string) (entry : DrmConnector) : bool :=
  reportsStatus card_prefix entry
  && match connector_status entry with
     | Some status => String.eqb (toLower status) "connected"
     | None => false
     end.

(* ===================================================================== *)
(** ** main.cpp: the choice of the GPUs to show *)
(* ===================================================================== *)

Definition anyGpuHasTelemetry (gpus : list GpuMetrics) : bool :=
  existsb gpuHasTelemetry gpus.

Definition gpuIsRelevantForSummary (gpu : GpuMetrics) : bool :=
  gpuHasTelemetry gpu
  || match in_use gpu with Some used => used | None => false end.

(** The first loop of [pickInUseGpuIndex], from index [i] on. *)
Fixpoint firstInUse (gpus : list GpuMetrics) (i : nat) : option nat :=
  match gpus with
  | [] => None
  | gpu :: rest =>
      if match in_use gpu with Some used => used | None => false end
      then Some i
      else firstInUse rest (S i)
  end.

Definition pickInUseGpuIndex (gpus : list GpuMetrics) : option nat :=
  match firstInUse gpus 0 with
  | Some i => Some i
  | None =>
      match gpus with
      | [] => None
      | _ :: _ => Some (pickDisplayGpuIndex gpus)
      end
  end.

(** The loop of [countAdditionalRelevantGpus], from index [i] on. *)
Fixpoint countRelevantFrom (gpus : list GpuMetrics) (i selected_gpu_index count : nat) : nat :=
  match gpus with
  | [] => count
  | gpu :: rest =>
      if (i =? selected_gpu_index)%nat
      then countRelevantFrom rest (S i) selected_gpu_index count
      else if gpuIsRelevantForSummary gpu
      then countRelevantFrom rest (S i) selected_gpu_index (S count)
      else countRelevantFrom rest (S i) selected_gpu_index count
  end.

Definition countAdditionalRelevantGpus (gpus : list GpuMetrics) (selected_gpu_index : nat)
  : nat :=
  if (length gpus <=? selected_gpu_index)%nat then 0%nat
  else countRelevantFrom gpus 0 selected_gpu_index 0.

(** Whether a record is marked as in use. *)
Definition isInUse (gpu : GpuMetrics) : bool :=
  match in_use gpu with Some used => used | None => false end.

(** [colorPairForPercent]; [percent >= 85.0] is [85.0 <= percent]. *)
Definition colorPairForPercent (percent : float) : Z :=
  if PrimFloat.leb 85 percent then 3
  else if PrimFloat.leb 65 percent then 2
  else 1.

(* ===================================================================== *)
(** ** main.cpp: the process table and the disk counters *)
(* ===================================================================== *)

Record ProcessInfo := {
  pid : Z;
  cpu_percent : float;
  mem_percent : float;
  command : string
}.

(** One line of the output of [ps] after
    [line_stream >> pid >> cpu_percent >> mem_percent]: the three numbers
    and the rest of the line, [None] when the extraction failed. *)
Definition PsLine : Type := option (Z * float * float * string).

(** The record [collectTopProcesses] builds from a line it could read. *)
Definition processOfLine (fields : Z * float * float * string) : ProcessInfo :=
  let '(pid, cpu_percent, mem_percent, rest) := fields in
  let command := trim rest in
  {| pid := pid; cpu_percent := cpu_percent; mem_percent := mem_percent;
     command := if String.eqb command EmptyString then "<unknown>" else command |}.

(** The loop [while (std::getline(stream, line) && processes.size() < limit)]. *)
Fixpoint topProcessesLoop (lines : list PsLine) (limit : nat) (processes : list ProcessInfo)
  : list ProcessInfo :=
  match lines with
  | [] => processes
  | line :: rest =>
      if (length processes <? limit)%nat then
        match line with
        | None => topProcessesLoop rest limit processes
        | Some fields => topProcessesLoop rest limit (processes ++ [processOfLine fields])
        end
      else processes
  end.

Definition collectTopProcesses (limit : nat) (lines : list PsLine) : list ProcessInfo :=
  if (limit =? 0)%nat then [] else topProcessesLoop lines limit [].

(** One line of [/proc/diskstats] after
    [line_stream >> major_num >> minor_num >> device_name] and the loop
    that reads the numbers behind the name; [None] when the first
    extraction failed. *)
Record DiskstatsLine := {
  major_num : Z;
  minor_num : Z;
  stat_fields : list Z
}.

(** [readDiskIoTimeMsForDevice]; [diskstats] is [None] when the file
    cannot be opened.  [fields[9]] is read without a bounds check. *)
Fixpoint diskstatsScan (lines : list (option DiskstatsLine)) (target_major target_minor : Z)
  : access (option Z) :=
  match lines with
  | [] => Ok None
  | None :: rest => diskstatsScan rest target_major target_minor
  | Some line :: rest =>
      if negb (major_num line =? target_major) || negb (minor_num line =? target_minor)
      then diskstatsScan rest target_major target_minor
      else if (length (stat_fields line) <=? 9)%nat then Ok None
      else
        match vector_at (stat_fields line) 9 with
        | Ok value => Ok (Some value)
        | OutOfBounds => OutOfBounds
        end
  end.

Definition readDiskIoTimeMsForDevice (diskstats : option (list (option DiskstatsLine)))
    (target_major target_minor : Z) : access (option Z) :=
  match diskstats with
  | None => Ok None
  | Some lines => diskstatsScan lines target_major target_minor
  end.

(** Whether a line of [/proc/diskstats] is about the device. *)
Definition isDeviceLine (target_major target_minor : Z) (line : option DiskstatsLine) : bool :=
  match line with
  | Some l => (major_num l =? target_major) && (minor_num l =? target_minor)
  | None => false
  end.

(** The static state of [computeRootDiskBusyPercent]: the device numbers
    of the root file system, read once, and the previous sample. *)
Record DiskBusyState := {
  root_numbers : option (Z * Z);
  previous_io_ms : option Z;
  previous_time : Z
}.

(** [static_cast<long long>] of an [unsigned long long]. *)
Definition toSigned64 (value : Z) : Z :=
  if value <? 2 ^ 63 then value else value - 2 ^ 64.

(** Subtraction of two [long long]; [None] where the difference is
    outside the type, which the language leaves undefined. *)
Definition sub64 (a b : Z) : option Z :=
  let difference := a - b in
  if (difference <? - 2 ^ 63) || (2 ^ 63 - 1 <? difference) then None
  else Some difference.

(** [duration_cast<milliseconds>(now - previous_time).count()], the
    steady clock counting nanoseconds in a signed 64-bit integer. *)
Definition elapsedMilliseconds (now previous_time : Z) : option Z :=
  match sub64 now previous_time with
  | Some nanoseconds => Some (Z.quot nanoseconds 1000000)
  | None => None
  end.

(** [computeRootDiskBusyPercent] for one call: [current_io_ms] is what
    [readDiskIoTimeMsForDevice] returned for the root device, [now] the
    reading of the steady clock.  The outer [None] is an overflow of one
    of the two signed subtractions. *)
Definition computeRootDiskBusyPercent (state : DiskBusyState) (current_io_ms : option Z)
    (now : Z) : option (DiskBusyState * option float) :=
  match root_numbers state with
  | None => Some (state, None)
  | Some _ =>
      match current_io_ms with
      | None => Some (state, None)
      | Some current =>
          match previous_io_ms state with
          | None =>
              Some ({| root_numbers := root_numbers state; previous_io_ms := Some current;
                       previous_time := now |}, None)
          | Some previous =>
              match elapsedMilliseconds now (previous_time state),
                    sub64 (toSigned64 current) (toSigned64 previous) with
              | Some elapsed, Some delta_ms =>
                  let state' := {| root_numbers := root_numbers state;
                                   previous_io_ms := Some current; previous_time := now |} in
                  if (elapsed <=? 0) || (delta_ms <? 0) then Some (state', None)
                  else
                    let busy := PrimFloat.div (PrimFloat.mul 100 (Z2double delta_ms))
                                              (Z2double elapsed) in
                    Some (state', Some (clampPercent busy))
              | _, _ => None
              end
          end
      end
  end.

(** A sample within the ranges the sampler meets: clock readings and
    counters from 0 to below 2^63. *)
Definition sampleFits (state : DiskBusyState) (current_io_ms : option Z) (now : Z) : Prop :=
  0 <= previous_time state < 2 ^ 63 /\ 0 <= now < 2 ^ 63
  /\ 0 <= value_or (previous_io_ms state) 0 < 2 ^ 63
  /\ 0 <= value_or current_io_ms 0 < 2 ^ 63.

(** The state after a first sample of 100 ms of busy time at one second. *)
Definition sampled_disk : DiskBusyState :=
  {| root_numbers := Some (8, 0); previous_io_ms := Some 100;
     previous_time := 1000000000 |}.

(* ===================================================================== *)
(** ** Predicates on canvases *)
(* ===================================================================== *)

(** [canvas'] is [canvas] with bits added: the same grid, one cell per
    position, and every cell holds at least the bits it held. *)
Definition canvasGrows (canvas canvas' : BrailleCanvas) : Prop :=
  width canvas' = width canvas /\ height canvas' = height canvas
  /\ canvas_ok canvas'
  /\ forall x y, isInsideCanvas canvas x y = true ->
                 Z.lor (cellAt canvas x y) (cellAt canvas' x y) = cellAt canvas' x y.

(** The cells outside the rectangle between two corners are the same in
    both canvases. *)
Definition sameOutside (canvas canvas' : BrailleCanvas) (xa ya xb yb : Z) : Prop :=
  forall x y, isInsideCanvas canvas x y = true ->
              ~ (Z.min xa xb <= x <= Z.max xa xb /\ Z.min ya yb <= y <= Z.max ya yb) ->
              cellAt canvas' x y = cellAt canvas x y.

(** The cell holds the point bit [kDirPoint]. *)
Definition hasPoint (canvas : BrailleCanvas) (x y : Z) : Prop :=
  Z.testbit (cellAt canvas x y) 4 = true.

(** Every mask is made of the five bits the rasteriser sets. *)
Definition masksInRange (canvas : BrailleCanvas) : Prop :=
  Forall (fun mask => 0 <= mask < 32) (cells canvas).

(* ===================================================================== *)
(** ** Predicates on lists of GPUs *)
(* ===================================================================== *)

(** The index of the first element that satisfies a test. *)
Fixpoint firstIndex {A : Type} (p : A -> bool) (l : list A) : option nat :=
  match l with
  | [] => None
  | a :: rest =>
      if p a then Some 0%nat
      else match firstIndex p rest with
           | Some k => Some (S k)
           | None => None
           end
  end.

(** A GPU that looks like an Intel one and has telemetry. *)
Definition intelWithTelemetry (gpu : GpuMetrics) : bool :=
  gpuLooksIntel gpu && gpuHasTelemetry gpu.

(** The first present index among three candidates, or zero. *)
Definition firstPresent (candidates : list (option nat)) : nat :=
  match omap id candidates with
  | index :: _ => index
  | [] => 0%nat
  end.

(** A 2 x 1 canvas whose left cell holds a point with a stroke to the
    right. *)
Definition stroke_canvas : BrailleCanvas :=
  {| width := 2; height := 1; cells := [Z.lor kDirRight kDirPoint; 0] |}.

(* ===================================================================== *)
(** ** metrics/sensors_fallback.cpp: the readings of the [sensors] tool *)
(* ===================================================================== *)

Definition lineHasToken (lower_text token : string) : bool :=
  str_contains lower_text token.

(** The file has its own copy of [hwmonNameLooksCpuSensor], the same as
    the one of [cpu.cpp]. *)
Definition hwmonNameLooksBoardSensor (lower_name : string) : bool :=
  startsWith lower_name "nct" || startsWith lower_name "it"
  || startsWith lower_name "f718" || startsWith lower_name "w83"
  || str_contains lower_name "asus" || str_contains lower_name "gigabyte".

Definition hwmonNameLooksGpuSensor (lower_name : string) : bool :=
  str_contains lower_name "amdgpu" || str_contains lower_name "nvidia"
  || str_contains lower_name "nouveau" || str_contains lower_name "radeon".

(** [is_chip_header]: the raw line starts at the first column and its
    trimmed form has no colon. *)
Definition isChipHeader (raw_line line : string) : bool :=
  match raw_line with
  | EmptyString => false
  | String c _ =>
      negb (Ascii.eqb c " ") && negb (Ascii.eqb c "009")
      && negb (has_value (find_char line ":"))
  end.

(** The two scores [(cpu_score, gpu_score)] of a line with a fan speed. *)
Definition fanScores (chip_name lower_line : string) : Z * Z :=
  let cpu_score := 0 in
  let gpu_score := 0 in
  let cpu_score := if lineHasToken lower_line "cpu" then cpu_score + 120 else cpu_score in
  let '(cpu_score, gpu_score) :=
    if lineHasToken lower_line "fan" then (cpu_score + 10, gpu_score + 10)
    else (cpu_score, gpu_score) in
  let cpu_score := if lineHasToken lower_line "pump" then cpu_score - 40 else cpu_score in
  let gpu_score := if lineHasToken lower_line "gpu" then gpu_score + 120 else gpu_score in
  let gpu_score := if hwmonNameLooksGpuSensor chip_name then gpu_score + 60 else gpu_score in
  let cpu_score := if hwmonNameLooksBoardSensor chip_name then cpu_score + 25 else cpu_score in
  let cpu_score := if hwmonNameLooksCpuSensor chip_name then cpu_score + 20 else cpu_score in
  (cpu_score, gpu_score).

(** The two scores of a line with a power reading. *)
Definition powerScores (chip_name lower_line : string) : Z * Z :=
  let cpu_score := 0 in
  let gpu_score := 0 in
  let cpu_score :=
    if lineHasToken lower_line "cpu" || lineHasToken lower_line "package"
       || lineHasToken lower_line "ppt" || lineHasToken lower_line "svi2"
       || lineHasToken lower_line "socket"
    then cpu_score + 120 else cpu_score in
  let cpu_score :=
    if lineHasToken chip_name "k10temp" || lineHasToken chip_name "coretemp"
       || lineHasToken chip_name "zenpower" || lineHasToken chip_name "fam15h_power"
       || lineHasToken chip_name "rapl"
    then cpu_score + 60 else cpu_score in
  let gpu_score := if lineHasToken lower_line "gpu" then gpu_score + 120 else gpu_score in
  let gpu_score := if hwmonNameLooksGpuSensor chip_name then gpu_score + 60 else gpu_score in
  (cpu_score, gpu_score).

(** [if (score > best_score) { best_score = score; field = value; }] on a
    best score with the field of [result] it guards. *)
Definition keepBest (best : Z * option float) (score : Z) (value : float)
  : Z * option float :=
  if fst best <? score then (score, Some value) else best.

(** The variables of the loop of [collectSensorsFallbackMetrics]: the
    current chip name and the four best scores, each with the field of
    [result] that is written together with it. *)
Record SensorsScan := {
  scan_chip : string;
  scan_cpu_fan : Z * option float;
  scan_cpu_power : Z * option float;
  scan_gpu_fan : Z * option float;
  scan_gpu_power : Z * option float
}.

Definition SensorsScan_initial : SensorsScan :=
  {| scan_chip := EmptyString; scan_cpu_fan := (-1, None); scan_cpu_power := (-1, None);
     scan_gpu_fan := (-1, None); scan_gpu_power := (-1, None) |}.

Definition scanResult (scan : SensorsScan) : SensorsFallbackMetrics :=
  {| cpu_fan_rpm := snd (scan_cpu_fan scan); cpu_power_w := snd (scan_cpu_power scan);
     gpu_fan_rpm := snd (scan_gpu_fan scan); gpu_power_w := snd (scan_gpu_power scan) |}.

(** The cache of [collectSensorsFallbackMetrics]. *)
Record SensorsCache := {
  cache_last_read : Z;
  cache_data : SensorsFallbackMetrics;
  cache_initialized : bool
}.

Section SensorsFallback.

(** [linux_utils::extractFirstNumber] and [linux_utils::extractWattsFromText]
  search with regular expressions and convert with [std::stod]; the loop
  is modelled for whatever they return. *)
Variable extractFirstNumber : string -> option float.
Variable extractWattsFromText : string -> option float.

(** The body of the loop for one line of the output. *)
Definition sensorsLineStep (scan : SensorsScan) (raw_line : string) : SensorsScan :=
let line := trim raw_line in
if String.eqb line EmptyString then scan
else if isChipHeader raw_line line then
  {| scan_chip := toLower line; scan_cpu_fan := scan_cpu_fan scan;
     scan_cpu_power := scan_cpu_power scan; scan_gpu_fan := scan_gpu_fan scan;
     scan_gpu_power := scan_gpu_power scan |}
else
  let lower_line := toLower line in
  let scan :=
    if lineHasToken lower_line "rpm" then
      match extractFirstNumber lower_line with
      | Some rpm =>
          if PrimFloat.ltb 0 rpm then
            let (cpu_score, gpu_score) := fanScores (scan_chip scan) lower_line in
            {| scan_chip := scan_chip scan;
               scan_cpu_fan := keepBest (scan_cpu_fan scan) cpu_score rpm;
               scan_cpu_power := scan_cpu_power scan;
               scan_gpu_fan := keepBest (scan_gpu_fan scan) gpu_score rpm;
               scan_gpu_power := scan_gpu_power scan |}
          else scan
      | None => scan
      end
    else scan in
  match extractWattsFromText lower_line with
  | Some watts =>
      let (cpu_score, gpu_score) := powerScores (scan_chip scan) lower_line in
      {| scan_chip := scan_chip scan;
         scan_cpu_fan := scan_cpu_fan scan;
         scan_cpu_power := keepBest (scan_cpu_power scan) cpu_score watts;
         scan_gpu_fan := scan_gpu_fan scan;
         scan_gpu_power := keepBest (scan_gpu_power scan) gpu_score watts |}
  | None => scan
  end.

(** The loop over the lines of the output of [sensors]. *)
Definition scanSensors (lines : list string) : SensorsFallbackMetrics :=
scanResult (fold_left sensorsLineStep lines SensorsScan_initial).

(** [collectSensorsFallbackMetrics] for one call: [now] is the reading of
  the steady clock, [lines] what the command would print.  The outer
  [None] is an overflow of the subtraction of the two clock readings,
  which is evaluated only on an initialised cache. *)
Definition collectSensorsFallbackMetrics (cache : SensorsCache) (now : Z)
  (lines : list string) : option (SensorsCache * SensorsFallbackMetrics) :=
let refresh :=
  let result := scanSensors lines in
  Some ({| cache_last_read := now; cache_data := result; cache_initialized := true |}, result) in
if cache_initialized cache then
  match elapsedMilliseconds now (cache_last_read cache) with
  | None => None
  | Some elapsed =>
      if elapsed <? 900 then Some (cache, cache_data cache) else refresh
  end
else refresh.

(** The lines that carry readings, each with the chip name in force and
  in lower case. *)
Fixpoint sensorReadings (lines : list string) (chip_name : string)
: list (string * string) :=
match lines with
| [] => []
| raw_line :: rest =>
    let line := trim raw_line in
    if String.eqb line EmptyString then sensorReadings rest chip_name
    else if isChipHeader raw_line line then sensorReadings rest (toLower line)
    else (chip_name, toLower line) :: sensorReadings rest chip_name
end.

(** The fan speed and the power a reading line offers, with its two
  scores. *)
Definition fanCandidate (reading : string * string) : option (Z * Z * float) :=
let (chip_name, lower_line) := reading in
if lineHasToken lower_line "rpm" then
  match extractFirstNumber lower_line with
  | Some rpm =>
      if PrimFloat.ltb 0 rpm then Some (fanScores chip_name lower_line, rpm) else None
  | None => None
  end
else None.

Definition powerCandidate (reading : string * string) : option (Z * Z * float) :=
let (chip_name, lower_line) := reading in
match extractWattsFromText lower_line with
| Some watts => Some (powerScores chip_name lower_line, watts)
| None => None
end.

End SensorsFallback.

(** The scored values one field chooses from. *)
Definition cpuChoices (candidates : list (Z * Z * float)) : list (Z * float) :=
  map (fun c => (fst (fst c), snd c)) candidates.

Definition gpuChoices (candidates : list (Z * Z * float)) : list (Z * float) :=
  map (fun c => (snd (fst c), snd c)) candidates.

(** A field holds the value of the first choice of the highest score,
    and nothing when every score is negative. *)
Definition isFirstBest (field : option float) (choices : list (Z * float)) : Prop :=
  match field with
  | None => forall c, In c choices -> fst c < 0
  | Some value =>
      exists before c after,
        choices = before ++ c :: after /\ snd c = value /\ 0 <= fst c
        /\ (forall x, In x before -> fst x < fst c)
        /\ (forall x, In x after -> fst x <= fst c)
  end.

(** An initialised cache read one second after the clock's origin. *)
Definition warm_cache : SensorsCache :=
  {| cache_last_read := 1000000000; cache_data := no_fallback; cache_initialized := true |}.

(* ===================================================================== *)
(** ** metrics/cpu.cpp: core count, frequency and the whole record *)
(* ===================================================================== *)

(** One entry of [/sys/devices/system/cpu] as the probes see it: its file
    name, what [readLongLong] returned for [cpufreq/scaling_cur_freq],
    and what [readFirstLine] returned for [topology/core_id] and
    [topology/physical_package_id]. *)
Record CpuDirectory := {
  cpu_dir_name : string;
  scaling_cur_freq : option Z;
  topology_core_id : option string;
  topology_package_id : option string
}.

(** [set.insert(value)] on a [std::set<std::string>], kept as a list
    without duplicates; its [size()] is the length. *)
Definition set_insert (value : string) (set : list string) : list string :=
  ListSet.set_add string_dec value set.

(** The key [package_id + ":" + core_id] of a core. *)
Definition coreKey (package_id : option string) (core_id : string) : string :=
  (value_or package_id "0" ++ ":" ++ core_id)%string.

(** The first loop of [collectCoreCount], for one entry. *)
Definition sysfsCoreStep (unique_cores : list string) (entry : CpuDirectory) : list string :=
  if negb (isCpuDirectoryName (cpu_dir_name entry)) then unique_cores
  else
    match topology_core_id entry with
    | None => unique_cores
    | Some core_id => set_insert (coreKey (topology_package_id entry) core_id) unique_cores
    end.

(** The variables of the second loop of [collectCoreCount]. *)
Record CoreScan := {
  unique_cpuinfo_cores : list string;
  physical_ids : list string;
  block_physical_id : option string;
  block_core_id : option string;
  cpu_cores_per_socket : Z
}.

Definition CoreScan_initial : CoreScan :=
  {| unique_cpuinfo_cores := []; physical_ids := []; block_physical_id := None;
     block_core_id := None; cpu_cores_per_socket := 0 |}.

(** The lambda [flush_block]. *)
Definition flush_block (scan : CoreScan) : CoreScan :=
  {| unique_cpuinfo_cores :=
       match block_core_id scan with
       | Some core_id =>
           set_insert (coreKey (block_physical_id scan) core_id) (unique_cpuinfo_cores scan)
       | None => unique_cpuinfo_cores scan
       end;
     physical_ids := physical_ids scan;
     block_physical_id := None;
     block_core_id := None;
     cpu_cores_per_socket := cpu_cores_per_socket scan |}.

(** The body of the second loop, for one line of [/proc/cpuinfo]. *)
Definition cpuinfoCoreStep (scan : CoreScan) (line : string) : CoreScan :=
  if String.eqb (trim line) EmptyString then flush_block scan
  else
    match find_char line ":" with
    | None => scan
    | Some colon =>
        let key := toLower (trim (substr line 0 colon)) in
        let value := trim (substr_from line (colon + 1)) in
        if String.eqb value EmptyString then scan
        else if String.eqb key "physical id" then
          {| unique_cpuinfo_cores := unique_cpuinfo_cores scan;
             physical_ids := set_insert value (physical_ids scan);
             block_physical_id := Some value;
             block_core_id := block_core_id scan;
             cpu_cores_per_socket := cpu_cores_per_socket scan |}
        else if String.eqb key "core id" then
          {| unique_cpuinfo_cores := unique_cpuinfo_cores scan;
             physical_ids := physical_ids scan;
             block_physical_id := block_physical_id scan;
             block_core_id := Some value;
             cpu_cores_per_socket := cpu_cores_per_socket scan |}
        else if String.eqb key "cpu cores" then
          match parsePositiveInt value with
          | Some parsed =>
              {| unique_cpuinfo_cores := unique_cpuinfo_cores scan;
                 physical_ids := physical_ids scan;
                 block_physical_id := block_physical_id scan;
                 block_core_id := block_core_id scan;
                 cpu_cores_per_socket := Z.max (cpu_cores_per_socket scan) parsed |}
          | None => scan
          end
        else scan
    end.

(** The second loop with the [flush_block] that follows it. *)
Definition cpuinfoCoreScan (lines : list string) : CoreScan :=
  flush_block (fold_left cpuinfoCoreStep lines CoreScan_initial).

(** The product of two [int]; [None] where it is outside the type, which
    the language leaves undefined. *)
Definition mul32 (a b : Z) : option Z :=
  let product := a * b in
  if (product <? - 2 ^ 31) || (2 ^ 31 - 1 <? product) then None else Some product.

(** [collectCoreCount]; [cpu_entries] is [None] when
    [/sys/devices/system/cpu] does not exist, [cpuinfo] when
    [/proc/cpuinfo] cannot be opened.  The outer [None] is an overflow of
    [cpu_cores_per_socket * sockets]. *)
Definition collectCoreCount (cpu_entries : option (list CpuDirectory))
    (cpuinfo : option (list string)) : option (option Z) :=
  let unique_cores :=
    match cpu_entries with
    | Some entries => fold_left sysfsCoreStep entries []
    | None => []
    end in
  match unique_cores with
  | _ :: _ => Some (Some (Z.of_nat (length unique_cores)))
  | [] =>
      match cpuinfo with
      | None => Some None
      | Some lines =>
          let scan := cpuinfoCoreScan lines in
          match unique_cpuinfo_cores scan with
          | _ :: _ => Some (Some (Z.of_nat (length (unique_cpuinfo_cores scan))))
          | [] =>
              if 0 <? cpu_cores_per_socket scan then
                let sockets := Z.max 1 (Z.of_nat (length (physical_ids scan))) in
                match mul32 (cpu_cores_per_socket scan) sockets with
                | Some count => Some (Some count)
                | None => None
                end
              else Some None
          end
      end
  end.

(** The keys the first loop of [collectCoreCount] inserts. *)
Definition sysfsCoreKey (entry : CpuDirectory) : option string :=
  if negb (isCpuDirectoryName (cpu_dir_name entry)) then None
  else
    match topology_core_id entry with
    | None => None
    | Some core_id => Some (coreKey (topology_package_id entry) core_id)
    end.

Section CpuFrequency.

(** [std::stod(text, &consumed)]: the value and [consumed], [None] for an
  exception.  The conversion is the library's; the probes are modelled
  for whatever it returns. *)
Variable stod : string -> option (float * nat).

(** [linux_utils::parseOptionalDouble]. *)
Definition parseOptionalDouble (input : string) : option float :=
let cleaned := trim input in
if String.eqb cleaned EmptyString then None
else
  let lower := toLower cleaned in
  if String.eqb lower "n/a" || String.eqb lower "na" || String.eqb lower "[not supported]"
  then None
  else
    match stod cleaned with
    | None => None
    | Some (value, consumed) => if (consumed =? 0)%nat then None else Some value
    end.

(** The two loops of [collectCpuFrequency], for one entry and for one
  line. *)
Definition sysfsFrequencyStep (mhz_values : list float) (entry : CpuDirectory) : list float :=
if negb (isCpuDirectoryName (cpu_dir_name entry)) then mhz_values
else
  match scaling_cur_freq entry with
  | Some khz =>
      if 0 <? khz then mhz_values ++ [PrimFloat.div (Z2double khz) 1000] else mhz_values
  | None => mhz_values
  end.

Definition cpuinfoFrequencyStep (mhz_values : list float) (line : string) : list float :=
if negb (startsWith line "cpu MHz") then mhz_values
else
  match find_char line ":" with
  | None => mhz_values
  | Some colon =>
      match parseOptionalDouble (substr_from line (colon + 1)) with
      | Some parsed =>
          if PrimFloat.ltb 0 parsed then mhz_values ++ [parsed] else mhz_values
      | None => mhz_values
      end
  end.

(** [collectCpuFrequency]; a [/proc/cpuinfo] that cannot be opened gives
  no line. *)
Definition collectCpuFrequency (cpu_entries : option (list CpuDirectory))
  (cpuinfo : option (list string)) : option float :=
let mhz_values :=
  match cpu_entries with
  | Some entries => fold_left sysfsFrequencyStep entries []
  | None => []
  end in
let mhz_values :=
  match mhz_values with
  | [] => fold_left cpuinfoFrequencyStep (value_or cpuinfo []) mhz_values
  | _ :: _ => mhz_values
  end in
match mhz_values with
| [] => None
| _ :: _ =>
    let sum := fold_left PrimFloat.add mhz_values 0%float in
    Some (PrimFloat.div sum (Z2double (Z.of_nat (length mhz_values))))
end.

(** [collectCpuMetrics], with the static state of [collectCpuUsagePercent]
  threaded through; the outer [None] is the overflow in
  [collectCoreCount]. *)
Definition collectCpuMetrics (cpu_entries : option (list CpuDirectory))
  (cpuinfo : option (list string)) (thermal : option (list ThermalZone))
  (hwmon : option (list HwmonChip)) (state : CpuUsageState) (stat : option ProcStat)
: option (CpuUsageState * CpuMetrics) :=
let name := collectName cpuinfo in
match collectCoreCount cpu_entries cpuinfo with
| None => None
| Some total_cores =>
    let total_threads :=
      collectThreadCount (option_map (map cpu_dir_name) cpu_entries) cpuinfo in
    let total_cores :=
      match total_cores, total_threads with
      | Some cores, Some threads => if threads <? cores then total_threads else total_cores
      | _, _ => total_cores
      end in
    let temperature_c := collectCpuTemperature thermal hwmon in
    let frequency_mhz := collectCpuFrequency cpu_entries cpuinfo in
    let (state', usage_percent) := collectCpuUsagePercent state stat in
    Some (state',
          {| cpu_name := name; cpu_total_cores := total_cores;
             cpu_total_threads := total_threads; cpu_temperature_c := temperature_c;
             cpu_frequency_mhz := frequency_mhz; cpu_usage_percent := usage_percent |})
end.

End CpuFrequency.

(* ===================================================================== *)
(** ** src/metrics/gpu.cpp: the lines of the external tool *)
(* ===================================================================== *)

Section NvidiaSmiOutput.

Variable stod : string -> option (float * nat).

(** The body of the loop of [collectGpusFromNvidiaSmi] for one line of
  the output, up to the six numbers: a line that is empty once trimmed
  and a line with fewer than seven fields are skipped, and [fields[0]]
  to [fields[6]] are read only after the test of the size. *)
Definition nvidiaSmiRow (line : string) : option NvidiaSmiRow :=
if String.eqb (trim line) EmptyString then None
else
  match splitByChar line "," with
  | Some (name :: temperature :: clock :: utilization :: power :: used :: total :: _) =>
      Some {| row_name := name;
              row_temperature := parseOptionalDouble stod temperature;
              row_clock := parseOptionalDouble stod clock;
              row_utilization := parseOptionalDouble stod utilization;
              row_power := parseOptionalDouble stod power;
              row_memory_used := parseOptionalDouble stod used;
              row_memory_total := parseOptionalDouble stod total |}
  | _ => None
  end.

(** The loop over the lines of the output.  An output that is empty once
  trimmed, for which the function returns at once, has only lines that
  the loop would skip. *)
Definition nvidiaSmiRows (lines : list string) : list NvidiaSmiRow :=
omap nvidiaSmiRow lines.

End NvidiaSmiOutput.

(** The lines of the output that give a record. *)
Definition givesRecord (line : string) : bool :=
  negb (allBlank line) && (7 <=? fieldCount line ",")%nat.

(* ===================================================================== *)
(** ** Order facts on doubles *)
(* ===================================================================== *)

Section FloatOrder.

Lemma SFcompare_antisym (x y : spec_float) (c : comparison) :
  SFcompare x y = Some c -> SFcompare y x = Some (CompOpp c).
Proof.
  destruct x as [sx|sx| |sx mx ex], y as [sy|sy| |sy my ey]; simpl;
    try discriminate;
    try (intros [= <-]; try destruct sx; try destruct sy; reflexivity).
  intros [= <-]. f_equal.
  pose proof (Pos.compare_cont_antisym mx my Eq) as Hm.
  change (CompOpp (PosDef.Pos.compare_cont Eq mx my) = PosDef.Pos.compare_cont Eq my mx) in Hm.
  destruct sx, sy; try reflexivity.
  - rewrite (Z.compare_antisym ex ey), <- Hm.
    destruct (ex ?= ey); reflexivity.
  - rewrite (Z.compare_antisym ex ey), <- Hm.
    destruct (ex ?= ey); reflexivity.
Qed.

Lemma ltb_leb (a b : float) : PrimFloat.ltb a b = true -> PrimFloat.leb a b = true.
Proof.
  rewrite ltb_spec, leb_spec. unfold SFltb, SFleb.
  destruct (SFcompare (Prim2SF a) (Prim2SF b)) as [[]|]; congruence.
Qed.

Lemma leb_not_ltb (a b : float) : PrimFloat.leb a b = true -> PrimFloat.ltb b a = false.
Proof.
  rewrite ltb_spec, leb_spec. unfold SFltb, SFleb.
  destruct (SFcompare (Prim2SF a) (Prim2SF b)) as [c|] eqn:E; [|discriminate].
  rewrite (SFcompare_antisym _ _ _ E). destruct c; simpl; congruence.
Qed.

Lemma SFcompare_defined (x y : spec_float) :
  x <> S754_nan -> y <> S754_nan -> exists c, SFcompare x y = Some c.
Proof.
  destruct x, y; simpl; intros; try congruence; eauto.
Qed.

Lemma not_ltb_leb (a b : float) :
  not_nan a -> not_nan b -> PrimFloat.ltb b a = false -> PrimFloat.leb a b = true.
Proof.
  unfold not_nan. intros Ha Hb. rewrite ltb_spec, leb_spec. unfold SFltb, SFleb.
  destruct (SFcompare_defined _ _ Ha Hb) as [c E]. rewrite E.
  rewrite (SFcompare_antisym _ _ _ E). destruct c; simpl; congruence.
Qed.

End FloatOrder.

(* ===================================================================== *)
(** ** Conversions and divisions never produce NaN *)
(* ===================================================================== *)

Section NoNaN.

Lemma shr_1_nonneg (mrs : shr_record) : 0 <= shr_m mrs -> 0 <= shr_m (shr_1 mrs).
Proof.
  destruct mrs as [m r s]. simpl.
  destruct m as [|[p|p|]|p]; simpl; lia.
Qed.

Lemma iter_pos_preserves {A : Type} (P : A -> Prop) (f : A -> A) :
  (forall a, P a -> P (f a)) -> forall n a, P a -> P (SpecFloat.iter_pos f n a).
Proof.
  intros Hf. induction n as [n IH|n IH|]; simpl; intros a Ha; auto.
Qed.

Lemma shr_nonneg (mrs : shr_record) (e n : Z) :
  0 <= shr_m mrs -> 0 <= shr_m (fst (shr mrs e n)).
Proof.
  intros H. unfold shr. destruct n; simpl; auto.
  apply (iter_pos_preserves (fun r : shr_record => 0 <= shr_m r)); auto using shr_1_nonneg.
Qed.

Lemma shr_record_of_loc_m (m : Z) (l : location) : shr_m (shr_record_of_loc m l) = m.
Proof. destruct l as [|[]]; reflexivity. Qed.

Lemma shr_fexp_nonneg (m e : Z) (l : location) :
  0 <= m -> 0 <= shr_m (fst (shr_fexp prec emax m e l)).
Proof.
  intros H. unfold shr_fexp. apply shr_nonneg. now rewrite shr_record_of_loc_m.
Qed.

Lemma round_nearest_even_nonneg (m : Z) (l : location) :
  0 <= m -> 0 <= round_nearest_even m l.
Proof.
  intros H. unfold round_nearest_even.
  destruct l as [|[]]; try destruct (Z.even m); lia.
Qed.

Lemma binary_round_aux_not_nan (sx : bool) (mx ex : Z) (lx : location) :
  0 <= mx -> binary_round_aux prec emax sx mx ex lx <> S754_nan.
Proof.
  intros H. unfold binary_round_aux.
  pose proof (shr_fexp_nonneg mx ex lx H) as H1.
  destruct (shr_fexp prec emax mx ex lx) as [mrs' e'] eqn:E1. simpl in H1.
  pose proof (shr_fexp_nonneg
                (round_nearest_even (shr_m mrs') (loc_of_shr_record mrs')) e' loc_Exact
                (round_nearest_even_nonneg _ _ H1)) as H2.
  destruct (shr_fexp prec emax _ e' loc_Exact) as [mrs2 e2] eqn:E2. simpl in H2.
  destruct (shr_m mrs2); try discriminate; try lia.
  destruct (e2 <=? emax - prec); discriminate.
Qed.

Lemma binary_round_not_nan (sx : bool) (mx : positive) (ex : Z) :
  binary_round prec emax sx mx ex <> S754_nan.
Proof.
  unfold binary_round.
  destruct (shl_align mx ex _) as [mz ez].
  apply binary_round_aux_not_nan. lia.
Qed.

Lemma binary_normalize_not_nan (m e : Z) (szero : bool) :
  binary_normalize prec emax m e szero <> S754_nan.
Proof.
  unfold binary_normalize. destruct m; try discriminate; apply binary_round_not_nan.
Qed.

Lemma SFldexp_not_nan (x : spec_float) (e : Z) :
  x <> S754_nan -> SFldexp prec emax x e <> S754_nan.
Proof.
  destruct x; simpl; auto. intros _. apply binary_round_not_nan.
Qed.

Lemma SFopp_not_nan (x : spec_float) : x <> S754_nan -> SFopp x <> S754_nan.
Proof. destruct x; simpl; congruence. Qed.

Lemma SF2Prim_not_nan (x : spec_float) : x <> S754_nan -> not_nan (SF2Prim x).
Proof.
  unfold not_nan. destruct x as [[]|[]| |s m e]; simpl; intros H;
    try (vm_compute; discriminate); try congruence.
  assert (Hl : Prim2SF (Z.ldexp (of_uint63 (Uint63.of_Z (Z.pos m))) e) <> S754_nan).
  { rewrite Z_ldexp_spec. apply SFldexp_not_nan.
    rewrite of_uint63_spec. apply binary_normalize_not_nan. }
  destruct s; auto. rewrite opp_spec. now apply SFopp_not_nan.
Qed.

Lemma Z2double_not_nan (z : Z) : not_nan (Z2double z).
Proof. apply SF2Prim_not_nan, binary_normalize_not_nan. Qed.

Lemma div_eucl_quot_nonneg (a : Z) (b : positive) :
  0 <= a -> 0 <= fst (Z.div_eucl a (Z.pos b)).
Proof.
  intros H. pose proof (Z.div_pos a (Z.pos b) H ltac:(lia)) as Hq.
  unfold Z.div in Hq. destruct (Z.div_eucl a (Z.pos b)). exact Hq.
Qed.

Lemma SFdiv_finite_not_nan (x : spec_float) (s : bool) (m : positive) (e : Z) :
  x <> S754_nan -> SFdiv prec emax x (S754_finite s m e) <> S754_nan.
Proof.
  destruct x as [sx|sx| |sx mx ex]; simpl; try congruence. intros _.
  unfold SFdiv_core_binary.
  set (m' := match _ with Z.pos _ => _ | Z0 => _ | Z.neg _ => _ end).
  assert (Hm' : 0 <= m').
  { subst m'. destruct (_ - _ - _); try lia. apply Z.shiftl_nonneg. lia. }
  pose proof (div_eucl_quot_nonneg m' m Hm') as Hq.
  destruct (Z.div_eucl m' (Z.pos m)) as [q r]. simpl in Hq.
  now apply binary_round_aux_not_nan.
Qed.

Lemma div_by_constant_not_nan (x d : float) (s : bool) (m : positive) (e : Z) :
  Prim2SF d = S754_finite s m e -> not_nan x -> not_nan (PrimFloat.div x d).
Proof.
  unfold not_nan. intros Hd Hx. rewrite div_spec, Hd.
  now apply SFdiv_finite_not_nan.
Qed.

End NoNaN.

(* ===================================================================== *)
(** ** The clamp to [0, 100] *)
(* ===================================================================== *)

Section Clamp.

(** The clamp written with [std::max] and [std::min] returns one of
    three things: the literal [0], the literal [100], or its argument
    when that lies strictly between them. *)
Lemma clamp_cases (v : float) :
  clampPercent v = 0%float
  \/ clampPercent v = 100%float
  \/ (clampPercent v = v /\ PrimFloat.ltb 0 v = true /\ PrimFloat.ltb v 100 = true).
Proof.
  unfold clampPercent, std_max, std_min.
  destruct (PrimFloat.ltb v 100) eqn:Hhi.
  - destruct (PrimFloat.ltb 0 v) eqn:Hlo; auto.
  - right. left. reflexivity.
Qed.

Lemma clampPercent_range (v : float) : in_range 0 100 (clampPercent v).
Proof.
  destruct (clamp_cases v) as [-> | [-> | (-> & Hlo & Hhi)]].
  - split; reflexivity.
  - split; reflexivity.
  - split; now apply ltb_leb.
Qed.

Lemma clampPercent_idempotent (v : float) :
  clampPercent (clampPercent v) = clampPercent v.
Proof.
  destruct (clamp_cases v) as [-> | [-> | (-> & Hlo & Hhi)]]; try reflexivity.
  unfold clampPercent, std_max, std_min. now rewrite Hhi, Hlo.
Qed.

Lemma clampPercent_not_negative (v : float) :
  PrimFloat.ltb (clampPercent v) 0 = false.
Proof. apply leb_not_ltb, clampPercent_range. Qed.

Lemma usageOfDeltas_clamp (idle_delta total_delta : Z) :
  usageOfDeltas idle_delta total_delta
  = clampPercent (usageFormula idle_delta total_delta).
Proof. reflexivity. Qed.

End Clamp.

(* ===================================================================== *)
(** ** linux_utils.hpp: temperature normalisation *)
(* ===================================================================== *)

Section Temperature.

Lemma scaledCelsius_not_nan (raw_value : Z) : not_nan (scaledCelsius raw_value).
Proof.
  unfold scaledCelsius.
  destruct (PrimFloat.ltb 1000 (abs (Z2double raw_value))).
  - eapply div_by_constant_not_nan; [reflexivity | apply Z2double_not_nan].
  - apply Z2double_not_nan.
Qed.

Lemma constant_not_nan_0 : not_nan 0%float.
Proof. unfold not_nan. vm_compute. discriminate. Qed.

Lemma constant_not_nan_150 : not_nan 150%float.
Proof. unfold not_nan. vm_compute. discriminate. Qed.

End Temperature.

(* ===================================================================== *)
(** ** Rounding to binary64: size of the result *)
(* ===================================================================== *)

Section Digits.

(** [digits2_pos p] is the number of binary digits of [p]. *)
Lemma digits2_pos_bounds (p : positive) :
  2 ^ (Z.pos (digits2_pos p) - 1) <= Z.pos p < 2 ^ Z.pos (digits2_pos p).
Proof.
  induction p as [p IH|p IH|]; cbn [digits2_pos].
  - rewrite Pos2Z.inj_succ.
    replace (Z.succ (Z.pos (digits2_pos p)) - 1) with (Z.succ (Z.pos (digits2_pos p) - 1)) by lia.
    rewrite !Z.pow_succ_r by lia. lia.
  - rewrite Pos2Z.inj_succ.
    replace (Z.succ (Z.pos (digits2_pos p)) - 1) with (Z.succ (Z.pos (digits2_pos p) - 1)) by lia.
    rewrite !Z.pow_succ_r by lia. lia.
  - simpl. lia.
Qed.

Lemma Zdigits2_bounds (m : Z) :
  0 < m -> 2 ^ (Zdigits2 m - 1) <= m < 2 ^ Zdigits2 m.
Proof.
  destruct m as [|p|p]; try lia. intros _. apply digits2_pos_bounds.
Qed.

Lemma Zdigits2_ge (m : Z) (k : Z) : 0 <= k -> 2 ^ k <= m -> k < Zdigits2 m.
Proof.
  intros Hk Hm.
  assert (0 < m) by (pose proof (Z.pow_pos_nonneg 2 k); lia).
  destruct (Zdigits2_bounds m H) as [_ Hhi].
  destruct (Z.lt_ge_cases k (Zdigits2 m)) as [|Hge]; [assumption|].
  assert (0 <= Zdigits2 m) by (destruct m; simpl; lia).
  pose proof (Z.pow_le_mono_r 2 (Zdigits2 m) k ltac:(lia) Hge). lia.
Qed.

Lemma shr_1_halves (mrs : shr_record) :
  0 <= shr_m mrs -> shr_m (shr_1 mrs) = shr_m mrs / 2.
Proof.
  destruct mrs as [m r s]. simpl. intros Hm.
  destruct m as [|[p|p|]|p]; simpl; try lia; try reflexivity.
  - rewrite Pos2Z.inj_xI. apply Z.div_unique with (r := 1); lia.
  - rewrite Pos2Z.inj_xO. apply Z.div_unique with (r := 0); lia.
Qed.

(** Iterating the one-bit shift divides by a power of two. *)
Lemma iter_shr_1_divides (p : positive) (m : Z) (k : Z) (mrs : shr_record) :
  0 <= m -> 0 <= k -> shr_m mrs = m / 2 ^ k ->
  shr_m (SpecFloat.iter_pos shr_1 p mrs) = m / 2 ^ (k + Z.pos p).
Proof.
  intros Hm. revert k mrs.
  assert (Hstep : forall k mrs, 0 <= k -> shr_m mrs = m / 2 ^ k ->
                                shr_m (shr_1 mrs) = m / 2 ^ (k + 1)).
  { intros k mrs Hk E. rewrite shr_1_halves.
    - rewrite E, Z.pow_add_r, Z.pow_1_r by lia.
      rewrite Z.div_div; [reflexivity | | lia].
      pose proof (Z.pow_pos_nonneg 2 k). lia.
    - rewrite E. apply Z.div_pos; [lia|]. apply Z.pow_pos_nonneg; lia. }
  induction p as [p IH|p IH|]; intros k mrs Hk E; cbn [SpecFloat.iter_pos].
  - rewrite (IH (k + 1 + Z.pos p) (SpecFloat.iter_pos shr_1 p (shr_1 mrs))).
    + f_equal. f_equal. lia.
    + lia.
    + apply IH; [lia|]. now apply Hstep.
  - rewrite (IH (k + Z.pos p) (SpecFloat.iter_pos shr_1 p mrs)).
    + f_equal. f_equal. lia.
    + lia.
    + now apply IH.
  - now apply Hstep.
Qed.

End Digits.

Section RoundBig.

Local Abbreviation emin64 := (SpecFloat.emin prec emax).

(** Shifting a mantissa of at least 53 digits down to 53 digits keeps
    it at or above 2^52 and does not lower the exponent. *)
Lemma shr_fexp_big (m e : Z) (l : location) :
  2 ^ 52 <= m -> emin64 <= e ->
  2 ^ 52 <= shr_m (fst (shr_fexp prec emax m e l))
  /\ e <= snd (shr_fexp prec emax m e l).
Proof.
  intros Hm He.
  pose proof (Zdigits2_ge m 52 ltac:(lia) Hm) as HD.
  assert (Hpos : 0 < m) by lia.
  destruct (Zdigits2_bounds m Hpos) as [Hlo _].
  unfold shr_fexp, fexp.
  change (SpecFloat.emin prec emax) with (-1074) in *. change prec with 53.
  rewrite Z.max_l by lia.
  replace (Zdigits2 m + e - 53 - e) with (Zdigits2 m - 53) by lia.
  unfold shr. destruct (Zdigits2 m - 53) as [|p|p] eqn:En; simpl.
  - now rewrite shr_record_of_loc_m.
  - split; [|lia].
    rewrite (iter_shr_1_divides p m 0) by (try lia; now rewrite shr_record_of_loc_m, Z.div_1_r).
    apply Z.div_le_lower_bound; [apply Z.pow_pos_nonneg; lia|].
    rewrite Z.add_0_l, <- Z.pow_add_r by lia.
    replace (Z.pos p + 52) with (Zdigits2 m - 1) by lia. exact Hlo.
  - lia.
Qed.

Lemma round_nearest_even_ge (m : Z) (l : location) : m <= round_nearest_even m l.
Proof.
  unfold round_nearest_even. destruct l as [|[]]; try destruct (Z.even m); lia.
Qed.

(** Rounding a mantissa of at least 53 digits gives a finite number
    whose exponent is not below the one given, or an infinity. *)
Lemma binary_round_aux_big (sx : bool) (mx ex : Z) (lx : location) :
  2 ^ 52 <= mx -> emin64 <= ex ->
  binary_round_aux prec emax sx mx ex lx = S754_infinity sx
  \/ exists m e, binary_round_aux prec emax sx mx ex lx = S754_finite sx m e
                 /\ ex <= e.
Proof.
  intros Hm He. unfold binary_round_aux.
  destruct (shr_fexp_big mx ex lx Hm He) as [H1 H2].
  destruct (shr_fexp prec emax mx ex lx) as [mrs' e']. simpl in H1, H2.
  pose proof (round_nearest_even_ge (shr_m mrs') (loc_of_shr_record mrs')) as Hr.
  destruct (shr_fexp_big (round_nearest_even (shr_m mrs') (loc_of_shr_record mrs'))
              e' loc_Exact ltac:(lia) ltac:(lia)) as [H3 H4].
  destruct (shr_fexp prec emax _ e' loc_Exact) as [mrs'' e'']. simpl in H3, H4.
  destruct (shr_m mrs'') as [|m|m]; try lia.
  destruct (e'' <=? emax - prec); [right; exists m, e''; split; [reflexivity | lia] | now left].
Qed.

End RoundBig.

(* ===================================================================== *)
(** ** The conversion of an integer *)
(* ===================================================================== *)

Section Conversion.

(** Below 2^63 the rounding [Z2double] specifies is the one the
    primitive conversion performs. *)
Lemma Z2double_nonneg (z : Z) :
  0 <= z < 2 ^ 63 ->
  Z2double z = of_uint63 (Uint63.of_Z z)
  /\ Prim2SF (Z2double z) = binary_normalize prec emax z 0 false.
Proof.
  intros Hz.
  assert (E : Uint63.to_Z (Uint63.of_Z z) = z).
  { rewrite Uint63.of_Z_spec. apply Z.mod_small. exact Hz. }
  pose proof (of_uint63_spec (Uint63.of_Z z)) as Hspec. rewrite E in Hspec.
  assert (Hconv : Z2double z = of_uint63 (Uint63.of_Z z)).
  { unfold Z2double. rewrite <- Hspec. apply SF2Prim_Prim2SF. }
  split; [exact Hconv | now rewrite Hconv].
Qed.

Lemma binary_round_aux_opp (mx ex : Z) (lx : location) :
  binary_round_aux prec emax true mx ex lx
  = SFopp (binary_round_aux prec emax false mx ex lx).
Proof.
  unfold binary_round_aux.
  destruct (shr_fexp prec emax mx ex lx) as [mrs' e'].
  destruct (shr_fexp prec emax _ e' loc_Exact) as [mrs'' e''].
  destruct (shr_m mrs''); try reflexivity.
  destruct (e'' <=? emax - prec); reflexivity.
Qed.

Lemma binary_normalize_neg (p : positive) :
  binary_normalize prec emax (Z.neg p) 0 false
  = SFopp (binary_normalize prec emax (Z.pos p) 0 false).
Proof.
  unfold binary_normalize, binary_round.
  destruct (shl_align p 0 _) as [mz ez]. apply binary_round_aux_opp.
Qed.

(** The conversion of a negative integer is the negation of the
    conversion of its magnitude. *)
Lemma Z2double_neg (z : Z) :
  0 < z < 2 ^ 63 ->
  Z2double (- z) = PrimFloat.opp (Z2double z)
  /\ Prim2SF (Z2double (- z)) = SFopp (binary_normalize prec emax z 0 false).
Proof.
  intros Hz. destruct z as [|p|p]; try lia.
  destruct (Z2double_nonneg (Z.pos p) ltac:(lia)) as [Hc Hs].
  assert (E : Z2double (- Z.pos p) = PrimFloat.opp (Z2double (Z.pos p))).
  { unfold Z2double at 1. change (- Z.pos p) with (Z.neg p).
    rewrite binary_normalize_neg, <- Hs, <- opp_spec. apply SF2Prim_Prim2SF. }
  split; [exact E|]. now rewrite E, opp_spec, Hs.
Qed.

Lemma fastDouble_Z2double (z : Z) :
  - 2 ^ 63 < z < 2 ^ 63 -> fastDouble z = Z2double z.
Proof.
  intros Hz. unfold fastDouble. destruct (z <? 0) eqn:E.
  - apply Z.ltb_lt in E.
    destruct (Z2double_neg (- z) ltac:(lia)) as [Hn _].
    destruct (Z2double_nonneg (- z) ltac:(lia)) as [Hp _].
    rewrite Z.opp_involutive in Hn. now rewrite Hn, Hp.
  - apply Z.ltb_ge in E. symmetry. now apply Z2double_nonneg.
Qed.

Lemma Pos_iter_xO (p d : positive) : Z.pos (Pos.iter xO p d) = Z.pos p * 2 ^ Z.pos d.
Proof.
  induction d as [|d IH] using Pos.peano_ind.
  - simpl. lia.
  - rewrite Pos.iter_succ, Pos2Z.inj_xO, IH, Pos2Z.inj_succ, Z.pow_succ_r by lia. lia.
Qed.

(** An integer of at least [k + 1] digits converts to a finite number
    whose exponent is at least [k - 52], or to an infinity. *)
Lemma binary_normalize_big (p : positive) (k : Z) :
  0 <= k <= 52 -> 2 ^ k <= Z.pos p ->
  binary_normalize prec emax (Z.pos p) 0 false = S754_infinity false
  \/ exists m e, binary_normalize prec emax (Z.pos p) 0 false = S754_finite false m e
                 /\ k - 52 <= e.
Proof.
  intros Hk Hp. unfold binary_normalize, binary_round.
  pose proof (Zdigits2_ge (Z.pos p) k ltac:(lia) Hp) as HD. simpl in HD.
  destruct (digits2_pos_bounds p) as [Hlo _].
  unfold shl_align, fexp.
  change (SpecFloat.emin prec emax) with (-1074). change prec with 53.
  rewrite Z.add_0_r, Z.max_l, Z.sub_0_r by lia.
  destruct (Z.pos (digits2_pos p) - 53) as [|d|d] eqn:Ed.
  - destruct (binary_round_aux_big false (Z.pos p) 0 loc_Exact) as [H | (m & e & H & He)].
    + replace 52 with (Z.pos (digits2_pos p) - 1) by lia. exact Hlo.
    + change (SpecFloat.emin prec emax) with (-1074). lia.
    + now left.
    + right. exists m, e. split; [exact H | lia].
  - destruct (binary_round_aux_big false (Z.pos p) 0 loc_Exact) as [H | (m & e & H & He)].
    + assert (2 ^ 52 <= 2 ^ (Z.pos (digits2_pos p) - 1))
        by (apply Z.pow_le_mono_r; lia). lia.
    + change (SpecFloat.emin prec emax) with (-1074). lia.
    + now left.
    + right. exists m, e. split; [exact H | lia].
  - destruct (binary_round_aux_big false (Z.pos (Pos.iter xO p d)) (Z.neg d) loc_Exact)
      as [H | (m & e & H & He)].
    + rewrite Pos_iter_xO.
      replace 52 with (Z.pos (digits2_pos p) - 1 + Z.pos d) by lia.
      rewrite Z.pow_add_r by lia.
      apply Z.mul_le_mono_nonneg_r; [apply Z.pow_nonneg; lia | exact Hlo].
    + change (SpecFloat.emin prec emax) with (-1074). lia.
    + now left.
    + right. exists m, e. split; [exact H | lia].
Qed.

End Conversion.

(* ===================================================================== *)
(** ** Readings of large magnitude *)
(* ===================================================================== *)

Section LargeReadings.

Local Abbreviation thousand := (S754_finite false 8796093022208000 (-43)).

Lemma Prim2SF_1000 : Prim2SF 1000 = thousand.
Proof. vm_compute. reflexivity. Qed.

Lemma Prim2SF_150 : Prim2SF 150 = S754_finite false 5277655813324800 (-45).
Proof. vm_compute. reflexivity. Qed.

Lemma Prim2SF_0 : Prim2SF 0 = S754_zero false.
Proof. vm_compute. reflexivity. Qed.

(** A number in normal form above the least exponent has a mantissa of
    53 digits. *)
Lemma valid_mantissa_53 (s : bool) (m : positive) (e : Z) :
  SpecFloat.valid_binary prec emax (S754_finite s m e) = true -> -1074 < e ->
  2 ^ 52 <= Z.pos m < 2 ^ 53.
Proof.
  intros Hv He. simpl in Hv. unfold bounded, canonical_mantissa, fexp in Hv.
  apply andb_true_iff in Hv as [Hc _]. apply Z.eqb_eq in Hc.
  change (SpecFloat.emin prec emax) with (-1074) in Hc. change prec with 53 in Hc.
  assert (Hd : Z.pos (digits2_pos m) = 53) by lia.
  pose proof (digits2_pos_bounds m) as Hb. rewrite Hd in Hb. exact Hb.
Qed.

(** The quotient by 1000 of a number of exponent [e] above -1064 is an
    infinity or has an exponent of at least [e - 10]. *)
Lemma SFdiv_1000 (s : bool) (m : positive) (e : Z) :
  2 ^ 52 <= Z.pos m < 2 ^ 53 -> -1064 <= e ->
  SFdiv prec emax (S754_finite s m e) thousand = S754_infinity s
  \/ exists m' e', SFdiv prec emax (S754_finite s m e) thousand = S754_finite s m' e'
                   /\ e - 10 <= e'.
Proof.
  intros Hm He. unfold SFdiv, SFdiv_core_binary.
  assert (Hd1 : Zdigits2 (Z.pos m) = 53).
  { destruct (Zdigits2_bounds (Z.pos m) ltac:(lia)) as [Hlo Hhi].
    assert (Zdigits2 (Z.pos m) - 1 < 53)
      by (apply (Z.pow_lt_mono_r_iff 2); lia).
    assert (52 < Zdigits2 (Z.pos m)).
    { apply (Z.pow_lt_mono_r_iff 2); try lia.
      simpl. pose proof (Pos2Z.is_pos (digits2_pos m)). lia. }
    lia. }
  rewrite Hd1.
  change (Zdigits2 8796093022208000) with 53.
  unfold fexp. change (SpecFloat.emin prec emax) with (-1074). change prec with 53.
  replace (Z.min (Z.max (53 + e - (53 + -43) - 53) (-1074)) (e - -43)) with (e - 10) by lia.
  replace (e - -43 - (e - 10)) with 53 by lia.
  destruct (IntDef.Z.div_eucl (Z.shiftl (Z.pos m) 53) 8796093022208000) as [q r] eqn:Ediv.
  assert (Hq : 2 ^ 52 <= q).
  { change IntDef.Z.div_eucl with Z.div_eucl in Ediv.
    pose proof (Z.div_eucl_eq (Z.shiftl (Z.pos m) 53) 8796093022208000 ltac:(lia)) as Heq.
    pose proof (Z.mod_pos_bound (Z.shiftl (Z.pos m) 53) 8796093022208000 ltac:(lia)) as Hr.
    unfold Z.modulo in Hr. rewrite Ediv in Heq, Hr.
    rewrite Z.shiftl_mul_pow2 in Heq by lia.
    change (2 ^ 53) with 9007199254740992 in *.
    change (2 ^ 52) with 4503599627370496 in *. lia. }
  rewrite xorb_false_r.
  destruct (binary_round_aux_big s q (e - 10) (new_location 8796093022208000 r))
    as [H | (m' & e' & H & He')].
  - exact Hq.
  - change (SpecFloat.emin prec emax) with (-1074). lia.
  - now left.
  - right. now exists m', e'.
Qed.

(** What the conversion of a reading of magnitude 2^k or more looks
    like. *)
Lemma Z2double_big (z k : Z) :
  0 <= k <= 52 -> 2 ^ k <= z < 2 ^ 63 ->
  Prim2SF (Z2double z) = S754_infinity false
  \/ exists m e, Prim2SF (Z2double z) = S754_finite false m e
                 /\ k - 52 <= e /\ 2 ^ 52 <= Z.pos m < 2 ^ 53.
Proof.
  intros Hk Hz.
  assert (0 < 2 ^ k) by (apply Z.pow_pos_nonneg; lia).
  destruct z as [|p|p]; try lia.
  destruct (Z2double_nonneg (Z.pos p) ltac:(lia)) as [_ Hs].
  destruct (binary_normalize_big p k Hk ltac:(lia)) as [H' | (m & e & H' & He)].
  - left. now rewrite Hs.
  - right. exists m, e. rewrite Hs. split; [exact H'|]. split; [exact He|].
    apply (valid_mantissa_53 false m e); [|lia].
    rewrite <- H', <- Hs. apply Prim2SF_valid.
Qed.

Lemma Z2double_big_neg (z k : Z) :
  0 <= k <= 52 -> 2 ^ k <= z < 2 ^ 63 ->
  Prim2SF (Z2double (- z)) = S754_infinity true
  \/ exists m e, Prim2SF (Z2double (- z)) = S754_finite true m e
                 /\ k - 52 <= e /\ 2 ^ 52 <= Z.pos m < 2 ^ 53.
Proof.
  intros Hk Hz.
  assert (0 < 2 ^ k) by (apply Z.pow_pos_nonneg; lia).
  destruct (Z2double_neg z ltac:(lia)) as [Hn _].
  rewrite Hn, opp_spec.
  destruct (Z2double_big z k Hk Hz) as [H' | (m & e & H' & He)].
  - left. now rewrite H'.
  - right. exists m, e. now rewrite H'.
Qed.

(** A double of exponent -42 or more exceeds 1000 in magnitude, and the
    test of the code takes the dividing branch. *)
Lemma exceeds_1000 (c : float) (s : bool) :
  (Prim2SF c = S754_infinity s
   \/ exists m e, Prim2SF c = S754_finite s m e /\ -42 <= e) ->
  PrimFloat.ltb 1000 (PrimFloat.abs c) = true.
Proof.
  intros H. rewrite ltb_spec, abs_spec, Prim2SF_1000.
  destruct H as [-> | (m & e & -> & He)]; [reflexivity|].
  unfold SFltb. cbn -[Z.compare].
  now rewrite (proj2 (Z.compare_lt_iff (-43) e)) by lia.
Qed.

(** The shape of the value under test for a reading whose conversion
    has exponent [k] or more, [k] from -42 upwards. *)
Lemma scaledCelsius_large (raw_value k : Z) (s : bool) :
  -42 <= k ->
  (Prim2SF (Z2double raw_value) = S754_infinity s
   \/ exists m e, Prim2SF (Z2double raw_value) = S754_finite s m e
                  /\ k <= e /\ 2 ^ 52 <= Z.pos m < 2 ^ 53) ->
  Prim2SF (scaledCelsius raw_value) = S754_infinity s
  \/ exists m e, Prim2SF (scaledCelsius raw_value) = S754_finite s m e /\ k - 10 <= e.
Proof.
  intros Hk H. unfold scaledCelsius.
  rewrite (exceeds_1000 (Z2double raw_value) s).
  - rewrite div_spec, Prim2SF_1000.
    destruct H as [-> | (m & e & -> & He & Hm)];
      [left; destruct s; reflexivity|].
    destruct (SFdiv_1000 s m e Hm ltac:(lia)) as [H' | (m' & e' & H' & He')].
    + now left.
    + right. exists m', e'. split; [exact H' | lia].
  - destruct H as [H | (m & e & H & He & _)]; [now left|].
    right. exists m, e. split; [exact H | lia].
Qed.

(** Readings of 2^18 and more are rejected: the quotient exceeds 150. *)
Lemma large_positive_rejected (raw_value : Z) :
  2 ^ 18 <= raw_value < 2 ^ 63 ->
  PrimFloat.ltb 1000 (PrimFloat.abs (Z2double raw_value)) = true
  /\ normalizeTemperatureC raw_value = None.
Proof.
  intros Hz.
  pose proof (Z2double_big raw_value 18 ltac:(lia) Hz) as Hshape.
  split.
  - apply (exceeds_1000 _ false).
    destruct Hshape as [H | (m & e & H & He & _)]; [now left|].
    right. exists m, e. split; [exact H | lia].
  - assert (H150 : PrimFloat.ltb 150 (scaledCelsius raw_value) = true).
    { rewrite ltb_spec, Prim2SF_150.
      destruct (scaledCelsius_large raw_value (18 - 52) false ltac:(lia) Hshape)
        as [-> | (m & e & -> & He)]; [reflexivity|].
      unfold SFltb. cbn -[Z.compare].
      now rewrite (proj2 (Z.compare_lt_iff (-45) e)) by lia. }
    unfold normalizeTemperatureC. cbv zeta. rewrite H150, orb_true_r. reflexivity.
Qed.

(** Readings of -1024 and less are rejected: the quotient is negative. *)
Lemma large_negative_rejected (raw_value : Z) :
  - 2 ^ 63 < raw_value <= - 2 ^ 10 ->
  PrimFloat.ltb 1000 (PrimFloat.abs (Z2double raw_value)) = true
  /\ normalizeTemperatureC raw_value = None.
Proof.
  intros Hz.
  pose proof (Z2double_big_neg (- raw_value) 10 ltac:(lia) ltac:(lia)) as Hshape.
  rewrite Z.opp_involutive in Hshape.
  split.
  - apply (exceeds_1000 _ true).
    destruct Hshape as [H | (m & e & H & He & _)]; [now left|].
    right. exists m, e. split; [exact H | lia].
  - assert (H0 : PrimFloat.ltb (scaledCelsius raw_value) 0 = true).
    { rewrite ltb_spec, Prim2SF_0.
      destruct (scaledCelsius_large raw_value (10 - 52) true ltac:(lia) Hshape)
        as [-> | (m & e & -> & He)]; reflexivity. }
    unfold normalizeTemperatureC. cbv zeta. rewrite H0. reflexivity.
Qed.

End LargeReadings.

(* ===================================================================== *)
(** ** The result read on the integer *)
(* ===================================================================== *)

Section IntegerRule.

Lemma agreesFrom_spec (count : nat) (lo v : Z) :
  agreesFrom lo count = true -> lo <= v < lo + Z.of_nat count -> agreesOn v = true.
Proof.
  revert lo. induction count as [|n IH]; intros lo H Hv; [lia|].
  simpl in H. apply andb_true_iff in H as [H0 H1].
  destruct (Z.eq_dec v lo) as [->|Hne]; [exact H0|].
  apply (IH (lo + 1)); [exact H1 | lia].
Qed.

Lemma normalizeFast_eq (raw_value : Z) :
  - 2 ^ 63 < raw_value < 2 ^ 63 -> normalizeFast raw_value = normalizeTemperatureC raw_value.
Proof.
  intros H. unfold normalizeFast, normalizeTemperatureC, scaledCelsius.
  now rewrite (fastDouble_Z2double raw_value H).
Qed.

Lemma expectedFast_eq (raw_value : Z) :
  - 2 ^ 63 < raw_value < 2 ^ 63 -> expectedFast raw_value = expectedCelsius raw_value.
Proof.
  intros H. unfold expectedFast, expectedCelsius.
  now rewrite (fastDouble_Z2double raw_value H).
Qed.

Lemma agreesOn_spec (raw_value : Z) :
  - 2 ^ 63 < raw_value < 2 ^ 63 -> agreesOn raw_value = true ->
  PrimFloat.ltb 1000 (PrimFloat.abs (Z2double raw_value)) = (1000 <? Z.abs raw_value)
  /\ normalizeTemperatureC raw_value = expectedCelsius raw_value.
Proof.
  intros Hr. unfold agreesOn.
  rewrite (normalizeFast_eq raw_value Hr), (expectedFast_eq raw_value Hr),
    (fastDouble_Z2double raw_value Hr).
  intros H. apply andb_true_iff in H as [Ht Hv]. split.
  - now apply Bool.eqb_prop.
  - destruct (normalizeTemperatureC raw_value) as [a|], (expectedCelsius raw_value) as [b|];
      try discriminate; [|reflexivity].
    apply FloatAxioms.Leibniz.eqb_spec in Hv. now subst.
Qed.

(** Every reading from -1023 to 2^18 - 1, checked one by one. *)
Lemma agrees_on_window : agreesFrom (-1023) 263167 = true.
Proof. vm_compute. reflexivity. Qed.

(** The least [long long]. *)
Lemma least_reading_rejected :
  PrimFloat.ltb 1000 (PrimFloat.abs (Z2double (- 2 ^ 63))) = true
  /\ normalizeTemperatureC (- 2 ^ 63) = None.
Proof. split; vm_compute; reflexivity. Qed.

(** On every [long long] the threshold test falls as the integer does,
    and the result is the one the integer determines. *)
Lemma normalizeTemperatureC_integer_rule (raw_value : Z) :
  - 2 ^ 63 <= raw_value < 2 ^ 63 ->
  PrimFloat.ltb 1000 (PrimFloat.abs (Z2double raw_value)) = (1000 <? Z.abs raw_value)
  /\ normalizeTemperatureC raw_value = expectedCelsius raw_value.
Proof.
  intros Hr.
  change (2 ^ 63) with 9223372036854775808 in Hr.
  destruct (Z_lt_le_dec raw_value (-1023)) as [Hlo|Hlo].
  - assert (Hexp : expectedCelsius raw_value = None).
    { unfold expectedCelsius.
      rewrite (proj2 (Z.leb_gt 0 raw_value)) by lia.
      rewrite (proj2 (Z.ltb_ge 1000 raw_value)) by lia. reflexivity. }
    assert (Habs : (1000 <? Z.abs raw_value) = true) by (apply Z.ltb_lt; lia).
    rewrite Hexp, Habs.
    destruct (Z.eq_dec raw_value (- 2 ^ 63)) as [->|Hne].
    + apply least_reading_rejected.
    + apply large_negative_rejected.
      change (2 ^ 63) with 9223372036854775808 in *.
      change (2 ^ 10) with 1024. lia.
  - destruct (Z_lt_le_dec raw_value (2 ^ 18)) as [Hhi|Hhi];
      change (2 ^ 18) with 262144 in Hhi.
    + apply agreesOn_spec.
      * change (2 ^ 63) with 9223372036854775808. lia.
      * apply (agreesFrom_spec 263167 (-1023)); [apply agrees_on_window|].
        replace (Z.of_nat 263167) with 263167 by (vm_compute; reflexivity). lia.
    + assert (Hexp : expectedCelsius raw_value = None).
      { unfold expectedCelsius.
        rewrite (proj2 (Z.leb_gt raw_value 150)) by lia.
        rewrite (proj2 (Z.leb_gt raw_value 150000)) by lia.
        now rewrite !andb_false_r. }
      assert (Habs : (1000 <? Z.abs raw_value) = true) by (apply Z.ltb_lt; lia).
      rewrite Hexp, Habs.
      apply large_positive_rejected.
      change (2 ^ 63) with 9223372036854775808.
      change (2 ^ 18) with 262144. lia.
Qed.

End IntegerRule.

(* ===================================================================== *)
(** ** [normalizeTemperatureC] *)
(* ===================================================================== *)

Section TemperatureClaim.

(** C6.  For every raw reading, the value under test is the reading as
    a double, divided by 1000 when its magnitude exceeds 1000; it is
    returned, unchanged, exactly when it lies in [0, 150], and nothing
    is returned otherwise: 151 and -5 are rejected, not moved to 150
    and 0.  On every [long long] the magnitude of the double exceeds
    1000 exactly when that of the integer does, and the result is the
    one the integer determines: the reading itself from 0 to 150, the
    reading divided by 1000 from 1001 to 150000, nothing elsewhere. *)
Theorem normalizeTemperatureC_spec (raw_value : Z) :
  let celsius := Z2double raw_value in
  let scaled := if PrimFloat.ltb 1000 (PrimFloat.abs celsius)
                then PrimFloat.div celsius 1000 else celsius in
  (in_range 0 150 scaled -> normalizeTemperatureC raw_value = Some scaled)
  /\ (~ in_range 0 150 scaled -> normalizeTemperatureC raw_value = None)
  /\ (forall r, normalizeTemperatureC raw_value = Some r ->
                r = scaled /\ in_range 0 150 r)
  /\ (- 2 ^ 63 <= raw_value < 2 ^ 63 ->
      PrimFloat.ltb 1000 (PrimFloat.abs celsius) = (1000 <? Z.abs raw_value)
      /\ normalizeTemperatureC raw_value
         = if (0 <=? raw_value) && (raw_value <=? 150)
           then Some (Z2double raw_value)
           else if (1000 <? raw_value) && (raw_value <=? 150000)
                then Some (PrimFloat.div (Z2double raw_value) 1000)
                else None)
  /\ normalizeTemperatureC 45000 = Some 45%float
  /\ normalizeTemperatureC 150 = Some 150%float
  /\ normalizeTemperatureC 150000 = Some 150%float
  /\ normalizeTemperatureC 151 = None
  /\ normalizeTemperatureC 150001 = None
  /\ normalizeTemperatureC 1000 = None
  /\ normalizeTemperatureC (-5) = None
  /\ normalizeTemperatureC (-45000) = None.
Proof.
  intros celsius scaled.
  assert (Hs : scaledCelsius raw_value = scaled) by reflexivity.
  pose proof (scaledCelsius_not_nan raw_value) as Hnan. rewrite Hs in Hnan.
  assert (Hiff : in_range 0 150 scaled <->
                 PrimFloat.ltb scaled 0 || PrimFloat.ltb 150 scaled = false).
  { unfold in_range. rewrite orb_false_iff. split.
    - intros [H0 H150]. split; now apply leb_not_ltb.
    - intros [H0 H150]. split; apply not_ltb_leb;
        auto using constant_not_nan_0, constant_not_nan_150. }
  assert (Hcode : normalizeTemperatureC raw_value =
                  if PrimFloat.ltb scaled 0 || PrimFloat.ltb 150 scaled
                  then None else Some scaled) by reflexivity.
  split; [|split; [|split; [|split]]].
  - intros H. apply Hiff in H. now rewrite Hcode, H.
  - intros H. rewrite Hcode.
    destruct (PrimFloat.ltb scaled 0 || PrimFloat.ltb 150 scaled) eqn:E; auto.
    exfalso. apply H, Hiff. reflexivity.
  - intros r. rewrite Hcode.
    destruct (PrimFloat.ltb scaled 0 || PrimFloat.ltb 150 scaled) eqn:E; [discriminate|].
    intros [= <-]. split; [reflexivity | apply Hiff; reflexivity].
  - intros Hw. exact (normalizeTemperatureC_integer_rule raw_value Hw).
  - repeat split; vm_compute; reflexivity.
Qed.

End TemperatureClaim.

(* ===================================================================== *)
(** ** cpu.cpp: the delta sampler *)
(* ===================================================================== *)

Section Sampler.

Lemma u64_range (z : Z) : 0 <= u64 z < 2 ^ 64.
Proof. unfold u64. apply Z.mod_pos_bound. lia. Qed.

Lemma u64_small (z : Z) : 0 <= z < 2 ^ 64 -> u64 z = z.
Proof. unfold u64. apply Z.mod_small. Qed.

Lemma ticks_of_fitting_counters (s : ProcStat) :
  counters_fit s ->
  idle_ticks_of s = idle s + iowait s
  /\ total_ticks_of s
     = user s + nice s + system s + idle s + iowait s + irq s + softirq s + steal s.
Proof.
  unfold counters_fit, idle_ticks_of, total_ticks_of. intros H.
  split; apply u64_small; lia.
Qed.

(** A successful read always leaves the fresh counters as the baseline. *)
Lemma sampler_stores_baseline (st : CpuUsageState) (s : ProcStat) :
  cpu_tag s = "cpu"%string ->
  fst (collectCpuUsagePercent st (Some s))
  = {| prev_idle := idle_ticks_of s; prev_total := total_ticks_of s;
       initialized := true |}.
Proof.
  intros Htag. unfold collectCpuUsagePercent. rewrite Htag. simpl.
  destruct (negb (initialized st) || _ || _); [reflexivity|].
  destruct (_ =? 0); reflexivity.
Qed.

(** Reachable sampler states stay within [unsigned long long]. *)
Lemma sampler_state_in_range (st : CpuUsageState) (stat : option ProcStat) :
  state_in_range st -> state_in_range (fst (collectCpuUsagePercent st stat)).
Proof.
  intros Hst. destruct stat as [s|]; [|exact Hst].
  unfold collectCpuUsagePercent.
  destruct (negb (String.eqb (cpu_tag s) "cpu")); [exact Hst|].
  destruct (negb (initialized st) || _ || _);
    [|destruct (_ =? 0)]; split; apply u64_range.
Qed.

Lemma sampler_initial_in_range : state_in_range CpuUsageState_initial.
Proof. unfold state_in_range. simpl. lia. Qed.

Lemma sampler_rebaseline (st : CpuUsageState) (s : ProcStat) :
  cpu_tag s = "cpu"%string ->
  initialized st = false
  \/ total_ticks_of s < prev_total st
  \/ idle_ticks_of s < prev_idle st ->
  snd (collectCpuUsagePercent st (Some s)) = None.
Proof.
  intros Htag H. unfold collectCpuUsagePercent. rewrite Htag. simpl.
  assert (E : negb (initialized st) || (total_ticks_of s <? prev_total st)
              || (idle_ticks_of s <? prev_idle st) = true).
  { destruct H as [-> | [H | H]]; [reflexivity | | ].
    - apply Z.ltb_lt in H. rewrite H. now rewrite orb_true_r.
    - apply Z.ltb_lt in H. rewrite H. now rewrite !orb_true_r. }
  now rewrite E.
Qed.

Lemma sampler_zero_delta (st : CpuUsageState) (s : ProcStat) :
  cpu_tag s = "cpu"%string ->
  total_ticks_of s = prev_total st ->
  snd (collectCpuUsagePercent st (Some s)) = None.
Proof.
  intros Htag H. unfold collectCpuUsagePercent. rewrite Htag. simpl.
  destruct (negb (initialized st) || _ || _); [reflexivity|].
  rewrite H, Z.sub_diag. reflexivity.
Qed.

Lemma sampler_usage (st : CpuUsageState) (s : ProcStat) :
  cpu_tag s = "cpu"%string -> state_in_range st ->
  initialized st = true ->
  prev_total st < total_ticks_of s ->
  prev_idle st <= idle_ticks_of s ->
  snd (collectCpuUsagePercent st (Some s))
  = Some (usageOfDeltas (idle_ticks_of s - prev_idle st)
                        (total_ticks_of s - prev_total st)).
Proof.
  intros Htag [Hi Ht] Hinit Htot Hidle.
  pose proof (u64_range (idle s + iowait s)) as Ri. fold (idle_ticks_of s) in Ri.
  pose proof (u64_range (user s + nice s + system s + idle s + iowait s
                         + irq s + softirq s + steal s)) as Rt.
  fold (total_ticks_of s) in Rt.
  unfold collectCpuUsagePercent. rewrite Htag, Hinit. simpl.
  replace (total_ticks_of s <? prev_total st) with false
    by (symmetry; apply Z.ltb_ge; lia).
  replace (idle_ticks_of s <? prev_idle st) with false
    by (symmetry; apply Z.ltb_ge; lia).
  simpl.
  rewrite (u64_small (total_ticks_of s - prev_total st)) by lia.
  rewrite (u64_small (idle_ticks_of s - prev_idle st)) by lia.
  replace (total_ticks_of s - prev_total st =? 0) with false
    by (symmetry; apply Z.eqb_neq; lia).
  reflexivity.
Qed.

(** C1.  On a successful read of the aggregate line the sampler stores
    the fresh counters; it returns nothing on the first call, on a
    regression of either counter and on a zero total delta, and
    otherwise the clamped value of the usage formula.  Baseline
    (100, 1000) followed by (150, 1100) gives exactly 50.0, and a later
    read with a smaller total gives nothing.  No returned value is
    negative. *)
Theorem collectCpuUsagePercent_spec (st : CpuUsageState) (s : ProcStat) :
  cpu_tag s = "cpu"%string ->
  state_in_range st ->
  let idle_ticks := idle_ticks_of s in
  let total_ticks := total_ticks_of s in
  let result := collectCpuUsagePercent st (Some s) in
  (counters_fit s ->
     idle_ticks = idle s + iowait s
     /\ total_ticks = user s + nice s + system s + idle s + iowait s
                      + irq s + softirq s + steal s)
  /\ fst result = {| prev_idle := idle_ticks; prev_total := total_ticks;
                     initialized := true |}
  /\ (initialized st = false \/ total_ticks < prev_total st \/ idle_ticks < prev_idle st ->
      snd result = None)
  /\ (total_ticks = prev_total st -> snd result = None)
  /\ (initialized st = true -> prev_total st < total_ticks -> prev_idle st <= idle_ticks ->
      snd result
      = Some (clampPercent (usageFormula (idle_ticks - prev_idle st)
                                         (total_ticks - prev_total st))))
  /\ (forall r, snd result = Some r ->
                in_range 0 100 r /\ PrimFloat.ltb r 0 = false)
  /\ (prev_idle st = 100 -> prev_total st = 1000 -> initialized st = true ->
      idle_ticks = 150 -> total_ticks = 1100 ->
      snd result = Some 50%float
      /\ forall s', cpu_tag s' = "cpu"%string -> total_ticks_of s' < 1100 ->
                    snd (collectCpuUsagePercent (fst result) (Some s')) = None).
Proof.
  intros Htag Hst idle_ticks total_ticks result.
  assert (Hfst : fst result = {| prev_idle := idle_ticks; prev_total := total_ticks;
                                 initialized := true |})
    by now apply sampler_stores_baseline.
  split; [apply ticks_of_fitting_counters|].
  split; [exact Hfst|].
  split; [now apply sampler_rebaseline|].
  split; [now apply sampler_zero_delta|].
  split; [intros; now apply sampler_usage|].
  split.
  - intros r Hr.
    assert (Hc : exists v, r = clampPercent v).
    { subst result. unfold collectCpuUsagePercent in Hr. rewrite Htag in Hr.
      simpl in Hr.
      destruct (negb (initialized st) || _ || _); [discriminate|].
      destruct (_ =? 0); [discriminate|].
      injection Hr as <-. eexists. apply usageOfDeltas_clamp. }
    destruct Hc as [v ->].
    split; [apply clampPercent_range | apply clampPercent_not_negative].
  - intros Hpi Hpt Hinit Hi Ht. split.
    + subst result. rewrite sampler_usage; auto; try lia.
      fold idle_ticks total_ticks. rewrite Hi, Ht, Hpi, Hpt. reflexivity.
    + intros s' Htag' Hlt. apply sampler_rebaseline; [exact Htag'|].
      rewrite Hfst. simpl. right. left. lia.
Qed.

End Sampler.

(* ===================================================================== *)
(** ** main.cpp: display-GPU selection stays in bounds *)
(* ===================================================================== *)

Section DisplayGpu.

Lemma displayScanStep_ok (size : nat) (st : DisplayScan) (i : nat) (gpu : GpuMetrics) :
  (i < size)%nat -> scan_ok size st -> scan_ok size (displayScanStep size st i gpu).
Proof.
  unfold scan_ok, cursor_ok, displayScanStep. intros Hi (H1 & H2 & H3).
  destruct (gpuLooksIntel gpu), (gpuHasTelemetry gpu); simpl;
    repeat match goal with
           | |- context [(?a =? ?b)%nat] => destruct (a =? b)%nat; simpl
           end; repeat split; lia.
Qed.

Lemma displayScan_ok (size : nat) (rest : list GpuMetrics) (st : DisplayScan) (i : nat) :
  (i + length rest <= size)%nat -> scan_ok size st ->
  scan_ok size (displayScan size st i rest).
Proof.
  revert st i. induction rest as [|gpu rest IH]; intros st i Hlen Hst; simpl; [exact Hst|].
  simpl in Hlen. apply IH; [lia|]. apply displayScanStep_ok; [lia | exact Hst].
Qed.

Lemma pickDisplayGpuIndex_in_bounds (gpus : list GpuMetrics) :
  gpus <> [] -> (pickDisplayGpuIndex gpus < length gpus)%nat.
Proof.
  destruct gpus as [|front rest]; [congruence|]. intros _.
  unfold pickDisplayGpuIndex.
  set (size := length (front :: rest)).
  assert (Hsz : (0 < size)%nat) by (subst size; simpl; lia).
  pose proof (displayScan_ok size (front :: rest)
                {| first_with_telemetry := size; intel_with_telemetry := size;
                   first_intel := size |} 0%nat) as Hscan.
  destruct Hscan as (H1 & H2 & H3); [subst size; simpl; lia | repeat split; unfold cursor_ok; simpl; lia |].
  unfold cursor_ok in *.
  set (st := displayScan size _ 0%nat (front :: rest)) in *.
  destruct (gpuLooksRadeon front && negb (gpuHasTelemetry front));
    repeat match goal with
           | |- context [(?a =? ?b)%nat] =>
               let E := fresh "E" in
               destruct (a =? b)%nat eqn:E; simpl;
               [apply Nat.eqb_eq in E | apply Nat.eqb_neq in E]
           end; lia.
Qed.

Lemma vector_at_in_bounds {A : Type} (v : list A) (i : nat) :
  (i < length v)%nat -> exists a, vector_at v i = Ok a /\ v !! i = Some a.
Proof.
  intros H. unfold vector_at.
  destruct (lookup_lt_is_Some_2 v i H) as [a Ha]. rewrite Ha. eauto.
Qed.

Lemma computeGpuUsagePercent_defined (snapshot : Snapshot) :
  exists r, computeGpuUsagePercent snapshot = Ok r.
Proof.
  unfold computeGpuUsagePercent.
  destruct (gpus snapshot) as [|g rest] eqn:E; [eauto|].
  destruct (vector_at_in_bounds (g :: rest) (pickDisplayGpuIndex (g :: rest)))
    as (a & -> & _); [apply pickDisplayGpuIndex_in_bounds; congruence|].
  eauto.
Qed.

Lemma computeGpuVramUsagePercent_defined (snapshot : Snapshot) :
  exists r, computeGpuVramUsagePercent snapshot = Ok r.
Proof.
  unfold computeGpuVramUsagePercent.
  destruct (gpus snapshot) as [|g rest] eqn:E; [eauto|].
  destruct (vector_at_in_bounds (g :: rest) (pickDisplayGpuIndex (g :: rest)))
    as (a & -> & _); [apply pickDisplayGpuIndex_in_bounds; congruence|].
  destruct (memory_utilization_percent a); [eauto|].
  destruct (memory_used_mib a), (memory_total_mib a); eauto.
  destruct (PrimFloat.ltb 0 _); eauto.
Qed.

(** C10.  On a non-empty list the selected index is below the length,
    and it is the front index or an index the scan visited; so the two
    usage computations read an element of the vector, and on the empty
    list they read none. *)
Theorem pickDisplayGpuIndex_safe (snapshot : Snapshot) :
  (gpus snapshot <> [] ->
   (pickDisplayGpuIndex (gpus snapshot) < length (gpus snapshot))%nat
   /\ exists gpu, gpus snapshot !! pickDisplayGpuIndex (gpus snapshot) = Some gpu
                  /\ computeGpuUsagePercent snapshot = Ok (utilization_percent gpu))
  /\ (gpus snapshot = [] ->
      computeGpuUsagePercent snapshot = Ok None
      /\ computeGpuVramUsagePercent snapshot = Ok None)
  /\ computeGpuUsagePercent snapshot <> OutOfBounds
  /\ computeGpuVramUsagePercent snapshot <> OutOfBounds.
Proof.
  split; [|split; [|split]].
  - intros Hne. split; [now apply pickDisplayGpuIndex_in_bounds|].
    destruct (vector_at_in_bounds (gpus snapshot) (pickDisplayGpuIndex (gpus snapshot)))
      as (a & Hat & Hl); [now apply pickDisplayGpuIndex_in_bounds|].
    exists a. split; [exact Hl|].
    unfold computeGpuUsagePercent. rewrite Hat.
    destruct (gpus snapshot); congruence.
  - intros E. unfold computeGpuUsagePercent, computeGpuVramUsagePercent.
    now rewrite E.
  - destruct (computeGpuUsagePercent_defined snapshot) as [r ->]. discriminate.
  - destruct (computeGpuVramUsagePercent_defined snapshot) as [r ->]. discriminate.
Qed.

End DisplayGpu.

(* ===================================================================== *)
(** ** main.cpp: the bounded history store *)
(* ===================================================================== *)

Section History.

Context {A : Type}.

Lemma newest_length (n : nat) (l : list A) :
  length (newest n l) = Nat.min n (length l).
Proof. unfold newest. rewrite length_drop. lia. Qed.

Lemma newest_all (n : nat) (l : list A) :
  (length l <= n)%nat -> newest n l = l.
Proof.
  intros H. unfold newest. replace (length l - n)%nat with 0%nat by lia.
  reflexivity.
Qed.

Lemma newest_snoc (n : nat) (l : list A) (x : A) :
  newest n (newest n l ++ [x]) = newest n (l ++ [x]).
Proof.
  unfold newest. rewrite !length_app, length_drop. simpl.
  destruct (decide (length l <= n)%nat) as [Hle|Hgt].
  - replace (length l - n)%nat with 0%nat by lia. simpl.
    now rewrite Nat.sub_0_r.
  - rewrite <- (drop_app_le l [x] (length l - n)) by lia.
    rewrite drop_drop. f_equal. lia.
Qed.

Lemma newest_Forall (P : A -> Prop) (n : nat) (l : list A) :
  Forall P l -> Forall P (newest n l).
Proof. apply Forall_drop. Qed.

Lemma last_drop_lt (k : nat) (l : list A) :
  (k < length l)%nat -> last (drop k l) = last l.
Proof.
  intros H. rewrite !last_lookup, lookup_drop, length_drop.
  f_equal. lia.
Qed.

Lemma last_newest (n : nat) (l : list A) :
  (0 < n)%nat -> last (newest n l) = last l.
Proof.
  intros Hn. destruct l as [|a l]; [reflexivity|].
  unfold newest. apply last_drop_lt. simpl. lia.
Qed.

End History.

Section HistoryStore.

Lemma appendHistoryValue_newest (series : list float) (value : option float) (n : nat) :
  appendHistoryValue series value n
  = newest n (series ++ [nextHistoryValue series value]).
Proof.
  unfold appendHistoryValue, nextHistoryValue.
  set (s := series ++ _).
  destruct (n <? length s)%nat eqn:E; [reflexivity|].
  apply Nat.ltb_ge in E. now rewrite newest_all.
Qed.

Lemma nextHistoryValue_newest (n : nat) (series : list float) (value : option float) :
  (0 < n)%nat ->
  nextHistoryValue (newest n series) value = nextHistoryValue series value.
Proof.
  intros Hn. unfold nextHistoryValue, lastOrZero. now rewrite last_newest.
Qed.

(** The bounded store is a window on the unbounded one: eviction never
    changes which value is pushed next. *)
Lemma appendHistoryValues_window (n : nat) (values : list (option float))
    (series : list float) :
  (0 < n)%nat ->
  appendHistoryValues n (newest n series) values
  = newest n (allPushed series values).
Proof.
  intros Hn. revert series.
  induction values as [|v values IH]; intros series; simpl; [reflexivity|].
  rewrite appendHistoryValue_newest, nextHistoryValue_newest by exact Hn.
  rewrite newest_snoc. apply IH.
Qed.

Lemma allPushed_length (values : list (option float)) (series : list float) :
  length (allPushed series values) = (length series + length values)%nat.
Proof.
  revert series. induction values as [|v values IH]; intros series; simpl.
  - lia.
  - rewrite IH, length_app. simpl. lia.
Qed.

Lemma nextHistoryValue_storable (series : list float) (value : option float) :
  storable (nextHistoryValue series value).
Proof. apply clampPercent_idempotent. Qed.

Lemma allPushed_storable (values : list (option float)) (series : list float) :
  Forall storable series -> Forall storable (allPushed series values).
Proof.
  revert series. induction values as [|v values IH]; intros series H; simpl; [exact H|].
  apply IH. apply Forall_app. split; [exact H|].
  constructor; [apply nextHistoryValue_storable | constructor].
Qed.

Lemma storable_in_range (v : float) : storable v -> in_range 0 100 v.
Proof. unfold storable. intros <-. apply clampPercent_range. Qed.

Lemma last_storable (series : list float) :
  Forall storable series -> storable (lastOrZero series).
Proof.
  intros H. unfold lastOrZero. destruct (last series) as [v|] eqn:E.
  - apply last_Some_elem_of in E. rewrite Forall_forall in H. now apply H.
  - reflexivity.
Qed.

(** One append, on any series and any capacity. *)
Lemma appendHistoryValue_length (series : list float) (value : option float) (n : nat) :
  length (appendHistoryValue series value n) = Nat.min n (S (length series)).
Proof.
  rewrite appendHistoryValue_newest, newest_length, length_app. simpl.
  f_equal. lia.
Qed.

Lemma appendHistoryValue_storable (series : list float) (value : option float) (n : nat) :
  Forall storable series -> Forall storable (appendHistoryValue series value n).
Proof.
  intros H. rewrite appendHistoryValue_newest. apply newest_Forall, Forall_app.
  split; [exact H|]. constructor; [apply nextHistoryValue_storable | constructor].
Qed.

Lemma appendHistoryValue_ok (series : list float) (value : option float) (n : nat) :
  Forall storable series -> series_ok n (appendHistoryValue series value n).
Proof.
  intros H. split; [|now apply appendHistoryValue_storable].
  rewrite appendHistoryValue_length. lia.
Qed.

(** [updateHistory] reads its vector elements in bounds and appends one
    value to each of the six series. *)
Lemma updateHistory_appends (h : MetricsHistory) (snapshot : Snapshot)
    (n : nat) (disk_override : option float) :
  (0 < n)%nat ->
  exists h' v1 v2 v3 v4 v5 v6,
    updateHistory h snapshot n disk_override = Ok h'
    /\ v1 = cpu_usage_percent (cpu snapshot)
    /\ seriesOf h'
       = [appendHistoryValue (cpu_usage h) v1 n;
          appendHistoryValue (cpu_temp h) v2 n;
          appendHistoryValue (ram_usage h) v3 n;
          appendHistoryValue (gpu_usage h) v4 n;
          appendHistoryValue (gpu_vram_usage h) v5 n;
          appendHistoryValue (disk_usage h) v6 n].
Proof.
  intros Hn. unfold updateHistory.
  replace (n =? 0)%nat with false by (symmetry; apply Nat.eqb_neq; lia).
  destruct (computeGpuUsagePercent_defined snapshot) as [g ->].
  destruct (computeGpuVramUsagePercent_defined snapshot) as [v ->].
  destruct disk_override as [d|]; do 7 eexists;
    (split; [reflexivity|]); (split; [reflexivity|]); reflexivity.
Qed.

Lemma updateHistory_keeps_series (h : MetricsHistory) (snapshot : Snapshot)
    (n : nat) (disk_override : option float) :
  (0 < n)%nat -> Forall (series_ok n) (seriesOf h) ->
  exists h', updateHistory h snapshot n disk_override = Ok h'
             /\ Forall (series_ok n) (seriesOf h')
             /\ Forall (Forall (in_range 0 100)) (seriesOf h').
Proof.
  intros Hn Hok.
  destruct (updateHistory_appends h snapshot n disk_override Hn)
    as (h' & v1 & v2 & v3 & v4 & v5 & v6 & Hup & _ & Hs).
  exists h'. split; [exact Hup|].
  assert (Hall : Forall (series_ok n) (seriesOf h')).
  { rewrite Hs. unfold seriesOf in Hok.
    repeat match goal with
           | H : Forall _ (_ :: _) |- _ => apply Forall_cons_1 in H; destruct H as [[_ ?] H]
           end.
    repeat constructor; now apply appendHistoryValue_ok. }
  split; [exact Hall|].
  eapply Forall_impl; [exact Hall|]. intros s [_ Hst].
  eapply Forall_impl; [exact Hst | apply storable_in_range].
Qed.

(** C2.  For a capacity [n > 0] and any sequence of samples appended to
    the empty series: the length never exceeds [n] and is [n] as soon
    as [n] samples were appended; the series is the [n] newest pushed
    values in their order; every stored value lies in [0, 100]; a
    missing sample stores the last stored value again, [0] on the
    empty series, and a present sample stores its clamped value. *)
Theorem appendHistoryValue_spec (n : nat) (values : list (option float)) :
  (0 < n)%nat ->
  let series := appendHistoryValues n [] values in
  (length series <= n)%nat
  /\ length series = Nat.min n (length values)
  /\ (n <= length values -> length series = n)%nat
  /\ series = newest n (allPushed [] values)
  /\ Forall (in_range 0 100) series
  /\ appendHistoryValue series None n = newest n (series ++ [lastOrZero series])
  /\ (series = [] -> appendHistoryValue series None n = [0%float])
  /\ (forall v, appendHistoryValue series (Some v) n
                = newest n (series ++ [clampPercent v]))
  /\ (forall value, length (appendHistoryValue series value n)
                    = Nat.min n (S (length series)))
  /\ (forall h snapshot disk_override,
        Forall (series_ok n) (seriesOf h) ->
        exists h', updateHistory h snapshot n disk_override = Ok h'
                   /\ Forall (series_ok n) (seriesOf h')
                   /\ Forall (Forall (in_range 0 100)) (seriesOf h')).
Proof.
  intros Hn series.
  assert (Hw : series = newest n (allPushed [] values)).
  { subst series. rewrite <- (appendHistoryValues_window n values []) by exact Hn.
    reflexivity. }
  assert (Hlen : length series = Nat.min n (length values)).
  { rewrite Hw, newest_length, allPushed_length. reflexivity. }
  assert (Hst : Forall storable series).
  { rewrite Hw. apply newest_Forall, allPushed_storable. constructor. }
  split; [lia|]. split; [exact Hlen|]. split; [lia|]. split; [exact Hw|].
  split; [eapply Forall_impl; [exact Hst | apply storable_in_range]|].
  assert (Hnone : appendHistoryValue series None n
                  = newest n (series ++ [lastOrZero series])).
  { rewrite appendHistoryValue_newest. unfold nextHistoryValue. simpl.
    now rewrite (last_storable series Hst). }
  split; [exact Hnone|].
  split.
  - intros E. rewrite Hnone, E. simpl. apply newest_all. simpl. lia.
  - split; [intros v; apply appendHistoryValue_newest|].
    split; [intros value; apply appendHistoryValue_length|].
    intros h snapshot disk_override Hok. now apply updateHistory_keeps_series.
Qed.

End HistoryStore.

(* ===================================================================== *)
(** ** The stable sort *)
(* ===================================================================== *)

Section StableSort.

Context {A : Type}.
Variable comp : A -> A -> bool.
Hypothesis comp_asym : forall a b, comp a b = true -> comp b a = false.

Lemma stable_insert_Permutation (x : A) (l : list A) :
  Permutation (stable_insert comp x l) (x :: l).
Proof.
  induction l as [|y rest IH]; simpl; [reflexivity|].
  destruct (comp y x); [|reflexivity].
  rewrite IH. apply perm_swap.
Qed.

Lemma stable_sort_Permutation (l : list A) : Permutation (stable_sort comp l) l.
Proof.
  induction l as [|x l IH]; simpl; [reflexivity|].
  rewrite stable_insert_Permutation. now constructor.
Qed.

Lemma stable_insert_HdRel (a x : A) (l : list A) :
  mayPrecede comp a x -> HdRel (mayPrecede comp) a l ->
  HdRel (mayPrecede comp) a (stable_insert comp x l).
Proof.
  intros Hax Hal. destruct l as [|y rest]; simpl; [now constructor|].
  destruct (comp y x); constructor; auto. now inversion Hal.
Qed.

Lemma stable_insert_Sorted (x : A) (l : list A) :
  Sorted (mayPrecede comp) l -> Sorted (mayPrecede comp) (stable_insert comp x l).
Proof.
  induction 1 as [|y rest Hs IH Hhd]; simpl; [repeat constructor|].
  destruct (comp y x) eqn:E.
  - constructor; [exact IH|]. apply stable_insert_HdRel; [|exact Hhd].
    unfold mayPrecede. now apply comp_asym.
  - constructor; [now constructor|]. constructor. exact E.
Qed.

Lemma stable_sort_Sorted (l : list A) : Sorted (mayPrecede comp) (stable_sort comp l).
Proof.
  induction l as [|x l IH]; simpl; [constructor|]. now apply stable_insert_Sorted.
Qed.

(** Within a class whose members the comparator never separates, the
    sort keeps the input order. *)
Variable p : A -> bool.
Hypothesis p_unseparated : forall x y, p x = true -> p y = true -> comp y x = false.

Lemma stable_insert_filter (x : A) (l : list A) :
  List.filter p (stable_insert comp x l) = List.filter p (x :: l).
Proof.
  induction l as [|y rest IH]; [reflexivity|].
  cbn [stable_insert]. destruct (comp y x) eqn:E; [|reflexivity].
  cbn [List.filter] in *. rewrite IH.
  destruct (p x) eqn:Hx, (p y) eqn:Hy; try reflexivity.
  rewrite (p_unseparated x y Hx Hy) in E. discriminate.
Qed.

Lemma stable_sort_filter (l : list A) :
  List.filter p (stable_sort comp l) = List.filter p l.
Proof.
  induction l as [|x l IH]; [reflexivity|].
  cbn [stable_sort fold_right]. fold (stable_sort comp l).
  rewrite stable_insert_filter. cbn [List.filter]. now rewrite IH.
Qed.

End StableSort.

Section SortedNeighbours.

Context {A : Type}.

Lemma Sorted_neighbours (R : A -> A -> Prop) (l : list A) (i : nat) (a b : A) :
  Sorted R l -> l !! i = Some a -> l !! S i = Some b -> R a b.
Proof.
  intros Hs. revert i. induction Hs as [|x l Hs IH Hhd]; intros i Ha Hb.
  - discriminate.
  - destruct i as [|i].
    + simpl in Ha, Hb. injection Ha as <-.
      destruct l as [|y l]; [discriminate|]. simpl in Hb. injection Hb as <-.
      now inversion Hhd.
    + simpl in Ha, Hb. eauto.
Qed.

End SortedNeighbours.

(* ===================================================================== *)
(** ** gpu.cpp: telemetry score and the final ordering *)
(* ===================================================================== *)

Section Ordering.

Lemma str_lt_irrefl (s : string) : str_lt s s = false.
Proof.
  unfold str_lt, String.ltb.
  pose proof (String.compare_antisym s s) as H.
  destruct (String.compare s s); simpl in H; congruence.
Qed.

Lemma str_lt_asym (a b : string) : str_lt a b = true -> str_lt b a = false.
Proof.
  unfold str_lt, String.ltb. rewrite (String.compare_antisym a b).
  destruct (String.compare b a); simpl; congruence.
Qed.

Lemma str_lt_leb (a b : string) : str_lt b a = false <-> String.leb a b = true.
Proof.
  unfold str_lt, String.ltb, String.leb. rewrite (String.compare_antisym a b).
  destruct (String.compare b a); simpl; split; congruence.
Qed.

Lemma gpuBefore_asym (a b : GpuMetrics) : gpuBefore a b = true -> gpuBefore b a = false.
Proof.
  unfold gpuBefore.
  destruct (telemetryScore a =? telemetryScore b) eqn:E.
  - rewrite Z.eqb_sym, E. simpl. apply str_lt_asym.
  - rewrite Z.eqb_sym, E. simpl. rewrite !Z.ltb_lt. intros H. apply Z.ltb_ge. lia.
Qed.

Lemma sameKey_unseparated (k x y : GpuMetrics) :
  sameKey k x = true -> sameKey k y = true -> gpuBefore y x = false.
Proof.
  unfold sameKey, gpuBefore. rewrite !andb_true_iff, !Z.eqb_eq, !String.eqb_eq.
  intros [Hsx Hnx] [Hsy Hny].
  replace (telemetryScore y =? telemetryScore x) with true
    by (symmetry; apply Z.eqb_eq; congruence).
  simpl. rewrite Hnx, Hny. apply str_lt_irrefl.
Qed.

Lemma mayPrecede_gpuBefore (a b : GpuMetrics) :
  mayPrecede gpuBefore a b ->
  telemetryScore b <= telemetryScore a
  /\ (telemetryScore a = telemetryScore b -> String.leb (name a) (name b) = true).
Proof.
  unfold mayPrecede, gpuBefore.
  destruct (telemetryScore b =? telemetryScore a) eqn:E; simpl.
  - apply Z.eqb_eq in E. intros H. split; [lia|]. intros _. now apply str_lt_leb.
  - apply Z.eqb_neq in E. rewrite Z.ltb_ge. intros H. split; [lia|]. intros E'. lia.
Qed.

Lemma telemetryScore_weights (g : GpuMetrics) :
  telemetryScore g
  = weight (has_value (temperature_c g)) 2
    + weight (has_value (core_clock_mhz g)) 2
    + weight (has_value (utilization_percent g)) 3
    + weight (has_value (power_w g)) 2
    + weight (has_value (memory_used_mib g) || has_value (memory_total_mib g)) 2
    + weight (has_value (memory_utilization_percent g)) 1.
Proof.
  unfold telemetryScore, weight.
  destruct (has_value (temperature_c g)), (has_value (core_clock_mhz g)),
    (has_value (utilization_percent g)), (has_value (power_w g)),
    (has_value (memory_used_mib g) || has_value (memory_total_mib g)),
    (has_value (memory_utilization_percent g)); reflexivity.
Qed.

Lemma weight_mono (b b' : bool) (w : Z) :
  0 <= w -> (b = true -> b' = true) -> weight b w <= weight b' w.
Proof.
  unfold weight. intros Hw Hb. destruct b, b'; try lia;
    discriminate (Hb eq_refl).
Qed.

Lemma telemetryScore_monotone (g g' : GpuMetrics) :
  populates g g' -> telemetryScore g <= telemetryScore g'.
Proof.
  intros (Ht & Hc & Hu & Hp & Hmu & Hmt & Hm).
  rewrite !telemetryScore_weights.
  pose proof (weight_mono _ _ 2 ltac:(lia) Ht).
  pose proof (weight_mono _ _ 2 ltac:(lia) Hc).
  pose proof (weight_mono _ _ 3 ltac:(lia) Hu).
  pose proof (weight_mono _ _ 2 ltac:(lia) Hp).
  pose proof (weight_mono _ _ 1 ltac:(lia) Hm).
  assert (Hmem : has_value (memory_used_mib g) || has_value (memory_total_mib g) = true ->
                 has_value (memory_used_mib g') || has_value (memory_total_mib g') = true).
  { rewrite !orb_true_iff. tauto. }
  pose proof (weight_mono _ _ 2 ltac:(lia) Hmem).
  lia.
Qed.

Lemma collectGpus_sorts (rows : list NvidiaSmiRow) (drm : option (list DrmEntry))
    (fallback_probe fallback_fusion : SensorsFallbackMetrics) :
  collectGpus rows drm fallback_probe fallback_fusion
  = stable_sort gpuBefore (beforeFinalSort rows drm fallback_probe fallback_fusion).
Proof.
  unfold collectGpus, beforeFinalSort, collectGpusFrom.
  destruct (collectGpusFromNvidiaSmi rows); [|reflexivity].
  destruct drm; reflexivity.
Qed.

(** C4.  The list [collectGpus] returns is the stable sort of what it
    collected: neighbours have non-increasing score and, at equal
    score, ascending names; records of equal score and name keep their
    order; the score adds the stated weights and never decreases when
    more fields are populated. *)
Theorem collectGpus_ordering (rows : list NvidiaSmiRow) (drm : option (list DrmEntry))
    (fallback_probe fallback_fusion : SensorsFallbackMetrics) :
  let fused := collectGpus rows drm fallback_probe fallback_fusion in
  let unsorted := beforeFinalSort rows drm fallback_probe fallback_fusion in
  (forall i a b, fused !! i = Some a -> fused !! S i = Some b ->
     telemetryScore b <= telemetryScore a
     /\ (telemetryScore a = telemetryScore b -> String.leb (name a) (name b) = true))
  /\ Permutation fused unsorted
  /\ (forall k, List.filter (sameKey k) fused = List.filter (sameKey k) unsorted)
  /\ (forall g, telemetryScore g
                = weight (has_value (temperature_c g)) 2
                  + weight (has_value (core_clock_mhz g)) 2
                  + weight (has_value (utilization_percent g)) 3
                  + weight (has_value (power_w g)) 2
                  + weight (has_value (memory_used_mib g)
                            || has_value (memory_total_mib g)) 2
                  + weight (has_value (memory_utilization_percent g)) 1)
  /\ (forall g g', populates g g' -> telemetryScore g <= telemetryScore g').
Proof.
  intros fused unsorted.
  assert (E : fused = stable_sort gpuBefore unsorted) by apply collectGpus_sorts.
  split; [|split; [|split; [|split]]].
  - intros i a b Ha Hb. apply mayPrecede_gpuBefore.
    eapply Sorted_neighbours; [|exact Ha|exact Hb].
    rewrite E. apply stable_sort_Sorted, gpuBefore_asym.
  - rewrite E. apply stable_sort_Permutation.
  - intros k. rewrite E. apply stable_sort_filter. apply sameKey_unseparated.
  - apply telemetryScore_weights.
  - apply telemetryScore_monotone.
Qed.

End Ordering.

(* ===================================================================== *)
(** ** gpu.cpp: the fusion pass *)
(* ===================================================================== *)

Section Flags.

Lemma flag_at_insert (used : list bool) (idx i : nat) :
  (idx < length used)%nat ->
  flag_at (<[idx := true]> used) i = (idx =? i)%nat || flag_at used i.
Proof.
  intros H. unfold flag_at. destruct (Nat.eqb_spec idx i) as [->|Hne].
  - now rewrite list_lookup_insert_eq.
  - now rewrite list_lookup_insert_ne.
Qed.

Lemma flag_at_replicate (m i : nat) : flag_at (replicate m false) i = false.
Proof.
  unfold flag_at. destruct (replicate m false !! i) as [b|] eqn:E; [|reflexivity].
  now apply lookup_replicate in E as [-> _].
Qed.

Lemma consumedBy_cons (extra : option nat) (consumed : list (option nat)) (i : nat) :
  consumedBy (extra :: consumed) i
  = match extra with Some j => (j =? i)%nat | None => false end
    || consumedBy consumed i.
Proof. reflexivity. Qed.

Lemma consumedBy_true (consumed : list (option nat)) (i : nat) :
  consumedBy consumed i = true <-> exists k, consumed !! k = Some (Some i).
Proof.
  induction consumed as [|c consumed IH].
  - split; [discriminate|]. intros [k Hk]. destruct k; discriminate.
  - rewrite consumedBy_cons, orb_true_iff, IH. split.
    + intros [H|[k Hk]].
      * destruct c as [j|]; [|discriminate]. apply Nat.eqb_eq in H as ->.
        now exists 0%nat.
      * now exists (S k).
    + intros [[|k] Hk]; simpl in Hk.
      * injection Hk as ->. left. apply Nat.eqb_refl.
      * right. now exists k.
Qed.

End Flags.

Section TakeFirstUnused.

(** What one search loop returns. *)
Lemma takeFirstUnused_spec (candidates : list nat) (used : list bool) (next : nat) :
  match takeFirstUnused candidates used next with
  | (used', _, Some idx) =>
      In idx candidates /\ flag_at used idx = false /\ used' = <[idx := true]> used
  | (used', _, None) => used' = used
  end.
Proof.
  revert next. induction candidates as [|idx rest IH]; intros next; simpl; [reflexivity|].
  destruct (flag_at used idx) eqn:E; simpl.
  - specialize (IH (S next)).
    destruct (takeFirstUnused rest used (S next)) as [[used' next'] [j|]]; [|exact IH].
    destruct IH as (Hin & Hf & Hu). auto.
  - auto.
Qed.

Lemma indicesWhere_bound {A : Type} (p : A -> bool) (l : list A) (i : nat) :
  In i (indicesWhere p l) -> (i < length l)%nat.
Proof.
  unfold indicesWhere. rewrite filter_In, in_seq. lia.
Qed.

Lemma In_drop {A : Type} (n : nat) (l : list A) (x : A) : In x (drop n l) -> In x l.
Proof.
  intros H. rewrite <- (take_drop n l). apply in_or_app. now right.
Qed.

(** The choice of a supplement: an index below the size whose flag was
    clear and is now set, or no change of the flags at all. *)
Lemma pickSupplement_spec (sysfs : list GpuMetrics) (st : FusionState) :
  let m := length sysfs in
  match pickSupplement m (indicesWhere gpuLooksNvidia sysfs) st with
  | (st', Some idx) =>
      (idx < m)%nat /\ flag_at (sysfs_used st) idx = false
      /\ sysfs_used st' = <[idx := true]> (sysfs_used st)
  | (st', None) => sysfs_used st' = sysfs_used st
  end.
Proof.
  intros m. unfold pickSupplement.
  pose proof (takeFirstUnused_spec
                (drop (next_nvidia_index st) (indicesWhere gpuLooksNvidia sysfs))
                (sysfs_used st) (next_nvidia_index st)) as H1.
  destruct (takeFirstUnused (drop _ _) _ _) as [[used1 next1] [idx|]].
  - destruct H1 as (Hin & Hf & Hu). simpl. repeat split; auto.
    apply In_drop, indicesWhere_bound in Hin. exact Hin.
  - subst used1.
    pose proof (takeFirstUnused_spec
                  (seq (next_any_index st) (m - next_any_index st))
                  (sysfs_used st) (next_any_index st)) as H2.
    destruct (takeFirstUnused (seq _ _) _ _) as [[used2 next2] [idx|]]; simpl.
    + destruct H2 as (Hin & Hf & Hu). repeat split; auto.
      apply in_seq in Hin. lia.
    + exact H2.
Qed.

End TakeFirstUnused.

Section SupplementAll.

Variable sysfs : list GpuMetrics.
Local Abbreviation m := (length sysfs).
Local Abbreviation indices := (indicesWhere gpuLooksNvidia sysfs).

Lemma supplementAll_shape (nvidia : list GpuMetrics) (st : FusionState) :
  match supplementAll sysfs indices st nvidia with
  | (_, merged, consumed) =>
      length consumed = length nvidia
      /\ merged = zip_with (supplemented sysfs) nvidia consumed
  end.
Proof.
  revert st. induction nvidia as [|base rest IH]; intros st; simpl; [auto|].
  destruct (pickSupplement _ _ st) as [st1 extra].
  specialize (IH st1).
  destruct (supplementAll sysfs indices st1 rest) as [[st2 merged] consumed].
  destruct IH as [Hl Hm]. simpl. split; [lia | now rewrite Hm].
Qed.

(** The flags record exactly what was consumed, and nothing is consumed
    whose flag was already set. *)
Lemma supplementAll_flags (nvidia : list GpuMetrics) (st : FusionState) :
  length (sysfs_used st) = m ->
  match supplementAll sysfs indices st nvidia with
  | (st', _, consumed) =>
      length (sysfs_used st') = m
      /\ (forall i, flag_at (sysfs_used st') i
                    = flag_at (sysfs_used st) i || consumedBy consumed i)
      /\ (forall i, consumedBy consumed i = true ->
                    (i < m)%nat /\ flag_at (sysfs_used st) i = false)
      /\ consumedOnce consumed
  end.
Proof.
  revert st. induction nvidia as [|base rest IH]; intros st Hlen; simpl.
  - split; [exact Hlen|]. split; [|split].
    + intros i. now rewrite orb_false_r.
    + discriminate.
    + intros i j idx Hi. destruct i; discriminate.
  - pose proof (pickSupplement_spec sysfs st) as Hp. simpl in Hp.
    destruct (pickSupplement m indices st) as [st1 extra].
    assert (Hlen1 : length (sysfs_used st1) = m).
    { destruct extra as [idx|]; [destruct Hp as (_ & _ & ->); now rewrite length_insert
                                | now rewrite Hp]. }
    specialize (IH st1 Hlen1).
    destruct (supplementAll sysfs indices st1 rest) as [[st2 merged] consumed].
    destruct IH as (Hl2 & Hflags & Hfresh & Honce).
    assert (Hflag1 : forall i, flag_at (sysfs_used st1) i
                               = match extra with
                                 | Some j => (j =? i)%nat
                                 | None => false
                                 end || flag_at (sysfs_used st) i).
    { intros i. destruct extra as [idx|].
      - destruct Hp as (Hidx & _ & ->). apply flag_at_insert. now rewrite Hlen.
      - now rewrite Hp. }
    cbn beta iota. split; [exact Hl2|]. split; [|split].
    + intros i. rewrite Hflags, Hflag1, consumedBy_cons.
      destruct extra as [j|]; simpl;
        [destruct (j =? i)%nat|]; simpl; try reflexivity.
      now rewrite orb_true_r.
    + intros i. rewrite consumedBy_cons, orb_true_iff. intros [H|H].
      * destruct extra as [j|]; [|discriminate]. apply Nat.eqb_eq in H as ->.
        destruct Hp as (Hidx & Hf & _). auto.
      * destruct (Hfresh i H) as [Hi Hf1]. split; [exact Hi|].
        rewrite Hflag1 in Hf1. now apply orb_false_iff in Hf1 as [_ Hf1].
    + intros i j idx Hi Hj.
      assert (Hrest : forall k, consumed !! k = Some (Some idx) -> extra <> Some idx).
      { intros k Hk ->.
        assert (Hc : consumedBy consumed idx = true) by (apply consumedBy_true; eauto).
        destruct (Hfresh idx Hc) as [_ Hf1]. rewrite Hflag1, Nat.eqb_refl in Hf1.
        discriminate. }
      destruct i as [|i], j as [|j]; simpl in Hi, Hj.
      * reflexivity.
      * injection Hi as Hi. exfalso. exact (Hrest j Hj Hi).
      * injection Hj as Hj. exfalso. exact (Hrest i Hi Hj).
      * f_equal. exact (Honce i j idx Hi Hj).
Qed.

End SupplementAll.

Section Fusion.

Lemma omap_pointwise {A B : Type} (f g : A -> option B) (l : list A) :
  (forall x, f x = g x) -> omap f l = omap g l.
Proof.
  intros H. induction l as [|x l IH]; [reflexivity|].
  cbn [omap list_omap]. rewrite H. destruct (g x); now rewrite IH.
Qed.

(** The result of the fusion pass, read off the consumed indices. *)
Lemma fuseGpus_result (fallback : SensorsFallbackMetrics) (nvidia sysfs : list GpuMetrics) :
  let consumed := snd (fuseGpus fallback nvidia sysfs) in
  fst (fuseGpus fallback nvidia sysfs)
  = map (applyFallbacks fallback) (zip_with (supplemented sysfs) nvidia consumed)
    ++ unconsumedSysfs sysfs consumed
  /\ length consumed = length nvidia
  /\ consumedOnce consumed
  /\ (forall i, consumedBy consumed i = true -> (i < length sysfs)%nat).
Proof.
  unfold fuseGpus.
  set (st0 := {| sysfs_used := replicate (length sysfs) false;
                 next_nvidia_index := 0%nat; next_any_index := 0%nat |}).
  pose proof (supplementAll_shape sysfs nvidia st0) as Hshape.
  pose proof (supplementAll_flags sysfs nvidia st0) as Hflags.
  destruct (supplementAll sysfs _ st0 nvidia) as [[st merged] consumed].
  destruct Hshape as [Hlen Hmerged].
  destruct Hflags as (_ & Hf & Hfresh & Honce); [apply length_replicate|].
  simpl. repeat split; auto.
  - rewrite Hmerged. f_equal. unfold unusedSysfs, unconsumedSysfs.
    apply omap_pointwise. intros i. rewrite Hf. simpl.
    now rewrite flag_at_replicate.
  - intros i Hi. now apply Hfresh.
Qed.

Lemma zip_with_lookup_supplemented (sysfs nvidia : list GpuMetrics)
    (consumed : list (option nat)) (i : nat) (base : GpuMetrics) :
  length consumed = length nvidia -> nvidia !! i = Some base ->
  exists extra, consumed !! i = Some extra
                /\ zip_with (supplemented sysfs) nvidia consumed !! i
                   = Some (supplemented sysfs base extra).
Proof.
  intros Hlen Hb.
  destruct (lookup_lt_is_Some_2 consumed i) as [extra He].
  { rewrite Hlen. eapply lookup_lt_Some, Hb. }
  exists extra. split; [exact He|].
  rewrite lookup_zip_with, Hb. simpl. now rewrite He.
Qed.

Lemma In_lookup {A : Type} (l : list A) (i : nat) (x : A) : l !! i = Some x -> In x l.
Proof. intros H. apply list_elem_of_In, list_elem_of_lookup. eauto. Qed.

Lemma collectGpusFrom_Permutation (fallback : SensorsFallbackMetrics)
    (nvidia sysfs : list GpuMetrics) :
  nvidia <> [] ->
  Permutation (collectGpusFrom fallback nvidia sysfs)
              (fst (fuseGpus fallback nvidia sysfs)).
Proof.
  intros Hne. unfold collectGpusFrom. destruct nvidia; [congruence|].
  apply stable_sort_Permutation.
Qed.

Lemma unconsumedSysfs_In (sysfs : list GpuMetrics) (consumed : list (option nat))
    (i : nat) (g : GpuMetrics) :
  sysfs !! i = Some g -> consumedBy consumed i = false ->
  In g (unconsumedSysfs sysfs consumed).
Proof.
  intros Hg Hc. apply list_elem_of_In. unfold unconsumedSysfs.
  apply list_elem_of_omap. exists i. split.
  - apply list_elem_of_In, in_seq. apply lookup_lt_Some in Hg. lia.
  - now rewrite Hc.
Qed.

End Fusion.

Section LegacyFusion.

Lemma indicesWhere_NoDup {A : Type} (p : A -> bool) (l : list A) :
  List.NoDup (indicesWhere p l).
Proof. unfold indicesWhere. apply List.NoDup_filter, List.seq_NoDup. Qed.

Lemma supplementIndices_NoDup (sysfs : list GpuMetrics) :
  List.NoDup (Legacy.supplementIndices sysfs).
Proof.
  unfold Legacy.supplementIndices.
  pose proof (indicesWhere_NoDup Legacy.nameLooksNvidia sysfs) as H.
  destruct (indicesWhere Legacy.nameLooksNvidia sysfs); [apply List.seq_NoDup | exact H].
Qed.

Lemma supplementIndices_bound (sysfs : list GpuMetrics) (idx : nat) :
  In idx (Legacy.supplementIndices sysfs) -> (idx < length sysfs)%nat.
Proof.
  unfold Legacy.supplementIndices.
  pose proof (indicesWhere_bound Legacy.nameLooksNvidia sysfs idx) as H.
  destruct (indicesWhere Legacy.nameLooksNvidia sysfs); [|exact H].
  rewrite in_seq. lia.
Qed.

(** Position [i] of the tool's records consumes position [i] of the
    supplements, when there is one. *)
Lemma legacy_supplementAll_spec (sysfs : list GpuMetrics) (supplements : list nat)
    (nvidia : list GpuMetrics) :
  let (merged, consumed) := Legacy.supplementAll sysfs supplements nvidia in
  length merged = length nvidia
  /\ length consumed = length nvidia
  /\ forall i idx, consumed !! i = Some (Some idx) -> supplements !! i = Some idx.
Proof.
  revert supplements. induction nvidia as [|base rest IH]; intros supplements.
  - simpl. split; [reflexivity|]. split; [reflexivity|].
    intros i idx H. destruct i; discriminate.
  - destruct supplements as [|idx more].
    + simpl. rewrite length_map. split; [reflexivity|]. split; [reflexivity|].
      intros i j H. exfalso.
      change (None :: map (fun _ : GpuMetrics => None) rest)
        with (map (fun _ : GpuMetrics => @None nat) (base :: rest)) in H.
      rewrite list_lookup_fmap in H.
      destruct ((base :: rest) !! i); discriminate.
    + simpl. specialize (IH more).
      destruct (Legacy.supplementAll sysfs more rest) as [merged consumed].
      destruct IH as (Hm & Hc & Hi). simpl. split; [lia|]. split; [lia|].
      intros [|i] j H; simpl in H; [injection H as <-; reflexivity | now apply Hi].
Qed.

Lemma NoDup_lookup_inj {A : Type} (l : list A) (i j : nat) (x : A) :
  List.NoDup l -> l !! i = Some x -> l !! j = Some x -> i = j.
Proof. intros H. apply NoDup_ListNoDup in H. now apply NoDup_lookup. Qed.

Lemma legacy_fuseGpus_result (fallback : SensorsFallbackMetrics)
    (nvidia sysfs : list GpuMetrics) :
  let consumed := snd (Legacy.fuseGpus fallback nvidia sysfs) in
  length (fst (Legacy.fuseGpus fallback nvidia sysfs)) = length nvidia
  /\ length consumed = length nvidia
  /\ consumedOnce consumed
  /\ (forall i idx, consumed !! i = Some (Some idx) -> (idx < length sysfs)%nat).
Proof.
  unfold Legacy.fuseGpus.
  pose proof (legacy_supplementAll_spec sysfs (Legacy.supplementIndices sysfs) nvidia) as H.
  destruct (Legacy.supplementAll sysfs _ nvidia) as [merged consumed].
  destruct H as (Hm & Hc & Hi). simpl. rewrite length_map.
  repeat split; auto.
  - intros i j idx Ha Hb.
    eapply NoDup_lookup_inj; [apply supplementIndices_NoDup | |]; eauto.
  - intros i idx Ha. apply supplementIndices_bound.
    eapply In_lookup, Hi, Ha.
Qed.

End LegacyFusion.

Section FusionClaims.


(** C5, amended.  In the current variant of [collectGpus], when the
    tool reported at least one record, the fused list is the
    supplemented tool records followed by every sysfs record that no
    tool record consumed, in index order, then sorted; so each sysfs
    record is either consumed by a tool record that is in the output,
    or in the output itself.  The older variant does not append. *)
Theorem fusion_appends_unconsumed (fallback : SensorsFallbackMetrics)
    (nvidia sysfs : list GpuMetrics) :
  (1 <= length nvidia)%nat ->
  let fused := collectGpusFrom fallback nvidia sysfs in
  let consumed := snd (fuseGpus fallback nvidia sysfs) in
  let merged := map (applyFallbacks fallback)
                    (zip_with (supplemented sysfs) nvidia consumed) in
  fused = stable_sort gpuBefore (merged ++ unconsumedSysfs sysfs consumed)
  /\ length fused = (length nvidia + length (unconsumedSysfs sysfs consumed))%nat
  /\ (forall i g, sysfs !! i = Some g ->
        (consumedBy consumed i = false /\ In g fused)
        \/ (exists k base, nvidia !! k = Some base
                           /\ consumed !! k = Some (Some i)
                           /\ In (applyFallbacks fallback (mergeSupplement base g)) fused)).
Proof.
  intros Hn fused consumed merged.
  assert (Hne : nvidia <> []) by (destruct nvidia; simpl in Hn; [lia | congruence]).
  destruct (fuseGpus_result fallback nvidia sysfs) as (Hfst & Hlen & Honce & Hbound).
  fold consumed in Hfst, Hlen, Honce, Hbound. fold merged in Hfst.
  pose proof (collectGpusFrom_Permutation fallback nvidia sysfs Hne) as Hperm.
  fold fused in Hperm. rewrite Hfst in Hperm.
  split; [|split].
  - subst fused. unfold collectGpusFrom. destruct nvidia; [congruence|].
    now rewrite Hfst.
  - rewrite (Permutation_length Hperm), length_app. subst merged.
    rewrite length_map, length_zip_with. lia.
  - intros i g Hg. destruct (consumedBy consumed i) eqn:Hc.
    + right. apply consumedBy_true in Hc as [k Hk].
      destruct (lookup_lt_is_Some_2 nvidia k) as [base Hb].
      { rewrite <- Hlen. eapply lookup_lt_Some, Hk. }
      exists k, base. split; [exact Hb | split; [exact Hk|]].
      eapply Permutation_in; [symmetry; exact Hperm|].
      apply in_or_app. left. subst merged. apply in_map.
      apply (In_lookup _ k). rewrite lookup_zip_with, Hb. simpl. rewrite Hk. simpl.
      unfold supplemented. now rewrite Hg.
    + left. split; [reflexivity|].
      eapply Permutation_in; [symmetry; exact Hperm|].
      apply in_or_app. right. now apply unconsumedSysfs_In with (i := i).
Qed.

(** The older variant returns the tool's records only: a sysfs record
    that no tool record consumed is not in its output. *)
Lemma legacy_fusion_drops_unconsumed (fallback : SensorsFallbackMetrics)
    (nvidia sysfs : list GpuMetrics) :
  nvidia <> [] ->
  length (Legacy.collectGpusFrom fallback nvidia sysfs) = length nvidia.
Proof.
  intros Hne. unfold Legacy.collectGpusFrom. destruct nvidia; [congruence|].
  now destruct (legacy_fuseGpus_result fallback (g :: nvidia) sysfs) as (-> & _).
Qed.

(** C5, as the claim states it, fails on the older variant of
    [collectGpus]: with one tool record and two sysfs records, the
    Intel record is consumed by no tool record and is not in the
    output, which holds the tool record only. *)
Lemma legacy_fusion_loses_unconsumed :
  let nvidia := [tool_gpu] in
  let sysfs := [sysfs_intel_gpu; sysfs_nvidia_gpu] in
  let fused := Legacy.collectGpusFrom no_fallback nvidia sysfs in
  let consumed := snd (Legacy.fuseGpus no_fallback nvidia sysfs) in
  (1 <= length nvidia)%nat
  /\ sysfs !! 0%nat = Some sysfs_intel_gpu
  /\ consumedBy consumed 0 = false
  /\ length fused = 1%nat
  /\ ~ In sysfs_intel_gpu fused.
Proof.
  cbv zeta. split; [simpl; lia|]. split; [reflexivity|].
  split; [vm_compute; reflexivity|]. split; [vm_compute; reflexivity|].
  vm_compute. intros [H|[]]. discriminate H.
Qed.

End FusionClaims.

(* ===================================================================== *)
(** ** gpu.cpp: the sysfs-only branch *)
(* ===================================================================== *)

Section SysfsOnly.

Lemma gpuFromCard_probed (fallback : SensorsFallbackMetrics) (card : DrmEntry) :
  has_value (gpuFromCard fallback card) = isProbedCard card.
Proof.
  unfold gpuFromCard, isProbedCard.
  destruct (isCardDirectoryName (card_name card)); simpl; [|reflexivity].
  destruct (device_exists card); simpl; [|reflexivity].
  destruct (isDisplayClassDevice (device_class card)); reflexivity.
Qed.

Lemma omap_length_filter {A B : Type} (f : A -> option B) (l : list A) :
  length (omap f l) = length (List.filter (fun x => has_value (f x)) l).
Proof.
  induction l as [|x l IH]; [reflexivity|].
  cbn [omap list_omap List.filter]. destruct (f x); simpl; now rewrite IH.
Qed.

(** The current probe keeps one record per probed card, whatever it
    could read below it. *)
Lemma collectGpusFromSysfs_length (fallback : SensorsFallbackMetrics)
    (entries : list DrmEntry) :
  length (collectGpusFromSysfs fallback (Some entries))
  = length (List.filter isProbedCard entries).
Proof.
  unfold collectGpusFromSysfs.
  rewrite (Permutation_length (stable_sort_Permutation gpuBefore _)).
  rewrite omap_length_filter. f_equal.
  apply List.filter_ext. intros card. apply gpuFromCard_probed.
Qed.

Lemma legacy_gpuFromCard_telemetry (fallback : SensorsFallbackMetrics)
    (card : DrmEntry) (gpu : GpuMetrics) :
  Legacy.gpuFromCard fallback card = Some gpu -> Legacy.hasProbeTelemetry gpu = true.
Proof.
  unfold Legacy.gpuFromCard.
  destruct (negb (isCardDirectoryName (card_name card))); [discriminate|].
  destruct (negb (device_exists card)); [discriminate|].
  match goal with
  | |- (if Legacy.hasProbeTelemetry ?g then _ else _) = _ -> _ =>
      destruct (Legacy.hasProbeTelemetry g) eqn:E; [|discriminate]
  end.
  now intros [= <-].
Qed.

Lemma legacy_collectGpusFromSysfs_telemetry
    (fallback_at : nat -> SensorsFallbackMetrics) (drm : option (list DrmEntry)) :
  Forall (fun gpu => Legacy.hasProbeTelemetry gpu = true)
         (Legacy.collectGpusFromSysfs fallback_at drm).
Proof.
  unfold Legacy.collectGpusFromSysfs. destruct drm as [entries|]; [|constructor].
  apply Forall_forall. intros gpu Hin.
  apply list_elem_of_omap in Hin as ([i card] & _ & Hg).
  eapply legacy_gpuFromCard_telemetry, Hg.
Qed.

Lemma hasProbeTelemetry_gpuHasTelemetry (gpu : GpuMetrics) :
  Legacy.hasProbeTelemetry gpu = true -> gpuHasTelemetry gpu = true.
Proof.
  unfold Legacy.hasProbeTelemetry, gpuHasTelemetry. intros ->. reflexivity.
Qed.

(** C7, as the code has it.  With no record from the tool the result
    is the sysfs probe's list in both variants.  The current probe
    returns one record for every card directory with a display-class
    device, sorted, with or without telemetry; only the older probe
    drops the records without temperature, clock, utilisation, power
    and memory readings. *)
Theorem sysfs_only_result (drm : option (list DrmEntry))
    (fallback_probe fallback_fusion : SensorsFallbackMetrics)
    (fallback_at : nat -> SensorsFallbackMetrics) :
  collectGpus [] drm fallback_probe fallback_fusion
  = collectGpusFromSysfs fallback_probe drm
  /\ (forall entries, drm = Some entries ->
        collectGpus [] drm fallback_probe fallback_fusion
        = stable_sort gpuBefore (omap (gpuFromCard fallback_probe) entries)
        /\ length (collectGpus [] drm fallback_probe fallback_fusion)
           = length (List.filter isProbedCard entries))
  /\ (forall card, has_value (gpuFromCard fallback_probe card) = isProbedCard card)
  /\ Legacy.collectGpus [] drm fallback_at fallback_fusion
     = Legacy.collectGpusFromSysfs fallback_at drm
  /\ Forall (fun gpu => Legacy.hasProbeTelemetry gpu = true
                        /\ gpuHasTelemetry gpu = true)
            (Legacy.collectGpus [] drm fallback_at fallback_fusion).
Proof.
  split; [reflexivity|]. split; [|split; [|split; [reflexivity|]]].
  - intros entries ->. split; [reflexivity | apply collectGpusFromSysfs_length].
  - apply gpuFromCard_probed.
  - change (Legacy.collectGpus [] drm fallback_at fallback_fusion)
      with (Legacy.collectGpusFromSysfs fallback_at drm).
    eapply Forall_impl; [apply legacy_collectGpusFromSysfs_telemetry|].
    intros gpu H. split; [exact H | now apply hasProbeTelemetry_gpuHasTelemetry].
Qed.

(** C7, as the claim states it, fails on the current probe: a card
    directory without any telemetry file still yields a record. *)
Lemma sysfs_only_keeps_bare_card :
  collectGpus [] (Some [bare_card]) no_fallback no_fallback = [bare_gpu]
  /\ gpuHasTelemetry bare_gpu = false
  /\ ~ Forall (fun gpu => gpuHasTelemetry gpu = true)
              (collectGpus [] (Some [bare_card]) no_fallback no_fallback).
Proof.
  assert (E : collectGpus [] (Some [bare_card]) no_fallback no_fallback = [bare_gpu])
    by (vm_compute; reflexivity).
  split; [exact E|]. split; [reflexivity|].
  rewrite E. intros H. inversion H as [|g l Hg _]. discriminate Hg.
Qed.

End SysfsOnly.

(* ===================================================================== *)
(** ** main.cpp: the canvas *)
(* ===================================================================== *)

Section Canvas.

Lemma isInsideCanvas_spec (c : BrailleCanvas) (x y : Z) :
  isInsideCanvas c x y = true <-> 0 <= x < width c /\ 0 <= y < height c.
Proof.
  unfold isInsideCanvas. rewrite !andb_true_iff, !Z.leb_le, !Z.ltb_lt. lia.
Qed.

Lemma cellIndex_bound (c : BrailleCanvas) (x y : Z) :
  canvas_ok c -> isInsideCanvas c x y = true ->
  (cellIndex c x y < length (cells c))%nat.
Proof.
  intros (Hw & Hh & Hlen) Hin. apply isInsideCanvas_spec in Hin.
  unfold cellIndex. rewrite Hlen. apply Z2Nat.inj_lt; nia.
Qed.

Lemma cellIndex_inj (c : BrailleCanvas) (x y x' y' : Z) :
  isInsideCanvas c x y = true -> isInsideCanvas c x' y' = true ->
  cellIndex c x y = cellIndex c x' y' -> x = x' /\ y = y'.
Proof.
  intros H H'. apply isInsideCanvas_spec in H, H'. unfold cellIndex. intros E.
  apply Z2Nat.inj in E; [| nia | nia].
  assert (Hy : y = y').
  { destruct (Z.lt_trichotomy y y') as [Hlt | [Heq | Hgt]]; [|exact Heq|].
    - assert ((y + 1) * width c <= y' * width c) by nia. lia.
    - assert ((y' + 1) * width c <= y * width c) by nia. lia. }
  subst y'. lia.
Qed.

Lemma addCanvasMask_size (c : BrailleCanvas) (x y mask : Z) :
  width (addCanvasMask c x y mask) = width c
  /\ height (addCanvasMask c x y mask) = height c.
Proof. unfold addCanvasMask. destruct (negb _); auto. Qed.

Lemma addCanvasMask_inside (c : BrailleCanvas) (x y mask x' y' : Z) :
  isInsideCanvas (addCanvasMask c x y mask) x' y' = isInsideCanvas c x' y'.
Proof.
  unfold isInsideCanvas. destruct (addCanvasMask_size c x y mask) as [-> ->].
  reflexivity.
Qed.

Lemma addCanvasMask_ok (c : BrailleCanvas) (x y mask : Z) :
  canvas_ok c -> canvas_ok (addCanvasMask c x y mask).
Proof.
  intros (Hw & Hh & Hlen). unfold addCanvasMask. destruct (negb _); [easy|].
  unfold canvas_ok. simpl. now rewrite length_insert.
Qed.

Lemma cellAt_addCanvasMask_same (c : BrailleCanvas) (x y mask : Z) :
  canvas_ok c -> isInsideCanvas c x y = true ->
  cellAt (addCanvasMask c x y mask) x y = Z.lor (cellAt c x y) mask.
Proof.
  intros Hok Hin. unfold addCanvasMask. rewrite Hin. simpl.
  unfold cellAt at 1. unfold cellIndex at 1. simpl. fold (cellIndex c x y).
  rewrite list_lookup_insert_eq by now apply cellIndex_bound. reflexivity.
Qed.

Lemma cellAt_addCanvasMask_other (c : BrailleCanvas) (x y mask x' y' : Z) :
  isInsideCanvas c x' y' = true -> (x', y') <> (x, y) ->
  cellAt (addCanvasMask c x y mask) x' y' = cellAt c x' y'.
Proof.
  intros Hin' Hne. unfold addCanvasMask.
  destruct (isInsideCanvas c x y) eqn:Hin; [|reflexivity]. simpl.
  unfold cellAt at 1. unfold cellIndex at 1. simpl. fold (cellIndex c x' y').
  rewrite list_lookup_insert_ne; [reflexivity|].
  intros E. apply (cellIndex_inj c x y x' y' Hin Hin') in E as [-> ->]. now apply Hne.
Qed.

Lemma createBrailleCanvas_ok (w h : Z) : canvas_ok (createBrailleCanvas w h).
Proof.
  unfold canvas_ok, createBrailleCanvas. simpl. rewrite length_replicate. lia.
Qed.

Lemma cellAt_createBrailleCanvas (w h x y : Z) :
  cellAt (createBrailleCanvas w h) x y = 0.
Proof.
  unfold cellAt. destruct (cells (createBrailleCanvas w h) !! _) as [m|] eqn:E;
    [|reflexivity].
  simpl in E. now apply lookup_replicate in E as [-> _].
Qed.

Lemma fitsInt_true (v : Z) : - 2 ^ 31 <= v < 2 ^ 31 -> fitsInt v = true.
Proof.
  intros Hv. unfold fitsInt. apply andb_true_iff.
  split; [apply Z.leb_le | apply Z.ltb_lt]; lia.
Qed.

(** A cell inside a canvas that fits has [int] coordinates. *)
Lemma inside_fits (c : BrailleCanvas) (x y : Z) :
  canvas_fits c -> isInsideCanvas c x y = true ->
  0 <= x < 2 ^ 29 /\ 0 <= y < 2 ^ 29.
Proof.
  intros (Hw & Hh & _) Hin. apply isInsideCanvas_spec in Hin. lia.
Qed.

(** The error term after [i] steps along x and [j] steps along y: a
    step is taken only along an axis whose end is not reached, and some
    step is taken while an end is missing. *)
Lemma line_progress (dx dy i j : Z) :
  0 <= i <= dx -> 0 <= j <= dy -> i < dx \/ j < dy ->
  (- dy < (dx - dy - i * dy + j * dx) * 2 -> i < dx)
  /\ ((dx - dy - i * dy + j * dx) * 2 < dx -> j < dy)
  /\ (- dy < (dx - dy - i * dy + j * dx) * 2 \/ (dx - dy - i * dy + j * dx) * 2 < dx).
Proof.
  intros Hi Hj Hnot. split; [|split].
  - intros He. destruct (Z.eq_dec i dx) as [->|]; [exfalso; nia | lia].
  - intros He. destruct (Z.eq_dec j dy) as [->|]; [exfalso; nia | lia].
  - destruct (Z.lt_ge_cases (- dy) ((dx - dy - i * dy + j * dx) * 2)) as [H|H];
      [left; exact H | right; nia].
Qed.

(** One iteration of the line loop away from the end point, with
    values far enough from the ends of [int]: no operation of the body
    overflows. *)
Lemma rasterizeLoop_step (fuel : nat) (canvas : BrailleCanvas)
    (x y x1 y1 dx dy sx sy error : Z) :
  (x =? x1) && (y =? y1) = false ->
  0 <= dx <= 2 ^ 29 -> 0 <= dy <= 2 ^ 29 ->
  - 2 ^ 30 <= error < 2 ^ 30 ->
  0 <= x < 2 ^ 29 -> 0 <= y < 2 ^ 29 ->
  sx = 1 \/ sx = -1 -> sy = 1 \/ sy = -1 ->
  rasterizeLoop (S fuel) canvas x y x1 y1 dx dy sx sy error
  = let twice_error := error * 2 in
    let moved_x := - dy <? twice_error in
    let error' := if moved_x then error - dy else error in
    let x' := if moved_x then x + sx else x in
    let moved_y := twice_error <? dx in
    let error'' := if moved_y then error' + dx else error' in
    let y' := if moved_y then y + sy else y in
    let canvas' :=
      if moved_x && moved_y then
        connectCanvasCells (connectCanvasCells canvas x y x' y) x' y x' y'
      else connectCanvasCells canvas x y x' y' in
    rasterizeLoop fuel (addCanvasMask canvas' x' y' kDirPoint)
                  x' y' x1 y1 dx dy sx sy error''.
Proof.
  intros Hend Hdx Hdy He Hx Hy Hsx Hsy. cbn [rasterizeLoop]. rewrite Hend. cbv zeta.
  rewrite (fitsInt_true (error * 2)) by lia. cbn [negb].
  assert (H1 : fitsInt (if - dy <? error * 2 then error - dy else error)
               && fitsInt (if - dy <? error * 2 then x + sx else x) = true).
  { destruct (- dy <? error * 2); rewrite !fitsInt_true; try reflexivity;
      destruct Hsx as [-> | ->]; lia. }
  rewrite H1. cbn [negb].
  assert (H2 : fitsInt (if error * 2 <? dx
                        then (if - dy <? error * 2 then error - dy else error) + dx
                        else if - dy <? error * 2 then error - dy else error)
               && fitsInt (if error * 2 <? dx then y + sy else y) = true).
  { destruct (error * 2 <? dx), (- dy <? error * 2); rewrite !fitsInt_true;
      try reflexivity; destruct Hsy as [-> | ->]; lia. }
  rewrite H2. cbn [negb]. reflexivity.
Qed.

(** The distance and the direction between two coordinates of a
    canvas that fits. *)
Lemma line_deltas (x0 x1 : Z) :
  0 <= x0 < 2 ^ 29 -> 0 <= x1 < 2 ^ 29 ->
  let dx := Z.abs (x1 - x0) in
  let sx := if x0 <? x1 then 1 else -1 in
  x1 = x0 + sx * dx /\ 0 <= dx < 2 ^ 29 /\ (sx = 1 \/ sx = -1)
  /\ fitsInt (x1 - x0) = true /\ fitsInt dx = true.
Proof.
  intros H0 H1. cbv zeta.
  destruct (x0 <? x1) eqn:E; [apply Z.ltb_lt in E | apply Z.ltb_ge in E];
    rewrite !fitsInt_true by lia; repeat split; auto; lia.
Qed.

(** The two-cell horizontal line runs the loop body once, and none of
    its [int] operations overflows. *)
Lemma rasterize_horizontal_steps (c : BrailleCanvas) (x y : Z) :
  canvas_fits c ->
  isInsideCanvas c x y = true -> isInsideCanvas c (x + 1) y = true ->
  rasterizeBrailleLine c x y (x + 1) y
  = Some (addCanvasMask
            (addCanvasMask
               (addCanvasMask (addCanvasMask c x y kDirPoint) x y kDirRight)
               (x + 1) y kDirLeft)
            (x + 1) y kDirPoint).
Proof.
  intros Hfits H0 H1. unfold rasterizeBrailleLine. rewrite H0, H1. simpl negb. simpl orb.
  cbv iota.
  destruct (inside_fits c x y Hfits H0) as (Hx & Hy).
  destruct (inside_fits c (x + 1) y Hfits H1) as (Hx' & _).
  replace (x + 1 - x) with 1 by lia. rewrite Z.sub_diag.
  replace (x <? x + 1) with true by (symmetry; apply Z.ltb_lt; lia).
  rewrite Z.ltb_irrefl.
  change (Z.abs 1) with 1. change (Z.abs 0) with 0.
  change (fitsInt 1 && fitsInt 0) with true.
  change (fitsInt 1 && fitsInt 0 && fitsInt (1 - 0)) with true. cbn [negb].
  change (S (Z.to_nat (1 + 0))) with 2%nat.
  cbn [rasterizeLoop].
  replace (x =? x + 1) with false by (symmetry; apply Z.eqb_neq; lia).
  cbn [andb]. change (fitsInt ((1 - 0) * 2)) with true. cbn [negb].
  change (- 0 <? (1 - 0) * 2) with true.
  change ((1 - 0) * 2 <? 1) with false. cbv iota.
  change (fitsInt (1 - 0 - 0)) with true.
  rewrite (fitsInt_true (x + 1)) by lia. rewrite (fitsInt_true y) by lia.
  cbn [andb negb].
  rewrite !Z.eqb_refl. cbn [andb].
  unfold connectCanvasCells.
  rewrite !addCanvasMask_inside, H0, H1. simpl negb. simpl orb. cbv iota.
  rewrite !Z.eqb_refl. reflexivity.
Qed.

Lemma glyph_horizontal_dirs (mask : Z) :
  Z.land mask kDirAll = kDirRight
  \/ Z.land mask kDirAll = kDirLeft
  \/ Z.land mask kDirAll = Z.lor kDirLeft kDirRight ->
  glyphForMask mask = glyph_horizontal.
Proof.
  unfold glyphForMask. fold kDirAll. intros [-> | [-> | ->]]; reflexivity.
Qed.

Lemma glyph_point_only (mask : Z) :
  Z.land mask kDirAll = 0 -> Z.land mask kDirPoint <> 0 ->
  glyphForMask mask = glyph_middle_dot.
Proof.
  unfold glyphForMask. fold kDirAll. intros -> H.
  apply Z.eqb_neq in H. now rewrite H.
Qed.

(** Adding the right (or left) bit and the point bit to a mask without
    vertical bits leaves only horizontal directions. *)
Lemma horizontal_after_lor (old dir : Z) :
  0 <= old -> Z.land old (Z.lor kDirUp kDirDown) = 0 ->
  dir = kDirRight \/ dir = kDirLeft ->
  glyphForMask (Z.lor old (Z.lor dir kDirPoint)) = glyph_horizontal.
Proof.
  intros Hold Hv Hdir. apply glyph_horizontal_dirs.
  rewrite Z.land_lor_distr_l.
  change kDirAll with (Z.ones 4). change (Z.lor kDirUp kDirDown) with (Z.ones 2) in Hv.
  rewrite Z.land_ones in Hv by lia. rewrite (Z.land_ones old) by lia.
  assert (Hr : old mod 2 ^ 4 = 0 \/ old mod 2 ^ 4 = 4 \/ old mod 2 ^ 4 = 8
               \/ old mod 2 ^ 4 = 12).
  { change (2 ^ 4) with 16. change (2 ^ 2) with 4 in Hv.
    clear Hdir. Z.div_mod_to_equations. lia. }
  destruct Hdir as [-> | ->]; destruct Hr as [-> | [-> | [-> | ->]]];
    vm_compute; auto.
Qed.

(** Only the five known bits of a mask decide its glyph. *)
Lemma glyphForMask_low (mask : Z) :
  0 <= mask -> glyphForMask mask = glyphForMask (mask mod 2 ^ 5).
Proof.
  intros Hm. rewrite <- (Z.land_ones mask 5) by lia. unfold glyphForMask.
  rewrite <- !Z.land_assoc. reflexivity.
Qed.

(** Adding the right (or left) bit and the point bit to a mask with a
    vertical bit gives a corner, a tee or a cross, never the horizontal
    glyph. *)
Lemma vertical_after_lor (old dir : Z) :
  0 <= old -> Z.land old (Z.lor kDirUp kDirDown) <> 0 ->
  dir = kDirRight \/ dir = kDirLeft ->
  glyphForMask (Z.lor old (Z.lor dir kDirPoint)) <> glyph_horizontal.
Proof.
  intros Hold Hv Hdir.
  rewrite glyphForMask_low by (apply Z.lor_nonneg; destruct Hdir as [-> | ->]; split;
                               [exact Hold | vm_compute; discriminate
                               | exact Hold | vm_compute; discriminate]).
  rewrite <- Z.land_ones, Z.land_lor_distr_l, Z.land_ones by lia.
  assert (Hlow : Z.land (old mod 2 ^ 5) (Z.lor kDirUp kDirDown) <> 0).
  { rewrite <- Z.land_ones, <- Z.land_assoc by lia. exact Hv. }
  assert (Hr : 0 <= old mod 2 ^ 5 < 32) by (apply Z.mod_pos_bound; lia).
  set (r := old mod 2 ^ 5) in *. clearbody r.
  replace r with (Z.of_nat (Z.to_nat r)) in * by lia.
  assert (Hn : (Z.to_nat r < 32)%nat) by lia.
  set (n := Z.to_nat r) in *. clearbody n.
  destruct Hdir as [-> | ->];
    do 32 (destruct n as [|n];
           [first [exfalso; apply Hlow; reflexivity | vm_compute; discriminate]|]);
    lia.
Qed.

End Canvas.

Section Rendering.

Lemma In_Z_range (n v : Z) :
  0 <= v < n -> In v (map Z.of_nat (seq 0 (Z.to_nat n))).
Proof.
  intros H. apply in_map_iff. exists (Z.to_nat v). split; [lia|].
  apply in_seq. lia.
Qed.

(** Every cell with a non-zero mask is drawn with its glyph. *)
Lemma drawBrailleLayer_In (c : BrailleCanvas) (top left x y : Z) :
  canvas_ok c -> isInsideCanvas c x y = true -> cellAt c x y <> 0 ->
  In {| draw_row := top + y; draw_col := left + x;
        draw_glyph := glyphForMask (cellAt c x y) |}
     (drawBrailleLayer c top left).
Proof.
  intros (Hw & Hh & Hlen) Hin Hbits. apply isInsideCanvas_spec in Hin.
  unfold drawBrailleLayer.
  replace (width c <=? 0) with false by (symmetry; apply Z.leb_gt; lia).
  replace (height c <=? 0) with false by (symmetry; apply Z.leb_gt; lia).
  replace (length (cells c) =? 0)%nat with false
    by (symmetry; apply Nat.eqb_neq; rewrite Hlen; nia).
  simpl orb. cbv iota.
  apply in_flat_map. exists y. split; [apply In_Z_range; lia|].
  apply list_elem_of_In, list_elem_of_omap. exists x. split.
  - apply list_elem_of_In, In_Z_range. lia.
  - apply Z.eqb_neq in Hbits. now rewrite Hbits.
Qed.

Lemma lor_nonzero (a b : Z) : 0 <= a -> 0 < b -> Z.lor a b <> 0.
Proof.
  intros Ha Hb E. apply Z.lor_eq_0_iff in E. lia.
Qed.



End Rendering.

(* ===================================================================== *)
(** ** main.cpp: polls feeding the CPU usage series *)
(* ===================================================================== *)

Section Polls.

Lemma updateHistory_cpu_usage (h : MetricsHistory) (snapshot : Snapshot)
    (max_points : nat) (disk_override : option float) :
  (0 < max_points)%nat ->
  exists h', updateHistory h snapshot max_points disk_override = Ok h'
             /\ cpu_usage h'
                = appendHistoryValue (cpu_usage h)
                    (cpu_usage_percent (cpu snapshot)) max_points.
Proof.
  intros Hn. unfold updateHistory.
  replace (max_points =? 0)%nat with false by (symmetry; apply Nat.eqb_neq; lia).
  destruct (computeGpuUsagePercent_defined snapshot) as [g ->].
  destruct (computeGpuVramUsagePercent_defined snapshot) as [v ->].
  eexists. split; reflexivity.
Qed.

Lemma pollOnce_cpu_usage (max_points : nat) (st : PollState) (input : PollInput) :
  (0 < max_points)%nat ->
  exists st', pollOnce max_points st input = Ok st'
              /\ sampler st'
                 = fst (collectCpuUsagePercent (sampler st) (poll_stat input))
              /\ cpu_usage (history st')
                 = appendHistoryValue (cpu_usage (history st))
                     (snd (collectCpuUsagePercent (sampler st) (poll_stat input)))
                     max_points.
Proof.
  intros Hn. unfold pollOnce.
  destruct (collectCpuUsagePercent (sampler st) (poll_stat input)) as [sampler' usage].
  match goal with
  | |- context [updateHistory ?h ?s ?n ?d] =>
      destruct (updateHistory_cpu_usage h s n d Hn) as (h' & -> & Hcpu)
  end.
  eexists. split; [reflexivity|]. split; [reflexivity|]. exact Hcpu.
Qed.

Lemma appendHistoryValue_room (series : list float) (value : option float) (n : nat) :
  (length series < n)%nat ->
  appendHistoryValue series value n = series ++ [nextHistoryValue series value].
Proof.
  intros H. rewrite appendHistoryValue_newest. apply newest_all.
  rewrite length_app. simpl. lia.
Qed.

(** One poll after the baseline, on counters that moved forward. *)
Lemma pollOnce_forward (max_points : nat) (st : PollState) (input : PollInput)
    (s : ProcStat) (pi pt di dt : Z) :
  (length (cpu_usage (history st)) < max_points)%nat ->
  poll_stat input = Some s -> cpu_tag s = "cpu"%string ->
  sampler st = {| prev_idle := pi; prev_total := pt; initialized := true |} ->
  0 <= pi < 2 ^ 64 -> 0 <= pt < 2 ^ 64 ->
  idle_ticks_of s = pi + di -> total_ticks_of s = pt + dt ->
  0 <= di -> 0 < dt ->
  exists st', pollOnce max_points st input = Ok st'
              /\ sampler st' = {| prev_idle := pi + di; prev_total := pt + dt;
                                  initialized := true |}
              /\ cpu_usage (history st')
                 = cpu_usage (history st) ++ [clampPercent (usageFormula di dt)].
Proof.
  intros Hroom Hstat Htag Hs Hpi Hpt Hi Ht Hdi Hdt.
  destruct (pollOnce_cpu_usage max_points st input ltac:(lia)) as (st' & Hp & Hsam & Hcpu).
  exists st'. split; [exact Hp|].
  rewrite Hstat in Hsam, Hcpu.
  rewrite (sampler_stores_baseline _ _ Htag) in Hsam.
  rewrite sampler_usage in Hcpu;
    [| exact Htag | rewrite Hs; split; assumption | now rewrite Hs
     | rewrite Hs; simpl; lia | rewrite Hs; simpl; lia ].
  rewrite Hs in Hcpu. simpl in Hcpu.
  split; [now rewrite Hsam, Hi, Ht|].
  rewrite Hcpu, appendHistoryValue_room by exact Hroom.
  unfold nextHistoryValue. simpl.
  replace (idle_ticks_of s - pi) with di by lia.
  replace (total_ticks_of s - pt) with dt by lia.
  now rewrite usageOfDeltas_clamp, clampPercent_idempotent.
Qed.

(** The first poll of a run: the sampler takes its baseline and the
    series receives the gap-fill value of the empty series. *)
Lemma pollOnce_first (max_points : nat) (input : PollInput) (s : ProcStat) :
  (0 < max_points)%nat ->
  poll_stat input = Some s -> cpu_tag s = "cpu"%string ->
  exists st', pollOnce max_points PollState_initial input = Ok st'
              /\ sampler st' = {| prev_idle := idle_ticks_of s;
                                  prev_total := total_ticks_of s;
                                  initialized := true |}
              /\ cpu_usage (history st') = [0%float].
Proof.
  intros Hn Hstat Htag.
  destruct (pollOnce_cpu_usage max_points PollState_initial input Hn)
    as (st' & Hp & Hsam & Hcpu).
  exists st'. split; [exact Hp|].
  rewrite Hstat in Hsam, Hcpu.
  rewrite (sampler_stores_baseline _ _ Htag) in Hsam.
  rewrite sampler_rebaseline in Hcpu by (auto; left; reflexivity).
  split; [exact Hsam|].
  rewrite Hcpu. simpl. rewrite appendHistoryValue_room by (simpl; lia).
  reflexivity.
Qed.

End Polls.

Section FivePolls.

Lemma idle_ticks_range (s : ProcStat) : 0 <= idle_ticks_of s < 2 ^ 64.
Proof. apply u64_range. Qed.

Lemma total_ticks_range (s : ProcStat) : 0 <= total_ticks_of s < 2 ^ 64.
Proof. apply u64_range. Qed.

(** C9, as the code has it.  Five polls over counters whose idle and
    total ticks grow by [di] and [dt] per poll leave a CPU usage series
    of five entries: the gap-fill value 0 stored by the first poll,
    which only gives the sampler its baseline, then four times the
    clamped value of the usage formula. *)
Theorem five_polls_history (max_points : nat)
    (p0 p1 p2 p3 p4 : PollInput) (s0 s1 s2 s3 s4 : ProcStat) (i0 t0 di dt : Z) :
  (5 <= max_points)%nat ->
  Forall2 (fun p s => poll_stat p = Some s /\ cpu_tag s = "cpu"%string)
          [p0; p1; p2; p3; p4] [s0; s1; s2; s3; s4] ->
  (forall k s, [s0; s1; s2; s3; s4] !! k = Some s ->
               idle_ticks_of s = i0 + Z.of_nat k * di
               /\ total_ticks_of s = t0 + Z.of_nat k * dt) ->
  0 <= di -> 0 < dt ->
  let u := clampPercent (usageFormula di dt) in
  exists st,
    runPolls max_points PollState_initial [p0; p1; p2; p3; p4] = Ok st
    /\ cpu_usage (history st) = [0%float; u; u; u; u]
    /\ length (cpu_usage (history st)) = 5%nat
    /\ in_range 0 100 u
    /\ sampler st = {| prev_idle := i0 + 4 * di; prev_total := t0 + 4 * dt;
                       initialized := true |}.
Proof.
  intros Hn Hall Hlin Hdi Hdt u.
  repeat match goal with
         | H : Forall2 _ (_ :: _) (_ :: _) |- _ =>
             apply Forall2_cons_1 in H; destruct H as [[? ?] H]
         end.
  destruct (Hlin 0%nat s0 eq_refl) as [Hi0 Ht0].
  destruct (Hlin 1%nat s1 eq_refl) as [Hi1 Ht1].
  destruct (Hlin 2%nat s2 eq_refl) as [Hi2 Ht2].
  destruct (Hlin 3%nat s3 eq_refl) as [Hi3 Ht3].
  destruct (Hlin 4%nat s4 eq_refl) as [Hi4 Ht4].
  pose proof (idle_ticks_range s0). pose proof (total_ticks_range s0).
  pose proof (idle_ticks_range s1). pose proof (total_ticks_range s1).
  pose proof (idle_ticks_range s2). pose proof (total_ticks_range s2).
  pose proof (idle_ticks_range s3). pose proof (total_ticks_range s3).
  destruct (pollOnce_first max_points p0 s0) as (st1 & Hp1 & Hs1 & Hc1);
    [lia | assumption | assumption |].
  destruct (pollOnce_forward max_points st1 p1 s1
              (idle_ticks_of s0) (total_ticks_of s0) di dt)
    as (st2 & Hp2 & Hs2 & Hc2);
    [rewrite Hc1; simpl; lia | assumption | assumption | exact Hs1
     | assumption | assumption | lia | lia | lia | lia |].
  destruct (pollOnce_forward max_points st2 p2 s2
              (idle_ticks_of s0 + di) (total_ticks_of s0 + dt) di dt)
    as (st3 & Hp3 & Hs3 & Hc3);
    [rewrite Hc2, Hc1; simpl; lia | assumption | assumption | exact Hs2
     | lia | lia | lia | lia | lia | lia |].
  destruct (pollOnce_forward max_points st3 p3 s3
              (idle_ticks_of s0 + di + di) (total_ticks_of s0 + dt + dt) di dt)
    as (st4 & Hp4 & Hs4 & Hc4);
    [rewrite Hc3, Hc2, Hc1; simpl; lia | assumption | assumption | exact Hs3
     | lia | lia | lia | lia | lia | lia |].
  destruct (pollOnce_forward max_points st4 p4 s4
              (idle_ticks_of s0 + di + di + di) (total_ticks_of s0 + dt + dt + dt) di dt)
    as (st5 & Hp5 & Hs5 & Hc5);
    [rewrite Hc4, Hc3, Hc2, Hc1; simpl; lia | assumption | assumption | exact Hs4
     | lia | lia | lia | lia | lia | lia |].
  exists st5. cbn [runPolls]. rewrite Hp1, Hp2, Hp3, Hp4, Hp5.
  assert (Hseries : cpu_usage (history st5) = [0%float; u; u; u; u])
    by (rewrite Hc5, Hc4, Hc3, Hc2, Hc1; reflexivity).
  split; [reflexivity|]. split; [exact Hseries|].
  split; [now rewrite Hseries|].
  split; [apply clampPercent_range|].
  rewrite Hs5. f_equal; lia.
Qed.

(** C9, as the claim states it, fails: the five synthetic polls leave
    five entries in the series, not four. *)
Lemma five_polls_give_five_entries :
  exists st,
    runPolls kHistoryPoints PollState_initial linear_polls = Ok st
    /\ cpu_usage (history st) = [0%float; 50%float; 50%float; 50%float; 50%float]
    /\ length (cpu_usage (history st)) <> 4%nat.
Proof.
  eexists. split; [vm_compute; reflexivity|].
  split; [reflexivity | discriminate].
Qed.

End FivePolls.

(* ===================================================================== *)
(** ** The theorems at concrete inputs *)
(* ===================================================================== *)

Section Witnesses.

(** C1 at the baseline (100, 1000) and the reading (150, 1100). *)
Lemma collectCpuUsagePercent_spec_witness :
  cpu_tag (linear_stat 1) = "cpu"%string
  /\ state_in_range baseline_state
  /\ snd (collectCpuUsagePercent baseline_state (Some (linear_stat 1)))
     = Some 50%float.
Proof.
  assert (Hst : state_in_range baseline_state)
    by (unfold state_in_range; simpl; lia).
  split; [reflexivity|]. split; [exact Hst|].
  destruct (collectCpuUsagePercent_spec baseline_state (linear_stat 1) eq_refl Hst)
    as (_ & _ & _ & _ & _ & _ & H).
  apply H; reflexivity.
Defined.

(** C2 at capacity 3 and five samples, two of them missing. *)
Lemma appendHistoryValue_spec_witness :
  (0 < 3)%nat
  /\ appendHistoryValues 3 [] [Some 10%float; None; Some 250%float; Some 30%float; None]
     = [100%float; 30%float; 30%float]
  /\ length (appendHistoryValues 3 []
               [Some 10%float; None; Some 250%float; Some 30%float; None]) = 3%nat.
Proof.
  split; [lia|].
  destruct (appendHistoryValue_spec 3
              [Some 10%float; None; Some 250%float; Some 30%float; None]
              ltac:(lia))
    as (_ & _ & Hlen & Hwin & _).
  split; [rewrite Hwin; vm_compute; reflexivity | apply Hlen; simpl; lia].
Defined.


(** C5, amended, at the same input: the Intel record, which the tool
    record did not consume, is in the output. *)
Lemma fusion_appends_unconsumed_witness :
  (1 <= length [tool_gpu])%nat
  /\ In sysfs_intel_gpu
        (collectGpusFrom no_fallback [tool_gpu] [sysfs_intel_gpu; sysfs_nvidia_gpu])
  /\ length (collectGpusFrom no_fallback [tool_gpu]
               [sysfs_intel_gpu; sysfs_nvidia_gpu]) = 2%nat.
Proof.
  split; [simpl; lia|].
  destruct (fusion_appends_unconsumed no_fallback [tool_gpu]
              [sysfs_intel_gpu; sysfs_nvidia_gpu] ltac:(simpl; lia))
    as (_ & Hlen & Hall).
  split.
  - destruct (Hall 0%nat sysfs_intel_gpu eq_refl) as [[_ Hin] | (k & base & _ & Hk & _)].
    + exact Hin.
    + exfalso. revert Hk. vm_compute. destruct k as [|[|k]]; discriminate.
  - rewrite Hlen. vm_compute. reflexivity.
Defined.


(** C9, amended, at the synthetic counters (100 + 50 k, 1000 + 100 k). *)
Lemma five_polls_history_witness :
  exists st,
    runPolls kHistoryPoints PollState_initial
      [linear_poll 0; linear_poll 1; linear_poll 2; linear_poll 3; linear_poll 4]
    = Ok st
    /\ cpu_usage (history st)
       = [0%float; clampPercent (usageFormula 50 100);
          clampPercent (usageFormula 50 100);
          clampPercent (usageFormula 50 100);
          clampPercent (usageFormula 50 100)].
Proof.
  destruct (five_polls_history kHistoryPoints
              (linear_poll 0) (linear_poll 1) (linear_poll 2) (linear_poll 3)
              (linear_poll 4)
              (linear_stat 0) (linear_stat 1) (linear_stat 2) (linear_stat 3)
              (linear_stat 4) 100 1000 50 100)
    as (st & Hrun & Hseries & _).
  - unfold kHistoryPoints. lia.
  - repeat constructor.
  - intros k s Hk.
    destruct k as [|[|[|[|[|k]]]]]; simpl in Hk; try discriminate;
      injection Hk as <-; split; reflexivity.
  - lia.
  - lia.
  - exists st. split; [exact Hrun | exact Hseries].
Defined.

(** The older fusion at the same input: the Intel record is dropped. *)
Lemma legacy_fusion_drops_unconsumed_witness :
  [tool_gpu] <> []
  /\ length (Legacy.collectGpusFrom no_fallback [tool_gpu]
               [sysfs_intel_gpu; sysfs_nvidia_gpu]) = 1%nat
  /\ ~ In sysfs_intel_gpu
         (Legacy.collectGpusFrom no_fallback [tool_gpu]
            [sysfs_intel_gpu; sysfs_nvidia_gpu]).
Proof.
  split; [discriminate|]. split.
  - apply (legacy_fusion_drops_unconsumed no_fallback [tool_gpu]
             [sysfs_intel_gpu; sysfs_nvidia_gpu]). discriminate.
  - vm_compute. intros [H|[]]. discriminate H.
Defined.

End Witnesses.

(* ===================================================================== *)
(** ** main.cpp: the line loop ends *)
(* ===================================================================== *)

Section LineLoop.

Variables x0 y0 dx dy sx sy : Z.
Hypothesis dx_nonneg : 0 <= dx.
Hypothesis dy_nonneg : 0 <= dy.
Hypothesis sx_unit : sx = 1 \/ sx = -1.
Hypothesis sy_unit : sy = 1 \/ sy = -1.
Hypothesis x0_range : 0 <= x0 < 2 ^ 29.
Hypothesis y0_range : 0 <= y0 < 2 ^ 29.
Hypothesis x1_range : 0 <= x0 + sx * dx < 2 ^ 29.
Hypothesis y1_range : 0 <= y0 + sy * dy < 2 ^ 29.

(** After [i] steps along x and [j] steps along y the error term is
    [dx - dy - i * dy + j * dx], and it stays between [- 2 * dy] and
    [2 * dx], so that its double fits [int]; a step is never taken
    along an axis whose end was reached, and some step is taken while
    an end is missing.  So [dx - i + dy - j] iterations remain at
    most. *)
Lemma rasterizeLoop_ends (fuel : nat) (canvas : BrailleCanvas) (i j : Z) :
  0 <= i <= dx -> 0 <= j <= dy ->
  - 2 * dy <= dx - dy - i * dy + j * dx <= 2 * dx ->
  (Z.to_nat (dx - i + (dy - j)) < fuel)%nat ->
  exists canvas',
    rasterizeLoop fuel canvas (x0 + sx * i) (y0 + sy * j)
                  (x0 + sx * dx) (y0 + sy * dy) dx dy sx sy
                  (dx - dy - i * dy + j * dx)
    = Some canvas'.
Proof.
  revert canvas i j.
  induction fuel as [|fuel IH]; intros canvas i j Hi Hj He Hfuel; [lia|].
  destruct ((x0 + sx * i =? x0 + sx * dx) && (y0 + sy * j =? y0 + sy * dy)) eqn:Eend.
  { cbn [rasterizeLoop]. rewrite Eend. eauto. }
  assert (Hnot : i < dx \/ j < dy).
  { apply andb_false_iff in Eend. rewrite !Z.eqb_neq in Eend.
    destruct Eend as [E|E]; [left|right].
    - destruct (Z.eq_dec i dx) as [->|]; [congruence | lia].
    - destruct (Z.eq_dec j dy) as [->|]; [congruence | lia]. }
  assert (Hdx : dx < 2 ^ 29) by (destruct sx_unit as [-> | ->]; lia).
  assert (Hdy : dy < 2 ^ 29) by (destruct sy_unit as [-> | ->]; lia).
  rewrite rasterizeLoop_step; try assumption; try lia;
    try (destruct sx_unit as [-> | ->], sy_unit as [-> | ->]; lia).
  cbv zeta.
  destruct (line_progress dx dy i j Hi Hj Hnot) as (Hpx & Hpy & Hpany).
  set (e := dx - dy - i * dy + j * dx) in *.
  destruct (- dy <? e * 2) eqn:Emx; destruct (e * 2 <? dx) eqn:Emy;
    rewrite ?Z.ltb_lt, ?Z.ltb_ge in Emx, Emy; cbv iota; cbn [andb].
  - (* both axes *)
    assert (i < dx) by (apply Hpx; lia). assert (j < dy) by (apply Hpy; lia).
    assert (Hnew : dx - dy - (i + 1) * dy + (j + 1) * dx = e - dy + dx) by (subst e; lia).
    replace (x0 + sx * i + sx) with (x0 + sx * (i + 1)) by lia.
    replace (y0 + sy * j + sy) with (y0 + sy * (j + 1)) by lia.
    rewrite <- Hnew. apply IH; lia.
  - (* x only *)
    assert (i < dx) by (apply Hpx; lia).
    assert (Hnew : dx - dy - (i + 1) * dy + j * dx = e - dy) by (subst e; lia).
    replace (x0 + sx * i + sx) with (x0 + sx * (i + 1)) by lia.
    rewrite <- Hnew. apply IH; lia.
  - (* y only *)
    assert (j < dy) by (apply Hpy; lia).
    assert (Hnew : dx - dy - i * dy + (j + 1) * dx = e + dx) by (subst e; lia).
    replace (y0 + sy * j + sy) with (y0 + sy * (j + 1)) by lia.
    rewrite <- Hnew. apply IH; lia.
  - (* no step: only when both ends are reached *)
    exfalso. lia.
Qed.

End LineLoop.

Section LineEnds.

(** On a canvas whose sides are at most 2^29 cells and which has
    fewer than 2^31 cells, the line routine always returns: none of its
    [int] operations overflows, and the bound on the number of
    iterations built into [rasterizeBrailleLine] is never reached. *)
Lemma rasterizeBrailleLine_returns (canvas : BrailleCanvas) (x0 y0 x1 y1 : Z) :
  canvas_fits canvas ->
  exists canvas', rasterizeBrailleLine canvas x0 y0 x1 y1 = Some canvas'.
Proof.
  intros Hfits. unfold rasterizeBrailleLine.
  destruct (isInsideCanvas canvas x0 y0) eqn:H0; cbn [negb orb]; [|eauto].
  destruct (isInsideCanvas canvas x1 y1) eqn:H1; cbn [negb orb]; [|eauto].
  destruct (inside_fits canvas x0 y0 Hfits H0) as (Hx0 & Hy0).
  destruct (inside_fits canvas x1 y1 Hfits H1) as (Hx1 & Hy1).
  destruct (line_deltas x0 x1 Hx0 Hx1) as (Ex & Hdx & Hsx & Fx & Fdx).
  destruct (line_deltas y0 y1 Hy0 Hy1) as (Ey & Hdy & Hsy & Fy & Fdy).
  cbv zeta in Ex, Hdx, Hsx, Fx, Fdx, Ey, Hdy, Hsy, Fy, Fdy. cbv zeta.
  rewrite Fx, Fy, Fdx, Fdy. cbn [andb negb].
  set (dx := Z.abs (x1 - x0)) in *. set (dy := Z.abs (y1 - y0)) in *.
  set (sx := if x0 <? x1 then 1 else -1) in *.
  set (sy := if y0 <? y1 then 1 else -1) in *.
  rewrite (fitsInt_true (dx - dy)) by lia. cbn [negb].
  pose proof (rasterizeLoop_ends x0 y0 dx dy sx sy
                ltac:(lia) ltac:(lia) Hsx Hsy Hx0 Hy0
                ltac:(rewrite <- Ex; exact Hx1) ltac:(rewrite <- Ey; exact Hy1)
                (S (Z.to_nat (dx + dy)))
                (addCanvasMask canvas x0 y0 kDirPoint) 0 0
                ltac:(lia) ltac:(lia) ltac:(lia) ltac:(lia)) as H.
  rewrite !Z.mul_0_r, !Z.mul_0_l, !Z.add_0_r, Z.sub_0_r in H.
  rewrite <- Ex, <- Ey in H. exact H.
Qed.

End LineEnds.

(* ===================================================================== *)
(** ** linux_utils.hpp: [trim] and [splitByChar] *)
(* ===================================================================== *)

Section Strings.

Lemma append_nil_r (s : string) : (s ++ EmptyString)%string = s.
Proof. induction s as [|c s IH]; simpl; congruence. Qed.

Lemma append_assoc (a b c : string) : ((a ++ b) ++ c)%string = (a ++ (b ++ c))%string.
Proof. induction a as [|x a IH]; simpl; congruence. Qed.

Lemma length_append (a b : string) :
  String.length (a ++ b) = (String.length a + String.length b)%nat.
Proof. induction a as [|x a IH]; simpl; congruence. Qed.

Lemma substring_0_cons (c : ascii) (s : string) (n : nat) :
  String.substring 0 (S n) (String c s) = String c (String.substring 0 n s).
Proof. reflexivity. Qed.

Lemma substring_S_cons (c : ascii) (s : string) (n m : nat) :
  String.substring (S n) m (String c s) = String.substring n m s.
Proof. reflexivity. Qed.

Lemma countByte_append (c : ascii) (a b : string) :
  countByte c (a ++ b) = (countByte c a + countByte c b)%nat.
Proof. induction a as [|x a IH]; simpl; [reflexivity | rewrite IH; lia]. Qed.

Lemma allBlank_append (a b : string) :
  allBlank (a ++ b) = allBlank a && allBlank b.
Proof.
  induction a as [|x a IH]; simpl; [reflexivity|].
  rewrite IH. now rewrite andb_assoc.
Qed.

Lemma lastByte_nonempty (c : ascii) (s : string) :
  exists d, lastByte (String c s) = Some d.
Proof.
  revert c. induction s as [|x s IH]; intros c; [now exists c|].
  destruct (IH x) as (d & Hd). exists d. exact Hd.
Qed.

Lemma lastByte_cons (c : ascii) (s : string) :
  lastByte (String c s) = match lastByte s with Some d => Some d | None => Some c end.
Proof.
  destruct s as [|d s]; [reflexivity|].
  destruct (lastByte_nonempty d s) as (x & Hx). rewrite Hx. exact Hx.
Qed.

Lemma lastByte_None (s : string) : lastByte s = None <-> s = EmptyString.
Proof.
  split; [|now intros ->].
  destruct s as [|c s]; [reflexivity|]. rewrite lastByte_cons.
  now destruct (lastByte s).
Qed.

End Strings.

Section Trim.

(** There is no last byte outside the set exactly when dropping the
    blanks at the end leaves nothing. *)
Lemma find_last_not_of_None (s : string) :
  find_last_not_of s kBlanks = None <-> dropTrailingBlanks s = EmptyString.
Proof.
  induction s as [|c s IH]; [easy|]. cbn [find_last_not_of dropTrailingBlanks].
  destruct (find_last_not_of s kBlanks) as [i|].
  - split; [discriminate|]. intros H.
    destruct (dropTrailingBlanks s); [|discriminate].
    destruct IH as [_ IH]. discriminate (IH eq_refl).
  - destruct IH as [IH _]. rewrite (IH eq_refl).
    destruct (str_mem c kBlanks); easy.
Qed.

Lemma find_last_not_of_prefix (s : string) (last : nat) :
  find_last_not_of s kBlanks = Some last ->
  String.substring 0 (last + 1) s = dropTrailingBlanks s.
Proof.
  revert last. induction s as [|c s IH]; intros last; [discriminate|].
  cbn [find_last_not_of dropTrailingBlanks].
  destruct (find_last_not_of s kBlanks) as [i|] eqn:E.
  - intros [= <-]. cbn [Nat.add]. rewrite substring_0_cons, (IH i eq_refl).
    destruct (dropTrailingBlanks s) eqn:Ed; [|reflexivity].
    apply find_last_not_of_None in Ed. congruence.
  - apply find_last_not_of_None in E. rewrite E.
    destruct (str_mem c kBlanks); [discriminate|]. intros [= <-].
    cbn. now destruct s.
Qed.

(** [trim] drops the blanks in front, then those at the end. *)
Lemma trim_structural (s : string) :
  trim s = dropTrailingBlanks (dropLeadingBlanks s).
Proof.
  unfold trim, substr. induction s as [|c s IH]; [reflexivity|].
  cbn [find_first_not_of dropLeadingBlanks].
  destruct (str_mem c kBlanks) eqn:Ec.
  - rewrite <- IH. cbn [find_last_not_of]. rewrite Ec.
    destruct (find_first_not_of s kBlanks) as [first|]; [|reflexivity].
    destruct (find_last_not_of s kBlanks) as [last|]; [|reflexivity].
    rewrite substring_S_cons. reflexivity.
  - destruct (find_last_not_of (String c s) kBlanks) as [last|] eqn:El.
    + rewrite Nat.sub_0_r. now apply find_last_not_of_prefix.
    + cbn [find_last_not_of] in El. rewrite Ec in El.
      destruct (find_last_not_of s kBlanks); discriminate.
Qed.

Lemma dropLeadingBlanks_split (s : string) :
  exists l, s = (l ++ dropLeadingBlanks s)%string /\ allBlank l = true.
Proof.
  induction s as [|c s (l & Hs & Hl)]; [now exists EmptyString|].
  cbn [dropLeadingBlanks]. destruct (str_mem c kBlanks) eqn:Ec.
  - exists (String c l). split; [simpl; congruence | cbn [allBlank]; now rewrite Ec].
  - now exists EmptyString.
Qed.

Lemma dropTrailingBlanks_split (s : string) :
  exists r, s = (dropTrailingBlanks s ++ r)%string /\ allBlank r = true.
Proof.
  induction s as [|c s (r & Hs & Hr)]; [now exists EmptyString|].
  cbn [dropTrailingBlanks]. destruct (dropTrailingBlanks s) as [|d kept] eqn:Ed.
  - destruct (str_mem c kBlanks) eqn:Ec.
    + exists (String c r). split; [simpl in *; congruence | cbn [allBlank]; now rewrite Ec].
    + exists r. split; [simpl in *; congruence | exact Hr].
  - exists r. split; [simpl in *; congruence | exact Hr].
Qed.

Lemma dropLeadingBlanks_head (s : string) :
  match dropLeadingBlanks s with
  | EmptyString => True
  | String c _ => str_mem c kBlanks = false
  end.
Proof.
  induction s as [|c s IH]; [exact I|]. cbn [dropLeadingBlanks].
  destruct (str_mem c kBlanks) eqn:Ec; [exact IH | exact Ec].
Qed.

Lemma dropTrailingBlanks_head (c : ascii) (s : string) :
  str_mem c kBlanks = false ->
  exists kept, dropTrailingBlanks (String c s) = String c kept.
Proof.
  intros Ec. cbn [dropTrailingBlanks].
  destruct (dropTrailingBlanks s); [rewrite Ec|]; eauto.
Qed.

Lemma dropTrailingBlanks_last (s : string) :
  match lastByte (dropTrailingBlanks s) with
  | Some d => str_mem d kBlanks = false
  | None => True
  end.
Proof.
  induction s as [|c s IH]; [exact I|]. cbn [dropTrailingBlanks].
  destruct (dropTrailingBlanks s) as [|d kept] eqn:Ed.
  - destruct (str_mem c kBlanks) eqn:Ec; [exact I | exact Ec].
  - rewrite lastByte_cons. destruct (lastByte_nonempty d kept) as (x & Hx).
    rewrite Hx in *. exact IH.
Qed.

Lemma trim_isTrimmed (s : string) : isTrimmed (trim s) = true.
Proof.
  rewrite trim_structural. pose proof (dropLeadingBlanks_head s) as Hh.
  destruct (dropLeadingBlanks s) as [|c rest] eqn:Es; [reflexivity|].
  destruct (dropTrailingBlanks_head c rest Hh) as (kept & Hk).
  pose proof (dropTrailingBlanks_last (String c rest)) as Hl. rewrite Hk in *.
  unfold isTrimmed. rewrite Hh. cbn [negb andb].
  destruct (lastByte (String c kept)); [now rewrite Hl | reflexivity].
Qed.

Lemma dropTrailingBlanks_fixed (s : string) :
  match lastByte s with Some d => str_mem d kBlanks = false | None => True end ->
  dropTrailingBlanks s = s.
Proof.
  induction s as [|c s IH]; [reflexivity|]. rewrite lastByte_cons.
  cbn [dropTrailingBlanks]. destruct (lastByte s) as [d|] eqn:El.
  - intros Hd. rewrite (IH Hd). destruct s; [discriminate | reflexivity].
  - apply lastByte_None in El. subst s. intros ->. reflexivity.
Qed.

Lemma trim_of_trimmed (s : string) : isTrimmed s = true -> trim s = s.
Proof.
  rewrite trim_structural. destruct s as [|c s]; [reflexivity|].
  unfold isTrimmed. intros H. apply andb_true_iff in H as [Hc Hl].
  apply negb_true_iff in Hc. cbn [dropLeadingBlanks]. rewrite Hc.
  apply dropTrailingBlanks_fixed.
  destruct (lastByte (String c s)); [now apply negb_true_iff | exact I].
Qed.

Lemma dropLeadingBlanks_append (l s : string) :
  allBlank l = true -> dropLeadingBlanks (l ++ s) = dropLeadingBlanks s.
Proof.
  induction l as [|c l IH]; [reflexivity|]. cbn [allBlank]. intros H.
  apply andb_true_iff in H as [Hc Hl].
  change (String c l ++ s)%string with (String c (l ++ s)).
  cbn [dropLeadingBlanks]. rewrite Hc. now apply IH.
Qed.

Lemma dropTrailingBlanks_allBlank (r : string) :
  allBlank r = true -> dropTrailingBlanks r = EmptyString.
Proof.
  induction r as [|c r IH]; [reflexivity|]. cbn [allBlank dropTrailingBlanks].
  intros H. apply andb_true_iff in H as [Hc Hr]. now rewrite (IH Hr), Hc.
Qed.

Lemma dropTrailingBlanks_append (s r : string) :
  allBlank r = true -> dropTrailingBlanks (s ++ r) = dropTrailingBlanks s.
Proof.
  intros Hr. induction s as [|c s IH]; [now apply dropTrailingBlanks_allBlank|].
  change (String c s ++ r)%string with (String c (s ++ r)).
  cbn [dropTrailingBlanks]. now rewrite IH.
Qed.

(** A string without outer blanks is what [trim] gives back when blanks
    are put around it. *)
Lemma trim_padding (l t r : string) :
  allBlank l = true -> allBlank r = true -> isTrimmed t = true ->
  trim (l ++ t ++ r) = t.
Proof.
  intros Hl Hr Ht. rewrite trim_structural, (dropLeadingBlanks_append l _ Hl).
  rewrite <- (trim_of_trimmed t Ht) at 2. rewrite trim_structural.
  destruct t as [|c t].
  - cbn [String.append dropLeadingBlanks].
    destruct (dropLeadingBlanks_split r) as (l' & Hs & Hl').
    assert (Hb : allBlank (dropLeadingBlanks r) = true).
    { rewrite Hs in Hr. rewrite allBlank_append in Hr.
      now apply andb_true_iff in Hr as [_ Hr]. }
    now apply dropTrailingBlanks_allBlank.
  - unfold isTrimmed in Ht. apply andb_true_iff in Ht as [Hc _].
    apply negb_true_iff in Hc.
    change (String c t ++ r)%string with (String c (t ++ r)).
    cbn [dropLeadingBlanks]. rewrite Hc.
    change (String c (t ++ r)) with (String c t ++ r)%string.
    now apply dropTrailingBlanks_append.
Qed.

(** What [trim] removes lies in front and at the end, and is blank. *)
Lemma trim_split (s : string) :
  exists l r, s = (l ++ trim s ++ r)%string /\ allBlank l = true /\ allBlank r = true.
Proof.
  rewrite trim_structural.
  destruct (dropLeadingBlanks_split s) as (l & Hs & Hl).
  destruct (dropTrailingBlanks_split (dropLeadingBlanks s)) as (r & Hd & Hr).
  exists l, r. split; [|easy]. now rewrite <- Hd.
Qed.

End Trim.

Section TrimProperty.

Lemma dropLeadingBlanks_allBlank (s : string) :
  allBlank s = true -> dropLeadingBlanks s = EmptyString.
Proof.
  induction s as [|c s IH]; [reflexivity|]. cbn [allBlank dropLeadingBlanks].
  intros H. apply andb_true_iff in H as [-> H]. now apply IH.
Qed.

(** [trim] removes blanks (space, tab, carriage return, line feed) in
    front and at the end and nothing else: the input is the result
    between two runs of blanks, the result neither starts nor ends with
    a blank, a string of blanks gives the empty string, a string
    without outer blanks is returned as it is whatever blanks are put
    around it, and trimming twice is trimming once. *)
Theorem trim_spec (input : string) :
  (exists l r, input = (l ++ trim input ++ r)%string
               /\ allBlank l = true /\ allBlank r = true)
  /\ isTrimmed (trim input) = true
  /\ (allBlank input = true -> trim input = EmptyString)
  /\ (isTrimmed input = true ->
      forall l r, allBlank l = true -> allBlank r = true ->
                  trim (l ++ input ++ r) = input)
  /\ trim (trim input) = trim input.
Proof.
  split; [apply trim_split|]. split; [apply trim_isTrimmed|].
  split; [|split].
  - intros H. rewrite trim_structural, (dropLeadingBlanks_allBlank input H). reflexivity.
  - intros Ht l r Hl Hr. now apply trim_padding.
  - apply trim_of_trimmed, trim_isTrimmed.
Qed.

End TrimProperty.

Section Split.

Variable delimiter : ascii.

Lemma lastByte_append (a : string) (c : ascii) (b : string) :
  lastByte (a ++ String c b) = lastByte (String c b).
Proof.
  induction a as [|x a IH]; [reflexivity|].
  change (String x a ++ String c b)%string with (String x (a ++ String c b)).
  rewrite lastByte_cons, IH.
  destruct (lastByte_nonempty c b) as (d & ->). reflexivity.
Qed.

Lemma countByte_lastByte (s : string) (c : ascii) :
  countByte delimiter s = 0%nat -> lastByte s = Some c -> Ascii.eqb c delimiter = false.
Proof.
  revert c. induction s as [|x s IH]; intros c; [discriminate|].
  cbn [countByte]. rewrite lastByte_cons.
  destruct (Ascii.eqb x delimiter) eqn:Ex; [lia|]. intros Hs.
  destruct (lastByte s) as [d|]; intros [= <-]; [now apply IH | exact Ex].
Qed.

(** What one [getline] extracts: an item without delimiter, followed in
    the stream by a delimiter and the rest, or by the end. *)
Lemma readItem_spec (stream item rest : string) :
  readItem stream delimiter = (item, rest) ->
  countByte delimiter item = 0%nat
  /\ ((countByte delimiter stream = 0%nat /\ item = stream /\ rest = EmptyString)
      \/ stream = (item ++ String delimiter rest)%string).
Proof.
  revert item rest. induction stream as [|c s IH]; intros item rest.
  - cbn. intros [= <- <-]. auto.
  - cbn [readItem countByte]. destruct (Ascii.eqb c delimiter) eqn:Ec.
    + intros [= <- <-]. apply Ascii.eqb_eq in Ec. subst c. split; [reflexivity|].
      right. reflexivity.
    + destruct (readItem s delimiter) as [item' rest'] eqn:Er. intros [= <- <-].
      destruct (IH item' rest' eq_refl) as (Hc & [(Hs & -> & ->) | ->]).
      * split; [cbn [countByte]; now rewrite Ec|]. left. auto.
      * split; [cbn [countByte]; now rewrite Ec|]. right. reflexivity.
Qed.

Lemma fieldCount_no_delimiter (c : ascii) (s : string) :
  countByte delimiter (String c s) = 0%nat -> fieldCount (String c s) delimiter = 1%nat.
Proof.
  intros H. unfold fieldCount. rewrite H.
  destruct (lastByte_nonempty c s) as (d & Hd). rewrite Hd.
  now rewrite (countByte_lastByte _ d H Hd).
Qed.

Lemma fieldCount_delimiter (item rest : string) :
  countByte delimiter item = 0%nat ->
  fieldCount (item ++ String delimiter rest) delimiter
  = S (fieldCount rest delimiter).
Proof.
  intros H. unfold fieldCount.
  rewrite countByte_append, H, lastByte_append, lastByte_cons.
  cbn [countByte]. rewrite Ascii.eqb_refl.
  destruct (lastByte rest) as [d|]; [lia|]. rewrite Ascii.eqb_refl. lia.
Qed.

Lemma trim_no_delimiter (item : string) :
  countByte delimiter item = 0%nat -> countByte delimiter (trim item) = 0%nat.
Proof.
  destruct (trim_split item) as (l & r & Hs & _). intros H.
  rewrite Hs in H. rewrite !countByte_append in H. lia.
Qed.

Lemma splitLoop_spec (fuel : nat) (stream : string) :
  (String.length stream < fuel)%nat ->
  exists out,
    splitLoop fuel stream delimiter = Some out
    /\ length out = fieldCount stream delimiter
    /\ Forall (fun field => isTrimmed field = true
                            /\ countByte delimiter field = 0%nat) out.
Proof.
  revert stream. induction fuel as [|fuel IH]; intros stream Hfuel; [lia|].
  cbn [splitLoop]. destruct stream as [|c s]; [exists []; auto|].
  cbn [getline]. destruct (readItem (String c s) delimiter) as [item rest] eqn:Er.
  destruct (readItem_spec _ _ _ Er) as (Hitem & [(Hs & -> & ->) | Hs]).
  - destruct fuel as [|fuel]; [simpl in Hfuel; lia|]. cbn [splitLoop getline].
    exists [trim (String c s)]. split; [reflexivity|]. split.
    + now rewrite fieldCount_no_delimiter.
    + constructor; [|constructor]. split; [apply trim_isTrimmed|].
      now apply trim_no_delimiter.
  - assert (Hlen : (String.length rest < fuel)%nat).
    { apply (f_equal String.length) in Hs. rewrite length_append in Hs.
      simpl in Hs, Hfuel. lia. }
    destruct (IH rest Hlen) as (out & -> & Hcount & Hall).
    exists (trim item :: out). split; [reflexivity|]. split.
    + rewrite Hs, (fieldCount_delimiter item rest Hitem). simpl. now rewrite Hcount.
    + constructor; [|exact Hall]. split; [apply trim_isTrimmed|].
      now apply trim_no_delimiter.
Qed.

(** [splitByChar] always returns.  It gives one field per delimiter and
    one more for what follows the last delimiter, unless nothing
    follows it: the empty line has no field, and a line that ends with
    the delimiter has no empty last field.  No field holds the
    delimiter, and none starts or ends with a blank. *)
Theorem splitByChar_spec (line : string) :
  exists fields,
    splitByChar line delimiter = Some fields
    /\ length fields = fieldCount line delimiter
    /\ Forall (fun field => isTrimmed field = true
                            /\ countByte delimiter field = 0%nat) fields.
Proof. apply splitLoop_spec. lia. Qed.

End Split.

(* ===================================================================== *)
(** ** metrics/cpu.cpp: processor directories and the thread count *)
(* ===================================================================== *)

Section CpuDirectories.

Lemma substring_full (s : string) : String.substring 0 (String.length s) s = s.
Proof. induction s as [|c s IH]; [reflexivity|]. simpl. now rewrite IH. Qed.

Lemma prefix_split (pre s : string) :
  String.prefix pre s = true -> exists rest, s = (pre ++ rest)%string.
Proof.
  revert s. induction pre as [|c pre IH]; intros s; [now exists s|].
  destruct s as [|d s]; [simpl; discriminate|]. cbn [String.prefix].
  destruct (ascii_dec c d) as [<-|]; [|discriminate].
  intros H. destruct (IH s H) as (rest & ->). now exists rest.
Qed.

Lemma prefix_append (pre rest : string) : String.prefix pre (pre ++ rest) = true.
Proof.
  induction pre as [|c pre IH]; [now destruct rest|].
  cbn [String.append String.prefix]. now destruct (ascii_dec c c).
Qed.

Lemma substr_from_append (a b : string) :
  substr_from (a ++ b) (String.length a) = b.
Proof.
  unfold substr_from. rewrite length_append.
  replace (String.length a + String.length b - String.length a)%nat
    with (String.length b) by lia.
  induction a as [|c a IH]; [apply substring_full | exact IH].
Qed.

Lemma all_of_append (p : ascii -> bool) (a b : string) :
  all_of p (a ++ b) = all_of p a && all_of p b.
Proof.
  induction a as [|c a IH]; [reflexivity|]. simpl. now rewrite IH, andb_assoc.
Qed.

Lemma string_of_uint_digits (u : Decimal.uint) :
  all_of isdigit (NilEmpty.string_of_uint u) = true.
Proof. induction u; simpl; auto. Qed.

Lemma to_uint_nonnil (n : N) : N.to_uint n <> Decimal.Nil.
Proof. destruct n as [|p]; [discriminate | apply Unsigned.to_uint_nonnil]. Qed.

Lemma decimal_digits (n : Z) : all_of isdigit (decimal n) = true.
Proof. apply string_of_uint_digits. Qed.

Lemma decimal_nonempty (n : Z) : decimal n <> EmptyString.
Proof.
  unfold decimal. pose proof (to_uint_nonnil (Z.to_N n)) as H.
  destruct (N.to_uint (Z.to_N n)); [congruence | discriminate ..].
Qed.

(** The directories [isCpuDirectoryName] accepts are [cpu] followed by
    at least one byte, all of them decimal digits: [cpu0] and [cpu12]
    are accepted, [cpu], [cpufreq] and [cpuidle] are not.  Every
    [cpu<N>] is accepted. *)
Theorem isCpuDirectoryName_spec (name : string) :
  (isCpuDirectoryName name = true
   <-> exists digits, name = ("cpu" ++ digits)%string
                      /\ digits <> EmptyString /\ all_of isdigit digits = true)
  /\ (forall n : Z, isCpuDirectoryName ("cpu" ++ decimal n) = true)
  /\ isCpuDirectoryName "cpu" = false
  /\ isCpuDirectoryName "cpufreq" = false
  /\ isCpuDirectoryName "cpuidle" = false.
Proof.
  assert (Hif : forall digits, digits <> EmptyString -> all_of isdigit digits = true ->
                               isCpuDirectoryName ("cpu" ++ digits) = true).
  { intros digits Hne Hd. unfold isCpuDirectoryName, startsWith.
    rewrite prefix_append, length_append.
    change (String.length "cpu") with 3%nat.
    destruct digits as [|c digits]; [congruence|].
    cbn [negb orb String.length].
    replace (3 + S (String.length digits) <=? 3)%nat with false
      by (symmetry; apply Nat.leb_gt; lia).
    change 3%nat with (String.length "cpu") at 1.
    rewrite substr_from_append. exact Hd. }
  split; [|split; [|repeat split; reflexivity]].
  - split.
    + unfold isCpuDirectoryName.
      destruct (negb (startsWith name "cpu") || (String.length name <=? 3)%nat) eqn:E;
        [discriminate|].
      apply orb_false_iff in E as [Hp Hl]. apply negb_false_iff in Hp.
      apply Nat.leb_gt in Hl.
      destruct (prefix_split _ _ Hp) as (rest & ->).
      change 3%nat with (String.length "cpu") at 1.
      rewrite substr_from_append. intros H. exists rest. split; [reflexivity|]. split; [|exact H].
      intros ->. simpl in Hl. lia.
    + intros (digits & -> & Hne & Hd). now apply Hif.
  - intros n. apply Hif; [apply decimal_nonempty | apply decimal_digits].
Qed.

End CpuDirectories.

Section ThreadCount.

Lemma count_fold {A : Type} (p : A -> bool) (l : list A) (count : Z) :
  fold_left (fun count x => if p x then count + 1 else count) l count
  = count + Z.of_nat (length (List.filter p l)).
Proof.
  revert count. induction l as [|x l IH]; intros count; [simpl; lia|].
  cbn [fold_left List.filter]. rewrite IH. destruct (p x); simpl length; lia.
Qed.

Lemma processor_fold (lines : list string) (count : Z) :
  fold_left
    (fun count line =>
       match find_char line ":" with
       | None => count
       | Some colon =>
           let key := toLower (trim (substr line 0 colon)) in
           if String.eqb key "processor" then count + 1 else count
       end) lines count
  = count + Z.of_nat (length (List.filter hasProcessorKey lines)).
Proof.
  revert count. induction lines as [|line lines IH]; intros count; [simpl; lia|].
  cbn [fold_left List.filter]. rewrite IH. unfold hasProcessorKey at 2, cpuinfoKey.
  destruct (find_char line ":"); [|lia]. cbv zeta.
  destruct (String.eqb _ "processor"); simpl length; lia.
Qed.

(** The thread count is the number of [cpu<N>] directories when there
    is one, whatever [/proc/cpuinfo] says; otherwise the number of
    [processor] lines of [/proc/cpuinfo]; a count of zero is never
    reported, nothing is. *)
Theorem collectThreadCount_spec (cpu_entries cpuinfo : option (list string)) :
  let directories :=
    Z.of_nat (length (List.filter isCpuDirectoryName (value_or cpu_entries []))) in
  let processors :=
    Z.of_nat (length (List.filter hasProcessorKey (value_or cpuinfo []))) in
  collectThreadCount cpu_entries cpuinfo
  = (if 0 <? directories then Some directories
     else if 0 <? processors then Some processors else None)
  /\ (forall n, collectThreadCount cpu_entries cpuinfo = Some n -> 1 <= n).
Proof.
  intros directories processors.
  assert (Hd : match cpu_entries with
               | Some entries =>
                   fold_left (fun count entry =>
                                if isCpuDirectoryName entry then count + 1 else count)
                             entries 0
               | None => 0
               end = directories).
  { subst directories. destruct cpu_entries as [entries|]; [|reflexivity].
    rewrite count_fold. reflexivity. }
  assert (Heq : collectThreadCount cpu_entries cpuinfo
                = (if 0 <? directories then Some directories
                   else if 0 <? processors then Some processors else None)).
  { unfold collectThreadCount. rewrite Hd.
    destruct (0 <? directories) eqn:E; [reflexivity|].
    assert (directories = 0) by (apply Z.ltb_ge in E; subst directories; lia).
    destruct cpuinfo as [lines|]; [|reflexivity].
    rewrite H. rewrite processor_fold. fold processors.
    reflexivity. }
  split; [exact Heq|]. intros n. rewrite Heq.
  destruct (0 <? directories) eqn:E1; [apply Z.ltb_lt in E1; intros [= <-]; lia|].
  destruct (0 <? processors) eqn:E2; [apply Z.ltb_lt in E2; intros [= <-]; lia|].
  discriminate.
Qed.

End ThreadCount.

(* ===================================================================== *)
(** ** metrics/cpu.cpp: the processor name *)
(* ===================================================================== *)

Section ProcessorName.

Lemma eqb_empty (s : string) : String.eqb s EmptyString = false -> s <> EmptyString.
Proof. intros H ->. discriminate. Qed.

(** The loop in closed form: the first naming line wins; without one,
    the first fallback of each kind, the one found earlier in the same
    call included. *)
Lemma collectNameLoop_closed (lines : list string) (model_fallback processor_fallback : option string) :
  collectNameLoop lines model_fallback processor_fallback
  = match List.find isNameLine lines with
    | Some line => fieldValue line
    | None =>
        match orElse model_fallback (option_map fieldValue (List.find isModelLine lines)) with
        | Some model => model
        | None =>
            match orElse processor_fallback
                         (option_map fieldValue (List.find isProcessorLine lines)) with
            | Some processor => processor
            | None => "Unknown CPU"%string
            end
        end
    end.
Proof.
  revert model_fallback processor_fallback.
  induction lines as [|line lines IH]; intros mf pf.
  - cbn. destruct mf, pf; reflexivity.
  - cbn [collectNameLoop List.find].
    destruct (find_char line ":") as [colon|] eqn:Ec.
    2:{ assert (Hf : cpuinfoField line = None) by (unfold cpuinfoField; now rewrite Ec).
        unfold isNameLine at 1, isModelLine at 1, isProcessorLine at 1.
        rewrite Hf. apply IH. }
    cbv zeta.
    set (key := toLower (trim (substr line 0 colon))).
    set (value := trim (substr_from line (colon + 1))).
    assert (Hf : cpuinfoField line
                 = if String.eqb value EmptyString then None else Some (key, value))
      by (unfold cpuinfoField; now rewrite Ec).
    assert (Hv : String.eqb value EmptyString = false -> fieldValue line = value).
    { intros E. unfold fieldValue. now rewrite Hf, E. }
    unfold isNameLine at 1, isModelLine at 1, isProcessorLine at 1.
    rewrite Hf.
    destruct (String.eqb value EmptyString); [apply IH|]. specialize (Hv eq_refl).
    destruct (String.eqb key "model name" || String.eqb key "cpu model"
              || String.eqb key "hardware") eqn:Ename; [now rewrite Hv|].
    rewrite IH. clear IH.
    destruct (List.find isNameLine lines); [reflexivity|].
    destruct (String.eqb key "model") eqn:Em.
    + apply String.eqb_eq in Em.
      assert (Ep : String.eqb key "processor" = false) by (rewrite Em; reflexivity).
      rewrite Ep. cbn [andb].
      destruct (containsAlphabeticChar value); cbn [andb]; [|reflexivity].
      destruct mf; cbn [has_value negb orElse option_map]; rewrite ?Hv; reflexivity.
    + cbn [andb]. destruct (String.eqb key "processor"); cbn [andb]; [|reflexivity].
      destruct (containsAlphabeticChar value); cbn [andb];
        [|reflexivity].
      destruct pf; cbn [has_value negb orElse option_map]; rewrite ?Hv; reflexivity.
Qed.

Lemma find_fieldValue (p : string -> bool) (lines : list string) (line : string) :
  (forall l, p l = true -> cpuinfoField l <> None) ->
  List.find p lines = Some line -> fieldValue line <> EmptyString.
Proof.
  intros Hp Hfind. apply find_some in Hfind as [_ Hl]. apply Hp in Hl.
  unfold fieldValue. unfold cpuinfoField in *.
  destruct (find_char line ":"); [|congruence]. cbv zeta in *.
  destruct (String.eqb _ EmptyString) eqn:E; [congruence|]. now apply eqb_empty.
Qed.

(** [collectName] returns the value of the first line whose key is
    [model name], [cpu model] or [hardware] (keys compared without case
    and outer blanks, empty values skipped); without such a line the
    first [model] value that holds a letter, then the first such
    [processor] value, then [Unknown CPU].  The name is never empty. *)
Theorem collectName_spec (cpuinfo : option (list string)) :
  collectName cpuinfo
  = match cpuinfo with
    | None => "Unknown CPU"%string
    | Some lines =>
        match List.find isNameLine lines with
        | Some line => fieldValue line
        | None =>
            match List.find isModelLine lines with
            | Some line => fieldValue line
            | None =>
                match List.find isProcessorLine lines with
                | Some line => fieldValue line
                | None => "Unknown CPU"%string
                end
            end
        end
    end
  /\ collectName cpuinfo <> EmptyString.
Proof.
  assert (Heq : collectName cpuinfo
                = match cpuinfo with
                  | None => "Unknown CPU"%string
                  | Some lines =>
                      match List.find isNameLine lines with
                      | Some line => fieldValue line
                      | None =>
                          match List.find isModelLine lines with
                          | Some line => fieldValue line
                          | None =>
                              match List.find isProcessorLine lines with
                              | Some line => fieldValue line
                              | None => "Unknown CPU"%string
                              end
                          end
                      end
                  end).
  { destruct cpuinfo as [lines|]; [|reflexivity]. unfold collectName.
    rewrite collectNameLoop_closed. cbn [orElse].
    destruct (List.find isNameLine lines); [reflexivity|].
    destruct (List.find isModelLine lines); [reflexivity|].
    destruct (List.find isProcessorLine lines); reflexivity. }
  split; [exact Heq|]. rewrite Heq.
  destruct cpuinfo as [lines|]; [|discriminate].
  destruct (List.find isNameLine lines) eqn:E1.
  { apply (find_fieldValue isNameLine lines); [|exact E1].
    intros l. unfold isNameLine. destruct (cpuinfoField l); [discriminate | discriminate]. }
  destruct (List.find isModelLine lines) eqn:E2.
  { apply (find_fieldValue isModelLine lines); [|exact E2].
    intros l. unfold isModelLine. destruct (cpuinfoField l); discriminate. }
  destruct (List.find isProcessorLine lines) eqn:E3; [|discriminate].
  apply (find_fieldValue isProcessorLine lines); [|exact E3].
  intros l. unfold isProcessorLine. destruct (cpuinfoField l); discriminate.
Qed.

End ProcessorName.

(* ===================================================================== *)
(** ** metrics/cpu.cpp: the energy counter of the package *)
(* ===================================================================== *)

Section Rapl.

Lemma raplScore_nonneg (domain_name : string) : 0 <= raplScore domain_name.
Proof.
  unfold raplScore.
  destruct (str_contains domain_name "package"), (str_contains domain_name "cpu"),
    (str_contains domain_name "psys"); lia.
Qed.

Local Abbreviation raplStep :=
  (fun (best : Z * option string) entry =>
     let (best_score, best_path) := best in
     if negb (powercap_is_directory entry) then best
     else if negb (powercap_has_energy_uj entry) then best
     else
       let domain_name := toLower (value_or (powercap_name entry) EmptyString) in
       let score := raplScore domain_name in
       if best_score <? score then (score, Some (energyFile entry))
       else best).

Lemma raplStep_cases (best_score : Z) (best_path : option string) (entry : PowercapEntry) :
  raplStep (best_score, best_path) entry
  = if raplCandidate entry && (best_score <? raplEntryScore entry)
    then (raplEntryScore entry, Some (energyFile entry))
    else (best_score, best_path).
Proof.
  unfold raplCandidate, raplEntryScore.
  destruct (powercap_is_directory entry), (powercap_has_energy_uj entry); reflexivity.
Qed.

(** The loop keeps the state when no candidate beats it, and otherwise
    ends on the first candidate of the highest score. *)
Lemma raplFold (entries : list PowercapEntry) (score : Z) (path : option string) :
  (fold_left raplStep entries (score, path) = (score, path)
   /\ forall x, In x entries -> raplCandidate x = true -> raplEntryScore x <= score)
  \/ exists before e after,
       entries = before ++ e :: after
       /\ raplCandidate e = true
       /\ fold_left raplStep entries (score, path)
          = (raplEntryScore e, Some (energyFile e))
       /\ score < raplEntryScore e
       /\ (forall x, In x before -> raplCandidate x = true ->
                     raplEntryScore x < raplEntryScore e)
       /\ (forall x, In x after -> raplCandidate x = true ->
                     raplEntryScore x <= raplEntryScore e).
Proof.
  revert score path. induction entries as [|entry entries IH]; intros score path.
  - left. split; [reflexivity | intros x []].
  - assert (Hstep : fold_left raplStep (entry :: entries) (score, path)
                    = fold_left raplStep entries
                        (if raplCandidate entry && (score <? raplEntryScore entry)
                         then (raplEntryScore entry, Some (energyFile entry))
                         else (score, path))).
    { cbn [fold_left]. now rewrite raplStep_cases. }
    rewrite Hstep. clear Hstep.
    destruct (raplCandidate entry && (score <? raplEntryScore entry)) eqn:E.
    + apply andb_true_iff in E as [Hc Hs]. apply Z.ltb_lt in Hs.
      destruct (IH (raplEntryScore entry) (Some (energyFile entry)))
        as [(Hfold & Hall) | (before & e & after & -> & Hce & Hfold & Hlt & Hb & Ha)];
        rewrite Hfold.
      * right. exists [], entry, entries.
        repeat split; auto. intros x [].
      * right. exists (entry :: before), e, after.
        repeat split; auto; [lia|].
        intros x [<-|Hx] Hx'; [lia | now apply Hb].
    + assert (Hentry : raplCandidate entry = true -> raplEntryScore entry <= score).
      { intros Hc. rewrite Hc in E. cbn [andb] in E. now apply Z.ltb_ge in E. }
      destruct (IH score path)
        as [(Hfold & Hall) | (before & e & after & -> & Hce & Hfold & Hlt & Hb & Ha)];
        rewrite Hfold.
      * left. split; [reflexivity|]. intros x [<-|Hx] Hx'; [auto | now apply Hall].
      * right. exists (entry :: before), e, after.
        repeat split; auto.
        intros x [<-|Hx] Hx'; [specialize (Hentry Hx'); lia | now apply Hb].
Qed.

(** [findCpuRaplEnergyPath] returns nothing exactly when no entry is a
    directory with an [energy_uj] file.  Otherwise it returns the
    [energy_uj] file of the first such entry among those of the highest
    score: every earlier candidate scores strictly less, no later one
    scores more. *)
Theorem findCpuRaplEnergyPath_spec (base : option (list PowercapEntry)) :
  (findCpuRaplEnergyPath base = None
   <-> forall x, In x (value_or base []) -> raplCandidate x = false)
  /\ (forall path, findCpuRaplEnergyPath base = Some path ->
        exists before e after,
          base = Some (before ++ e :: after)
          /\ raplCandidate e = true /\ path = energyFile e
          /\ (forall x, In x before -> raplCandidate x = true ->
                        raplEntryScore x < raplEntryScore e)
          /\ (forall x, In x after -> raplCandidate x = true ->
                        raplEntryScore x <= raplEntryScore e)).
Proof.
  destruct base as [entries|].
  2:{ split; [split; [intros _ x [] | reflexivity] | discriminate]. }
  change (value_or (Some entries) []) with entries.
  change (findCpuRaplEnergyPath (Some entries))
    with (snd (fold_left raplStep entries (-1, None))).
  destruct (raplFold entries (-1) None)
    as [(Hfold & Hall) | (before & e & after & -> & Hce & Hfold & Hlt & Hb & Ha)];
    rewrite Hfold; cbn [snd].
  - split; [|discriminate]. split; [|reflexivity]. intros _ x Hx.
    destruct (raplCandidate x) eqn:Hc; [|reflexivity].
    specialize (Hall x Hx Hc). pose proof (raplScore_nonneg
      (toLower (value_or (powercap_name x) EmptyString))) as Hs.
    unfold raplEntryScore in Hall. lia.
  - split.
    + split; [discriminate|]. intros H.
      rewrite (H e) in Hce; [discriminate|]. apply in_or_app. right. now left.
    + intros path [= <-]. exists before, e, after. auto.
Qed.

End Rapl.

(* ===================================================================== *)
(** ** metrics/cpu.cpp: [parsePositiveInt] *)
(* ===================================================================== *)

Section PositiveInt.

Lemma isdigit_plain (c : ascii) :
  isdigit c = true ->
  isspace c = false /\ str_mem c kBlanks = false
  /\ c <> "-"%char /\ c <> "+"%char.
Proof.
  destruct c as [[] [] [] [] [] [] [] []]; try discriminate;
    intros _; repeat split; discriminate.
Qed.

Lemma all_of_lastByte (p : ascii -> bool) (s : string) (d : ascii) :
  all_of p s = true -> lastByte s = Some d -> p d = true.
Proof.
  revert d. induction s as [|c s IH]; intros d; [discriminate|].
  cbn [all_of]. rewrite lastByte_cons. intros H.
  apply andb_true_iff in H as [Hc Hs].
  destruct (lastByte s) as [x|]; intros [= <-]; [now apply IH | exact Hc].
Qed.

Lemma digits_isTrimmed (s : string) : all_of isdigit s = true -> isTrimmed s = true.
Proof.
  intros H. destruct s as [|c s]; [reflexivity|]. unfold isTrimmed.
  pose proof H as H'. cbn [all_of] in H'. apply andb_true_iff in H' as [Hc _].
  destruct (isdigit_plain c Hc) as (_ & -> & _). cbn [negb andb].
  destruct (lastByte (String c s)) as [d|] eqn:El; [|reflexivity].
  pose proof (all_of_lastByte isdigit _ d H El) as Hd.
  now destruct (isdigit_plain d Hd) as (_ & -> & _).
Qed.

Lemma of_uint_digit (k : N) (l : Decimal.uint) (p : positive) :
  k = N.pos p ->
  Z.of_N (N.pos (Pos.of_uint_acc l p))
  = Z.of_N k * 10 ^ Z.of_N (DecimalPos.Unsigned.usize l) + Z.of_N (Pos.of_uint l).
Proof.
  intros ->. rewrite DecimalPos.Unsigned.of_uint_acc_rev, DecimalPos.Unsigned.of_uint_alt.
  rewrite N2Z.inj_add, N2Z.inj_mul, N2Z.inj_pow. simpl Z.of_N at 3. lia.
Qed.

(** Reading the digits of a decimal notation computes its value. *)
Lemma readDigits_decimal (u : Decimal.uint) (acc : Z) :
  readDigits (NilEmpty.string_of_uint u) acc
  = (acc * 10 ^ Z.of_N (DecimalPos.Unsigned.usize u) + Z.of_N (Pos.of_uint u),
     String.length (NilEmpty.string_of_uint u)).
Proof.
  revert acc.
  induction u as [|u IH|u IH|u IH|u IH|u IH|u IH|u IH|u IH|u IH|u IH]; intros acc.
  1: cbn; f_equal; lia.
  all: cbn [NilEmpty.string_of_uint readDigits String.length DecimalPos.Unsigned.usize].
  all: match goal with
       | |- context [isdigit ?c] => change (isdigit c) with true; cbv iota
       end.
  all: rewrite IH; rewrite N2Z.inj_succ, Z.pow_succ_r by lia.
  all: f_equal; cbn [Pos.of_uint].
  all: try rewrite (of_uint_digit _ u _ eq_refl).
  all: match goal with
       | |- context [digitValue ?c] =>
           let v := eval vm_compute in (digitValue c) in change (digitValue c) with v
       end.
  all: simpl Z.of_N; ring.
Qed.

Lemma decimal_value (n : Z) :
  0 <= n ->
  readDigits (decimal n) 0 = (n, String.length (decimal n)).
Proof.
  intros Hn. unfold decimal. rewrite readDigits_decimal. f_equal.
  change (Pos.of_uint (N.to_uint (Z.to_N n))) with (N.of_uint (N.to_uint (Z.to_N n))).
  rewrite DecimalN.Unsigned.of_to. lia.
Qed.

Lemma stol_decimal (n : Z) :
  0 <= n < 2 ^ 63 -> stol (decimal n) = Some (n, String.length (decimal n)).
Proof.
  intros Hn. unfold stol.
  pose proof (decimal_digits n) as Hd. pose proof (decimal_nonempty n) as Hne.
  pose proof (decimal_value n ltac:(lia)) as Hv.
  destruct (decimal n) as [|c s] eqn:E; [congruence|].
  cbn [all_of] in Hd. apply andb_true_iff in Hd as [Hc _].
  destruct (isdigit_plain c Hc) as (Hsp & _ & Hminus & Hplus).
  cbn [skipSpaces]. rewrite Hsp.
  assert (Hsign : match String c s with
                  | String "-"%char rest => (true, 1%nat, rest)
                  | String "+"%char rest => (false, 1%nat, rest)
                  | _ => (false, 0%nat, String c s)
                  end = (false, 0%nat, String c s)).
  { destruct c as [[] [] [] [] [] [] [] []]; try reflexivity; congruence. }
  rewrite Hsign, Hv. cbn [String.length Nat.eqb].
  replace (n <? - 2 ^ 63) with false by (symmetry; apply Z.ltb_ge; lia).
  replace (2 ^ 63 - 1 <? n) with false by (symmetry; apply Z.ltb_ge; lia).
  reflexivity.
Qed.

(** [parsePositiveInt] accepts the decimal notation of every integer
    from 1 to 2^31 - 1, with or without blanks around it, and returns
    that integer; whatever it returns lies in that range, so zero,
    negative numbers and numbers wider than [int] are refused. *)
Theorem parsePositiveInt_spec :
  (forall n l r, 1 <= n <= 2 ^ 31 - 1 -> allBlank l = true -> allBlank r = true ->
                 parsePositiveInt (l ++ decimal n ++ r) = Some n)
  /\ (forall value n, parsePositiveInt value = Some n -> 1 <= n <= 2 ^ 31 - 1)
  /\ parsePositiveInt (decimal 0) = None
  /\ parsePositiveInt (decimal (2 ^ 31)) = None
  /\ parsePositiveInt "8 cores" = None
  /\ parsePositiveInt "-4" = None.
Proof.
  split; [|split; [|repeat split; vm_compute; reflexivity]].
  - intros n l r Hn Hl Hr. unfold parsePositiveInt.
    rewrite (trim_padding l (decimal n) r Hl Hr (digits_isTrimmed _ (decimal_digits n))).
    pose proof (decimal_nonempty n) as Hne.
    destruct (String.eqb_spec (decimal n) EmptyString) as [E|_]; [congruence|].
    rewrite stol_decimal by lia. rewrite Nat.eqb_refl. cbn [negb orb].
    replace (n <=? 0) with false by (symmetry; apply Z.leb_gt; lia).
    replace (2 ^ 31 - 1 <? n) with false by (symmetry; apply Z.ltb_ge; lia).
    reflexivity.
  - intros value n. unfold parsePositiveInt.
    destruct (String.eqb (trim value) EmptyString); [discriminate|].
    destruct (stol (trim value)) as [[parsed consumed]|]; [|discriminate].
    destruct (negb (consumed =? String.length (trim value))%nat || (parsed <=? 0)
              || (2 ^ 31 - 1 <? parsed)) eqn:E; [discriminate|].
    intros [= <-]. apply orb_false_iff in E as [E E3].
    apply orb_false_iff in E as [_ E2].
    apply Z.leb_gt in E2. apply Z.ltb_ge in E3. lia.
Qed.

End PositiveInt.

(* ===================================================================== *)
(** ** The order of doubles is transitive *)
(* ===================================================================== *)

Section FloatOrderTransitive.

Lemma compare_cont_Eq (p q : positive) :
  PosDef.Pos.compare_cont Eq p q = (p ?= q)%positive.
Proof. reflexivity. Qed.

(** The comparison of the specification is lexicographic on sign,
    exponent and mantissa, so "not greater" composes. *)
Lemma SFcompare_trans (x y z : spec_float) (c1 c2 : comparison) :
  SFcompare x y = Some c1 -> SFcompare y z = Some c2 ->
  c1 <> Gt -> c2 <> Gt ->
  exists c3, SFcompare x z = Some c3 /\ c3 <> Gt
             /\ (c1 = Lt \/ c2 = Lt -> c3 = Lt).
Proof.
  destruct x as [sx|sx| |sx mx ex], y as [sy|sy| |sy my ey], z as [sz|sz| |sz mz ez];
    cbn [SFcompare]; try discriminate;
    try (destruct sx); try (destruct sy); try (destruct sz);
    rewrite ?compare_cont_Eq;
    intros [= <-] [= <-] H1 H2;
    try congruence;
    try (eexists; split; [reflexivity|]; split; [discriminate|];
         intros [|]; congruence).
  all: destruct (Z.compare_spec ex ey), (Z.compare_spec ey ez), (Z.compare_spec ex ez);
    try lia; try congruence;
    try (eexists; split; [reflexivity|]; split; [discriminate|]; intros [|]; congruence).
  all: subst.
  all: change (PosDef.Pos.compare_cont Eq mx my) with (mx ?= my)%positive in *;
    change (PosDef.Pos.compare_cont Eq my mz) with (my ?= mz)%positive in *;
    change (PosDef.Pos.compare_cont Eq mx mz) with (mx ?= mz)%positive in *.
  all: destruct (Pos.compare_spec mx my), (Pos.compare_spec my mz),
         (Pos.compare_spec mx mz);
    cbn [CompOpp] in *; try lia; try congruence;
    try (eexists; split; [reflexivity|]; split; [discriminate|]; intros [|]; congruence).
Qed.

Lemma leb_trans (a b c : float) :
  PrimFloat.leb a b = true -> PrimFloat.leb b c = true -> PrimFloat.leb a c = true.
Proof.
  rewrite !leb_spec. unfold SFleb.
  destruct (SFcompare (Prim2SF a) (Prim2SF b)) as [c1|] eqn:E1; [|discriminate].
  destruct (SFcompare (Prim2SF b) (Prim2SF c)) as [c2|] eqn:E2; [|discriminate].
  intros H1 H2.
  destruct (SFcompare_trans _ _ _ c1 c2 E1 E2) as (c3 & -> & Hc3 & _).
  - destruct c1; congruence.
  - destruct c2; congruence.
  - destruct c3; congruence.
Qed.

Lemma leb_ltb_trans (a b c : float) :
  PrimFloat.leb a b = true -> PrimFloat.ltb b c = true -> PrimFloat.ltb a c = true.
Proof.
  rewrite leb_spec, !ltb_spec. unfold SFleb, SFltb.
  destruct (SFcompare (Prim2SF a) (Prim2SF b)) as [c1|] eqn:E1; [|discriminate].
  destruct (SFcompare (Prim2SF b) (Prim2SF c)) as [c2|] eqn:E2; [|discriminate].
  intros H1 H2.
  destruct (SFcompare_trans _ _ _ c1 c2 E1 E2) as (c3 & -> & Hc3 & Hlt).
  - destruct c1; congruence.
  - destruct c2; congruence.
  - rewrite Hlt; [reflexivity|]. right. destruct c2; congruence.
Qed.

Lemma ltb_leb_trans (a b c : float) :
  PrimFloat.ltb a b = true -> PrimFloat.leb b c = true -> PrimFloat.ltb a c = true.
Proof.
  rewrite leb_spec, !ltb_spec. unfold SFleb, SFltb.
  destruct (SFcompare (Prim2SF a) (Prim2SF b)) as [c1|] eqn:E1; [|discriminate].
  destruct (SFcompare (Prim2SF b) (Prim2SF c)) as [c2|] eqn:E2; [|discriminate].
  intros H1 H2.
  destruct (SFcompare_trans _ _ _ c1 c2 E1 E2) as (c3 & -> & Hc3 & Hlt).
  - destruct c1; congruence.
  - destruct c2; congruence.
  - rewrite Hlt; [reflexivity|]. left. destruct c1; congruence.
Qed.

Lemma leb_not_nan (a b : float) :
  PrimFloat.leb a b = true -> not_nan a /\ not_nan b.
Proof.
  rewrite leb_spec. unfold SFleb, not_nan.
  destruct (Prim2SF a), (Prim2SF b); simpl; try discriminate; split; discriminate.
Qed.

Lemma leb_refl (a : float) : not_nan a -> PrimFloat.leb a a = true.
Proof.
  intros Ha. apply not_ltb_leb; [exact Ha | exact Ha|].
  rewrite ltb_spec. unfold SFltb.
  destruct (SFcompare (Prim2SF a) (Prim2SF a)) as [c|] eqn:E; [|reflexivity].
  pose proof (SFcompare_antisym _ _ _ E) as E'. rewrite E in E'.
  destruct c; [reflexivity | discriminate | reflexivity].
Qed.

End FloatOrderTransitive.

(* ===================================================================== *)
(** ** metrics/cpu.cpp: the processor temperature *)
(* ===================================================================== *)

Section CpuTemperature.

Lemma normalizeTemperatureC_in_range (raw_value : Z) (r : float) :
  normalizeTemperatureC raw_value = Some r -> in_range 0 150 r.
Proof.
  unfold normalizeTemperatureC. cbv zeta.
  destruct (PrimFloat.ltb (scaledCelsius raw_value) 0
            || PrimFloat.ltb 150 (scaledCelsius raw_value)) eqn:E; [discriminate|].
  intros [= <-]. apply orb_false_iff in E as [H0 H150].
  pose proof (scaledCelsius_not_nan raw_value) as Hn.
  split; apply not_ltb_leb; auto using constant_not_nan_0, constant_not_nan_150.
Qed.

(** The running maximum over a list of numbers, from a start that is a
    number too. *)
Lemma keepMax_fold_from (l : list float) (a : float) :
  not_nan a -> Forall not_nan l ->
  exists m, fold_left keepMax l (Some a) = Some m
            /\ (m = a \/ In m l)
            /\ PrimFloat.leb a m = true
            /\ forall x, In x l -> PrimFloat.leb x m = true.
Proof.
  revert a. induction l as [|c l IH]; intros a Ha Hl.
  - exists a. split; [reflexivity|]. split; [now left|].
    split; [now apply leb_refl|]. intros x [].
  - apply Forall_cons in Hl as [Hc Hl]. cbn [fold_left keepMax].
    destruct (PrimFloat.ltb a c) eqn:E.
    + destruct (IH c Hc Hl) as (m & -> & Hm & Hcm & Hall). exists m.
      split; [reflexivity|]. split; [right; destruct Hm as [->|]; [now left | now right]|].
      split; [apply (leb_trans a c m); [now apply ltb_leb | exact Hcm]|].
      intros x [<-|Hx]; auto.
    + destruct (IH a Ha Hl) as (m & -> & Hm & Ham & Hall). exists m.
      split; [reflexivity|]. split; [destruct Hm as [->|]; [now left | right; now right]|].
      split; [exact Ham|].
      intros x [<-|Hx]; [|auto].
      apply (leb_trans c a m); [now apply not_ltb_leb | exact Ham].
Qed.

Lemma keepMax_fold (l : list float) :
  Forall not_nan l ->
  match l with
  | [] => fold_left keepMax l None = None
  | _ :: _ => exists m, fold_left keepMax l None = Some m /\ isMaxOf m l
  end.
Proof.
  destruct l as [|c l]; [reflexivity|]. intros Hl.
  apply Forall_cons in Hl as [Hc Hl]. cbn [fold_left keepMax].
  destruct (keepMax_fold_from l c Hc Hl) as (m & -> & Hm & Hcm & Hall).
  exists m. split; [reflexivity|]. split.
  - destruct Hm as [->|]; [now left | now right].
  - intros x [<-|Hx]; auto.
Qed.

Lemma tagStep_fold (readings : list (bool * float)) (p f : option float) :
  fold_left tagStep readings (p, f)
  = (fold_left keepMax (readingsOf true readings) p,
     fold_left keepMax (readingsOf false readings) f).
Proof.
  revert p f. induction readings as [|[[] c] readings IH]; intros p f;
    [reflexivity | ..]; cbn [fold_left tagStep fst snd]; rewrite IH; reflexivity.
Qed.

Lemma fold_left_omap {A B S : Type} (step : S -> A -> S) (g : A -> option B)
    (step' : S -> B -> S) (l : list A) (s : S) :
  (forall s a, step s a = match g a with Some b => step' s b | None => s end) ->
  fold_left step l s = fold_left step' (omap g l) s.
Proof.
  intros H. revert s. induction l as [|a l IH]; intros s; [reflexivity|].
  cbn [fold_left]. rewrite H. cbn [omap list_omap].
  destruct (g a); cbn [fold_left]; apply IH.
Qed.

Lemma thermalZoneStep_reading (acc : option float * option float) (entry : ThermalZone) :
  thermalZoneStep acc entry
  = match zoneReading entry with Some reading => tagStep acc reading | None => acc end.
Proof.
  unfold thermalZoneStep, zoneReading, tagStep. destruct acc as [p f].
  destruct (negb (startsWith (zone_name entry) "thermal_zone")); [reflexivity|].
  destruct (zone_temp entry) as [raw|]; [|reflexivity].
  destruct (normalizeTemperatureC raw); reflexivity.
Qed.

Lemma hwmonFileStep_reading (cpu_chip : bool) (acc : option float * option float)
    (file : HwmonTempFile) :
  hwmonFileStep cpu_chip acc file
  = match hwmonReading cpu_chip file with
    | Some reading => tagStep acc reading
    | None => acc
    end.
Proof.
  unfold hwmonFileStep, hwmonReading, tagStep. destruct acc as [p f]. cbv zeta.
  destruct (negb (startsWith (temp_filename file) "temp")
            || negb (endsWith (temp_filename file) "_input")); [reflexivity|].
  destruct (temp_raw file) as [raw|]; [|reflexivity].
  destruct (normalizeTemperatureC raw); [|reflexivity].
  destruct (hwmonLabelLooksCpuTemp _); [reflexivity|].
  destruct cpu_chip; reflexivity.
Qed.

Lemma hwmonChipStep_fold (chips : list HwmonChip) (acc : option float * option float) :
  fold_left hwmonChipStep chips acc
  = fold_left tagStep (flat_map chipReadings chips) acc.
Proof.
  revert acc. induction chips as [|chip chips IH]; intros acc; [reflexivity|].
  cbn [fold_left flat_map]. rewrite fold_left_app, IH. f_equal.
  unfold hwmonChipStep, chipReadings. apply fold_left_omap.
  intros s a. apply hwmonFileStep_reading.
Qed.

Lemma readingsOf_In (preferred : bool) (readings : list (bool * float)) (x : float) :
  In x (readingsOf preferred readings) -> In (preferred, x) readings.
Proof.
  unfold readingsOf. induction readings as [|[b c] readings IH]; [intros []|].
  cbn [omap list_omap fst snd]. destruct (Bool.eqb b preferred) eqn:E.
  - apply Bool.eqb_prop in E. subst b. intros [<-|H]; [now left | right; auto].
  - intros H. right. auto.
Qed.

Lemma readingsOf_not_nan (preferred : bool) (readings : list (bool * float)) :
  (forall b x, In (b, x) readings -> in_range 0 150 x) ->
  Forall not_nan (readingsOf preferred readings).
Proof.
  intros H. apply List.Forall_forall. intros x Hx.
  apply readingsOf_In in Hx. destruct (H _ _ Hx) as [H0 _].
  now apply leb_not_nan in H0.
Qed.

(** From the two running maxima to the report. *)
Lemma prefersMax_of_fold (readings : list (bool * float)) (otherwise : option float) :
  (forall b x, In (b, x) readings -> in_range 0 150 x) ->
  let preferred_max := fold_left keepMax (readingsOf true readings) None in
  let fallback_max := fold_left keepMax (readingsOf false readings) None in
  match readings with
  | [] => (if has_value preferred_max then preferred_max
           else if has_value fallback_max then fallback_max else otherwise) = otherwise
  | _ :: _ => prefersMax (if has_value preferred_max then preferred_max
                          else if has_value fallback_max then fallback_max
                          else otherwise) readings
  end.
Proof.
  intros Hr preferred_max fallback_max.
  pose proof (keepMax_fold _ (readingsOf_not_nan true readings Hr)) as Hp.
  pose proof (keepMax_fold _ (readingsOf_not_nan false readings Hr)) as Hf.
  fold preferred_max in Hp. fold fallback_max in Hf.
  destruct readings as [|reading readings]; [reflexivity|].
  unfold prefersMax.
  destruct (readingsOf true (reading :: readings)) as [|x xs] eqn:Ep.
  - rewrite Hp. cbn [has_value].
    destruct (readingsOf false (reading :: readings)) as [|y ys] eqn:Ef.
    + exfalso. destruct reading as [[] c]; unfold readingsOf in Ep, Ef;
        cbn in Ep, Ef; discriminate.
    + destruct Hf as (m & -> & Hm). cbn [has_value]. eauto.
  - destruct Hp as (m & -> & Hm). cbn [has_value]. eauto.
Qed.

Lemma zoneReading_in_range (entries : list ThermalZone) (b : bool) (x : float) :
  In (b, x) (omap zoneReading entries) -> in_range 0 150 x.
Proof.
  intros H. apply list_elem_of_In, list_elem_of_omap in H as (entry & _ & H).
  unfold zoneReading in H.
  destruct (negb (startsWith (zone_name entry) "thermal_zone")); [discriminate|].
  destruct (zone_temp entry) as [raw|]; [|discriminate].
  destruct (normalizeTemperatureC raw) as [c|] eqn:E; [|discriminate].
  injection H as _ <-. now apply (normalizeTemperatureC_in_range raw).
Qed.

Lemma chipReadings_in_range (chips : list HwmonChip) (b : bool) (x : float) :
  In (b, x) (flat_map chipReadings chips) -> in_range 0 150 x.
Proof.
  intros H. apply in_flat_map in H as (chip & _ & H).
  apply list_elem_of_In, list_elem_of_omap in H as (file & _ & H).
  unfold hwmonReading in H.
  destruct (negb (startsWith (temp_filename file) "temp")
            || negb (endsWith (temp_filename file) "_input")); [discriminate|].
  destruct (temp_raw file) as [raw|]; [|discriminate].
  destruct (normalizeTemperatureC raw) as [c|] eqn:E; [|discriminate].
  apply normalizeTemperatureC_in_range in E.
  destruct (hwmonLabelLooksCpuTemp _); [injection H as _ <-; exact E|].
  destruct (hwmonNameLooksCpuSensor _); [injection H as _ <-; exact E | discriminate].
Qed.

Lemma prefersMax_in_range (result : option float) (readings : list (bool * float)) (r : float) :
  (forall b x, In (b, x) readings -> in_range 0 150 x) ->
  prefersMax result readings -> result = Some r -> in_range 0 150 r.
Proof.
  intros Hr H ->. unfold prefersMax in H.
  destruct (readingsOf true readings) as [|x xs] eqn:Ep.
  - destruct (readingsOf false readings) as [|y ys] eqn:Ef; [discriminate|].
    destruct H as (m & [= ->] & Hin & _). rewrite <- Ef in Hin.
    apply readingsOf_In in Hin. eauto.
  - destruct H as (m & [= ->] & Hin & _). rewrite <- Ep in Hin.
    apply readingsOf_In in Hin. eauto.
Qed.

Lemma collectCpuTemperatureFromHwmon_prefers (hwmon : option (list HwmonChip)) :
  prefersMax (collectCpuTemperatureFromHwmon hwmon)
             (flat_map chipReadings (value_or hwmon [])).
Proof.
  destruct hwmon as [chips|]; [|reflexivity].
  unfold collectCpuTemperatureFromHwmon. cbn [value_or].
  rewrite hwmonChipStep_fold, tagStep_fold.
  pose proof (prefersMax_of_fold (flat_map chipReadings chips) None
                (chipReadings_in_range chips)) as H. cbv zeta in H.
  destruct (flat_map chipReadings chips) as [|reading readings] eqn:E.
  - reflexivity.
  - destruct (has_value (fold_left keepMax (readingsOf true (reading :: readings)) None))
      eqn:Ep; [exact H|].
    destruct (fold_left keepMax (readingsOf false (reading :: readings)) None) eqn:Ef;
      exact H.
Qed.

(** On a machine with a directory of hwmon chips, the fallback probe
    reports the highest temperature among the [temp*_input] files whose
    label names the processor; when no such file gives a valid reading,
    the highest among the other files of the chips whose name does;
    otherwise nothing.  A labelled reading wins over a hotter
    unlabelled one, and whatever is reported lies in [0, 150]. *)
Theorem collectCpuTemperatureFromHwmon_spec (hwmon : option (list HwmonChip)) :
  prefersMax (collectCpuTemperatureFromHwmon hwmon)
             (flat_map chipReadings (value_or hwmon []))
  /\ forall r, collectCpuTemperatureFromHwmon hwmon = Some r -> in_range 0 150 r.
Proof.
  split; [apply collectCpuTemperatureFromHwmon_prefers|]. intros r.
  apply (prefersMax_in_range _ (flat_map chipReadings (value_or hwmon []))).
  - apply chipReadings_in_range.
  - apply collectCpuTemperatureFromHwmon_prefers.
Qed.

(** The thermal zones decide when one of them gives a valid reading;
    the hwmon probe is the fallback. *)
Lemma collectCpuTemperature_prefers (thermal : option (list ThermalZone))
    (hwmon : option (list HwmonChip)) :
  match omap zoneReading (value_or thermal []) with
  | [] => collectCpuTemperature thermal hwmon = collectCpuTemperatureFromHwmon hwmon
  | readings => prefersMax (collectCpuTemperature thermal hwmon) readings
  end.
Proof.
  assert (Hfold : collectCpuTemperature thermal hwmon
                  = let readings := omap zoneReading (value_or thermal []) in
                    let preferred_max := fold_left keepMax (readingsOf true readings) None in
                    let fallback_max := fold_left keepMax (readingsOf false readings) None in
                    if has_value preferred_max then preferred_max
                    else if has_value fallback_max then fallback_max
                    else collectCpuTemperatureFromHwmon hwmon).
  { unfold collectCpuTemperature. destruct thermal as [entries|]; [|reflexivity].
    cbn [value_or].
    rewrite (fold_left_omap thermalZoneStep zoneReading tagStep entries (None, None)
               thermalZoneStep_reading), tagStep_fold. reflexivity. }
  pose proof (prefersMax_of_fold (omap zoneReading (value_or thermal []))
                (collectCpuTemperatureFromHwmon hwmon)
                (zoneReading_in_range (value_or thermal []))) as H.
  cbv zeta in H, Hfold. rewrite <- Hfold in H.
  destruct (omap zoneReading (value_or thermal [])); exact H.
Qed.

(** The processor temperature is the highest valid reading among the
    thermal zones whose type names the processor ([cpu], [package],
    [x86_pkg_temp], [tctl], [tdie]); when none of them gives a valid
    reading, the highest among the other thermal zones; and only when
    no thermal zone gives a valid reading, what the hwmon probe
    reports.  A preferred zone wins over a hotter zone of another type,
    and whatever is reported lies in [0, 150]. *)
Theorem collectCpuTemperature_spec (thermal : option (list ThermalZone))
    (hwmon : option (list HwmonChip)) :
  match omap zoneReading (value_or thermal []) with
  | [] => collectCpuTemperature thermal hwmon = collectCpuTemperatureFromHwmon hwmon
  | readings => prefersMax (collectCpuTemperature thermal hwmon) readings
  end
  /\ forall r, collectCpuTemperature thermal hwmon = Some r -> in_range 0 150 r.
Proof.
  pose proof (collectCpuTemperature_prefers thermal hwmon) as H.
  split; [exact H|]. intros r Hr.
  destruct (omap zoneReading (value_or thermal [])) as [|reading readings] eqn:E.
  - rewrite H in Hr.
    apply (prefersMax_in_range _ (flat_map chipReadings (value_or hwmon [])) r
             (chipReadings_in_range _)
             (collectCpuTemperatureFromHwmon_prefers hwmon) Hr).
  - apply (prefersMax_in_range (collectCpuTemperature thermal hwmon)
             (reading :: readings) r); [|exact H | exact Hr].
    rewrite <- E. apply zoneReading_in_range.
Qed.

End CpuTemperature.

(* ===================================================================== *)
(** ** src/metrics/gpu.cpp: driver name and connector state *)
(* ===================================================================== *)

Section DriverName.

Lemma ueventDriver_closed (lines : list string) :
  ueventDriver lines
  = match List.find (fun line => startsWith line "DRIVER=") lines with
    | Some line =>
        let driver := trim (substr_from line 7) in
        if String.eqb driver EmptyString then None else Some driver
    | None => None
    end.
Proof.
  induction lines as [|line lines IH]; [reflexivity|].
  cbn [ueventDriver List.find]. destruct (startsWith line "DRIVER="); [|exact IH].
  cbv zeta. now destruct (String.eqb _ EmptyString).
Qed.

(** [readDriverName] never returns an empty name.  A non-empty target of
    the [driver] link is returned whatever [uevent] holds; otherwise the
    first [DRIVER=] line of [uevent] decides alone: its value without
    outer blanks, or nothing when that value is empty, even if a later
    line names a driver. *)
Theorem readDriverName_spec (driver_link : option string) (uevent : option (list string)) :
  readDriverName driver_link uevent <> Some EmptyString
  /\ (forall name, driver_link = Some name -> name <> EmptyString ->
                   readDriverName driver_link uevent = Some name)
  /\ (driver_link = None \/ driver_link = Some EmptyString ->
      readDriverName driver_link uevent
      = match List.find (fun line => startsWith line "DRIVER=") (value_or uevent []) with
        | Some line =>
            let driver := trim (substr_from line 7) in
            if String.eqb driver EmptyString then None else Some driver
        | None => None
        end).
Proof.
  assert (Hu : match uevent with Some lines => ueventDriver lines | None => None end
               = match List.find (fun line => startsWith line "DRIVER=")
                                 (value_or uevent []) with
                 | Some line =>
                     let driver := trim (substr_from line 7) in
                     if String.eqb driver EmptyString then None else Some driver
                 | None => None
                 end).
  { destruct uevent as [lines|]; [apply ueventDriver_closed | reflexivity]. }
  assert (Hne : match uevent with Some lines => ueventDriver lines | None => None end
                <> Some EmptyString).
  { rewrite Hu. destruct (List.find _ _) as [line|]; [|discriminate]. cbv zeta.
    destruct (String.eqb_spec (trim (substr_from line 7)) EmptyString); congruence. }
  unfold readDriverName. cbv zeta. split; [|split].
  - destruct driver_link as [name|]; [|exact Hne].
    destruct (String.eqb_spec name EmptyString); cbn [negb]; [exact Hne | congruence].
  - intros name -> Hname.
    destruct (String.eqb_spec name EmptyString); [congruence | reflexivity].
  - intros [-> | ->]; exact Hu.
Qed.

End DriverName.

Section CardInUse.

Variable card_prefix : string.

Lemma connectorScan_closed (entries : list DrmConnector) (saw : bool) :
  connectorScan entries card_prefix saw
  = if existsb (reportsConnected card_prefix) entries then (true, true)
    else (false, saw || existsb (reportsStatus card_prefix) entries).
Proof.
  revert saw. induction entries as [|entry entries IH]; intros saw.
  - cbn. now rewrite orb_false_r.
  - cbn [connectorScan existsb]. unfold reportsConnected at 1, reportsStatus at 1 2.
    cbv zeta.
    destruct (startsWith (connector_name entry) card_prefix); cbn [negb andb orb];
      [|apply IH].
    destruct (str_contains (connector_name entry) "render"); cbn [negb andb orb];
      [apply IH|].
    destruct (connector_status entry) as [status|]; cbn [has_value andb orb]; [|apply IH].
    destruct (String.eqb (toLower status) "connected"); [reflexivity|].
    rewrite IH. cbn [orb]. now rewrite orb_true_r.
Qed.

End CardInUse.

Section CardInUseProperty.

(** A card is reported in use when one of its connectors (an entry
    named after the card and a dash, not a render node, with a readable
    status) reports [connected], in any letter case; not in use when
    its connectors report a status and none is [connected]; and only
    when no connector reports a status does [boot_vga] decide, a card
    without that file being left undetermined. *)
Theorem detectCardInUse_spec (entries : list DrmConnector) (card : string)
    (boot_vga : option Z) :
  detectCardInUse entries card boot_vga
  = if existsb (reportsConnected (card ++ "-")) entries then Some true
    else if existsb (reportsStatus (card ++ "-")) entries then Some false
    else match boot_vga with
         | Some value => Some (value =? 1)
         | None => None
         end.
Proof.
  unfold detectCardInUse. cbv zeta. rewrite connectorScan_closed.
  destruct (existsb (reportsConnected _) entries); [reflexivity|].
  cbn [orb]. reflexivity.
Qed.

End CardInUseProperty.

(* ===================================================================== *)
(** ** main.cpp: the GPU in use and the other relevant GPUs *)
(* ===================================================================== *)

Section InUse.

Lemma firstInUse_spec (gpus : list GpuMetrics) (i : nat) :
  match firstInUse gpus i with
  | Some k =>
      exists j gpu, k = (i + j)%nat /\ gpus !! j = Some gpu /\ isInUse gpu = true
                    /\ forall j' gpu', (j' < j)%nat -> gpus !! j' = Some gpu' ->
                                       isInUse gpu' = false
  | None => forall gpu, In gpu gpus -> isInUse gpu = false
  end.
Proof.
  revert i. induction gpus as [|gpu gpus IH]; intros i; [intros g []|].
  cbn [firstInUse]. fold (isInUse gpu). destruct (isInUse gpu) eqn:E.
  - exists 0%nat, gpu. repeat split; [lia | exact E | intros; lia].
  - specialize (IH (S i)). destruct (firstInUse gpus (S i)) as [k|].
    + destruct IH as (j & g & -> & Hj & Hg & Hbefore).
      exists (S j), g. repeat split; [lia | exact Hj | exact Hg |].
      intros [|j'] g' Hlt Hg'; [cbn in Hg'; congruence|].
      apply (Hbefore j' g'); [lia | exact Hg'].
    + intros g [<-|Hg]; [exact E | now apply IH].
Qed.

(** [pickInUseGpuIndex] returns nothing exactly for the empty list, and
    otherwise an index inside the list: that of the first GPU marked as
    in use when there is one, and the display GPU when none is marked. *)
Theorem pickInUseGpuIndex_spec (gpus : list GpuMetrics) :
  (pickInUseGpuIndex gpus = None <-> gpus = [])
  /\ forall i, pickInUseGpuIndex gpus = Some i ->
       (i < length gpus)%nat
       /\ ((exists gpu, gpus !! i = Some gpu /\ isInUse gpu = true
                        /\ forall j gpu', (j < i)%nat -> gpus !! j = Some gpu' ->
                                          isInUse gpu' = false)
           \/ ((forall gpu, In gpu gpus -> isInUse gpu = false)
               /\ i = pickDisplayGpuIndex gpus)).
Proof.
  unfold pickInUseGpuIndex. pose proof (firstInUse_spec gpus 0) as H.
  destruct (firstInUse gpus 0) as [k|].
  - destruct H as (j & gpu & -> & Hj & Hg & Hbefore). split.
    + split; [discriminate|]. intros ->. discriminate.
    + intros i [= <-]. cbn [Nat.add]. split; [now apply lookup_lt_Some in Hj|].
      left. exists gpu. auto.
  - destruct gpus as [|gpu gpus]; [split; [easy | discriminate]|]. split.
    + split; discriminate.
    + intros i Hi.
      assert (Hidx : i = pickDisplayGpuIndex (gpu :: gpus)) by congruence.
      rewrite Hidx. split; [now apply pickDisplayGpuIndex_in_bounds|].
      right. split; [exact H | reflexivity].
Qed.

Lemma countRelevantFrom_spec (gpus : list GpuMetrics) (i selected count : nat) :
  countRelevantFrom gpus i selected count
  = (count + length (List.filter gpuIsRelevantForSummary gpus)
     - match gpus !! (selected - i)%nat with
       | Some gpu => if (i <=? selected)%nat && gpuIsRelevantForSummary gpu then 1 else 0
       | None => 0
       end)%nat.
Proof.
  revert i count. induction gpus as [|gpu gpus IH]; intros i count.
  - cbn [countRelevantFrom List.filter length]. rewrite lookup_nil. lia.
  - cbn [countRelevantFrom List.filter]. destruct (Nat.eqb_spec i selected) as [->|Hne].
    + rewrite IH, Nat.sub_diag. cbn [lookup list_lookup]. rewrite Nat.leb_refl.
      replace (selected - S selected)%nat with 0%nat by lia.
      replace (S selected <=? selected)%nat with false by (symmetry; apply Nat.leb_gt; lia).
      cbn [andb]. destruct (gpuIsRelevantForSummary gpu); cbn [length];
        destruct (gpus !! 0%nat); lia.
    + destruct (Nat.leb_spec i selected) as [Hle|Hgt].
      * replace (selected - i)%nat with (S (selected - S i)) by lia.
        cbn [lookup list_lookup].
        replace (i <=? selected)%nat with true by (symmetry; apply Nat.leb_le; lia).
        destruct (gpuIsRelevantForSummary gpu) eqn:Er; rewrite IH; cbn [length];
          replace (S i <=? selected)%nat with true by (symmetry; apply Nat.leb_le; lia);
          cbn [andb];
          (destruct (gpus !! (selected - S i)%nat) as [g|];
           [destruct (gpuIsRelevantForSummary g)|]; lia).
      * replace (selected - i)%nat with 0%nat by lia. cbn [lookup list_lookup andb].
        destruct (gpuIsRelevantForSummary gpu); rewrite IH; cbn [length];
          replace (S i <=? selected)%nat with false by (symmetry; apply Nat.leb_gt; lia);
          cbn [andb]; destruct (gpus !! (selected - S i)%nat); lia.
Qed.

(** [countAdditionalRelevantGpus] counts the GPUs with telemetry or
    marked as in use, the selected one left out: it is the number of
    relevant GPUs, less one when the selected GPU is relevant, so never
    more than the number of the other GPUs; an index outside the list
    gives zero. *)
Theorem countAdditionalRelevantGpus_spec (gpus : list GpuMetrics) (selected : nat) :
  countAdditionalRelevantGpus gpus selected
  = match gpus !! selected with
    | Some gpu =>
        (length (List.filter gpuIsRelevantForSummary gpus)
         - (if gpuIsRelevantForSummary gpu then 1 else 0))%nat
    | None => 0%nat
    end
  /\ (countAdditionalRelevantGpus gpus selected <= length gpus - 1)%nat.
Proof.
  assert (Heq : countAdditionalRelevantGpus gpus selected
                = match gpus !! selected with
                  | Some gpu =>
                      (length (List.filter gpuIsRelevantForSummary gpus)
                       - (if gpuIsRelevantForSummary gpu then 1 else 0))%nat
                  | None => 0%nat
                  end).
  { unfold countAdditionalRelevantGpus.
    destruct (Nat.leb_spec (length gpus) selected) as [Hout|Hin].
    - now rewrite (lookup_ge_None_2 gpus selected Hout).
    - rewrite countRelevantFrom_spec, Nat.sub_0_r. cbn [Nat.leb andb Nat.add].
      destruct (lookup_lt_is_Some_2 gpus selected Hin) as [gpu ->]. reflexivity. }
  split; [exact Heq|]. rewrite Heq.
  pose proof (List.filter_length_le gpuIsRelevantForSummary gpus) as Hle.
  destruct (gpus !! selected) as [gpu|] eqn:E; [|lia].
  destruct (gpuIsRelevantForSummary gpu) eqn:Er; [lia|].
  assert (length (List.filter gpuIsRelevantForSummary gpus) < length gpus)%nat; [|lia].
  apply list_elem_of_lookup_2, list_elem_of_In in E.
  clear Heq Hle. induction gpus as [|g gpus IH]; [destruct E|].
  cbn [List.filter]. destruct E as [->|E].
  - rewrite Er. pose proof (List.filter_length_le gpuIsRelevantForSummary gpus).
    simpl. lia.
  - specialize (IH E). destruct (gpuIsRelevantForSummary g); simpl; lia.
Qed.

End InUse.

(* ===================================================================== *)
(** ** main.cpp: bar colours *)
(* ===================================================================== *)

Section Colours.

(** The colour pair is 1, 2 or 3; it is 3 from 85 on and 2 from 65 on,
    both bounds included; it never decreases when the percentage
    grows; and a percentage that is not a number gets pair 1. *)
Theorem colorPairForPercent_spec (percent : float) :
  (colorPairForPercent percent = 1 \/ colorPairForPercent percent = 2
   \/ colorPairForPercent percent = 3)
  /\ (colorPairForPercent percent = 3 <-> PrimFloat.leb 85 percent = true)
  /\ (colorPairForPercent percent = 2 <->
      PrimFloat.leb 65 percent = true /\ PrimFloat.ltb percent 85 = true)
  /\ (forall higher, PrimFloat.leb percent higher = true ->
                     colorPairForPercent percent <= colorPairForPercent higher)
  /\ (Prim2SF percent = S754_nan -> colorPairForPercent percent = 1).
Proof.
  assert (H85 : PrimFloat.leb 65 85 = true) by reflexivity.
  unfold colorPairForPercent. split; [|split; [|split; [|split]]].
  - destruct (PrimFloat.leb 85 percent); [auto|].
    destruct (PrimFloat.leb 65 percent); auto.
  - destruct (PrimFloat.leb 85 percent); [easy|].
    destruct (PrimFloat.leb 65 percent); split; (lia || discriminate).
  - destruct (PrimFloat.leb 85 percent) eqn:E85.
    + split; [discriminate|]. intros [_ H]. apply leb_not_ltb in E85. congruence.
    + destruct (PrimFloat.leb 65 percent) eqn:E65.
      * split; [|reflexivity]. intros _. split; [reflexivity|].
        destruct (PrimFloat.ltb percent 85) eqn:El; [reflexivity|].
        apply leb_not_nan in E65 as [_ Hn].
        rewrite (not_ltb_leb 85 percent) in E85; [discriminate | | exact Hn | exact El].
        unfold not_nan. vm_compute. discriminate.
      * split; [discriminate|]. intros [H _]. discriminate.
  - intros higher Hle.
    destruct (PrimFloat.leb 85 percent) eqn:E85.
    + now rewrite (leb_trans 85 percent higher E85 Hle).
    + destruct (PrimFloat.leb 65 percent) eqn:E65.
      * rewrite (leb_trans 65 percent higher E65 Hle).
        destruct (PrimFloat.leb 85 higher); lia.
      * destruct (PrimFloat.leb 85 higher); [lia|].
        destruct (PrimFloat.leb 65 higher); lia.
  - intros Hnan.
    assert (Hl : forall c, PrimFloat.leb c percent = false).
    { intros c. rewrite leb_spec, Hnan. unfold SFleb.
      now destruct (Prim2SF c). }
    now rewrite !Hl.
Qed.

End Colours.

(* ===================================================================== *)
(** ** main.cpp: the process table *)
(* ===================================================================== *)

Section TopProcesses.

Lemma topProcessesLoop_closed (lines : list PsLine) (limit : nat)
    (processes : list ProcessInfo) :
  topProcessesLoop lines limit processes
  = processes ++ take (limit - length processes)
                      (map processOfLine (omap id lines)).
Proof.
  revert processes. induction lines as [|line lines IH]; intros processes.
  - cbn. now rewrite take_nil, app_nil_r.
  - cbn [topProcessesLoop]. destruct (Nat.ltb_spec (length processes) limit) as [Hlt|Hge].
    + destruct line as [fields|]; cbn [omap list_omap id map]; [|apply IH].
      rewrite IH, length_app. cbn [length].
      replace (limit - length processes)%nat
        with (S (limit - (length processes + 1))) by lia.
      cbn [take]. now rewrite <- app_assoc.
    + replace (limit - length processes)%nat with 0%nat by lia.
      now rewrite take_0, app_nil_r.
Qed.

Lemma processOfLine_command (fields : Z * float * float * string) :
  command (processOfLine fields) <> EmptyString.
Proof.
  destruct fields as [[[p c] m] rest]. cbn.
  destruct (String.eqb_spec (trim rest) EmptyString); [discriminate | assumption].
Qed.

(** [collectTopProcesses] returns the first [limit] lines that could be
    read, in their order, so never more than [limit] entries and none
    for a limit of zero; lines that could not be read are skipped
    without counting; and no entry has an empty command. *)
Theorem collectTopProcesses_spec (limit : nat) (lines : list PsLine) :
  collectTopProcesses limit lines
  = take limit (map processOfLine (omap id lines))
  /\ (length (collectTopProcesses limit lines) <= limit)%nat
  /\ Forall (fun process => command process <> EmptyString)
            (collectTopProcesses limit lines).
Proof.
  assert (Heq : collectTopProcesses limit lines
                = take limit (map processOfLine (omap id lines))).
  { unfold collectTopProcesses. destruct limit as [|limit]; [reflexivity|].
    cbn [Nat.eqb]. rewrite topProcessesLoop_closed. cbn [length app].
    now rewrite Nat.sub_0_r. }
  split; [exact Heq|]. rewrite Heq. split.
  - rewrite length_take. lia.
  - apply Forall_take, List.Forall_forall. intros process Hin.
    apply in_map_iff in Hin as (fields & <- & _). apply processOfLine_command.
Qed.

End TopProcesses.

(* ===================================================================== *)
(** ** main.cpp: the busy time of the root disk *)
(* ===================================================================== *)

Section DiskBusy.

Lemma diskstatsScan_closed (lines : list (option DiskstatsLine)) (target_major target_minor : Z) :
  diskstatsScan lines target_major target_minor
  = Ok match List.find (isDeviceLine target_major target_minor) lines with
       | Some (Some line) => stat_fields line !! 9%nat
       | _ => None
       end.
Proof.
  induction lines as [|[line|] lines IH]; [reflexivity | | exact IH].
  cbn [diskstatsScan List.find isDeviceLine].
  destruct (major_num line =? target_major); cbn [negb orb andb]; [|exact IH].
  destruct (minor_num line =? target_minor); cbn [negb orb andb]; [|exact IH].
  destruct (Nat.leb_spec (length (stat_fields line)) 9) as [Hshort|Hlong].
  - now rewrite (lookup_ge_None_2 _ _ Hshort).
  - unfold vector_at. destruct (lookup_lt_is_Some_2 _ _ Hlong) as [value ->].
    reflexivity.
Qed.

(** [readDiskIoTimeMsForDevice] never reads outside the vector of
    fields.  The first line of [/proc/diskstats] that carries the
    device numbers decides: the tenth number behind the device name, or
    nothing when the line has fewer than ten; a device without a line
    and an unreadable file give nothing. *)
Theorem readDiskIoTimeMsForDevice_spec (diskstats : option (list (option DiskstatsLine)))
    (target_major target_minor : Z) :
  readDiskIoTimeMsForDevice diskstats target_major target_minor
  = Ok match List.find (isDeviceLine target_major target_minor) (value_or diskstats []) with
       | Some (Some line) => stat_fields line !! 9%nat
       | _ => None
       end.
Proof.
  destruct diskstats as [lines|]; [apply diskstatsScan_closed | reflexivity].
Qed.

Lemma zero_over_positive (elapsed : Z) :
  0 < elapsed < 2 ^ 63 ->
  PrimFloat.div (PrimFloat.mul 100 (Z2double 0)) (Z2double elapsed) = 0%float.
Proof.
  intros He. apply Prim2SF_inj. rewrite div_spec.
  change (Prim2SF (PrimFloat.mul 100 (Z2double 0))) with (S754_zero false).
  change (Prim2SF 0) with (S754_zero false).
  destruct (Z2double_big elapsed 0 ltac:(lia) ltac:(simpl; lia))
    as [-> | (m & e & -> & _)]; reflexivity.
Qed.

(** The sampler of the root disk's busy time, on clock readings and
    counters below 2^63: none of its signed subtractions overflows.
    Without device numbers or without a reading of the counter it
    reports nothing and keeps its state.  Otherwise the sample always
    replaces the stored one, whatever is reported.  The first sample
    reports nothing; later ones report nothing when no full
    millisecond has passed or the counter went back, and otherwise a
    percentage in [0, 100]; a counter that did not move gives exactly
    0. *)
Theorem computeRootDiskBusyPercent_spec (state : DiskBusyState)
    (current_io_ms : option Z) (now : Z) :
  sampleFits state current_io_ms now ->
  exists state' busy,
    computeRootDiskBusyPercent state current_io_ms now = Some (state', busy)
    /\ root_numbers state' = root_numbers state
    /\ (forall r, busy = Some r -> in_range 0 100 r)
    /\ (root_numbers state = None \/ current_io_ms = None ->
        state' = state /\ busy = None)
    /\ (forall current, root_numbers state <> None -> current_io_ms = Some current ->
          previous_io_ms state' = Some current /\ previous_time state' = now
          /\ match previous_io_ms state with
             | None => busy = None
             | Some previous =>
                 (busy = None <->
                  now - previous_time state < 1000000 \/ current < previous)
                 /\ (current = previous -> 1000000 <= now - previous_time state ->
                     busy = Some 0%float)
             end).
Proof.
  intros (Ht & Hn & Hp & Hc). unfold computeRootDiskBusyPercent.
  destruct (root_numbers state) as [numbers|] eqn:Er.
  2:{ exists state, None. split; [reflexivity|]. split; [exact Er|].
      split; [discriminate|]. split; [auto|]. intros current H. congruence. }
  destruct current_io_ms as [current|].
  2:{ exists state, None. split; [reflexivity|]. split; [exact Er|].
      split; [discriminate|]. split; [auto|]. intros current _ H. discriminate. }
  destruct (previous_io_ms state) as [previous|] eqn:Ep.
  2:{ eexists _, None. split; [reflexivity|].
      cbn [root_numbers previous_io_ms previous_time].
      split; [reflexivity|]. split; [discriminate|]. split.
      - intros [H|H]; discriminate.
      - intros c _ [= <-]. auto. }
  cbn [value_or] in Hp, Hc.
  assert (Hs : forall v, 0 <= v < 2 ^ 63 -> toSigned64 v = v).
  { intros v Hv. unfold toSigned64.
    destruct (Z.ltb_spec v (2 ^ 63)) as [_|Hge]; [reflexivity | lia]. }
  assert (Hsub : forall a b, 0 <= a < 2 ^ 63 -> 0 <= b < 2 ^ 63 -> sub64 a b = Some (a - b)).
  { intros a b Ha Hb. unfold sub64. cbv zeta.
    destruct (Z.ltb_spec (a - b) (- 2 ^ 63)) as [Hlo|_]; [lia|].
    destruct (Z.ltb_spec (2 ^ 63 - 1) (a - b)) as [Hhi|_]; [lia | reflexivity]. }
  unfold elapsedMilliseconds. rewrite (Hsub _ _ Hn Ht), (Hs _ Hc), (Hs _ Hp), (Hsub _ _ Hc Hp).
  cbv zeta.
  set (elapsed := Z.quot (now - previous_time state) 1000000).
  set (delta_ms := current - previous).
  assert (He : elapsed <= 0 <-> now - previous_time state < 1000000).
  { subst elapsed. split; intros H.
    - destruct (Z.lt_ge_cases (now - previous_time state) 1000000) as [Hlt|Hge]; [exact Hlt|].
      assert (1 <= Z.quot (now - previous_time state) 1000000); [|lia].
      rewrite Z.quot_div_nonneg by lia. apply Z.div_le_lower_bound; lia.
    - destruct (Z.le_gt_cases 0 (now - previous_time state)) as [Hpos|Hneg].
      + rewrite Z.quot_small; lia.
      + assert (Z.quot (now - previous_time state) 1000000 <= 0); [|lia].
        apply Z.quot_le_upper_bound; lia. }
  assert (Hb : elapsed < 2 ^ 63).
  { subst elapsed.
    destruct (Z.le_gt_cases 0 (now - previous_time state)) as [Hpos|Hneg].
    - assert (Z.quot (now - previous_time state) 1000000 <= now - previous_time state);
        [|lia].
      rewrite Z.quot_div_nonneg by lia. apply Z.div_le_upper_bound; lia.
    - assert (Z.quot (now - previous_time state) 1000000 <= 0); [|lia].
      apply Z.quot_le_upper_bound; lia. }
  destruct ((elapsed <=? 0) || (delta_ms <? 0)) eqn:E.
  - eexists _, None. split; [reflexivity|].
    cbn [root_numbers previous_io_ms previous_time].
    split; [reflexivity|]. split; [discriminate|]. split.
    + intros [H|H]; discriminate.
    + intros c _ [= <-]. split; [reflexivity|]. split; [reflexivity|]. split.
      * split; [intros _|reflexivity].
        apply orb_true_iff in E as [E|E];
          [apply Z.leb_le in E | apply Z.ltb_lt in E]; subst delta_ms; lia.
      * intros -> Hge. exfalso.
        apply orb_true_iff in E as [E|E];
          [apply Z.leb_le in E | apply Z.ltb_lt in E]; subst delta_ms; lia.
  - apply orb_false_iff in E as [E1 E2]. apply Z.leb_gt in E1. apply Z.ltb_ge in E2.
    eexists _, (Some _). split; [reflexivity|].
    cbn [root_numbers previous_io_ms previous_time].
    split; [reflexivity|]. split; [intros r [= <-]; apply clampPercent_range|]. split.
    + intros [H|H]; discriminate.
    + intros c _ [= <-]. split; [reflexivity|]. split; [reflexivity|]. split.
      * split; [discriminate|]. subst delta_ms. lia.
      * intros -> Hge. subst delta_ms. rewrite Z.sub_diag.
        rewrite (zero_over_positive elapsed) by lia. reflexivity.
Qed.

End DiskBusy.

(* ===================================================================== *)
(** ** main.cpp: what drawing a line does to a canvas *)
(* ===================================================================== *)

Section CanvasOrder.

Lemma canvasGrows_refl (c : BrailleCanvas) : canvas_ok c -> canvasGrows c c.
Proof.
  intros Hok. repeat split; try apply Hok. intros x y _. apply Z.lor_diag.
Qed.

Lemma canvasGrows_inside (c c' : BrailleCanvas) (x y : Z) :
  canvasGrows c c' -> isInsideCanvas c' x y = isInsideCanvas c x y.
Proof. intros (Hw & Hh & _). unfold isInsideCanvas. now rewrite Hw, Hh. Qed.

Lemma canvasGrows_trans (a b c : BrailleCanvas) :
  canvasGrows a b -> canvasGrows b c -> canvasGrows a c.
Proof.
  intros Hab Hbc. pose proof Hab as Hab0.
  destruct Hab as (Hw & Hh & Hok & Hab), Hbc as (Hw' & Hh' & Hok' & Hbc).
  split; [congruence|]. split; [congruence|]. split; [exact Hok'|].
  intros x y Hxy. specialize (Hab x y Hxy).
  assert (Hxy' : isInsideCanvas b x y = true)
    by now rewrite (canvasGrows_inside a b x y Hab0).
  specialize (Hbc x y Hxy').
  rewrite <- Hbc, Z.lor_assoc, Hab. reflexivity.
Qed.

Lemma sameOutside_trans (a b c : BrailleCanvas) (xa ya xb yb : Z) :
  canvasGrows a b ->
  sameOutside a b xa ya xb yb -> sameOutside b c xa ya xb yb ->
  sameOutside a c xa ya xb yb.
Proof.
  intros Hg Hab Hbc x y Hin Hout.
  rewrite (Hbc x y); [now apply Hab | | exact Hout].
  now rewrite (canvasGrows_inside a b x y Hg).
Qed.

Lemma hasPoint_grows (c c' : BrailleCanvas) (x y : Z) :
  canvasGrows c c' -> isInsideCanvas c x y = true ->
  hasPoint c x y -> hasPoint c' x y.
Proof.
  intros (_ & _ & _ & H) Hin Hp. unfold hasPoint in *.
  rewrite <- (H x y Hin), Z.lor_spec, Hp. reflexivity.
Qed.

Lemma addCanvasMask_grows (c : BrailleCanvas) (x y mask : Z) :
  canvas_ok c -> canvasGrows c (addCanvasMask c x y mask).
Proof.
  intros Hok. destruct (addCanvasMask_size c x y mask) as [Hw Hh].
  split; [exact Hw|]. split; [exact Hh|]. split; [now apply addCanvasMask_ok|].
  intros x' y' Hin'.
  destruct (Z.eq_dec x' x) as [->|Hx]; [destruct (Z.eq_dec y' y) as [->|Hy]|].
  - rewrite cellAt_addCanvasMask_same by assumption.
    now rewrite Z.lor_assoc, Z.lor_diag.
  - rewrite cellAt_addCanvasMask_other by (auto; congruence). apply Z.lor_diag.
  - rewrite cellAt_addCanvasMask_other by (auto; congruence). apply Z.lor_diag.
Qed.

Lemma addCanvasMask_sameOutside (c : BrailleCanvas) (x y mask xa ya xb yb : Z) :
  Z.min xa xb <= x <= Z.max xa xb -> Z.min ya yb <= y <= Z.max ya yb ->
  sameOutside c (addCanvasMask c x y mask) xa ya xb yb.
Proof.
  intros Hx Hy x' y' Hin Hout. apply cellAt_addCanvasMask_other; [exact Hin|].
  intros [= -> ->]. apply Hout. split; assumption.
Qed.

Lemma addCanvasMask_point (c : BrailleCanvas) (x y : Z) :
  canvas_ok c -> isInsideCanvas c x y = true ->
  hasPoint (addCanvasMask c x y kDirPoint) x y.
Proof.
  intros Hok Hin. unfold hasPoint. rewrite cellAt_addCanvasMask_same by assumption.
  rewrite Z.lor_spec. change (Z.testbit kDirPoint 4) with true. apply orb_true_r.
Qed.

Lemma lor_below (a b : Z) : 0 <= a < 32 -> 0 <= b < 32 -> 0 <= Z.lor a b < 32.
Proof.
  intros Ha Hb. split; [apply Z.lor_nonneg; lia|].
  destruct (Z.eq_dec (Z.lor a b) 0) as [->|Hne]; [lia|].
  assert (0 < Z.lor a b) by (pose proof (proj2 (Z.lor_nonneg a b)); lia).
  change 32 with (2 ^ 5). apply Z.log2_lt_pow2; [assumption|].
  rewrite Z.log2_lor by lia.
  destruct (Z.eq_dec a 0) as [->|]; destruct (Z.eq_dec b 0) as [->|];
    change (Z.log2 0) with 0;
    repeat match goal with
           | |- context [Z.log2 ?v] =>
               lazymatch v with
               | 0 => fail
               | _ => let H := fresh in
                      assert (H : Z.log2 v < 5)
                        by (apply Z.log2_lt_pow2; [lia | change (2 ^ 5) with 32; lia]);
                      revert H; generalize (Z.log2 v); intros
               end
           end; lia.
Qed.

Lemma addCanvasMask_range (c : BrailleCanvas) (x y mask : Z) :
  0 <= mask < 32 -> masksInRange c -> masksInRange (addCanvasMask c x y mask).
Proof.
  intros Hm Hr. unfold masksInRange, addCanvasMask in *.
  destruct (negb (isInsideCanvas c x y)); [exact Hr|]. cbn [cells].
  apply Forall_insert; [exact Hr|].
  assert (Hold : 0 <= cellAt c x y < 32).
  { unfold cellAt. destruct (cells c !! cellIndex c x y) as [m|] eqn:E; [|lia].
    apply (Forall_lookup_1 _ _ _ _ Hr E). }
  apply lor_below; assumption.
Qed.

End CanvasOrder.

Section LineEffect.

Variables xa ya xb yb : Z.

(** What one drawing step may do: add bits, inside the rectangle
    spanned by the two end points, out of the five the rasteriser
    knows. *)
Local Abbreviation drawsInside c c' :=
  (canvasGrows c c' /\ sameOutside c c' xa ya xb yb
   /\ (masksInRange c -> masksInRange c')).

Local Abbreviation inBox x y :=
  (Z.min xa xb <= x <= Z.max xa xb /\ Z.min ya yb <= y <= Z.max ya yb).

Lemma drawsInside_refl (c : BrailleCanvas) : canvas_ok c -> drawsInside c c.
Proof.
  intros Hok. split; [now apply canvasGrows_refl|]. split; [|auto].
  intros x y _ _. reflexivity.
Qed.

Lemma drawsInside_trans (a b c : BrailleCanvas) :
  drawsInside a b -> drawsInside b c -> drawsInside a c.
Proof.
  intros (Hg & Hs & Hr) (Hg' & Hs' & Hr').
  split; [now apply (canvasGrows_trans a b c)|].
  split; [now apply (sameOutside_trans a b c)|]. auto.
Qed.

Lemma addCanvasMask_drawsInside (c : BrailleCanvas) (x y mask : Z) :
  canvas_ok c -> inBox x y -> 0 <= mask < 32 ->
  drawsInside c (addCanvasMask c x y mask).
Proof.
  intros Hok [Hx Hy] Hm. split; [now apply addCanvasMask_grows|].
  split; [now apply addCanvasMask_sameOutside | now apply addCanvasMask_range].
Qed.

Lemma connectCanvasCells_drawsInside (c : BrailleCanvas) (x y x' y' : Z) :
  canvas_ok c -> inBox x y -> inBox x' y' ->
  drawsInside c (connectCanvasCells c x y x' y').
Proof.
  intros Hok Hp Hq. unfold connectCanvasCells.
  assert (Htwo : forall m m', 0 <= m < 32 -> 0 <= m' < 32 ->
                   drawsInside c (addCanvasMask (addCanvasMask c x y m) x' y' m')).
  { intros m m' Hm Hm'.
    apply (drawsInside_trans c (addCanvasMask c x y m));
      [now apply addCanvasMask_drawsInside|].
    apply addCanvasMask_drawsInside; [now apply addCanvasMask_ok | exact Hq | exact Hm']. }
  destruct (negb (isInsideCanvas c x y) || negb (isInsideCanvas c x' y'));
    [now apply drawsInside_refl|].
  destruct ((x' =? x + 1) && (y' =? y)); [apply Htwo; vm_compute; split; congruence|].
  destruct ((x' =? x - 1) && (y' =? y)); [apply Htwo; vm_compute; split; congruence|].
  destruct ((x' =? x) && (y' =? y + 1)); [apply Htwo; vm_compute; split; congruence|].
  destruct ((x' =? x) && (y' =? y - 1)); [apply Htwo; vm_compute; split; congruence|].
  now apply drawsInside_refl.
Qed.

Lemma connectCanvasCells_ok (c : BrailleCanvas) (x y x' y' : Z) :
  canvas_ok c -> canvas_ok (connectCanvasCells c x y x' y').
Proof.
  intros Hok. unfold connectCanvasCells.
  repeat match goal with
         | |- canvas_ok (if ?b then _ else _) => destruct b
         end; auto using addCanvasMask_ok.
Qed.

(** The body of the loop for one step from [(x, y)] to [(x', y')],
    through the elbow when both coordinates move. *)
Lemma lineStep_drawsInside (c : BrailleCanvas) (x y x' y' : Z) (elbow : bool) :
  canvas_ok c -> inBox x y -> inBox x' y' -> isInsideCanvas c x' y' = true ->
  let c1 := if elbow
            then connectCanvasCells (connectCanvasCells c x y x' y) x' y x' y'
            else connectCanvasCells c x y x' y' in
  let c2 := addCanvasMask c1 x' y' kDirPoint in
  drawsInside c c2 /\ canvas_ok c2 /\ hasPoint c2 x' y'.
Proof.
  intros Hok Hp Hq Hin c1 c2.
  assert (Helbow : inBox x' y) by (destruct Hp, Hq; split; assumption).
  assert (H1 : drawsInside c c1 /\ canvas_ok c1).
  { subst c1. destruct elbow.
    - split; [|auto using connectCanvasCells_ok].
      apply (drawsInside_trans c (connectCanvasCells c x y x' y));
        [now apply connectCanvasCells_drawsInside|].
      apply connectCanvasCells_drawsInside; auto using connectCanvasCells_ok.
    - split; [now apply connectCanvasCells_drawsInside
             | now apply connectCanvasCells_ok]. }
  destruct H1 as [Hd1 Hok1].
  assert (Hin1 : isInsideCanvas c1 x' y' = true).
  { destruct Hd1 as (Hg & _). now rewrite (canvasGrows_inside c c1 x' y' Hg). }
  split; [|split].
  - apply (drawsInside_trans c c1); [exact Hd1|].
    apply addCanvasMask_drawsInside; [exact Hok1 | exact Hq | vm_compute; split; congruence].
  - now apply addCanvasMask_ok.
  - now apply addCanvasMask_point.
Qed.

End LineEffect.

Section LineLoopEffect.

Variables x0 y0 dx dy sx sy : Z.
Hypothesis dx_nonneg : 0 <= dx.
Hypothesis dy_nonneg : 0 <= dy.
Hypothesis sx_unit : sx = 1 \/ sx = -1.
Hypothesis sy_unit : sy = 1 \/ sy = -1.
Hypothesis x0_range : 0 <= x0 < 2 ^ 29.
Hypothesis y0_range : 0 <= y0 < 2 ^ 29.
Hypothesis x1_range : 0 <= x0 + sx * dx < 2 ^ 29.
Hypothesis y1_range : 0 <= y0 + sy * dy < 2 ^ 29.

Local Abbreviation x1 := (x0 + sx * dx).
Local Abbreviation y1 := (y0 + sy * dy).

Lemma on_the_way (i j : Z) :
  0 <= i <= dx -> 0 <= j <= dy ->
  (Z.min x0 x1 <= x0 + sx * i <= Z.max x0 x1)
  /\ (Z.min y0 y1 <= y0 + sy * j <= Z.max y0 y1).
Proof.
  intros Hi Hj. destruct sx_unit as [-> | ->], sy_unit as [-> | ->]; lia.
Qed.

Lemma inside_on_the_way (c : BrailleCanvas) (i j : Z) :
  isInsideCanvas c x0 y0 = true -> isInsideCanvas c x1 y1 = true ->
  0 <= i <= dx -> 0 <= j <= dy ->
  isInsideCanvas c (x0 + sx * i) (y0 + sy * j) = true.
Proof.
  intros H0 H1 Hi Hj. apply isInsideCanvas_spec in H0, H1. apply isInsideCanvas_spec.
  destruct sx_unit as [-> | ->], sy_unit as [-> | ->]; lia.
Qed.

(** The loop from the point reached after [i] steps along x and [j]
    steps along y: it ends, it only adds bits, only between the end
    points, and the end point carries the point bit. *)
Lemma rasterizeLoop_effect (fuel : nat) (canvas : BrailleCanvas) (i j : Z) :
  canvas_ok canvas ->
  isInsideCanvas canvas x0 y0 = true -> isInsideCanvas canvas x1 y1 = true ->
  0 <= i <= dx -> 0 <= j <= dy ->
  - 2 * dy <= dx - dy - i * dy + j * dx <= 2 * dx ->
  (Z.to_nat (dx - i + (dy - j)) < fuel)%nat ->
  hasPoint canvas (x0 + sx * i) (y0 + sy * j) ->
  exists canvas',
    rasterizeLoop fuel canvas (x0 + sx * i) (y0 + sy * j) x1 y1 dx dy sx sy
                  (dx - dy - i * dy + j * dx)
    = Some canvas'
    /\ canvasGrows canvas canvas'
    /\ sameOutside canvas canvas' x0 y0 x1 y1
    /\ (masksInRange canvas -> masksInRange canvas')
    /\ hasPoint canvas' x1 y1.
Proof.
  revert canvas i j.
  induction fuel as [|fuel IH]; intros canvas i j Hok H0 H1 Hi Hj He Hfuel Hpoint; [lia|].
  destruct ((x0 + sx * i =? x1) && (y0 + sy * j =? y1)) eqn:Eend.
  { cbn [rasterizeLoop]. rewrite Eend.
    apply andb_true_iff in Eend as [Ex Ey]. apply Z.eqb_eq in Ex, Ey.
    exists canvas. split; [reflexivity|]. split; [now apply canvasGrows_refl|].
    split; [intros x y _ _; reflexivity|]. split; [auto|].
    rewrite <- Ex, <- Ey. exact Hpoint. }
  assert (Hnot : i < dx \/ j < dy).
  { apply andb_false_iff in Eend. rewrite !Z.eqb_neq in Eend.
    destruct Eend as [E|E]; [left|right].
    - destruct (Z.eq_dec i dx) as [->|]; [congruence | lia].
    - destruct (Z.eq_dec j dy) as [->|]; [congruence | lia]. }
  assert (Hdx : dx < 2 ^ 29) by (destruct sx_unit as [-> | ->]; lia).
  assert (Hdy : dy < 2 ^ 29) by (destruct sy_unit as [-> | ->]; lia).
  rewrite rasterizeLoop_step; try assumption; try lia;
    try (destruct sx_unit as [-> | ->], sy_unit as [-> | ->]; lia).
  cbv zeta.
  destruct (line_progress dx dy i j Hi Hj Hnot) as (Hpx & Hpy & Hpany).
  set (e := dx - dy - i * dy + j * dx) in *.
  assert (Hstep : forall i' j' (elbow : bool) c1,
             0 <= i' <= dx -> 0 <= j' <= dy -> i <= i' -> j <= j' ->
             - 2 * dy <= dx - dy - i' * dy + j' * dx <= 2 * dx ->
             (Z.to_nat (dx - i' + (dy - j')) < fuel)%nat ->
             c1 = (if elbow
                   then connectCanvasCells
                          (connectCanvasCells canvas (x0 + sx * i) (y0 + sy * j)
                                              (x0 + sx * i') (y0 + sy * j))
                          (x0 + sx * i') (y0 + sy * j) (x0 + sx * i') (y0 + sy * j')
                   else connectCanvasCells canvas (x0 + sx * i) (y0 + sy * j)
                                           (x0 + sx * i') (y0 + sy * j')) ->
             exists canvas',
               rasterizeLoop fuel (addCanvasMask c1 (x0 + sx * i') (y0 + sy * j') kDirPoint)
                             (x0 + sx * i') (y0 + sy * j') x1 y1 dx dy sx sy
                             (dx - dy - i' * dy + j' * dx)
               = Some canvas'
               /\ canvasGrows canvas canvas'
               /\ sameOutside canvas canvas' x0 y0 x1 y1
               /\ (masksInRange canvas -> masksInRange canvas')
               /\ hasPoint canvas' x1 y1).
  { intros i' j' elbow c1 Hi' Hj' Hii Hjj He' Hfuel' ->.
    destruct (on_the_way i j Hi Hj) as [Hbx Hby].
    destruct (on_the_way i' j' Hi' Hj') as [Hbx' Hby'].
    destruct (lineStep_drawsInside x0 y0 x1 y1 canvas
                (x0 + sx * i) (y0 + sy * j) (x0 + sx * i') (y0 + sy * j') elbow
                Hok (conj Hbx Hby) (conj Hbx' Hby')
                (inside_on_the_way canvas i' j' H0 H1 Hi' Hj'))
      as ((Hg & Hs & Hr) & Hok2 & Hp2).
    cbv zeta in Hg, Hs, Hr, Hok2, Hp2.
    set (c2 := addCanvasMask _ (x0 + sx * i') (y0 + sy * j') kDirPoint) in *.
    destruct (IH c2 i' j' Hok2) as (canvas' & Hrun & Hg' & Hs' & Hr' & Hp'); auto.
    - now rewrite (canvasGrows_inside canvas c2 _ _ Hg).
    - now rewrite (canvasGrows_inside canvas c2 _ _ Hg).
    - exists canvas'. split; [exact Hrun|].
      split; [now apply (canvasGrows_trans canvas c2)|].
      split; [now apply (sameOutside_trans canvas c2)|]. auto. }
  destruct (- dy <? e * 2) eqn:Emx; destruct (e * 2 <? dx) eqn:Emy;
    rewrite ?Z.ltb_lt, ?Z.ltb_ge in Emx, Emy; cbv iota; cbn [andb].
  - (* both axes *)
    assert (i < dx) by (apply Hpx; lia). assert (j < dy) by (apply Hpy; lia).
    replace (x0 + sx * i + sx) with (x0 + sx * (i + 1)) by lia.
    replace (y0 + sy * j + sy) with (y0 + sy * (j + 1)) by lia.
    assert (Hnew : dx - dy - (i + 1) * dy + (j + 1) * dx = e - dy + dx) by (subst e; lia).
    rewrite <- Hnew.
    apply (Hstep (i + 1) (j + 1) true); try lia. reflexivity.
  - (* x only *)
    assert (i < dx) by (apply Hpx; lia).
    replace (x0 + sx * i + sx) with (x0 + sx * (i + 1)) by lia.
    assert (Hnew : dx - dy - (i + 1) * dy + j * dx = e - dy) by (subst e; lia).
    rewrite <- Hnew.
    apply (Hstep (i + 1) j false); try lia. reflexivity.
  - (* y only *)
    assert (j < dy) by (apply Hpy; lia).
    replace (y0 + sy * j + sy) with (y0 + sy * (j + 1)) by lia.
    assert (Hnew : dx - dy - i * dy + (j + 1) * dx = e + dx) by (subst e; lia).
    rewrite <- Hnew.
    apply (Hstep i (j + 1) false); try lia. reflexivity.
  - (* no step: only when both ends are reached *)
    exfalso. lia.
Qed.

End LineLoopEffect.

Section LineProperty.

(** Drawing a line on a canvas with one cell per position, sides of at
    most 2^29 cells and fewer than 2^31 cells always returns, without
    overflow of an [int] operation.  End points outside the canvas
    leave it as it is.  Otherwise the grid keeps its size, no cell
    loses a bit, the cells outside the rectangle spanned by the two end
    points keep their masks, both end points carry the point bit, and
    masks made of the five known bits stay so. *)
Theorem rasterizeBrailleLine_effect (canvas : BrailleCanvas) (x0 y0 x1 y1 : Z) :
  canvas_ok canvas ->
  canvas_fits canvas ->
  exists canvas',
    rasterizeBrailleLine canvas x0 y0 x1 y1 = Some canvas'
    /\ canvasGrows canvas canvas'
    /\ sameOutside canvas canvas' x0 y0 x1 y1
    /\ (masksInRange canvas -> masksInRange canvas')
    /\ (isInsideCanvas canvas x0 y0 = false \/ isInsideCanvas canvas x1 y1 = false ->
        canvas' = canvas)
    /\ (isInsideCanvas canvas x0 y0 = true -> isInsideCanvas canvas x1 y1 = true ->
        hasPoint canvas' x0 y0 /\ hasPoint canvas' x1 y1).
Proof.
  intros Hok Hfits. unfold rasterizeBrailleLine.
  destruct (isInsideCanvas canvas x0 y0) eqn:H0; cbn [negb orb].
  2:{ exists canvas. split; [reflexivity|]. split; [now apply canvasGrows_refl|].
      split; [intros x y _ _; reflexivity|]. split; [auto|].
      split; [auto | discriminate]. }
  destruct (isInsideCanvas canvas x1 y1) eqn:H1; cbn [negb orb].
  2:{ exists canvas. split; [reflexivity|]. split; [now apply canvasGrows_refl|].
      split; [intros x y _ _; reflexivity|]. split; [auto|].
      split; [auto | discriminate]. }
  destruct (inside_fits canvas x0 y0 Hfits H0) as (Hx0 & Hy0).
  destruct (inside_fits canvas x1 y1 Hfits H1) as (Hx1r & Hy1r).
  destruct (line_deltas x0 x1 Hx0 Hx1r) as (Hx1 & Hdx & Hsx & Fx & Fdx).
  destruct (line_deltas y0 y1 Hy0 Hy1r) as (Hy1 & Hdy & Hsy & Fy & Fdy).
  cbv zeta in Hx1, Hdx, Hsx, Fx, Fdx, Hy1, Hdy, Hsy, Fy, Fdy. cbv zeta.
  rewrite Fx, Fy, Fdx, Fdy. cbn [andb negb].
  set (dx := Z.abs (x1 - x0)) in *. set (dy := Z.abs (y1 - y0)) in *.
  set (sx := if x0 <? x1 then 1 else -1) in *.
  set (sy := if y0 <? y1 then 1 else -1) in *.
  rewrite (fitsInt_true (dx - dy)) by lia. cbn [negb].
  set (c0 := addCanvasMask canvas x0 y0 kDirPoint).
  assert (Hg0 : canvasGrows canvas c0) by now apply addCanvasMask_grows.
  assert (Hs0 : sameOutside canvas c0 x0 y0 x1 y1)
    by (apply addCanvasMask_sameOutside; lia).
  assert (Hr0 : masksInRange canvas -> masksInRange c0)
    by (apply addCanvasMask_range; vm_compute; split; congruence).
  assert (Hp0 : hasPoint c0 x0 y0) by now apply addCanvasMask_point.
  pose proof (rasterizeLoop_effect x0 y0 dx dy sx sy
                ltac:(lia) ltac:(lia) Hsx Hsy Hx0 Hy0
                ltac:(rewrite <- Hx1; exact Hx1r) ltac:(rewrite <- Hy1; exact Hy1r)
                (S (Z.to_nat (dx + dy))) c0 0 0) as H.
  rewrite !Z.mul_0_r, !Z.mul_0_l, !Z.add_0_r, !Z.sub_0_r in H.
  rewrite <- Hx1, <- Hy1 in H.
  destruct H as (canvas' & Hrun & Hg & Hs & Hr & Hp).
  - now apply addCanvasMask_ok.
  - now rewrite (canvasGrows_inside canvas c0 _ _ Hg0).
  - now rewrite (canvasGrows_inside canvas c0 _ _ Hg0).
  - lia.
  - lia.
  - lia.
  - lia.
  - exact Hp0.
  - exists canvas'. split; [exact Hrun|].
    split; [now apply (canvasGrows_trans canvas c0)|].
    split; [now apply (sameOutside_trans canvas c0)|].
    split; [auto|]. split; [intros [|]; discriminate|].
    intros _ _. split; [|exact Hp].
    apply (hasPoint_grows c0 canvas' x0 y0 Hg); [|exact Hp0].
    now rewrite (canvasGrows_inside canvas c0 _ _ Hg0).
Qed.

End LineProperty.

(* ===================================================================== *)
(** ** main.cpp: what [drawBrailleLayer] writes *)
(* ===================================================================== *)

Section Layer.

Lemma Z_range_In (n v : Z) :
  In v (map Z.of_nat (seq 0 (Z.to_nat n))) -> 0 <= v < n.
Proof.
  intros H. apply in_map_iff in H as (k & <- & Hk). apply in_seq in Hk. lia.
Qed.

Lemma glyph_not_blank (mask : Z) : 0 < mask < 32 -> glyphForMask mask <> glyph_blank.
Proof.
  intros H.
  assert (Hcases : exists k : nat, mask = Z.of_nat k /\ (0 < k < 32)%nat)
    by (exists (Z.to_nat mask); lia).
  destruct Hcases as (k & -> & Hk).
  do 32 (destruct k as [|k]; [try lia; vm_compute; discriminate|]). lia.
Qed.

Lemma cellAt_in_range (c : BrailleCanvas) (x y : Z) :
  masksInRange c -> 0 <= cellAt c x y < 32.
Proof.
  intros Hr. unfold cellAt. destruct (cells c !! cellIndex c x y) as [m|] eqn:E; [|lia].
  apply (Forall_lookup_1 _ _ _ _ Hr E).
Qed.

(** On a canvas with one cell per position, [drawBrailleLayer] writes
    one glyph for each cell whose mask is not zero, at the cell's
    position shifted by [(top, left)], and nothing else: every write
    lies in the rectangle of the canvas.  When the masks are made of
    the five known bits, as the rasteriser leaves them, no glyph
    written is a blank. *)
Theorem drawBrailleLayer_spec (canvas : BrailleCanvas) (top left : Z) :
  canvas_ok canvas ->
  (forall draw,
     In draw (drawBrailleLayer canvas top left)
     <-> exists x y,
           isInsideCanvas canvas x y = true /\ cellAt canvas x y <> 0
           /\ draw = {| draw_row := top + y; draw_col := left + x;
                        draw_glyph := glyphForMask (cellAt canvas x y) |})
  /\ (forall draw, In draw (drawBrailleLayer canvas top left) ->
        top <= draw_row draw < top + height canvas
        /\ left <= draw_col draw < left + width canvas
        /\ (masksInRange canvas -> draw_glyph draw <> glyph_blank)).
Proof.
  intros Hok.
  assert (Hfwd : forall draw,
             In draw (drawBrailleLayer canvas top left) ->
             exists x y,
               isInsideCanvas canvas x y = true /\ cellAt canvas x y <> 0
               /\ draw = {| draw_row := top + y; draw_col := left + x;
                            draw_glyph := glyphForMask (cellAt canvas x y) |}).
  { intros draw. unfold drawBrailleLayer.
    destruct ((width canvas <=? 0) || (height canvas <=? 0)
              || (length (cells canvas) =? 0)%nat); [intros []|].
    intros H. apply in_flat_map in H as (y & Hy & H).
    apply list_elem_of_In, list_elem_of_omap in H as (x & Hx & H).
    apply list_elem_of_In in Hx. apply Z_range_In in Hx, Hy.
    destruct (cellAt canvas x y =? 0) eqn:E; [discriminate|].
    apply Z.eqb_neq in E. injection H as <-. exists x, y.
    split; [apply isInsideCanvas_spec; lia|]. split; [exact E | reflexivity]. }
  split.
  - intros draw. split; [apply Hfwd|].
    intros (x & y & Hin & Hbits & ->). now apply drawBrailleLayer_In.
  - intros draw Hdraw. destruct (Hfwd draw Hdraw) as (x & y & Hin & Hbits & ->).
    apply isInsideCanvas_spec in Hin. cbn [draw_row draw_col draw_glyph].
    split; [lia|]. split; [lia|]. intros Hr. apply glyph_not_blank.
    pose proof (cellAt_in_range canvas x y Hr). lia.
Qed.

End Layer.

(* ===================================================================== *)
(** ** main.cpp: which GPU is displayed *)
(* ===================================================================== *)

Section DisplayChoice.

Lemma firstIndex_bound {A : Type} (p : A -> bool) (l : list A) (k : nat) :
  firstIndex p l = Some k -> (k < length l)%nat.
Proof.
  revert k. induction l as [|a l IH]; intros k; [discriminate|].
  cbn [firstIndex length]. destruct (p a); [intros [= <-]; lia|].
  destruct (firstIndex p l) as [j|]; [|discriminate].
  intros [= <-]. specialize (IH j eq_refl). lia.
Qed.

Lemma firstIndex_spec {A : Type} (p : A -> bool) (l : list A) :
  match firstIndex p l with
  | Some k => exists a, l !! k = Some a /\ p a = true
                        /\ forall j b, (j < k)%nat -> l !! j = Some b -> p b = false
  | None => forall a, In a l -> p a = false
  end.
Proof.
  induction l as [|a l IH]; [intros a []|]. cbn [firstIndex].
  destruct (p a) eqn:E.
  - exists a. repeat split; [exact E | intros; lia].
  - destruct (firstIndex p l) as [k|].
    + destruct IH as (x & Hx & Hpx & Hbefore). exists x.
      split; [exact Hx|]. split; [exact Hpx|].
      intros [|j] b Hj Hb; [cbn in Hb; congruence|].
      apply (Hbefore j b); [lia | exact Hb].
    + intros x [<-|Hx]; auto.
Qed.

(** A cursor that is still at [size] takes the first index found from
    [i] on, one that was set keeps its value. *)
Local Abbreviation cursorAfter size i cursor found :=
  (if (cursor =? size)%nat
   then match found with Some k => (i + k)%nat | None => size%nat end
   else cursor%nat).

Lemma displayScan_closed (size : nat) (rest : list GpuMetrics) (st : DisplayScan) (i : nat) :
  (i + length rest = size)%nat ->
  let st' := displayScan size st i rest in
  first_with_telemetry st'
  = cursorAfter size i (first_with_telemetry st) (firstIndex gpuHasTelemetry rest)
  /\ intel_with_telemetry st'
     = cursorAfter size i (intel_with_telemetry st) (firstIndex intelWithTelemetry rest)
  /\ first_intel st'
     = cursorAfter size i (first_intel st) (firstIndex gpuLooksIntel rest).
Proof.
  revert st i. induction rest as [|gpu rest IH]; intros st i Hlen.
  - cbn. repeat split;
      match goal with |- _ = if ?c then _ else _ => destruct c eqn:E end;
      try reflexivity; now apply Nat.eqb_eq in E.
  - cbn [length] in Hlen. cbn [displayScan firstIndex].
    destruct (IH (displayScanStep size st i gpu) (S i) ltac:(lia)) as (H1 & H2 & H3).
    cbv zeta in *. rewrite H1, H2, H3. clear H1 H2 H3 IH.
    unfold displayScanStep, intelWithTelemetry.
    destruct (gpuLooksIntel gpu), (gpuHasTelemetry gpu); cbn [andb];
      repeat match goal with
             | |- context [(?a =? size)%nat] =>
                 lazymatch a with
                 | context [Nat.eqb] => fail
                 | _ => let E := fresh "E" in
                        destruct (Nat.eqb_spec a size) as [E|E];
                        cbn [first_with_telemetry intel_with_telemetry first_intel]
                 end
             end;
      repeat match goal with
             | |- context [firstIndex ?p rest] => destruct (firstIndex p rest)
             end;
      repeat split; try lia.
Qed.

Lemma pickDisplayGpuIndex_closed (gpus : list GpuMetrics) :
  pickDisplayGpuIndex gpus
  = match gpus with
    | [] => 0%nat
    | front :: _ =>
        if gpuLooksRadeon front && negb (gpuHasTelemetry front)
        then firstPresent [firstIndex intelWithTelemetry gpus;
                           firstIndex gpuHasTelemetry gpus;
                           firstIndex gpuLooksIntel gpus]
        else firstPresent [firstIndex gpuHasTelemetry gpus]
    end.
Proof.
  destruct gpus as [|front rest]; [reflexivity|].
  unfold pickDisplayGpuIndex. set (gpus := front :: rest).
  set (size := length gpus).
  destruct (displayScan_closed size gpus
              {| first_with_telemetry := size; intel_with_telemetry := size;
                 first_intel := size |} 0%nat ltac:(subst size; lia)) as (H1 & H2 & H3).
  cbv zeta in *. cbn [first_with_telemetry intel_with_telemetry first_intel] in *.
  rewrite Nat.eqb_refl in H1, H2, H3. rewrite H1, H2, H3. clear H1 H2 H3.
  pose proof (firstIndex_bound gpuHasTelemetry gpus) as B1.
  pose proof (firstIndex_bound intelWithTelemetry gpus) as B2.
  pose proof (firstIndex_bound gpuLooksIntel gpus) as B3.
  fold size in B1, B2, B3.
  destruct (firstIndex gpuHasTelemetry gpus) as [t|];
    destruct (firstIndex intelWithTelemetry gpus) as [it|];
    destruct (firstIndex gpuLooksIntel gpus) as [k|];
    try specialize (B1 _ eq_refl); try specialize (B2 _ eq_refl);
    try specialize (B3 _ eq_refl); cbn [Nat.add];
    repeat match goal with
           | |- context [(?a =? size)%nat] =>
               let E := fresh "E" in
               destruct (Nat.eqb_spec a size) as [E|E]; try lia; cbn [negb]
           end;
    destruct (gpuLooksRadeon front && negb (gpuHasTelemetry front)); reflexivity.
Qed.

Lemma pickDisplayGpuIndex_front (front : GpuMetrics) (rest : list GpuMetrics) :
  gpuHasTelemetry front = true -> pickDisplayGpuIndex (front :: rest) = 0%nat.
Proof.
  intros H. rewrite pickDisplayGpuIndex_closed. cbn [firstIndex].
  rewrite H, andb_false_r. reflexivity.
Qed.

(** [pickDisplayGpuIndex] in closed form.  When the first GPU looks
    like a Radeon and has no telemetry, the choice is the first Intel
    GPU with telemetry, else the first GPU with telemetry, else the
    first Intel GPU, else the first GPU.  In every other case it is the
    first GPU with telemetry, else the first GPU. *)
Theorem pickDisplayGpuIndex_choice (gpus : list GpuMetrics) :
  pickDisplayGpuIndex gpus
  = match gpus with
    | [] => 0%nat
    | front :: _ =>
        if gpuLooksRadeon front && negb (gpuHasTelemetry front)
        then firstPresent [firstIndex intelWithTelemetry gpus;
                           firstIndex gpuHasTelemetry gpus;
                           firstIndex gpuLooksIntel gpus]
        else firstPresent [firstIndex gpuHasTelemetry gpus]
    end
  /\ (forall front rest, gpus = front :: rest -> gpuHasTelemetry front = true ->
                         pickDisplayGpuIndex gpus = 0%nat)
  /\ ((forall gpu, In gpu gpus -> gpuHasTelemetry gpu = false /\ gpuLooksIntel gpu = false) ->
      pickDisplayGpuIndex gpus = 0%nat).
Proof.
  split; [apply pickDisplayGpuIndex_closed|]. split.
  - intros front rest -> Hfront. now apply pickDisplayGpuIndex_front.
  - intros Hnone. rewrite pickDisplayGpuIndex_closed.
    destruct gpus as [|front rest]; [reflexivity|].
    assert (Hfind : forall p, (forall gpu, In gpu (front :: rest) -> p gpu = false) ->
                              firstIndex p (front :: rest) = None).
    { intros p Hp. pose proof (firstIndex_spec p (front :: rest)) as H.
      destruct (firstIndex p (front :: rest)) as [k|]; [|reflexivity].
      destruct H as (a & Ha & Hpa & _).
      apply list_elem_of_lookup_2, list_elem_of_In in Ha.
      rewrite (Hp a Ha) in Hpa. discriminate. }
    rewrite (Hfind gpuHasTelemetry) by (intros gpu Hin; apply (Hnone gpu Hin)).
    rewrite (Hfind intelWithTelemetry).
    2:{ intros gpu Hin. unfold intelWithTelemetry.
        destruct (Hnone gpu Hin) as [-> _]. apply andb_false_r. }
    rewrite (Hfind gpuLooksIntel) by (intros gpu Hin; apply (Hnone gpu Hin)).
    now destruct (gpuLooksRadeon front && negb (gpuHasTelemetry front)).
Qed.


End DisplayChoice.

(* ===================================================================== *)
(** ** The display GPU of a collected list *)
(* ===================================================================== *)

Section CollectedDisplay.

Lemma telemetryScore_telemetry (gpu : GpuMetrics) :
  0 <= telemetryScore gpu <= 12
  /\ (0 < telemetryScore gpu <-> gpuHasTelemetry gpu = true).
Proof.
  unfold telemetryScore, gpuHasTelemetry.
  destruct (has_value (temperature_c gpu)), (has_value (core_clock_mhz gpu)),
    (has_value (utilization_percent gpu)), (has_value (power_w gpu)),
    (has_value (memory_used_mib gpu)), (has_value (memory_total_mib gpu)),
    (has_value (memory_utilization_percent gpu)); cbn; split; try lia;
    split; (lia || reflexivity || discriminate).
Qed.

Lemma Sorted_weaken {A : Type} (R R' : A -> A -> Prop) (l : list A) :
  (forall a b, R a b -> R' a b) -> Sorted R l -> Sorted R' l.
Proof.
  intros HR. induction 1 as [|a l Hs IH Hhd]; constructor; [exact IH|].
  destruct Hhd; constructor; auto.
Qed.

Lemma sorted_front_highest (front : GpuMetrics) (rest : list GpuMetrics) :
  Sorted (mayPrecede gpuBefore) (front :: rest) ->
  forall gpu, In gpu (front :: rest) -> telemetryScore gpu <= telemetryScore front.
Proof.
  intros Hs0.
  assert (Hs : Sorted (fun a b => telemetryScore b <= telemetryScore a) (front :: rest)).
  { apply (Sorted_weaken (mayPrecede gpuBefore)); [|exact Hs0].
    intros a b H. now apply mayPrecede_gpuBefore in H as [H _]. }
  apply Sorted_StronglySorted in Hs; [|intros a b c Hab Hbc; lia].
  apply StronglySorted_inv in Hs as [_ Hall].
  intros gpu [<-|Hin]; [lia|].
  now apply (proj1 (List.Forall_forall _ _) Hall gpu).
Qed.

(** The list [collectGpus] returns is ordered by telemetry score, and a
    GPU has a positive score exactly when it has telemetry.  So when
    any GPU of the list has telemetry, the first one has, no GPU scores
    higher, and it is the one [pickDisplayGpuIndex] selects. *)
Theorem display_gpu_of_collected (rows : list NvidiaSmiRow) (drm : option (list DrmEntry))
    (fallback_probe fallback_fusion : SensorsFallbackMetrics) :
  let gpus := collectGpus rows drm fallback_probe fallback_fusion in
  (forall gpu, 0 <= telemetryScore gpu <= 12
               /\ (0 < telemetryScore gpu <-> gpuHasTelemetry gpu = true))
  /\ (anyGpuHasTelemetry gpus = true ->
      pickDisplayGpuIndex gpus = 0%nat
      /\ exists front, gpus !! 0%nat = Some front
                       /\ gpuHasTelemetry front = true
                       /\ forall gpu, In gpu gpus ->
                                      telemetryScore gpu <= telemetryScore front).
Proof.
  intros gpus. split; [apply telemetryScore_telemetry|]. intros Hany.
  assert (Hsorted : Sorted (mayPrecede gpuBefore) gpus).
  { subst gpus. rewrite collectGpus_sorts. apply stable_sort_Sorted, gpuBefore_asym. }
  unfold anyGpuHasTelemetry in Hany. apply existsb_exists in Hany as (g & Hg & Htel).
  destruct gpus as [|front rest] eqn:E; [destruct Hg|].
  pose proof (sorted_front_highest front rest Hsorted) as Hhigh.
  assert (Hfront : gpuHasTelemetry front = true).
  { apply telemetryScore_telemetry. apply telemetryScore_telemetry in Htel.
    specialize (Hhigh g Hg). lia. }
  split.
  - rewrite pickDisplayGpuIndex_front by exact Hfront. reflexivity.
  - exists front. split; [reflexivity|]. split; [exact Hfront | exact Hhigh].
Qed.

End CollectedDisplay.

(* ===================================================================== *)
(** ** linux_utils.hpp: percentages and power readings *)
(* ===================================================================== *)

Section Readings.

Lemma not_leb_ltb (a b : float) :
  not_nan a -> not_nan b -> PrimFloat.leb a b = false -> PrimFloat.ltb b a = true.
Proof.
  unfold not_nan. intros Ha Hb. rewrite ltb_spec, leb_spec. unfold SFltb, SFleb.
  destruct (SFcompare_defined _ _ Ha Hb) as [c E]. rewrite E.
  rewrite (SFcompare_antisym _ _ _ E). destruct c; simpl; congruence.
Qed.

Lemma small_percent_in_range (k : nat) :
  (k <= 100)%nat -> in_range 0 100 (Z2double (Z.of_nat k)).
Proof.
  intros Hk.
  do 101 (destruct k as [|k]; [split; vm_compute; reflexivity|]). lia.
Qed.

(** [normalizePercent] returns a value exactly for the readings from 0
    to 100, both included; the value is the reading itself and lies in
    [0, 100]. *)
Theorem normalizePercent_spec (raw_value : Z) :
  (normalizePercent raw_value = None <-> raw_value < 0 \/ 100 < raw_value)
  /\ forall r, normalizePercent raw_value = Some r ->
               0 <= raw_value <= 100 /\ r = Z2double raw_value /\ in_range 0 100 r.
Proof.
  unfold normalizePercent.
  destruct ((raw_value <? 0) || (100 <? raw_value)) eqn:E.
  - apply orb_true_iff in E. rewrite Z.ltb_lt, Z.ltb_lt in E.
    split; [tauto | discriminate].
  - apply orb_false_iff in E as [E0 E100]. apply Z.ltb_ge in E0, E100. split.
    + split; [discriminate | lia].
    + intros r [= <-]. split; [lia|]. split; [reflexivity|].
      replace raw_value with (Z.of_nat (Z.to_nat raw_value)) by lia.
      apply small_percent_in_range. lia.
Qed.

Lemma microWattsToWatts_range (micro_watts : Z) (watts : float) :
  microWattsToWatts micro_watts = Some watts ->
  0 < micro_watts
  /\ PrimFloat.ltb 0 watts = true /\ PrimFloat.leb watts 2000 = true.
Proof.
  unfold microWattsToWatts. destruct (micro_watts <=? 0) eqn:E; [discriminate|].
  apply Z.leb_gt in E. cbv zeta.
  set (w := PrimFloat.div (Z2double micro_watts) 1000000).
  assert (Hn : not_nan w).
  { subst w. eapply div_by_constant_not_nan; [reflexivity | apply Z2double_not_nan]. }
  destruct (PrimFloat.leb w 0 || PrimFloat.ltb 2000 w) eqn:Eg; [discriminate|].
  intros [= <-]. apply orb_false_iff in Eg as [Hle Hgt].
  assert (H0 : not_nan 0%float) by (unfold not_nan; vm_compute; discriminate).
  assert (H2000 : not_nan 2000%float) by (unfold not_nan; vm_compute; discriminate).
  split; [exact E|]. split; [now apply not_leb_ltb | now apply not_ltb_leb].
Qed.

(** [readHwmonPowerWatts] tries the candidate files in order and
    returns the first reading that converts to a valid power: a file
    that cannot be read, or whose value is rejected, does not end the
    search.  What it returns is positive and at most 2000 W. *)
Theorem readHwmonPowerWatts_spec (candidates : list (option Z)) :
  match readHwmonPowerWatts candidates with
  | Some watts =>
      (exists before raw after,
         candidates = before ++ Some raw :: after
         /\ microWattsToWatts raw = Some watts
         /\ forall c, In c before ->
                      match c with
                      | Some r => microWattsToWatts r = None
                      | None => True
                      end)
      /\ PrimFloat.ltb 0 watts = true /\ PrimFloat.leb watts 2000 = true
  | None =>
      forall c, In c candidates ->
                match c with
                | Some r => microWattsToWatts r = None
                | None => True
                end
  end.
Proof.
  induction candidates as [|[raw|] rest IH]; cbn [readHwmonPowerWatts].
  - intros c [].
  - destruct (microWattsToWatts raw) as [watts|] eqn:E.
    + split; [|now apply (microWattsToWatts_range raw)].
      exists [], raw, rest. split; [reflexivity|]. split; [exact E | intros c []].
    + destruct (readHwmonPowerWatts rest) as [watts|].
      * destruct IH as ((before & r & after & -> & Hr & Hb) & Hrange).
        split; [|exact Hrange]. exists (Some raw :: before), r, after.
        split; [reflexivity|]. split; [exact Hr|].
        intros c [<-|Hc]; [exact E | now apply Hb].
      * intros c [<-|Hc]; [exact E | now apply IH].
  - destruct (readHwmonPowerWatts rest) as [watts|].
    + destruct IH as ((before & r & after & -> & Hr & Hb) & Hrange).
      split; [|exact Hrange]. exists (None :: before), r, after.
      split; [reflexivity|]. split; [exact Hr|].
      intros c [<-|Hc]; [exact I | now apply Hb].
    + intros c [<-|Hc]; [exact I | now apply IH].
Qed.

End Readings.

(* ===================================================================== *)
(** ** metrics/sensors_fallback.cpp: what the scan of [sensors] reports *)
(* ===================================================================== *)

Section BestChoice.

Local Abbreviation keepStep :=
  (fun (best : Z * option float) (c : Z * float) => keepBest best (fst c) (snd c)).

(** The guarded update keeps the state when no choice beats it, and
    otherwise ends on the first choice of the highest score. *)
Lemma keepBest_fold (choices : list (Z * float)) (score : Z) (value : option float) :
  (fold_left keepStep choices (score, value) = (score, value)
   /\ forall x, In x choices -> fst x <= score)
  \/ exists before c after,
       choices = before ++ c :: after
       /\ fold_left keepStep choices (score, value) = (fst c, Some (snd c))
       /\ score < fst c
       /\ (forall x, In x before -> fst x < fst c)
       /\ (forall x, In x after -> fst x <= fst c).
Proof.
  revert score value. induction choices as [|choice choices IH]; intros score value.
  - left. split; [reflexivity | intros x []].
  - cbn [fold_left].
    change (keepBest (score, value) (fst choice) (snd choice))
      with (if score <? fst choice then (fst choice, Some (snd choice)) else (score, value)).
    destruct (Z.ltb_spec score (fst choice)) as [Hlt|Hge].
    + destruct (IH (fst choice) (Some (snd choice)))
        as [(Hfold & Hall) | (before & c & after & -> & Hfold & Hs & Hb & Ha)];
        rewrite Hfold.
      * right. exists [], choice, choices.
        split; [reflexivity|]. split; [reflexivity|]. split; [exact Hlt|].
        split; [intros x [] | exact Hall].
      * right. exists (choice :: before), c, after.
        split; [reflexivity|]. split; [reflexivity|]. split; [lia|].
        split; [|exact Ha]. intros x [<-|Hx]; [lia | now apply Hb].
    + destruct (IH score value)
        as [(Hfold & Hall) | (before & c & after & -> & Hfold & Hs & Hb & Ha)];
        rewrite Hfold.
      * left. split; [reflexivity|]. intros x [<-|Hx]; [lia | now apply Hall].
      * right. exists (choice :: before), c, after.
        split; [reflexivity|]. split; [reflexivity|]. split; [exact Hs|].
        split; [|exact Ha]. intros x [<-|Hx]; [lia | now apply Hb].
Qed.

Lemma keepBest_isFirstBest (choices : list (Z * float)) :
  isFirstBest (snd (fold_left keepStep choices (-1, None))) choices.
Proof.
  destruct (keepBest_fold choices (-1) None)
    as [(Hfold & Hall) | (before & c & after & -> & Hfold & Hs & Hb & Ha)];
    rewrite Hfold; cbn [snd isFirstBest].
  - intros c Hc. specialize (Hall c Hc). lia.
  - exists before, c, after.
    split; [reflexivity|]. split; [reflexivity|]. split; [lia|]. split; assumption.
Qed.

Lemma isFirstBest_nil (field : option float) :
  isFirstBest field [] -> field = None.
Proof.
  destruct field as [value|]; [|reflexivity].
  intros (before & c & after & H & _). now destruct before.
Qed.

Lemma isFirstBest_nonneg (field : option float) (choices : list (Z * float)) :
  isFirstBest field choices -> (forall c, In c choices -> 0 <= fst c) ->
  (field = None <-> choices = []).
Proof.
  intros Hbest Hpos. split.
  - intros ->. cbn [isFirstBest] in Hbest. destruct choices as [|c choices]; [reflexivity|].
    specialize (Hbest c (or_introl eq_refl)). specialize (Hpos c (or_introl eq_refl)). lia.
  - intros ->. now apply isFirstBest_nil.
Qed.

End BestChoice.

Section SensorsScanning.

Variable extractFirstNumber : string -> option float.
Variable extractWattsFromText : string -> option float.

Local Abbreviation step := (sensorsLineStep extractFirstNumber extractWattsFromText).
Local Abbreviation fanOf := (fanCandidate extractFirstNumber).
Local Abbreviation powerOf := (powerCandidate extractWattsFromText).
Local Abbreviation keepStep :=
  (fun (best : Z * option float) (c : Z * float) => keepBest best (fst c) (snd c)).

(** One candidate applied to a best score. *)
Local Abbreviation offer pick candidate best :=
  (match candidate with
   | Some c => keepBest best (pick (fst c)) (snd c)
   | None => best
   end).

Lemma sensorsLineStep_reading (scan : SensorsScan) (lower_line : string) :
  let reading := (scan_chip scan, lower_line) in
  (let scan1 :=
     if lineHasToken lower_line "rpm" then
       match extractFirstNumber lower_line with
       | Some rpm =>
           if PrimFloat.ltb 0 rpm then
             let (cpu_score, gpu_score) := fanScores (scan_chip scan) lower_line in
             {| scan_chip := scan_chip scan;
                scan_cpu_fan := keepBest (scan_cpu_fan scan) cpu_score rpm;
                scan_cpu_power := scan_cpu_power scan;
                scan_gpu_fan := keepBest (scan_gpu_fan scan) gpu_score rpm;
                scan_gpu_power := scan_gpu_power scan |}
           else scan
       | None => scan
       end
     else scan in
   match extractWattsFromText lower_line with
   | Some watts =>
       let (cpu_score, gpu_score) := powerScores (scan_chip scan1) lower_line in
       {| scan_chip := scan_chip scan1;
          scan_cpu_fan := scan_cpu_fan scan1;
          scan_cpu_power := keepBest (scan_cpu_power scan1) cpu_score watts;
          scan_gpu_fan := scan_gpu_fan scan1;
          scan_gpu_power := keepBest (scan_gpu_power scan1) gpu_score watts |}
   | None => scan1
   end)
  = {| scan_chip := scan_chip scan;
       scan_cpu_fan := offer fst (fanOf reading) (scan_cpu_fan scan);
       scan_cpu_power := offer fst (powerOf reading) (scan_cpu_power scan);
       scan_gpu_fan := offer snd (fanOf reading) (scan_gpu_fan scan);
       scan_gpu_power := offer snd (powerOf reading) (scan_gpu_power scan) |}.
Proof.
  cbv zeta. unfold fanCandidate, powerCandidate.
  destruct scan as [chip cf cp gf gp]. cbn [scan_chip scan_cpu_fan scan_cpu_power
                                           scan_gpu_fan scan_gpu_power].
  destruct (fanScores chip lower_line) as [fc fg].
  destruct (powerScores chip lower_line) as [pc pg] eqn:Ep.
  destruct (lineHasToken lower_line "rpm");
    [destruct (extractFirstNumber lower_line) as [rpm|];
     [destruct (PrimFloat.ltb 0 rpm)|]|];
    destruct (extractWattsFromText lower_line) as [watts|];
    cbn [scan_chip scan_cpu_fan scan_cpu_power scan_gpu_fan scan_gpu_power fst snd];
    rewrite ?Ep; reflexivity.
Qed.

(** The four best scores evolve independently: each is the guarded
    update folded over its own choices. *)
Lemma scan_fold (lines : list string) (scan : SensorsScan) :
  let readings := sensorReadings lines (scan_chip scan) in
  let final := fold_left step lines scan in
  scan_cpu_fan final
  = fold_left keepStep (cpuChoices (omap fanOf readings)) (scan_cpu_fan scan)
  /\ scan_gpu_fan final
     = fold_left keepStep (gpuChoices (omap fanOf readings)) (scan_gpu_fan scan)
  /\ scan_cpu_power final
     = fold_left keepStep (cpuChoices (omap powerOf readings)) (scan_cpu_power scan)
  /\ scan_gpu_power final
     = fold_left keepStep (gpuChoices (omap powerOf readings)) (scan_gpu_power scan).
Proof.
  cbv zeta. revert scan. induction lines as [|raw_line lines IH]; intros scan.
  - repeat split; reflexivity.
  - cbn [fold_left sensorReadings]. unfold sensorsLineStep at 2 4 6 8. cbv zeta.
    destruct (String.eqb (trim raw_line) EmptyString); [apply IH|].
    destruct (isChipHeader raw_line (trim raw_line)).
    + specialize (IH {| scan_chip := toLower (trim raw_line);
                        scan_cpu_fan := scan_cpu_fan scan;
                        scan_cpu_power := scan_cpu_power scan;
                        scan_gpu_fan := scan_gpu_fan scan;
                        scan_gpu_power := scan_gpu_power scan |}).
      exact IH.
    + pose proof (sensorsLineStep_reading scan (toLower (trim raw_line))) as Hstep.
      cbv zeta in Hstep. rewrite Hstep. clear Hstep.
      set (reading := (scan_chip scan, toLower (trim raw_line))).
      specialize (IH {| scan_chip := scan_chip scan;
                        scan_cpu_fan := offer fst (fanOf reading) (scan_cpu_fan scan);
                        scan_cpu_power := offer fst (powerOf reading) (scan_cpu_power scan);
                        scan_gpu_fan := offer snd (fanOf reading) (scan_gpu_fan scan);
                        scan_gpu_power := offer snd (powerOf reading) (scan_gpu_power scan) |}).
      cbn [scan_chip scan_cpu_fan scan_cpu_power scan_gpu_fan scan_gpu_power] in IH.
      destruct IH as (H1 & H2 & H3 & H4). rewrite H1, H2, H3, H4.
      cbn [omap list_omap].
      destruct (fanOf reading) as [fan|], (powerOf reading) as [power|];
        repeat split; reflexivity.
Qed.

Lemma fanScores_gpu_nonneg (chip_name lower_line : string) :
  0 <= snd (fanScores chip_name lower_line).
Proof.
  unfold fanScores.
  destruct (lineHasToken lower_line "cpu"), (lineHasToken lower_line "fan"),
    (lineHasToken lower_line "pump"), (lineHasToken lower_line "gpu"),
    (hwmonNameLooksGpuSensor chip_name), (hwmonNameLooksBoardSensor chip_name),
    (hwmonNameLooksCpuSensor chip_name); cbn; lia.
Qed.

Lemma powerScores_nonneg (chip_name lower_line : string) :
  0 <= fst (powerScores chip_name lower_line)
  /\ 0 <= snd (powerScores chip_name lower_line).
Proof.
  unfold powerScores.
  destruct (lineHasToken lower_line "cpu" || lineHasToken lower_line "package"
            || lineHasToken lower_line "ppt" || lineHasToken lower_line "svi2"
            || lineHasToken lower_line "socket"),
    (lineHasToken chip_name "k10temp" || lineHasToken chip_name "coretemp"
     || lineHasToken chip_name "zenpower" || lineHasToken chip_name "fam15h_power"
     || lineHasToken chip_name "rapl"),
    (lineHasToken lower_line "gpu"), (hwmonNameLooksGpuSensor chip_name); cbn; lia.
Qed.

Lemma fan_choice_nonneg (readings : list (string * string)) (c : Z * float) :
  In c (gpuChoices (omap fanOf readings)) -> 0 <= fst c.
Proof.
  unfold gpuChoices. rewrite in_map_iff. intros (candidate & <- & Hin).
  apply list_elem_of_In, list_elem_of_omap in Hin as ((chip & line) & _ & Hc).
  cbn [fst]. unfold fanCandidate in Hc.
  destruct (lineHasToken line "rpm"); [|discriminate].
  destruct (extractFirstNumber line) as [rpm|]; [|discriminate].
  destruct (PrimFloat.ltb 0 rpm); [|discriminate].
  injection Hc as <-. cbn [fst]. apply fanScores_gpu_nonneg.
Qed.

Lemma power_choice_nonneg (readings : list (string * string)) (c : Z * float) :
  In c (cpuChoices (omap powerOf readings)) \/ In c (gpuChoices (omap powerOf readings)) ->
  0 <= fst c.
Proof.
  unfold cpuChoices, gpuChoices. rewrite !in_map_iff.
  intros [(candidate & <- & Hin) | (candidate & <- & Hin)];
    apply list_elem_of_In, list_elem_of_omap in Hin as ((chip & line) & _ & Hc);
    cbn [fst]; unfold powerCandidate in Hc;
    (destruct (extractWattsFromText line) as [watts|]; [|discriminate]);
    injection Hc as <-; cbn [fst]; apply powerScores_nonneg.
Qed.

Lemma choices_nil (pick : Z * Z -> Z) (candidates : list (Z * Z * float)) :
  map (fun c => (pick (fst c), snd c)) candidates = [] <-> candidates = [].
Proof. destruct candidates; split; intros H; try reflexivity; discriminate. Qed.

(** Whatever the two extraction helpers return: each of the four
    fields is the value of the first reading line of the highest score
    for that field, if that score is not negative.  A power reading
    always fills both power fields, so a processor reading is reported
    as GPU power when no line scores higher; a fan speed always fills
    the GPU fan field, while the processor fan field stays empty when
    every fan line scores negative for it. *)
Theorem scanSensors_spec (lines : list string) :
  let result := scanSensors extractFirstNumber extractWattsFromText lines in
  let fans := omap fanOf (sensorReadings lines EmptyString) in
  let powers := omap powerOf (sensorReadings lines EmptyString) in
  isFirstBest (cpu_fan_rpm result) (cpuChoices fans)
  /\ isFirstBest (gpu_fan_rpm result) (gpuChoices fans)
  /\ isFirstBest (cpu_power_w result) (cpuChoices powers)
  /\ isFirstBest (gpu_power_w result) (gpuChoices powers)
  /\ (cpu_power_w result = None <-> powers = [])
  /\ (gpu_power_w result = None <-> powers = [])
  /\ (gpu_fan_rpm result = None <-> fans = [])
  /\ (fans = [] -> cpu_fan_rpm result = None).
Proof.
  cbv zeta. unfold scanSensors, scanResult.
  cbn [cpu_fan_rpm gpu_fan_rpm cpu_power_w gpu_power_w].
  destruct (scan_fold lines SensorsScan_initial) as (H1 & H2 & H3 & H4).
  cbv zeta in H1, H2, H3, H4.
  cbn [SensorsScan_initial scan_chip scan_cpu_fan scan_cpu_power scan_gpu_fan
       scan_gpu_power] in H1, H2, H3, H4.
  rewrite H1, H2, H3, H4.
  set (readings := sensorReadings lines EmptyString).
  pose proof (keepBest_isFirstBest (cpuChoices (omap fanOf readings))) as B1.
  pose proof (keepBest_isFirstBest (gpuChoices (omap fanOf readings))) as B2.
  pose proof (keepBest_isFirstBest (cpuChoices (omap powerOf readings))) as B3.
  pose proof (keepBest_isFirstBest (gpuChoices (omap powerOf readings))) as B4.
  split; [exact B1|]. split; [exact B2|]. split; [exact B3|]. split; [exact B4|].
  split; [|split; [|split]].
  - rewrite (isFirstBest_nonneg _ _ B3).
    + apply choices_nil.
    + intros c Hc. apply (power_choice_nonneg readings). now left.
  - rewrite (isFirstBest_nonneg _ _ B4).
    + apply choices_nil.
    + intros c Hc. apply (power_choice_nonneg readings). now right.
  - rewrite (isFirstBest_nonneg _ _ B2).
    + apply choices_nil.
    + intros c Hc. now apply (fan_choice_nonneg readings).
  - intros Hnil. rewrite Hnil. reflexivity.
Qed.

Lemma elapsed_below (now earlier bound : Z) :
  0 <= earlier <= now -> now < 2 ^ 63 -> 0 < bound ->
  exists elapsed,
    elapsedMilliseconds now earlier = Some elapsed
    /\ (elapsed < bound <-> now - earlier < bound * 1000000).
Proof.
  intros He Hn Hb. unfold elapsedMilliseconds, sub64. cbv zeta.
  destruct (Z.ltb_spec (now - earlier) (- 2 ^ 63)) as [Hlo|_]; [lia|].
  destruct (Z.ltb_spec (2 ^ 63 - 1) (now - earlier)) as [Hhi|_]; [lia|].
  cbn [orb]. eexists. split; [reflexivity|].
  rewrite Z.quot_div_nonneg by lia. split; intros H.
  - apply Z.nle_gt. intros Hge.
    assert (bound <= (now - earlier) / 1000000) by (apply Z.div_le_lower_bound; lia).
    lia.
  - apply Z.div_lt_upper_bound; lia.
Qed.

(** The cache of the fallback readings, on clock readings that do not
    run backwards.  A call on an initialised cache younger than 900 ms
    returns the cached readings and leaves the cache as it is, without
    looking at the tool's output; any other call scans the output and
    stores the result with the time of the call.  What a call returns
    is then returned again, whatever the tool prints, up to 900 ms
    after the time stored in the cache. *)
Theorem collectSensorsFallbackMetrics_cache (cache : SensorsCache) (now : Z)
    (lines : list string) :
  0 <= cache_last_read cache <= now -> now < 2 ^ 63 ->
  exists cache' result,
    collectSensorsFallbackMetrics extractFirstNumber extractWattsFromText cache now lines
    = Some (cache', result)
    /\ cache_initialized cache' = true /\ cache_data cache' = result
    /\ (cache_initialized cache = true -> now - cache_last_read cache < 900000000 ->
        cache' = cache)
    /\ (cache_initialized cache = false \/ 900000000 <= now - cache_last_read cache ->
        result = scanSensors extractFirstNumber extractWattsFromText lines
        /\ cache_last_read cache' = now)
    /\ (forall later lines',
          cache_last_read cache' <= later < cache_last_read cache' + 900000000 -> later < 2 ^ 63 ->
          collectSensorsFallbackMetrics extractFirstNumber extractWattsFromText
            cache' later lines'
          = Some (cache', result)).
Proof.
  intros Hr Hn.
  assert (Hhit : forall c t l,
             cache_initialized c = true -> 0 <= cache_last_read c <= t -> t < 2 ^ 63 ->
             t - cache_last_read c < 900000000 ->
             collectSensorsFallbackMetrics extractFirstNumber extractWattsFromText c t l
             = Some (c, cache_data c)).
  { intros c t l Hi Hc Ht Hyoung. unfold collectSensorsFallbackMetrics. cbv zeta.
    rewrite Hi.
    destruct (elapsed_below t (cache_last_read c) 900 Hc Ht ltac:(lia)) as (elapsed & -> & He).
    destruct (Z.ltb_spec elapsed 900) as [_|Hold]; [reflexivity|].
    exfalso. apply (Z.lt_irrefl elapsed).
    apply Z.lt_le_trans with 900; [apply He; lia | exact Hold]. }
  assert (Hfresh : forall c,
             collectSensorsFallbackMetrics extractFirstNumber extractWattsFromText
               cache now lines
             = Some ({| cache_last_read := now;
                        cache_data := scanSensors extractFirstNumber extractWattsFromText lines;
                        cache_initialized := true |},
                     scanSensors extractFirstNumber extractWattsFromText lines) ->
             c = {| cache_last_read := now;
                    cache_data := scanSensors extractFirstNumber extractWattsFromText lines;
                    cache_initialized := true |} ->
             forall later lines',
               cache_last_read c <= later < cache_last_read c + 900000000 -> later < 2 ^ 63 ->
               collectSensorsFallbackMetrics extractFirstNumber extractWattsFromText
                 c later lines'
               = Some (c, scanSensors extractFirstNumber extractWattsFromText lines)).
  { intros c _ -> later lines' Hl Hl'. cbn [cache_last_read] in Hl.
    rewrite Hhit; cbn [cache_last_read cache_initialized cache_data]; try reflexivity; lia. }
  destruct (cache_initialized cache) eqn:Hi.
  - destruct (Z.lt_ge_cases (now - cache_last_read cache) 900000000) as [Hyoung|Hold].
    + exists cache, (cache_data cache).
      split; [now apply Hhit|]. split; [exact Hi|]. split; [reflexivity|].
      split; [reflexivity|]. split; [intros [H|H]; [discriminate | lia]|].
      intros later lines' Hl Hl'. apply Hhit; [exact Hi | lia | exact Hl' | lia].
    + assert (Hcall : collectSensorsFallbackMetrics extractFirstNumber extractWattsFromText
                        cache now lines
                      = Some ({| cache_last_read := now;
                                 cache_data := scanSensors extractFirstNumber
                                                 extractWattsFromText lines;
                                 cache_initialized := true |},
                              scanSensors extractFirstNumber extractWattsFromText lines)).
      { unfold collectSensorsFallbackMetrics. cbv zeta. rewrite Hi.
        destruct (elapsed_below now (cache_last_read cache) 900 Hr Hn ltac:(lia))
          as (elapsed & -> & He).
        destruct (Z.ltb_spec elapsed 900) as [Hlt|_]; [|reflexivity].
        apply He in Hlt. lia. }
      eexists _, _. split; [exact Hcall|]. split; [reflexivity|]. split; [reflexivity|].
      split; [intros _ H; lia|]. split; [intros _; split; reflexivity|].
      now apply Hfresh.
  - assert (Hcall : collectSensorsFallbackMetrics extractFirstNumber extractWattsFromText
                      cache now lines
                    = Some ({| cache_last_read := now;
                               cache_data := scanSensors extractFirstNumber
                                               extractWattsFromText lines;
                               cache_initialized := true |},
                            scanSensors extractFirstNumber extractWattsFromText lines)).
    { unfold collectSensorsFallbackMetrics. cbv zeta. rewrite Hi. reflexivity. }
    eexists _, _. split; [exact Hcall|]. split; [reflexivity|]. split; [reflexivity|].
    split; [discriminate|]. split; [intros _; split; reflexivity|].
    now apply Hfresh.
Qed.

End SensorsScanning.

(* ===================================================================== *)
(** ** metrics/cpu.cpp: the core count and the assembled record *)
(* ===================================================================== *)

Section CoreCount.

Lemma set_insert_In (value x : string) (set : list string) :
  In x (set_insert value set) <-> x = value \/ In x set.
Proof. unfold set_insert. apply ListSet.set_add_iff. Qed.

Lemma set_insert_NoDup (value : string) (set : list string) :
  List.NoDup set -> List.NoDup (set_insert value set).
Proof. unfold set_insert. apply ListSet.set_add_nodup. Qed.

Lemma sysfsCoreStep_key (set : list string) (entry : CpuDirectory) :
  sysfsCoreStep set entry
  = match sysfsCoreKey entry with
    | Some key => set_insert key set
    | None => set
    end.
Proof.
  unfold sysfsCoreStep, sysfsCoreKey.
  destruct (negb (isCpuDirectoryName (cpu_dir_name entry))); [reflexivity|].
  destruct (topology_core_id entry); reflexivity.
Qed.

(** The first loop collects, without duplicates, the keys of the
    entries it looks at. *)
Lemma sysfsCoreStep_fold (entries : list CpuDirectory) (set : list string) :
  List.NoDup set ->
  List.NoDup (fold_left sysfsCoreStep entries set)
  /\ forall x, In x (fold_left sysfsCoreStep entries set)
               <-> In x set \/ In x (omap sysfsCoreKey entries).
Proof.
  revert set. induction entries as [|entry entries IH]; intros set Hset.
  - split; [exact Hset|]. intros x. cbn. tauto.
  - cbn [fold_left omap list_omap]. rewrite sysfsCoreStep_key.
    destruct (sysfsCoreKey entry) as [key|]; [|now apply IH].
    destruct (IH _ (set_insert_NoDup key set Hset)) as (Hnodup & Hin).
    split; [exact Hnodup|]. intros x. rewrite Hin, set_insert_In. cbn [In].
    intuition congruence.
Qed.

Lemma distinct_length (set ids : list string) :
  List.NoDup set -> (forall x, In x set <-> In x ids) ->
  length set = length (nodup string_dec ids).
Proof.
  intros Hset Hin. apply Permutation_length, Permutation.NoDup_Permutation.
  - exact Hset.
  - apply List.NoDup_nodup.
  - intros x. rewrite nodup_In. apply Hin.
Qed.

Lemma nodup_length_le (ids : list string) :
  (length (nodup string_dec ids) <= length ids)%nat.
Proof.
  apply List.NoDup_incl_length; [apply List.NoDup_nodup|].
  intros x. apply nodup_In.
Qed.

Lemma mul32_spec (a b product : Z) : mul32 a b = Some product -> product = a * b.
Proof.
  unfold mul32. cbv zeta.
  destruct ((a * b <? - 2 ^ 31) || (2 ^ 31 - 1 <? a * b)); [discriminate|].
  now intros [= <-].
Qed.

Lemma collectCoreCount_positive (cpu_entries : option (list CpuDirectory))
    (cpuinfo : option (list string)) (n : Z) :
  collectCoreCount cpu_entries cpuinfo = Some (Some n) -> 1 <= n.
Proof.
  unfold collectCoreCount. cbv zeta.
  destruct (match cpu_entries with
            | Some entries => fold_left sysfsCoreStep entries []
            | None => []
            end) as [|key keys].
  2:{ intros [= <-]. cbn [length]. lia. }
  destruct cpuinfo as [lines|]; [|discriminate].
  destruct (unique_cpuinfo_cores (cpuinfoCoreScan lines)) as [|key keys].
  2:{ intros [= <-]. cbn [length]. lia. }
  destruct (Z.ltb_spec 0 (cpu_cores_per_socket (cpuinfoCoreScan lines))) as [Hpos|_];
    [|discriminate].
  destruct (mul32 _ _) as [count|] eqn:E; [|discriminate].
  intros [= <-]. apply mul32_spec in E. nia.
Qed.

(** The number of cores.  When some [cpuN] directory has a readable
    [core_id], the count is the number of distinct
    package-and-core keys of such directories, at least 1 and at most
    the number of these directories, and [/proc/cpuinfo] is not looked
    at.  Whatever count is returned is at least 1; without such a
    directory and without [/proc/cpuinfo] nothing is returned.  The
    only undefined case is the product of the largest [cpu cores]
    value and the number of sockets leaving the range of [int]. *)
Theorem collectCoreCount_spec (cpu_entries : option (list CpuDirectory))
    (cpuinfo : option (list string)) :
  let keys := omap sysfsCoreKey (value_or cpu_entries []) in
  (keys <> [] ->
   collectCoreCount cpu_entries cpuinfo
   = Some (Some (Z.of_nat (length (nodup string_dec keys))))
   /\ (1 <= length (nodup string_dec keys) <= length keys)%nat)
  /\ (forall n, collectCoreCount cpu_entries cpuinfo = Some (Some n) -> 1 <= n)
  /\ (keys = [] -> cpuinfo = None -> collectCoreCount cpu_entries cpuinfo = Some None)
  /\ (collectCoreCount cpu_entries cpuinfo = None ->
      keys = []
      /\ exists lines,
           cpuinfo = Some lines
           /\ unique_cpuinfo_cores (cpuinfoCoreScan lines) = []
           /\ 2 ^ 31 - 1
              < cpu_cores_per_socket (cpuinfoCoreScan lines)
                * Z.max 1 (Z.of_nat (length (physical_ids (cpuinfoCoreScan lines))))).
Proof.
  intros keys.
  set (unique_cores := match cpu_entries with
                       | Some entries => fold_left sysfsCoreStep entries []
                       | None => []
                       end).
  assert (Hset : List.NoDup unique_cores /\ forall x, In x unique_cores <-> In x keys).
  { subst unique_cores keys. destruct cpu_entries as [entries|].
    - destruct (sysfsCoreStep_fold entries [] (List.NoDup_nil _)) as (Hnodup & Hin).
      split; [exact Hnodup|]. intros x. rewrite Hin. cbn [In value_or]. tauto.
    - split; [apply List.NoDup_nil | reflexivity]. }
  destruct Hset as (Hnodup & Hin).
  assert (Hlen : length unique_cores = length (nodup string_dec keys))
    by now apply distinct_length.
  assert (Hempty : unique_cores = [] <-> keys = []).
  { split; intros H.
    - destruct keys as [|key rest]; [reflexivity|]. exfalso.
      assert (Hk : In key unique_cores) by (apply Hin; now left).
      rewrite H in Hk. exact Hk.
    - destruct unique_cores as [|key rest]; [reflexivity|]. exfalso.
      assert (Hk : In key keys) by (apply Hin; now left).
      rewrite H in Hk. exact Hk. }
  split; [|split; [|split]].
  - intros Hkeys. unfold collectCoreCount. cbv zeta. fold unique_cores.
    destruct unique_cores as [|key rest] eqn:E.
    + exfalso. apply Hkeys, Hempty. reflexivity.
    + rewrite Hlen. split; [reflexivity|]. split; [|apply nodup_length_le].
      rewrite <- Hlen. cbn [length]. lia.
  - intros n. apply collectCoreCount_positive.
  - intros Hkeys ->. unfold collectCoreCount. cbv zeta. fold unique_cores.
    apply Hempty in Hkeys. rewrite Hkeys. reflexivity.
  - unfold collectCoreCount. cbv zeta. fold unique_cores.
    destruct unique_cores as [|key rest] eqn:E; [|discriminate].
    intros H. split; [now apply Hempty|].
    destruct cpuinfo as [lines|]; [|discriminate]. exists lines.
    split; [reflexivity|].
    destruct (unique_cpuinfo_cores (cpuinfoCoreScan lines)) as [|k ks]; [|discriminate].
    split; [reflexivity|].
    destruct (Z.ltb_spec 0 (cpu_cores_per_socket (cpuinfoCoreScan lines))) as [Hpos|_];
      [|discriminate].
    unfold mul32 in H. cbv zeta in H.
    destruct (Z.ltb_spec (cpu_cores_per_socket (cpuinfoCoreScan lines)
                          * Z.max 1 (Z.of_nat (length (physical_ids (cpuinfoCoreScan lines)))))
                         (- 2 ^ 31)) as [Hlo|_]; [nia|].
    destruct (Z.ltb_spec (2 ^ 31 - 1)
                         (cpu_cores_per_socket (cpuinfoCoreScan lines)
                          * Z.max 1 (Z.of_nat (length (physical_ids (cpuinfoCoreScan lines))))))
      as [Hhi|_]; [exact Hhi | discriminate].
Qed.

End CoreCount.

Section CpuRecord.

Variable stod : string -> option (float * nat).

Lemma collectNameLoop_nonempty (lines : list string)
    (model_fallback processor_fallback : option string) :
  model_fallback <> Some EmptyString -> processor_fallback <> Some EmptyString ->
  collectNameLoop lines model_fallback processor_fallback <> EmptyString.
Proof.
  revert model_fallback processor_fallback.
  induction lines as [|line lines IH]; intros model processor Hm Hp.
  - cbn [collectNameLoop]. destruct model as [m|]; [congruence|].
    destruct processor as [p|]; [congruence | discriminate].
  - cbn [collectNameLoop]. destruct (find_char line ":") as [colon|]; [|now apply IH].
    cbv zeta.
    destruct (String.eqb_spec (trim (substr_from line (colon + 1))) EmptyString)
      as [_|Hvalue]; [now apply IH|].
    destruct (_ || _ || _); [exact Hvalue|].
    apply IH.
    + destruct (_ && _ && _); [congruence | exact Hm].
    + destruct (String.eqb _ "processor"); [|exact Hp].
      destruct (_ && _); [congruence | exact Hp].
Qed.

Lemma collectThreadCount_positive (cpu_entries cpuinfo : option (list string)) (n : Z) :
  collectThreadCount cpu_entries cpuinfo = Some n -> 1 <= n.
Proof.
  unfold collectThreadCount. cbv zeta.
  match goal with
  | |- context [if 0 <? ?count then Some ?count else _] =>
      destruct (Z.ltb_spec 0 count) as [Hpos|_]; [intros [= <-]; lia|]
  end.
  destruct cpuinfo as [lines|]; [|discriminate].
  match goal with
  | |- context [if 0 <? ?count then Some ?count else _] =>
      destruct (Z.ltb_spec 0 count) as [Hpos|_]; [intros [= <-]; lia | discriminate]
  end.
Qed.

Lemma collectCpuUsagePercent_in_range (state : CpuUsageState) (stat : option ProcStat)
    (r : float) :
  snd (collectCpuUsagePercent state stat) = Some r -> in_range 0 100 r.
Proof.
  unfold collectCpuUsagePercent. destruct stat as [s|]; [|discriminate].
  destruct (negb (String.eqb (cpu_tag s) "cpu")); [discriminate|]. cbv zeta.
  destruct (negb (initialized state) || _ || _); [discriminate|].
  destruct (_ =? 0); [discriminate|]. cbn [snd]. intros [= <-].
  rewrite usageOfDeltas_clamp. apply clampPercent_range.
Qed.

(** The record [collectCpuMetrics] assembles, whatever the files hold
    and whatever the number conversion of the library returns.  The
    name is never empty; a thread count and a core count are at least
    1, and the core count never exceeds the thread count when both are
    present; a temperature lies in [0, 150] and a usage in [0, 100].
    The record is undefined only where [collectCoreCount] is. *)
Theorem collectCpuMetrics_spec (cpu_entries : option (list CpuDirectory))
    (cpuinfo : option (list string)) (thermal : option (list ThermalZone))
    (hwmon : option (list HwmonChip)) (state : CpuUsageState) (stat : option ProcStat) :
  match collectCpuMetrics stod cpu_entries cpuinfo thermal hwmon state stat with
  | None => collectCoreCount cpu_entries cpuinfo = None
  | Some (state', metrics) =>
      state' = fst (collectCpuUsagePercent state stat)
      /\ cpu_name metrics <> EmptyString
      /\ (forall threads, cpu_total_threads metrics = Some threads -> 1 <= threads)
      /\ (forall cores, cpu_total_cores metrics = Some cores -> 1 <= cores)
      /\ (forall cores threads,
            cpu_total_cores metrics = Some cores ->
            cpu_total_threads metrics = Some threads -> cores <= threads)
      /\ (forall r, cpu_temperature_c metrics = Some r -> in_range 0 150 r)
      /\ (forall r, cpu_usage_percent metrics = Some r -> in_range 0 100 r)
  end.
Proof.
  unfold collectCpuMetrics. cbv zeta.
  destruct (collectCoreCount cpu_entries cpuinfo) as [total_cores|] eqn:Ecores;
    [|reflexivity].
  pose proof (collectCpuUsagePercent_in_range state stat) as Husage.
  destruct (collectCpuUsagePercent state stat) as [state' usage_percent].
  cbn [fst snd] in *.
  cbn [cpu_name cpu_total_cores cpu_total_threads cpu_temperature_c cpu_usage_percent].
  set (total_threads := collectThreadCount (option_map (map cpu_dir_name) cpu_entries)
                          cpuinfo).
  assert (Hthreads : forall threads, total_threads = Some threads -> 1 <= threads)
    by (intros threads; apply collectThreadCount_positive).
  assert (Hcores : forall cores, total_cores = Some cores -> 1 <= cores).
  { intros cores ->. now apply (collectCoreCount_positive cpu_entries cpuinfo). }
  split; [reflexivity|]. split.
  { unfold collectName. destruct cpuinfo as [lines|]; [|discriminate].
    apply collectNameLoop_nonempty; discriminate. }
  split; [exact Hthreads|]. split; [|split; [|split; [|exact Husage]]].
  - intros cores. destruct total_cores as [c|], total_threads as [t|];
      try discriminate.
    + destruct (t <? c); intros [= <-]; auto.
    + intros [= <-]. auto.
  - intros cores threads. destruct total_cores as [c|], total_threads as [t|];
      try discriminate.
    destruct (Z.ltb_spec t c); intros [= <-] [= <-]; lia.
  - intros r Hr.
    pose proof (collectCpuTemperature_prefers thermal hwmon) as H.
    destruct (omap zoneReading (value_or thermal [])) as [|reading readings] eqn:E.
    + rewrite H in Hr.
      apply (prefersMax_in_range _ (flat_map chipReadings (value_or hwmon [])) r
               (chipReadings_in_range _)
               (collectCpuTemperatureFromHwmon_prefers hwmon) Hr).
    + apply (prefersMax_in_range (collectCpuTemperature thermal hwmon)
               (reading :: readings) r); [|exact H | exact Hr].
      rewrite <- E. apply zoneReading_in_range.
Qed.

End CpuRecord.

(* ===================================================================== *)
(** ** src/metrics/gpu.cpp: the records of the external tool *)
(* ===================================================================== *)

Section ToolRecords.

Variable stod : string -> option (float * nat).

Lemma trim_empty_allBlank (line : string) :
  String.eqb (trim line) EmptyString = allBlank line.
Proof.
  destruct (allBlank line) eqn:E.
  - rewrite trim_structural, (dropLeadingBlanks_allBlank line E). reflexivity.
  - apply String.eqb_neq. intros Ht.
    destruct (trim_split line) as (l & r & Hs & Hl & Hr).
    rewrite Ht in Hs. cbn in Hs. rewrite Hs, allBlank_append, Hl, Hr in E.
    discriminate.
Qed.

Lemma splitByChar_head (line : string) (delimiter : ascii) (field : string)
    (fields : list string) :
  splitByChar line delimiter = Some (field :: fields) ->
  field = trim (fst (readItem line delimiter)).
Proof.
  unfold splitByChar. cbn [splitLoop]. destruct line as [|c s]; [discriminate|].
  cbn [getline]. destruct (readItem (String c s) delimiter) as [item rest].
  destruct (splitLoop _ rest delimiter); [|discriminate].
  now intros [= <- _].
Qed.

(** A line gives a row exactly when it is not blank and has seven
    fields or more; the name of the row is the trimmed text in front of
    the first comma. *)
Lemma nvidiaSmiRow_cases (line : string) :
  if givesRecord line
  then exists row, nvidiaSmiRow stod line = Some row
                   /\ row_name row = trim (fst (readItem line ","))
  else nvidiaSmiRow stod line = None.
Proof.
  unfold givesRecord, nvidiaSmiRow. rewrite trim_empty_allBlank.
  destruct (allBlank line); cbn [negb andb]; [reflexivity|].
  destruct (splitLoop_spec "," (S (String.length line)) line ltac:(lia))
    as (fields & Hsplit & Hlen & _).
  fold (splitByChar line ",") in Hsplit. rewrite Hsplit, <- Hlen.
  destruct fields as [|f0 [|f1 [|f2 [|f3 [|f4 [|f5 [|f6 rest]]]]]]]; try reflexivity.
  cbn [length Nat.leb]. eexists. split; [reflexivity|]. cbn [row_name].
  now apply (splitByChar_head line "," f0 _ Hsplit).
Qed.

Lemma rows_of_kept (lines : list string) :
  length (nvidiaSmiRows stod lines) = length (List.filter givesRecord lines)
  /\ forall i line, List.filter givesRecord lines !! i = Some line ->
       exists row, nvidiaSmiRows stod lines !! i = Some row
                   /\ row_name row = trim (fst (readItem line ",")).
Proof.
  unfold nvidiaSmiRows. induction lines as [|l lines (IHlen & IHrow)].
  - split; [reflexivity|]. intros i line. cbn [List.filter]. rewrite lookup_nil.
    discriminate.
  - cbn [omap list_omap List.filter]. pose proof (nvidiaSmiRow_cases l) as Hl.
    destruct (givesRecord l).
    + destruct Hl as (row & -> & Hname). cbn [length]. split; [now rewrite IHlen|].
      intros [|i] line.
      * intros [= <-]. exists row. split; [reflexivity | exact Hname].
      * apply IHrow.
    + rewrite Hl. split; [exact IHlen | exact IHrow].
Qed.

(** The records of the external tool, from the lines of its output and
    whatever the number conversion of the library returns.  There is
    one record, in order, for each line that is not blank and has at
    least seven comma-separated fields; every other line is skipped.
    The name of a record is the trimmed text in front of the first
    comma of its line; the record has no in-use state and looks like an
    NVIDIA GPU whatever that name is.  A memory utilisation is present
    only together with used and total memory and a total above 0. *)
Theorem collectGpusFromNvidiaSmi_lines (lines : list string) :
  let gpus := collectGpusFromNvidiaSmi (nvidiaSmiRows stod lines) in
  let kept := List.filter givesRecord lines in
  length gpus = length kept
  /\ (length gpus <= length lines)%nat
  /\ (forall i line, kept !! i = Some line ->
        exists gpu,
          gpus !! i = Some gpu
          /\ name gpu = trim (fst (readItem line ","))
          /\ source gpu = "nvidia-smi"%string
          /\ in_use gpu = None
          /\ gpuLooksNvidia gpu = true)
  /\ (forall gpu percent,
        In gpu gpus -> memory_utilization_percent gpu = Some percent ->
        exists used total,
          memory_used_mib gpu = Some used /\ memory_total_mib gpu = Some total
          /\ PrimFloat.ltb 0 total = true
          /\ percent = PrimFloat.div (PrimFloat.mul 100 used) total).
Proof.
  cbv zeta. destruct (rows_of_kept lines) as (Hlen & Hrow).
  unfold collectGpusFromNvidiaSmi.
  split; [now rewrite length_map|].
  split; [rewrite length_map, Hlen; apply filter_length_le|].
  split.
  - intros i line Hline. destruct (Hrow i line Hline) as (row & Hr & Hname).
    rewrite list_lookup_fmap, Hr. cbn [fmap option_fmap option_map].
    eexists. split; [reflexivity|]. cbn [memory_used_mib memory_total_mib].
    destruct (row_memory_used row) as [used|], (row_memory_total row) as [total|];
      try destruct (PrimFloat.ltb 0 total);
      cbn [name source in_use set_memory_utilization_percent];
      (split; [exact Hname|]); (split; [reflexivity|]); (split; [reflexivity|]);
      unfold gpuLooksNvidia; cbn [source name]; apply orb_true_iff; right;
      vm_compute; reflexivity.
  - intros gpu percent Hin. apply in_map_iff in Hin as (row & <- & _).
    cbn [memory_used_mib memory_total_mib].
    destruct (row_memory_used row) as [used|], (row_memory_total row) as [total|];
      try destruct (PrimFloat.ltb 0 total) eqn:Et;
      cbn [memory_used_mib memory_total_mib memory_utilization_percent
           set_memory_utilization_percent]; try discriminate.
    intros [= <-]. exists used, total. auto.
Qed.

End ToolRecords.

(* ===================================================================== *)
(** ** Concrete instances of the canvas properties *)
(* ===================================================================== *)

Section CanvasInstances.

(** A diagonal on the empty 4 x 3 canvas. *)
Lemma rasterizeBrailleLine_effect_witness :
  canvas_ok (createBrailleCanvas 4 3)
  /\ canvas_fits (createBrailleCanvas 4 3)
  /\ exists canvas',
       rasterizeBrailleLine (createBrailleCanvas 4 3) 0 0 3 2 = Some canvas'
       /\ canvasGrows (createBrailleCanvas 4 3) canvas'
       /\ sameOutside (createBrailleCanvas 4 3) canvas' 0 0 3 2
       /\ (masksInRange (createBrailleCanvas 4 3) -> masksInRange canvas')
       /\ (isInsideCanvas (createBrailleCanvas 4 3) 0 0 = false
           \/ isInsideCanvas (createBrailleCanvas 4 3) 3 2 = false ->
           canvas' = createBrailleCanvas 4 3)
       /\ (isInsideCanvas (createBrailleCanvas 4 3) 0 0 = true ->
           isInsideCanvas (createBrailleCanvas 4 3) 3 2 = true ->
           hasPoint canvas' 0 0 /\ hasPoint canvas' 3 2).
Proof.
  split; [unfold canvas_ok; simpl; lia|].
  split; [unfold canvas_fits; simpl; lia|].
  apply (rasterizeBrailleLine_effect (createBrailleCanvas 4 3) 0 0 3 2).
  - unfold canvas_ok; simpl; lia.
  - unfold canvas_fits; simpl; lia.
Defined.

(** The same diagonal returns. *)
Lemma rasterizeBrailleLine_returns_witness :
  canvas_fits (createBrailleCanvas 4 3)
  /\ exists canvas',
       rasterizeBrailleLine (createBrailleCanvas 4 3) 0 0 3 2 = Some canvas'.
Proof.
  split; [unfold canvas_fits; simpl; lia|].
  apply (rasterizeBrailleLine_returns (createBrailleCanvas 4 3) 0 0 3 2).
  unfold canvas_fits; simpl; lia.
Defined.

(** The layer of the stroke canvas, drawn at (1, 2). *)
Lemma drawBrailleLayer_spec_witness :
  canvas_ok stroke_canvas
  /\ (forall draw,
        In draw (drawBrailleLayer stroke_canvas 1 2)
        <-> exists x y,
              isInsideCanvas stroke_canvas x y = true
              /\ cellAt stroke_canvas x y <> 0
              /\ draw = {| draw_row := 1 + y; draw_col := 2 + x;
                           draw_glyph := glyphForMask (cellAt stroke_canvas x y) |})
  /\ (forall draw, In draw (drawBrailleLayer stroke_canvas 1 2) ->
        1 <= draw_row draw < 1 + height stroke_canvas
        /\ 2 <= draw_col draw < 2 + width stroke_canvas
        /\ (masksInRange stroke_canvas -> draw_glyph draw <> glyph_blank)).
Proof.
  split.
  - unfold canvas_ok; simpl; lia.
  - apply (drawBrailleLayer_spec stroke_canvas 1 2).
    unfold canvas_ok; simpl; lia.
Defined.

End CanvasInstances.

(* ===================================================================== *)
(** ** Concrete instances of the sampler and the cache *)
(* ===================================================================== *)

Section SamplerInstances.

(** Fifty more milliseconds of busy time one second later. *)
Lemma computeRootDiskBusyPercent_spec_witness :
  sampleFits sampled_disk (Some 150) 2000000000
  /\ exists state' busy,
       computeRootDiskBusyPercent sampled_disk (Some 150) 2000000000 = Some (state', busy)
       /\ root_numbers state' = root_numbers sampled_disk
       /\ (forall r, busy = Some r -> in_range 0 100 r).
Proof.
  assert (Hfits : sampleFits sampled_disk (Some 150) 2000000000)
    by (unfold sampleFits; simpl; lia).
  split; [exact Hfits|].
  destruct (computeRootDiskBusyPercent_spec sampled_disk (Some 150) 2000000000 Hfits)
    as (state' & busy & Hcall & Hroot & Hrange & _).
  exists state', busy. split; [exact Hcall|]. split; [exact Hroot | exact Hrange].
Defined.

(** A call half a second after the cache was filled, with helpers that
    find nothing. *)
Lemma collectSensorsFallbackMetrics_cache_witness :
  0 <= cache_last_read warm_cache <= 1500000000 /\ 1500000000 < 2 ^ 63
  /\ exists cache' result,
       collectSensorsFallbackMetrics (fun _ => None) (fun _ => None)
         warm_cache 1500000000 []
       = Some (cache', result)
       /\ cache_initialized cache' = true /\ cache_data cache' = result.
Proof.
  assert (Hread : 0 <= cache_last_read warm_cache <= 1500000000) by (simpl; lia).
  assert (Hnow : 1500000000 < 2 ^ 63) by lia.
  split; [exact Hread|]. split; [exact Hnow|].
  destruct (collectSensorsFallbackMetrics_cache (fun _ => None) (fun _ => None)
              warm_cache 1500000000 [] Hread Hnow)
    as (cache' & result & Hcall & Hinit & Hdata & _).
  exists cache', result. split; [exact Hcall|]. split; [exact Hinit | exact Hdata].
Defined.

End SamplerInstances.
